(* ===== verification/_CoqProject ===== *)
-Q . S2P
Prelude.v
RustStd.v
Net.v
Externals.v
Reference.v
Macaroon.v
MacaroonWire.v
Threshold.v
Transparency.v
World.v
SealedStore.v
Config.v
CryptoEngine.v
CipherEngine.v
Monitor.v
Broker.v
Issue.v
Unwrap.v
Delegate.v
Manage.v
Lease.v
Rotation.v
KeyLocks.v
Postgres.v
Custody.v
Evolution.v
System.v
Access.v
Recovery.v
Grpc.v
Service.v
Client.v
Session.v
Tls.v
Attestation.v
Connection.v
Startup.v
Restart.v
Standalone.v
