(* ===== verification/Prelude.v ===== *)
(** * Secret broker

    A model of the secret broker (src/services/secret-broker) and the theorems
    that make it correct.  The broker seals secrets for authenticated callers,
    hands out macaroon handles for them, and gives a secret back to whoever
    presents an authentic handle, a redeem token and the right identity.

    ** How the program is put together

    A request arrives over mutual TLS with a caller context.  The gRPC service
    (secret_broker_server_impl.rs) converts it for a handler.  The handlers
    (secret_broker_impl/handlers.rs) parse the handle, a macaroon whose root key
    is derived from the handle's identifier; load the record from the sealed
    store, an encrypted database; check identity, expiry, revocation and the
    redeem token; call the crypto engine to encrypt, decrypt or sign; write the
    record back; and append an event to the transparency log.  One handler
    issues short-lived Postgres roles instead (postgres.rs).  Callers use the
    client library (crates/secret-broker-client), which caches redeem tokens and
    verifies the broker before it connects.  The process itself
    (standalone_broker.rs, mod.rs) reads its environment, opens its databases
    and key files, and turns TCP connections into authenticated streams.

    ** Files

    - [Prelude]: results with panics ([result]), the state and error monad [M]
      of handlers ([let*]), its pure part ([let!]), weakest preconditions [wp]
      with the tactic [wp_run], frames (relations every run respects), list
      and arithmetic lemmas, hint databases.
    - [RustStd]: the parts of the Rust standard library and chrono that the
      code uses: byte strings, [trim], fixed-width casts, saturating addition,
      little- and big-endian bytes, UTF-8, timestamps and RFC 3339 ranges.
    - [Net]: the environment, socket and IP addresses and their parsers, and
      the functions on Unix paths.
    - [Externals]: third-party code as type classes with laws: base64, SHA-256
      and HMAC, AEAD ciphers, ML-KEM and ML-DSA, serde, the P-256 group.
    - [Reference]: concrete instances of these classes, toy ciphers with the
      stated laws, on which every hypothesis is shown to be satisfiable.
    - [Macaroon], [MacaroonWire]: macaroon_caveats.rs, caveats, HMAC chain,
      discharges, verifier; and the two wire formats.
    - [Threshold]: threshold.rs, Feldman secret sharing.
    - [Transparency]: transparency.rs, the hash-chained log, its recovery and
      verification, and the atomic parts of [record] for interleavings.
    - [World]: the mutable state of the process (records, key pairs, caches,
      log, clock) and the oracle for time, randomness and log failures.
    - [SealedStore]: sealed_store.rs, every operation on encrypted records, an
      abstract map of records and the refinement between the two.
    - [Config], [CryptoEngine], [CipherEngine]: crypto_engine/, that is
      config.rs; sealed_key_store.rs, quantum_resistant.rs, key_manager.rs and
      the post-quantum part of service.rs; engine.rs and the administrative
      encryption of service.rs.
    - [Monitor]: performance_monitor.rs and the monitored calls of service.rs,
      with latencies in IEEE 754 arithmetic.
    - [KeyLocks]: key_manager.rs once more with its tokio locks, as processes
      that await, and the rotation of keys.
    - [Broker]: state.rs, mod.rs and the checks of handlers.rs that all
      handlers share: handles, time limits, identity, policies, metadata.
    - [Issue]: wrap_secret_v2_impl and mint_aead_key_v2_impl.
    - [Unwrap]: unwrap_secret_v2_impl.
    - [Delegate]: attenuate_handle_v2_impl and mint_discharge_impl.
    - [Manage]: renew_lease_impl, revoke_secret_impl, rotate_secret_impl,
      delete_secret_impl.  [Lease], [Rotation]: what renewal and rotation are
      good for.
    - [Custody]: claim_share_impl, distribute_share_impl, combine_shares_impl.
    - [Postgres]: postgres.rs and issue_postgres_credentials_impl.
    - [Evolution], [System], [Access], [Recovery]: the handlers together, as a
      transition system with one step per call.
    - [Grpc], [Service]: the messages and calls of the gRPC service, and what
      its clients get.
    - [Client], [Session]: the calls of the client library (lib.rs) against a
      record of remote operations, and what they achieve with the broker
      behind it.
    - [Tls]: the interfaces of x509-parser, rustls and rustls-pemfile.
      [Attestation]: ra_tls.rs (of both crates) and tls_setup.rs, the evidence
      in a certificate, its verification and the digest of a caller.
      [Connection]: client.rs, the configuration and policies of a client and
      the verification of its server.
    - [Startup]: how the broker starts: [load_broker_from_env] of mod.rs, the
      opening of sealed_store.rs, sealed_key_store.rs and transparency.rs,
      the construction and diagnostics of service.rs, and
      hardware_security.rs.  [Restart]: the broker across stops and starts.
    - [Standalone]: standalone_broker.rs, its configuration, the context of a
      caller and the listener.

    ** State and effects

    [World] holds what the process mutates; a handler is a function
    [World -> result E A * World], so the state is kept when a handler fails,
    as in the code.  [BrokerState] holds what is fixed after start-up.  Every
    interaction with the operating system (the clock, random bytes, fresh
    identifiers, appending to the log) takes one [tick], and the [Oracle] gives
    the value at each tick; the theorems hold for every oracle with the stated
    lengths.  [PgWorld] adds the leases and the database, whose statements are
    those of an abstract server; [ClientState] is the redeem cache of a client
    and the world behind its connection; [Process] adds the disk (databases
    and files) and what the process has open, and [stop] leaves of it what is
    on disk.  Where locks matter a [Runtime] is a
    world with a pool of tasks and the guards they hold.  Machine integers are
    [Z] with the casts of the code ([as_i64], [to_u8], [saturating_add_u32])
    written out; panics of the code (out-of-range dates, arithmetic overflow)
    are a third result besides [Ok] and [Err].  Errors of [anyhow] are
    constructors, one per message.

    ** What the theorems show

    - The system: along every sequence of calls records only move forward in
      their life cycle and stay readable ([records_only_advance]); a secret
      that was redeemed, revoked, rotated or deleted is never delivered again
      ([ended_forever]); what is delivered is what was wrapped, to the
      principal it was wrapped for ([delivered_intact]); callers without
      access cannot harm a secret or its custody ([outsiders_powerless]); every
      remote call runs its handler on the converted request, and all but one
      are sequences of such steps ([api_refines]).  The exception is an
      encryption with ML-KEM under the name of an envelope's key, which replaces
      that key ([envelope_key_overwritten]): the theorems about sequences of
      steps do not cover it.
    - The process: secrets survive a restart, renewable and bootstrap ones
      for any later connection, single-use ones only for the TLS session that
      wrapped them, which a restart ends ([restart_keeps_secrets]), and
      ended ones stay ended across restarts ([ended_across_restarts]); every
      caller is authenticated, and attested unless the listener is on loopback
      ([callers_authenticated]); the listener loses no connection
      ([listener_conserves]).
    - Connections: exactly the authenticated and attested servers are accepted
      by the client, and only if they prove possession of their key
      ([authenticated_connections]; with attestation on a current-thread
      runtime the client panics instead, [current_thread_panics]); a digest identifies the code
      that was attested ([attestation_digest_identifies]); what [from_env]
      returns is what the environment and the policy file say
      ([configuration_well_formed]).
    - Flows: wrapping and unwrapping, in the broker, through the service and
      through the client library ([wrap_then_unwrap], [service_roundtrip],
      [client_roundtrip]); minting for custodians, claiming and combining
      ([custody_flow]); attenuation and discharge ([delegation_flow],
      [attenuate_narrows]); leases: the exact lease a renewal grants
      ([renew_exact]) and the four deadlines a leased secret has
      ([lease_stays_usable]), two of which no renewal moves; rotation and what
      it logs ([rotation_flow]).
    - Policies as equivalences with their code: [identity_policy],
      [discharge_policy], [combine_checks_policy], [handle_authentic],
      [ttl_enforced], [unwrap_sound], what a successful unwrap entails, and
      [client_principal_agrees], that client and broker resolve principals
      alike.
    - Components: macaroon verification and attenuation, wire round trips,
      secret sharing (recovery, soundness, secrecy), completeness and tamper
      evidence of the log, the store as a map, encryption and signing round
      trips, the key quota; the operations of the key manager other than
      rotation cannot deadlock and finish ([key_operations_complete]), and key
      generation, signing, verification and the look-up of public keys, run
      alone, do what the atomic definitions do
      ([locked_operations_refine]); rotation deadlocks ([rotation_deadlocks]);
      SQL statements mean what they should
      whatever the names in them ([sql_injection_free]); leases of database
      roles are bounded; cached tokens are used once ([cached_material_once]);
      monitoring changes nothing and counts every call once
      ([monitoring_transparent], [encryptions_counted],
      [latencies_summarised]).
    - Where the code falls short: [record_race], [failed_append_breaks_chain],
      [load_undoes_revoke], [single_use_race], [ttl_wraps],
      [discharge_expiry_unauthenticated], [undecryptable_ciphers],
      [rotation_deadlocks], [envelope_key_overwritten],
      [rotated_token_rejected], [phantom_credentials], [cleanup_forgets],
      [custody_mint_unusable], [hsm_never_starts],
      [compose_only_policy_unusable], [current_thread_panics],
      [ipv6_loopback_refused] and
      [mixed_case_location_undischargeable] exhibit the behaviour.

    ** Bounds and assumptions

    Cryptography is idealised only by what the code relies on: decryption
    inverts encryption, verification accepts what was signed, digests have
    their length.  Security statements exhibit a collision instead of assuming
    that there is none.  Theorems about sequences of calls assume that the
    identifiers drawn up to a [horizon] of ticks are distinct ([FreshUuids]);
    the horizon is arbitrary.  The system's steps are whole calls; what
    overlapping calls can do is shown separately by the theorems on races and
    locks, which split a call where the code awaits.  The Postgres server is
    assumed to abort a transaction on the first failed statement, and the
    read-write locks to be fair to writers, as documented.  Reads and
    writes of sled trees always succeed: the errors the code passes on when
    sled fails to read, write or flush are not modelled, so the store's
    theorems hold as long as the disk does.  Appends to the log may
    fail, before or after bytes reached the file.  The
    SQL lexer is that of a server with standard_conforming_strings and does not
    model the truncation of identifiers to 63 bytes, nor the server's refusal of
    NUL bytes and empty identifiers.  A listener that has ended keeps its
    pending handshakes in the model where the code drops them; a TCP listener
    never ends.  No definition uses
    fuel: loops are structural on the data they run over, and the scheduling
    of tasks terminates by a well-founded order on what they have left to do.

    ** Not modelled

    Sockets, the TLS handshake, the parsing of certificates, quotes and PEM
    files, sled and the operating system are parameters, with what the code
    relies on as laws.  Left out are the delegation of reads and writes by the
    TLS stream, the wrappers of client.rs that only call the adapter of lib.rs,
    the timers that start rotation, clean-up and reports, locking memory and
    disabling core dumps, the zeroising of memory, log output, test support,
    and the build scripts. *)

From Stdlib Require Export ZArith Lia.
From Stdlib Require Strings.Byte.
From stdpp Require Export base list gmap numbers strings.
From Stdlib Require Import Init.Byte.

(** ** Automation *)

Create HintDb broker.
Create Rewrite HintDb broker_rw.
Declare Scope broker_scope.
Delimit Scope broker_scope with broker.
Open Scope broker_scope.

(** ** Bytes

    A [u8] is a [Byte.byte]; [Vec<u8>], [&[u8]] and the UTF-8 contents of a
    [String] are lists of bytes.  [String]s carry the additional invariant
    [utf8_valid], stated where the code depends on it. *)

Abbreviation byte := Init.Byte.byte (only parsing).
Abbreviation bytes := (list byte) (only parsing).
Abbreviation str := (list byte) (only parsing).
(** [uuid::Uuid]: sixteen raw bytes. *)
Abbreviation uuid := (list byte) (only parsing).
(** [chrono::DateTime<Utc>] and [chrono::Duration]: nanoseconds. *)
Abbreviation datetime := Z (only parsing).
Abbreviation duration := Z (only parsing).

#[export] Instance byte_eq_decision : EqDecision byte := Byte.byte_eq_dec.

(** The value of a byte, and the byte of an integer ([as u8], which wraps). *)
Definition u8 (b : byte) : Z := Z.of_N (Byte.to_N b).

Definition to_u8 (z : Z) : byte :=
  match Byte.of_N (Z.to_N (z mod 256)%Z) with
  | Some b => b
  | None => Byte.x00
  end.

#[export] Program Instance byte_countable : Countable byte :=
  inj_countable Byte.to_N Byte.of_N _.
Next Obligation. intros b. apply Byte.of_to_N. Qed.

Definition lit (s : String.string) : str := String.list_byte_of_string s.
#[global] Arguments lit : simpl never.
Notation "# s" := (lit s%string) (at level 8, s at level 0, format "# s") : broker_scope.

(** String equality, [==] on [&str] and on byte slices; [subtle]'s [ct_eq]
    computes the same relation in constant time. *)
Definition str_eqb (a b : str) : bool := bool_decide (a = b).

Definition is_empty {A} (l : list A) : bool :=
  match l with [] => true | _ => false end.

(** ** Results: [Result<A, E>] with the panics of the source made explicit. *)

Inductive result (E A : Type) : Type :=
| Ok (a : A)
| Err (e : E)
| Panic.
#[global] Arguments Ok {E A} a.
#[global] Arguments Err {E A} e.
#[global] Arguments Panic {E A}.

Definition rbind {E A B} (r : result E A) (k : A -> result E B) : result E B :=
  match r with
  | Ok a => k a
  | Err e => Err e
  | Panic => Panic
  end.

Notation "'let!' x ':=' e 'in' k" := (rbind e (fun x => k))
  (at level 10, x pattern, e at level 200, k at level 200,
   format "'[v' 'let!'  x  ':='  e  'in' '//' k ']'") : broker_scope.

Definition map_err {E F A} (f : E -> F) (r : result E A) : result F A :=
  match r with
  | Ok a => Ok a
  | Err e => Err (f e)
  | Panic => Panic
  end.

Definition ok_or {E A} (o : option A) (e : E) : result E A :=
  match o with Some a => Ok a | None => Err e end.

Definition result_ok {E A} (r : result E A) : option A :=
  match r with Ok a => Some a | _ => None end.

(** [Result::unwrap_or] *)
Definition value_or {E A} (d : A) (r : result E A) : A :=
  match r with Ok a => a | _ => d end.

Definition is_ok {E A} (r : result E A) : bool :=
  match r with Ok _ => true | _ => false end.

(** [iter().map(f).collect::<Result<Vec<_>, _>>()]: stops at the first error. *)
Fixpoint collect {E A B} (f : A -> result E B) (l : list A) : result E (list B) :=
  match l with
  | [] => Ok []
  | a :: l => let! b := f a in let! bs := collect f l in Ok (b :: bs)
  end.

(** A [for] loop over a slice whose body may return early with an error. *)
Fixpoint for_each {E A} (f : A -> result E unit) (l : list A) : result E unit :=
  match l with
  | [] => Ok tt
  | a :: l => let! _ := f a in for_each f l
  end.

(** ** Stateful code

    A handler reads and writes a state and returns a result.  The state is
    kept on the error paths: what was written before an early return stays
    written. *)

Definition M (S E A : Type) : Type := S -> result E A * S.

Definition ret {S E A} (a : A) : M S E A := fun s => (Ok a, s).
Definition fail {S E A} (e : E) : M S E A := fun s => (Err e, s).

Definition bind {S E A B} (m : M S E A) (k : A -> M S E B) : M S E B := fun s =>
  match m s with
  | (Ok a, s') => k a s'
  | (Err e, s') => (Err e, s')
  | (Panic, s') => (Panic, s')
  end.

Notation "'let*' x ':=' e 'in' k" := (bind e (fun x => k))
  (at level 10, x pattern, e at level 200, k at level 200,
   format "'[v' 'let*'  x  ':='  e  'in' '//' k ']'") : broker_scope.

(** A pure, possibly failing computation inside stateful code. *)
Definition lift {S E A} (r : result E A) : M S E A := fun s => (r, s).

Definition map_err_m {S E F A} (f : E -> F) (m : M S E A) : M S F A := fun s =>
  let '(r, s') := m s in (map_err f r, s').

(** Run a computation on a component of the state. *)
Definition zoom {S T E A} (get : S -> T) (put : T -> S -> S) (m : M T E A) : M S E A :=
  fun s => let '(r, t) := m (get s) in (r, put t s).

(** Early return with an error when a condition holds. *)
Definition guard {E} (bad : bool) (e : E) : result E unit :=
  if bad then Err e else Ok tt.

(** ** Slices: [&buf[a..b]] and [buf[i]], which panic out of range. *)

Definition slice {E} (buf : bytes) (a b : nat) : result E bytes :=
  if (a <=? b)%nat && (b <=? length buf)%nat
  then Ok (take (b - a) (drop a buf))
  else Panic.

Definition index {E} (buf : bytes) (i : nat) : result E byte :=
  match buf !! i with Some b => Ok b | None => Panic end.

(** ** Little-endian integers: [to_le_bytes] and [from_le_bytes]. *)

Fixpoint le_bytes (n : nat) (z : Z) : bytes :=
  match n with
  | O => []
  | S n => to_u8 z :: le_bytes n (z / 256)%Z
  end.

Fixpoint of_le_bytes (l : bytes) : Z :=
  match l with
  | [] => 0%Z
  | b :: l => (u8 b + 256 * of_le_bytes l)%Z
  end.

(** [as i64] of an unsigned 64-bit value, [as u16] of a length. *)
Definition as_i64 (z : Z) : Z :=
  let m := (z mod 2^64)%Z in if (m <? 2^63)%Z then m else (m - 2^64)%Z.
Definition as_u16 (z : Z) : Z := (z mod 2^16)%Z.

(** [u32::saturating_add] *)
Definition u32_max : Z := (2^32 - 1)%Z.
Definition saturating_add_u32 (a b : Z) : Z := Z.min u32_max (a + b)%Z.

(** ** Lemmas: bytes and little-endian integers *)

Lemma u8_bound b : (0 <= u8 b < 256)%Z.
Proof. unfold u8. pose proof (Byte.to_N_bounded b). lia. Qed.

Lemma to_u8_u8 b : to_u8 (u8 b) = b.
Proof.
  unfold to_u8. rewrite Z.mod_small by apply u8_bound.
  unfold u8. rewrite N2Z.id. by rewrite Byte.of_to_N.
Qed.

Lemma u8_to_u8 z : u8 (to_u8 z) = (z mod 256)%Z.
Proof.
  unfold to_u8. pose proof (Z.mod_pos_bound z 256 ltac:(lia)).
  destruct (Byte.of_N _) as [b|] eqn:E.
  - unfold u8. rewrite (Byte.to_of_N _ E). lia.
  - apply Byte.of_N_None_iff in E. lia.
Qed.

Lemma length_le_bytes n z : length (le_bytes n z) = n.
Proof. revert z; induction n; intros; simpl; auto. Qed.

Lemma of_le_bytes_le_bytes n z : of_le_bytes (le_bytes n z) = (z mod 256 ^ Z.of_nat n)%Z.
Proof.
  revert z; induction n as [|n IH]; intros z; [by rewrite Z.mod_1_r|].
  cbn [le_bytes of_le_bytes].
  rewrite u8_to_u8, IH, Nat2Z.inj_succ, Z.pow_succ_r by lia.
  rewrite Z.rem_mul_r by lia. lia.
Qed.

Lemma of_le_bytes_bound l : (0 <= of_le_bytes l < 256 ^ Z.of_nat (length l))%Z.
Proof.
  induction l as [|b l IH]; [simpl; lia|].
  cbn [of_le_bytes length]. rewrite Nat2Z.inj_succ, Z.pow_succ_r by lia.
  pose proof (u8_bound b). lia.
Qed.

Lemma le_bytes_of_le_bytes l : le_bytes (length l) (of_le_bytes l) = l.
Proof.
  induction l as [|b l IH]; [done|]. cbn [length le_bytes of_le_bytes].
  pose proof (u8_bound b). f_equal.
  - rewrite <- (to_u8_u8 b) at 2. unfold to_u8 at 1 2.
    replace ((u8 b + 256 * of_le_bytes l) mod 256)%Z with (u8 b mod 256)%Z; [done|].
    rewrite Z.mul_comm. by rewrite Z_mod_plus_full.
  - replace ((u8 b + 256 * of_le_bytes l) / 256)%Z with (of_le_bytes l); [done|].
    apply (Z.div_unique_pos _ _ _ (u8 b)); lia.
Qed.

#[export] Hint Rewrite length_le_bytes of_le_bytes_le_bytes u8_to_u8 to_u8_u8 : broker_rw.

(** ** Lemmas: slices *)

(** A slice that covers exactly the middle part of a concatenation. *)
Lemma slice_middle {E} (p m q : bytes) a b :
  a = length p -> b = length p + length m ->
  @slice E (p ++ m ++ q) a b = Ok m.
Proof.
  intros -> ->. unfold slice. rewrite !length_app.
  rewrite (proj2 (Nat.leb_le _ _)) by lia. rewrite (proj2 (Nat.leb_le _ _)) by lia. simpl.
  rewrite drop_app_length. replace (_ + _ - _) with (length m) by lia.
  by rewrite take_app_length.
Qed.

Lemma slice_prefix {E} (m q : bytes) b : b = length m -> @slice E (m ++ q) 0 b = Ok m.
Proof. intros ->. by apply (slice_middle [] m q). Qed.

Lemma slice_suffix {E} (p m : bytes) a b :
  a = length p -> b = length p + length m -> @slice E (p ++ m) a b = Ok m.
Proof. intros -> ->. rewrite <- (app_nil_r m) at 1. by apply slice_middle. Qed.

(** What a successful read says about the buffer. *)
Lemma slice_split {E} buf a b m :
  @slice E buf a b = Ok m -> take a buf ++ m = take b buf /\ a <= b <= length buf.
Proof.
  unfold slice. destruct (_ && _) eqn:C; [|done]. intros [= <-].
  apply andb_prop in C as [?%Nat.leb_le ?%Nat.leb_le]. split; [|lia].
  rewrite take_drop_commute. replace (a + (b - a)) with b by lia.
  rewrite <- (take_drop a (take b buf)) at 2. by rewrite take_take, Nat.min_l by lia.
Qed.

Lemma slice_length {E} buf a b m : @slice E buf a b = Ok m -> length m = b - a.
Proof.
  unfold slice. destruct (_ && _) eqn:C; [|done]. intros [= <-].
  apply andb_prop in C as [?%Nat.leb_le ?%Nat.leb_le]. rewrite length_take, length_drop. lia.
Qed.

Lemma index_split {E} buf i b :
  @index E buf i = Ok b -> take i buf ++ [b] = take (S i) buf /\ i < length buf.
Proof.
  unfold index. destruct (buf !! i) as [c|] eqn:L; [|done]. intros [= <-].
  split; [by rewrite (take_S_r _ _ c)|by eapply lookup_lt_Some].
Qed.

Lemma slice_total {E} buf a b : a <= b -> b <= length buf -> exists m, @slice E buf a b = Ok m.
Proof.
  intros. unfold slice. rewrite !(proj2 (Nat.leb_le _ _)) by lia. simpl. eauto.
Qed.

Lemma slice_ok_length {E} buf a b m : @slice E buf a b = Ok m -> length m = b - a.
Proof.
  unfold slice. destruct (_ && _) eqn:C; [|done]. intros [= <-].
  apply andb_prop in C as [?%Nat.leb_le ?%Nat.leb_le].
  rewrite length_take, length_drop. lia.
Qed.

Lemma index_total {E} buf i : i < length buf -> exists b, @index E buf i = Ok b.
Proof.
  intros H. unfold index. destruct (lookup_lt_is_Some_2 buf i H) as [b ->]. eauto.
Qed.

Lemma index_app_r {E} (p q : bytes) i : @index E (p ++ q) (length p + i) = index q i.
Proof.
  unfold index. rewrite lookup_app_r by lia. by replace (_ + _ - _) with i by lia.
Qed.

Lemma index_middle {E} (p q : bytes) b i : i = length p -> @index E (p ++ b :: q) i = Ok b.
Proof.
  intros ->. unfold index. rewrite lookup_app_r by lia. by rewrite Nat.sub_diag.
Qed.

(** ** Lemmas and tactics: results and stateful code *)

Lemma str_eqb_eq a b : str_eqb a b = true <-> a = b.
Proof. apply bool_decide_eq_true. Qed.
Lemma str_eqb_refl a : str_eqb a a = true.
Proof. by apply str_eqb_eq. Qed.
Lemma str_eqb_neq a b : str_eqb a b = false <-> a <> b.
Proof. apply bool_decide_eq_false. Qed.
#[export] Hint Rewrite str_eqb_refl : broker_rw.

Lemma rbind_ok {E A B} (r : result E A) (k : A -> result E B) b :
  rbind r k = Ok b <-> exists a, r = Ok a /\ k a = Ok b.
Proof. destruct r; simpl; split; naive_solver. Qed.

Lemma bind_ok {S E A B} (m : M S E A) (k : A -> M S E B) s b s' :
  bind m k s = (Ok b, s') <-> exists a s1, m s = (Ok a, s1) /\ k a s1 = (Ok b, s').
Proof. unfold bind. destruct (m s) as [[a|e|] s1]; split; naive_solver. Qed.

Lemma bind_run {S E A B} (m : M S E A) (k : A -> M S E B) s a s1 :
  m s = (Ok a, s1) -> bind m k s = k a s1.
Proof. intros Hm. unfold bind. by rewrite Hm. Qed.

Lemma bind_stop {S E A B} (m : M S E A) (k : A -> M S E B) s :
  is_ok (m s).1 = false -> is_ok (bind m k s).1 = false /\ (bind m k s).2 = (m s).2.
Proof. unfold bind. by destruct (m s) as [[a|e|] s1]. Qed.

Lemma bind_fails {S E A B} (m : M S E A) (k : A -> M S E B) s :
  (forall a s1, m s = (Ok a, s1) -> is_ok (k a s1).1 = false) -> is_ok (bind m k s).1 = false.
Proof. unfold bind. destruct (m s) as [[a|e|] s1]; auto. Qed.

Lemma ok_or_ok {E A} (o : option A) (e : E) a : ok_or o e = Ok a <-> o = Some a.
Proof. destruct o; simpl; split; congruence. Qed.

Lemma map_err_ok {E F A} (f : E -> F) (r : result E A) a : map_err f r = Ok a <-> r = Ok a.
Proof. destruct r; simpl; split; congruence. Qed.

Lemma map_err_m_ok {S E F A} (f : E -> F) (m : M S E A) s a s' :
  map_err_m f m s = (Ok a, s') <-> m s = (Ok a, s').
Proof. unfold map_err_m. destruct (m s) as [[] ]; simpl; split; congruence. Qed.

Lemma map_err_m_state {S E F A} (f : E -> F) (m : M S E A) s : (map_err_m f m s).2 = (m s).2.
Proof. unfold map_err_m. by destruct (m s). Qed.

Lemma pair_fst {A B} (p : A * B) a : p.1 = a -> p = (a, p.2).
Proof. destruct p. by intros <-. Qed.

Lemma guard_ok {E} bad (e : E) u : guard bad e = Ok u <-> bad = false.
Proof. destruct bad, u; simpl; split; congruence. Qed.

Lemma guard_bind_ok {E A} bad (e : E) (k : result E A) a :
  rbind (guard bad e) (fun _ => k) = Ok a <-> bad = false /\ k = Ok a.
Proof. destruct bad; simpl; split; naive_solver. Qed.

Lemma for_each_ok {E A} (f : A -> result E unit) l :
  for_each f l = Ok tt <-> Forall (fun a => f a = Ok tt) l.
Proof.
  induction l as [|a l IH]; simpl; [by split|].
  rewrite Forall_cons, rbind_ok. split.
  - intros ([] & ? & ?). by rewrite <- IH.
  - intros [? ?%IH]. by exists tt.
Qed.

Lemma collect_map {E A B C} (g : C -> A) (h : C -> B) (f : A -> result E B) l :
  (forall c, c ∈ l -> f (g c) = Ok (h c)) -> collect f (map g l) = Ok (map h l).
Proof.
  induction l as [|c l IH]; intros H; [done|]. simpl.
  rewrite H by (constructor). simpl. rewrite IH; [done|].
  intros. apply H. by constructor.
Qed.

Lemma collect_ok {E A B} (f : A -> result E B) l bs :
  collect f l = Ok bs <-> Forall2 (fun a b => f a = Ok b) l bs.
Proof.
  revert bs. induction l as [|a l IH]; intros bs; simpl.
  - split; [intros [= <-]; constructor|]. by inversion 1.
  - rewrite rbind_ok. split.
    + intros (b & Hb & (bs' & Hbs & [= <-])%rbind_ok). constructor; [done|]. by apply IH.
    + inversion 1 as [|? b ? bs' Hb Hbs]; subst. apply IH in Hbs.
      exists b. split; [done|]. by rewrite Hbs.
Qed.

(** A computation does not panic; its value satisfies [P], its error [Q]. *)
Definition outcome {E A} (P : A -> Prop) (Q : E -> Prop) (r : result E A) : Prop :=
  match r with Ok a => P a | Err e => Q e | Panic => False end.

Lemma outcome_bind {E A B} (P : A -> Prop) (P' : B -> Prop) (Q : E -> Prop) r k :
  outcome P Q r -> (forall a, P a -> outcome P' Q (k a)) -> outcome P' Q (rbind r k).
Proof. destruct r; simpl; auto. Qed.

Lemma outcome_guard {E} bad (e : E) (Q : E -> Prop) :
  Q e -> outcome (fun _ => bad = false) Q (guard bad e).
Proof. by destruct bad. Qed.

Lemma outcome_ok_or {E A} (o : option A) (e : E) (Q : E -> Prop) :
  Q e -> outcome (fun a => o = Some a) Q (ok_or o e).
Proof. by destruct o. Qed.

Lemma outcome_slice {E} buf a b (Q : E -> Prop) :
  a <= b <= length buf -> outcome (fun m => take a buf ++ m = take b buf /\ length m = b - a) Q (slice buf a b).
Proof.
  intros Hb. destruct (@slice_total E buf a b) as [m Hm]; [lia..|]. rewrite Hm. simpl.
  split; [by apply slice_split in Hm as [? _]|by eapply slice_ok_length].
Qed.

Lemma outcome_index {E} buf i (Q : E -> Prop) :
  i < length buf -> outcome (fun b => take i buf ++ [b] = take (S i) buf) Q (index buf i).
Proof.
  intros Hb. destruct (@index_total E buf i) as [b Hi]; [lia|]. rewrite Hi.
  by apply index_split in Hi as [? _].
Qed.

(** Total correctness of stateful code: [m] started in [s] succeeds, and its
    value and final state satisfy [Q]. *)
Definition wp {S E A} (m : M S E A) (s : S) (Q : A -> S -> Prop) : Prop :=
  match m s with (Ok a, s') => Q a s' | _ => False end.

Section Wp.
Context {S E A : Type}.
Implicit Types (m : M S E A) (Q : A -> S -> Prop).

Lemma wp_eq m s Q : wp m s Q <-> exists a s', m s = (Ok a, s') /\ Q a s'.
Proof. unfold wp. destruct (m s) as [[a|e|] s']; split; naive_solver. Qed.

Lemma wp_out m s Q (d : A) : wp m s Q -> Q (value_or d (m s).1) (m s).2.
Proof. unfold wp. by destruct (m s) as [[a|e|] s']. Qed.

Lemma wp_bind {B} m (k : A -> M S E B) s (Q : B -> S -> Prop) :
  wp m s (fun a s' => wp (k a) s' Q) -> wp (bind m k) s Q.
Proof. unfold wp, bind. by destruct (m s) as [[a|e|] s']. Qed.

Lemma wp_mono m s Q Q' : wp m s Q -> (forall a s', Q a s' -> Q' a s') -> wp m s Q'.
Proof. unfold wp. destruct (m s) as [[a|e|] s']; auto. Qed.

Lemma wp_ret (a : A) s Q : Q a s -> wp (E := E) (ret a) s Q.
Proof. done. Qed.

Lemma wp_lift (r : result E A) a s Q : r = Ok a -> Q a s -> wp (lift r) s Q.
Proof. by intros ->. Qed.

Lemma wp_map_err_m {F} (f : E -> F) m s Q : wp m s Q -> wp (map_err_m f m) s Q.
Proof. unfold wp, map_err_m. by destruct (m s) as [[a|e|] s']. Qed.
End Wp.

(** [m] relates every state to the state it leaves, whether it succeeds or not. *)
Definition frames {S E A} (R : S -> S -> Prop) (m : M S E A) : Prop :=
  forall s, R s (m s).2.

Section Frames.
Context {S E : Type} (R : S -> S -> Prop) `{!PreOrder R}.

Lemma frames_bind {A B} (m : M S E A) (k : A -> M S E B) :
  frames R m -> (forall a, frames R (k a)) -> frames R (bind m k).
Proof.
  intros Hm Hk s. unfold bind. specialize (Hm s). destruct (m s) as [[a|e|] s'] eqn:?; [|done..].
  cbn [snd] in Hm. etransitivity; [exact Hm|apply Hk].
Qed.
Lemma frames_ret {A} (a : A) : frames (E := E) R (ret a).
Proof. intros s. cbn. reflexivity. Qed.
Lemma frames_fail {A} (e : E) : frames (A := A) R (fail e).
Proof. intros s. cbn. reflexivity. Qed.
Lemma frames_lift {A} (r : result E A) : frames R (lift r).
Proof. intros s. cbn. reflexivity. Qed.
Lemma frames_bind_lift {A B} (r : result E A) (k : A -> M S E B) :
  (forall a, r = Ok a -> frames R (k a)) -> frames R (bind (lift r) k).
Proof.
  intros Hk s. unfold bind, lift. destruct r as [a|e|]; [by apply Hk|cbn; reflexivity..].
Qed.
Lemma frames_map_err {F A} (f : E -> F) (m : M S E A) : frames R m -> frames R (map_err_m f m).
Proof. intros Hm s. unfold map_err_m. specialize (Hm s). by destruct (m s). Qed.
End Frames.

(** Take apart hypotheses that say a computation succeeded. *)
Ltac monad_step :=
  match goal with
  | H : rbind _ _ = Ok _ |- _ =>
    let a := fresh "a" in let Ha := fresh "Hr" in
    apply rbind_ok in H as (a & Ha & H)
  | H : bind _ _ _ = (Ok _, _) |- _ =>
    let a := fresh "a" in let s := fresh "s" in let Ha := fresh "Hm" in
    apply bind_ok in H as (a & s & Ha & H)
  | H : ok_or _ _ = Ok _ |- _ => apply ok_or_ok in H
  | H : map_err _ _ = Ok _ |- _ => apply map_err_ok in H
  | H : map_err_m _ _ _ = (Ok _, _) |- _ => apply map_err_m_ok in H
  | H : guard _ _ = Ok _ |- _ => apply guard_ok in H
  | H : lift _ _ = (Ok _, _) |- _ => unfold lift in H
  | H : ret _ _ = (Ok _, _) |- _ => unfold ret in H
  | H : fail _ _ = (Ok _, _) |- _ => discriminate H
  | H : (_, _) = (_, _) |- _ => injection H as H; try subst
  | H : (_, _) = (Ok _, _) |- _ => injection H as H ?; try subst
  | H : Ok _ = Ok _ |- _ => injection H as H; try subst
  | H : Err _ = Ok _ |- _ => discriminate H
  | H : Panic = Ok _ |- _ => discriminate H
  end.
Ltac monad_inv := repeat monad_step.

(** Case analysis on the innermost conditional of the goal or a hypothesis. *)
Ltac case_if :=
  match goal with
  | |- context [if ?b then _ else _] => destruct b eqn:?
  | H : context [if ?b then _ else _] |- _ => destruct b eqn:?
  end.

(** Boolean facts to propositions. *)
Ltac bool_to_prop :=
  repeat match goal with
  | H : _ && _ = true |- _ => apply andb_prop in H as [? ?]
  | H : _ || _ = false |- _ => apply orb_false_iff in H as [? ?]
  | H : negb _ = true |- _ => apply negb_true_iff in H
  | H : negb _ = false |- _ => apply negb_false_iff in H
  | H : str_eqb _ _ = true |- _ => apply str_eqb_eq in H
  | H : str_eqb _ _ = false |- _ => apply str_eqb_neq in H
  | H : (_ <? _)%Z = true |- _ => apply Z.ltb_lt in H
  | H : (_ <? _)%Z = false |- _ => apply Z.ltb_ge in H
  | H : (_ <=? _)%Z = true |- _ => apply Z.leb_le in H
  | H : (_ <=? _)%Z = false |- _ => apply Z.leb_gt in H
  | H : (_ =? _)%Z = true |- _ => apply Z.eqb_eq in H
  | H : (_ =? _)%Z = false |- _ => apply Z.eqb_neq in H
  | H : (_ <? _)%nat = true |- _ => apply Nat.ltb_lt in H
  | H : (_ <? _)%nat = false |- _ => apply Nat.ltb_ge in H
  | H : (_ <=? _)%nat = true |- _ => apply Nat.leb_le in H
  | H : (_ <=? _)%nat = false |- _ => apply Nat.leb_gt in H
  | H : (_ =? _)%nat = true |- _ => apply Nat.eqb_eq in H
  | H : (_ =? _)%nat = false |- _ => apply Nat.eqb_neq in H
  | H : bool_decide _ = true |- _ => apply bool_decide_eq_true in H
  | H : bool_decide _ = false |- _ => apply bool_decide_eq_false in H
  end.
