(* ===== verification/RustStd.v ===== *)
(** The parts of the Rust standard library and of [serde_json]'s value type
    that the broker uses: UTF-8 validation, [trim], [split_once],
    [strip_prefix], integer parsing, and JSON objects. *)

From stdpp Require Import pretty.
From S2P Require Import Prelude.

Set Warnings "-register-all".

(** ** Strings of the Rust standard library *)

Definition in_range (lo hi : Z) (b : byte) : bool := (lo <=? u8 b)%Z && (u8 b <=? hi)%Z.

(** [std::str::from_utf8] accepts exactly the well-formed byte sequences of
    the Unicode standard (Table 3-7). *)
Definition cont (b : byte) : bool := in_range 0x80 0xbf b.

Definition utf8_2 (b0 b1 : byte) : bool := in_range 0xc2 0xdf b0 && cont b1.
Definition utf8_3 (b0 b1 b2 : byte) : bool :=
  cont b2 &&
  ( (in_range 0xe0 0xe0 b0 && in_range 0xa0 0xbf b1)
 || (in_range 0xe1 0xec b0 && cont b1)
 || (in_range 0xed 0xed b0 && in_range 0x80 0x9f b1)
 || (in_range 0xee 0xef b0 && cont b1)).
Definition utf8_4 (b0 b1 b2 b3 : byte) : bool :=
  cont b2 && cont b3 &&
  ( (in_range 0xf0 0xf0 b0 && in_range 0x90 0xbf b1)
 || (in_range 0xf1 0xf3 b0 && cont b1)
 || (in_range 0xf4 0xf4 b0 && in_range 0x80 0x8f b1)).

Fixpoint utf8_valid (s : bytes) : bool :=
  match s with
  | [] => true
  | b0 :: r0 =>
    if in_range 0 0x7f b0 then utf8_valid r0 else
    match r0 with
    | [] => false
    | b1 :: r1 =>
      if utf8_2 b0 b1 then utf8_valid r1 else
      match r1 with
      | [] => false
      | b2 :: r2 =>
        if utf8_3 b0 b1 b2 then utf8_valid r2 else
        match r2 with
        | [] => false
        | b3 :: r3 => if utf8_4 b0 b1 b2 b3 then utf8_valid r3 else false
        end
      end
    end
  end.

Definition from_utf8 (b : bytes) : option str := if utf8_valid b then Some b else None.

(** [str::trim] removes the characters with the Unicode [White_Space]
    property; these are their UTF-8 encodings. *)
Definition ws1 (b : byte) : bool := in_range 0x09 0x0d b || in_range 0x20 0x20 b.
Definition ws2 (b0 b1 : byte) : bool :=
  in_range 0xc2 0xc2 b0 && (in_range 0x85 0x85 b1 || in_range 0xa0 0xa0 b1).
Definition ws3 (b0 b1 b2 : byte) : bool :=
  (in_range 0xe1 0xe1 b0 && in_range 0x9a 0x9a b1 && in_range 0x80 0x80 b2)
  || (in_range 0xe2 0xe2 b0 && in_range 0x80 0x80 b1
      && (in_range 0x80 0x8a b2 || in_range 0xa8 0xa9 b2 || in_range 0xaf 0xaf b2))
  || (in_range 0xe2 0xe2 b0 && in_range 0x81 0x81 b1 && in_range 0x9f 0x9f b2)
  || (in_range 0xe3 0xe3 b0 && in_range 0x80 0x80 b1 && in_range 0x80 0x80 b2).

Fixpoint trim_start (s : str) : str :=
  match s with
  | [] => []
  | b0 :: r0 =>
    if ws1 b0 then trim_start r0 else
    match r0 with
    | [] => s
    | b1 :: r1 =>
      if ws2 b0 b1 then trim_start r1 else
      match r1 with
      | [] => s
      | b2 :: r2 => if ws3 b0 b1 b2 then trim_start r2 else s
      end
    end
  end.

(** The same on the reversed string, for the end. *)
Fixpoint trim_start_rev (s : str) : str :=
  match s with
  | [] => []
  | b0 :: r0 =>
    if ws1 b0 then trim_start_rev r0 else
    match r0 with
    | [] => s
    | b1 :: r1 =>
      if ws2 b1 b0 then trim_start_rev r1 else
      match r1 with
      | [] => s
      | b2 :: r2 => if ws3 b2 b1 b0 then trim_start_rev r2 else s
      end
    end
  end.

Definition trim_end (s : str) : str := rev (trim_start_rev (rev s)).
Definition trim (s : str) : str := trim_end (trim_start s).

(** [.map(str::trim).filter(|v| !v.is_empty())] on an optional string. *)
Definition trim_nonempty (o : option str) : option str :=
  match o with
  | Some v => let t := trim v in if is_empty t then None else Some t
  | None => None
  end.

(** [str::strip_prefix], [str::starts_with] and [str::split_once]. *)
Fixpoint strip_prefix (p s : str) : option str :=
  match p, s with
  | [], _ => Some s
  | c :: p, d :: s => if decide (c = d) then strip_prefix p s else None
  | _ :: _, [] => None
  end.

Definition starts_with (p s : str) : bool :=
  match strip_prefix p s with Some _ => true | None => false end.

Fixpoint split_once (pat s : str) : option (str * str) :=
  match strip_prefix pat s with
  | Some rest => Some ([], rest)
  | None =>
    match s with
    | [] => None
    | c :: s' =>
      match split_once pat s' with
      | Some (a, b) => Some (c :: a, b)
      | None => None
      end
    end
  end.

Definition contains_byte (c : byte) (s : str) : bool := bool_decide (c ∈ s).

(** [str::to_ascii_lowercase] *)
Definition ascii_lower (b : byte) : byte :=
  if in_range 0x41 0x5a b then to_u8 (u8 b + 32)%Z else b.
Definition to_ascii_lowercase (s : str) : str := ascii_lower <$> s.

(** [str::parse::<uN>]: an optional [+], at least one digit, no overflow. *)
Definition digit (b : byte) : option Z :=
  if in_range 0x30 0x39 b then Some (u8 b - 48)%Z else None.

Fixpoint parse_digits (limit acc : Z) (s : str) : option Z :=
  match s with
  | [] => Some acc
  | b :: s =>
    match digit b with
    | Some d =>
      let acc' := (acc * 10 + d)%Z in
      if (acc' <=? limit)%Z then parse_digits limit acc' s else None
    | None => None
    end
  end.

Definition parse_unsigned (limit : Z) (s : str) : option Z :=
  match s with
  | [] => None
  | b :: r =>
    if in_range 0x2b 0x2b b
    then (if is_empty r then None else parse_digits limit 0 r)
    else parse_digits limit 0 s
  end.

(** Decimal rendering of a non-negative integer ([format!("{n}")]). *)
Definition show_N (n : N) : str :=
  String.list_byte_of_string (pretty n).

(** [str::split(sep)] for a one-byte separator: always at least one piece. *)
Fixpoint split_on (sep : byte) (s : str) : list str :=
  match s with
  | [] => [[]]
  | c :: s =>
    match split_on sep s with
    | [] => [[c]]
    | p :: ps => if decide (c = sep) then [] :: p :: ps else (c :: p) :: ps
    end
  end.

(** ** JSON values ([serde_json::Value])

    Numbers keep [serde_json]'s three representations; a float is its IEEE
    bit pattern.  An object is a [BTreeMap], kept here as an association list
    in key order. *)

Inductive number := PosInt (n : Z) | NegInt (n : Z) | Float (bits : Z).

Inductive json :=
| JNull
| JBool (b : bool)
| JNumber (n : number)
| JString (s : str)
| JArray (l : list json)
| JObject (m : list (str * json)).

(** Induction over a value and the values inside it. *)
Section JsonInd.
Variable P : json -> Prop.
Hypotheses (Hnull : P JNull) (Hbool : forall b, P (JBool b)) (Hnum : forall n, P (JNumber n))
  (Hstr : forall s, P (JString s)) (Harr : forall l, Forall P l -> P (JArray l))
  (Hobj : forall m, Forall (fun kv => P kv.2) m -> P (JObject m)).
Fixpoint json_ind_nested (j : json) : P j :=
  match j with
  | JNull => Hnull
  | JBool b => Hbool b
  | JNumber n => Hnum n
  | JString s => Hstr s
  | JArray l => Harr l ((fix go l := match l return Forall P l with
      | [] => Forall_nil_2 _
      | x :: l => Forall_cons_2 _ x l (json_ind_nested x) (go l)
      end) l)
  | JObject m => Hobj m ((fix go m := match m return Forall (fun kv => P kv.2) m with
      | [] => Forall_nil_2 _
      | (k, x) :: m => Forall_cons_2 (fun kv => P kv.2) (k, x) m (json_ind_nested x) (go m)
      end) m)
  end.
End JsonInd.

(** [Value::as_u64] and [Value::as_str]. *)
Definition as_u64 (v : json) : option Z :=
  match v with JNumber (PosInt n) => Some n | _ => None end.
Definition as_str (v : json) : option str :=
  match v with JString s => Some s | _ => None end.

(** Values that [serde_json] prints and reads back: the reader refuses
    nesting deeper than 127 and strings are UTF-8. *)
Fixpoint json_depth (j : json) : nat :=
  match j with
  | JArray l => S (foldr (fun x n => Nat.max (json_depth x) n) 0 l)
  | JObject m => S (foldr (fun kv n => Nat.max (json_depth kv.2) n) 0 m)
  | _ => 0
  end.
Fixpoint json_utf8 (j : json) : bool :=
  match j with
  | JString s => utf8_valid s
  | JArray l => forallb json_utf8 l
  | JObject m => forallb (fun kv => utf8_valid kv.1 && json_utf8 kv.2) m
  | _ => true
  end.
Definition printable (j : json) : bool := json_utf8 j && (json_depth j <? 127)%nat.

(** Values that are read back exactly: everything but floats, whose decimal
    form may be read as a neighbouring float. *)
Fixpoint json_exact (j : json) : bool :=
  match j with
  | JNumber (PosInt n) => (0 <=? n)%Z && (n <? 2^64)%Z
  | JNumber (NegInt n) => (n <? 0)%Z && (- 2^63 <=? n)%Z
  | JNumber (Float _) => false
  | JArray l => forallb json_exact l
  | JObject m => forallb (fun kv => json_exact kv.2) m
  | _ => true
  end.

(** Bytewise lexicographic order, the [Ord] of [String]. *)
Fixpoint str_ltb (a b : str) : bool :=
  match a, b with
  | [], _ :: _ => true
  | x :: a, y :: b => if decide (x = y) then str_ltb a b else (u8 x <? u8 y)%Z
  | _, [] => false
  end.

(** [serde_json::Map::insert] as the workspace builds it, with insertion
    order preserved: replaces the value of a present key in place, adds an
    absent one at the end. *)
Fixpoint obj_insert (k : str) (v : json) (m : list (str * json)) : list (str * json) :=
  match m with
  | [] => [(k, v)]
  | (k', v') :: m' =>
    if decide (k = k') then (k, v) :: m' else (k', v') :: obj_insert k v m'
  end.

Fixpoint obj_get (k : str) (m : list (str * json)) : option json :=
  match m with
  | [] => None
  | (k', v) :: m => if decide (k = k') then Some v else obj_get k m
  end.

Definition value_get (k : str) (v : json) : option json :=
  match v with JObject m => obj_get k m | _ => None end.

(** [BufRead::lines]: split at line feeds, a carriage return before the line
    feed removed; a last line without line feed counts if it is not empty. *)
Definition line_cons (c : byte) (ls : list bytes) : list bytes :=
  match ls with [] => [[c]] | l :: ls => (c :: l) :: ls end.

Fixpoint read_lines (s : bytes) : list bytes :=
  match s with
  | [] => []
  | c :: s' =>
    if decide (c = Byte.x0a) then [] :: read_lines s'
    else match s' with
      | d :: _ => if decide (c = Byte.x0d /\ d = Byte.x0a) then read_lines s'
                  else line_cons c (read_lines s')
      | [] => [[c]]
      end
  end.

(** [if let Some(x) = o { map.insert(k, f(x)) }] *)
Definition obj_insert_opt {A} (k : str) (f : A -> json) (o : option A)
    (m : list (str * json)) : list (str * json) :=
  match o with Some a => obj_insert k (f a) m | None => m end.

(** ** Lemmas: UTF-8 *)

Lemma utf8_valid_app a b :
  utf8_valid a = true -> utf8_valid (a ++ b) = utf8_valid b.
Proof.
  remember (length a) as n eqn:Hn. revert a Hn.
  induction (lt_wf n) as [n _ IH]. intros a -> Ha.
  assert (step : forall a', length a' < length a -> utf8_valid a' = true ->
            utf8_valid (a' ++ b) = utf8_valid b) by (intros; by eapply IH).
  destruct a as [|b0 r0]; [done|]. simpl in *.
  destruct (in_range 0 0x7f b0); [apply step; [lia|done]|].
  destruct r0 as [|b1 r1]; [done|]. simpl in *.
  destruct (utf8_2 b0 b1); [apply step; [lia|done]|].
  destruct r1 as [|b2 r2]; [done|]. simpl in *.
  destruct (utf8_3 b0 b1 b2); [apply step; [lia|done]|].
  destruct r2 as [|b3 r3]; [done|]. simpl in *.
  destruct (utf8_4 b0 b1 b2 b3); [apply step; [lia|done]|done].
Qed.

Lemma utf8_valid_app_true a b :
  utf8_valid a = true -> utf8_valid b = true -> utf8_valid (a ++ b) = true.
Proof. intros Ha Hb. by rewrite utf8_valid_app. Qed.

(** Printable ASCII without the space: what base64, hexadecimal, RFC 3339 and
    SPIFFE text is made of. *)
Definition graphic (b : byte) : bool := in_range 0x21 0x7e b.

Lemma graphic_utf8 s : Forall (fun b => graphic b = true) s -> utf8_valid s = true.
Proof.
  induction 1 as [|b s Hb _ IH]; [done|]. simpl.
  assert (in_range 0 0x7f b = true) as ->; [|done].
  unfold graphic, in_range in *. bool_to_prop.
  apply andb_true_intro; split; apply Z.leb_le; lia.
Qed.

(** ** Lemmas: trimming *)

Lemma in_range_disjoint lo hi lo' hi' b :
  in_range lo hi b = true -> (hi < lo' \/ hi' < lo)%Z -> in_range lo' hi' b = false.
Proof.
  unfold in_range. intros H D. bool_to_prop. apply andb_false_iff.
  destruct D; [left|right]; apply Z.leb_gt; lia.
Qed.

Lemma graphic_not_ws b : graphic b = true ->
  ws1 b = false /\ (forall b1, ws2 b b1 = false) /\ (forall b1, ws2 b1 b = false)
  /\ (forall b1 b2, ws3 b b1 b2 = false) /\ (forall b1 b2, ws3 b1 b2 b = false).
Proof.
  intros H. unfold ws1, ws2, ws3.
  assert (D : forall lo hi, (0x7e < lo)%Z -> in_range lo hi b = false)
    by (intros; eapply in_range_disjoint; [exact H|lia]).
  rewrite !(in_range_disjoint _ _ _ _ _ H) by lia.
  repeat split; intros; rewrite ?D by lia; simpl; rewrite ?andb_false_r; done.
Qed.

Lemma trim_start_graphic b s : graphic b = true -> trim_start (b :: s) = b :: s.
Proof.
  intros (H1 & H2 & _ & H3 & _)%graphic_not_ws. simpl. rewrite H1.
  destruct s as [|b1 [|b2 s]]; [done|by rewrite H2|by rewrite H2, H3].
Qed.

Lemma trim_end_graphic b s : graphic b = true -> trim_end (s ++ [b]) = s ++ [b].
Proof.
  intros (H1 & _ & H2 & _ & H3)%graphic_not_ws. unfold trim_end.
  rewrite rev_app_distr. change (rev [b]) with [b]. cbn [app].
  assert (trim_start_rev (b :: rev s) = b :: rev s) as ->.
  { simpl. rewrite H1. destruct (rev s) as [|b1 [|b2 r]]; [done|by rewrite H2|by rewrite H2, H3]. }
  change (rev (b :: rev s)) with (rev (rev s) ++ [b]). by rewrite rev_involutive.
Qed.

Lemma trim_graphic s : Forall (fun b => graphic b = true) s -> trim s = s.
Proof.
  intros H. destruct s as [|b s]; [done|]. unfold trim.
  rewrite trim_start_graphic by (by inversion H).
  destruct (exists_last (l := b :: s)) as (s' & c & Hs); [done|].
  rewrite Hs in *. apply trim_end_graphic.
  apply Forall_app in H as [_ H]. by inversion H.
Qed.

Lemma trim_start_suffix s : exists p, s = p ++ trim_start s.
Proof.
  remember (length s) as n eqn:Hn. revert s Hn.
  induction (lt_wf n) as [n _ IH]. intros s ->.
  assert (step : forall p r, s = p ++ r -> length r < length s -> exists q, s = q ++ trim_start r).
  { intros p r -> Hl. destruct (IH _ Hl r eq_refl) as [q Hq].
    exists (p ++ q). by rewrite <- app_assoc, <- Hq. }
  destruct s as [|b0 r0]; [by exists []|]. cbn [trim_start].
  destruct (ws1 b0); [apply (step [b0]); simpl; auto|].
  destruct r0 as [|b1 r1]; [by exists []|].
  destruct (ws2 b0 b1); [apply (step [b0; b1]); simpl; auto|].
  destruct r1 as [|b2 r2]; [by exists []|].
  destruct (ws3 b0 b1 b2); [apply (step [b0; b1; b2]); simpl; auto|by exists []].
Qed.

(** The text does not begin (or, reversed, end) with white space. *)
Definition no_lead (s : str) : Prop := trim_start s = s.

Lemma no_lead_trim_start s : no_lead (trim_start s).
Proof.
  unfold no_lead. remember (length s) as n eqn:Hn. revert s Hn.
  induction (lt_wf n) as [n _ IH]. intros s ->.
  assert (step : forall r, length r < length s -> trim_start (trim_start r) = trim_start r)
    by (intros; by eapply IH).
  destruct s as [|b0 r0]; [done|]. cbn [trim_start].
  destruct (ws1 b0) eqn:E1; [apply step; simpl; lia|].
  destruct r0 as [|b1 r1]; [simpl; by rewrite E1|].
  destruct (ws2 b0 b1) eqn:E2; [apply step; simpl; lia|].
  destruct r1 as [|b2 r2]; [simpl; by rewrite E1, E2|].
  destruct (ws3 b0 b1 b2) eqn:E3; [apply step; simpl; lia|].
  simpl. by rewrite E1, E2, E3.
Qed.

Lemma no_lead_prefix s r : no_lead (s ++ r) -> no_lead s.
Proof.
  unfold no_lead. intros H.
  assert (short : forall l : str, length (trim_start l) <= length l).
  { intros l. destruct (trim_start_suffix l) as [p Hp].
    rewrite Hp at 2. rewrite length_app. lia. }
  destruct s as [|b0 r0]; [done|]. cbn [app trim_start] in *.
  destruct (ws1 b0).
  { apply (f_equal length) in H. pose proof (short (r0 ++ r)). simpl in H. lia. }
  destruct r0 as [|b1 r1]; [done|]. cbn [app] in H.
  destruct (ws2 b0 b1).
  { apply (f_equal length) in H. pose proof (short (r1 ++ r)). simpl in H. lia. }
  destruct r1 as [|b2 r2]; [done|]. cbn [app] in H.
  destruct (ws3 b0 b1 b2); [|done].
  apply (f_equal length) in H. pose proof (short (r2 ++ r)). simpl in H. lia.
Qed.

(** [trim] is idempotent. *)
Lemma trim_start_rev_suffix s : exists p, s = p ++ trim_start_rev s.
Proof.
  remember (length s) as n eqn:Hn. revert s Hn.
  induction (lt_wf n) as [n _ IH]. intros s ->.
  assert (step : forall p r, s = p ++ r -> length r < length s ->
            exists q, s = q ++ trim_start_rev r).
  { intros p r -> Hl. destruct (IH _ Hl r eq_refl) as [q Hq].
    exists (p ++ q). by rewrite <- app_assoc, <- Hq. }
  destruct s as [|b0 r0]; [by exists []|]. cbn [trim_start_rev].
  destruct (ws1 b0); [apply (step [b0]); simpl; auto|].
  destruct r0 as [|b1 r1]; [by exists []|].
  destruct (ws2 b1 b0); [apply (step [b0; b1]); simpl; auto|].
  destruct r1 as [|b2 r2]; [by exists []|].
  destruct (ws3 b2 b1 b0); [apply (step [b0; b1; b2]); simpl; auto|by exists []].
Qed.

Lemma trim_start_rev_idem s : trim_start_rev (trim_start_rev s) = trim_start_rev s.
Proof.
  remember (length s) as n eqn:Hn. revert s Hn.
  induction (lt_wf n) as [n _ IH]. intros s ->.
  assert (step : forall r, length r < length s ->
            trim_start_rev (trim_start_rev r) = trim_start_rev r)
    by (intros; by eapply IH).
  destruct s as [|b0 r0]; [done|]. cbn [trim_start_rev].
  destruct (ws1 b0) eqn:E1; [apply step; simpl; lia|].
  destruct r0 as [|b1 r1]; [simpl; by rewrite E1|].
  destruct (ws2 b1 b0) eqn:E2; [apply step; simpl; lia|].
  destruct r1 as [|b2 r2]; [simpl; by rewrite E1, E2|].
  destruct (ws3 b2 b1 b0) eqn:E3; [apply step; simpl; lia|].
  simpl. by rewrite E1, E2, E3.
Qed.

(** Trimming at the end stops at a graphic character. *)
Lemma ws3_middle b b0 b2 : graphic b = true -> ws3 b0 b b2 = false.
Proof.
  intros Hg. unfold ws3. rewrite !(in_range_disjoint _ _ _ _ _ Hg) by lia. by rewrite !andb_false_r.
Qed.
Lemma trim_start_rev_stops t b u : graphic b = true -> exists t', trim_start_rev (t ++ b :: u) = t' ++ b :: u.
Proof.
  intros Hg. destruct (graphic_not_ws b Hg) as (W1 & W2 & W2' & W3 & W3').
  remember (length t) as n eqn:Hn. revert t Hn. induction (lt_wf n) as [n _ IH]. intros t ->.
  assert (step : forall r, length r < length t -> exists t', trim_start_rev (r ++ b :: u) = t' ++ b :: u)
    by (intros; by eapply IH).
  assert (stop : trim_start_rev (b :: u) = b :: u).
  { cbn. rewrite W1. destruct u as [|b1 [|b2 u]]; [done|by rewrite W2'|by rewrite W2', W3']. }
  destruct t as [|b0 t]; [exists []; exact stop|]. cbn [app trim_start_rev length] in *.
  destruct (ws1 b0); [apply step; lia|].
  destruct t as [|b1 t]; cbn [app].
  - rewrite W2. destruct u as [|b2 u]; [by exists [b0]|]. rewrite ws3_middle by done. by exists [b0].
  - destruct (ws2 b1 b0); [apply step; cbn; lia|]. destruct t as [|b2 t]; cbn [app].
    + rewrite W3. by exists [b0; b1].
    + destruct (ws3 b2 b1 b0); [apply step; cbn; lia|]. by exists (b0 :: b1 :: b2 :: t).
Qed.
Lemma trim_end_stops s b t : graphic b = true -> exists t', trim_end (s ++ b :: t) = s ++ b :: t'.
Proof.
  intros Hg. unfold trim_end. rewrite rev_app_distr. cbn [rev]. rewrite <- app_assoc. cbn [app].
  destruct (trim_start_rev_stops (rev t) b (rev s) Hg) as [t' ->]. exists (rev t').
  rewrite rev_app_distr. cbn [rev]. by rewrite rev_involutive, <- app_assoc.
Qed.

Lemma trim_idem s : trim (trim s) = trim s.
Proof.
  unfold trim. set (t := trim_start s).
  assert (no_lead (trim_end t)) as ->.
  { destruct (trim_start_rev_suffix (rev t)) as [p Hp].
    apply (no_lead_prefix _ (rev p)). unfold trim_end.
    rewrite <- rev_app_distr, <- Hp, rev_involutive. apply no_lead_trim_start. }
  unfold trim_end. by rewrite rev_involutive, trim_start_rev_idem.
Qed.

(** Lower case does not touch white space. *)
Lemma lower_idem s : to_ascii_lowercase (to_ascii_lowercase s) = to_ascii_lowercase s.
Proof.
  unfold to_ascii_lowercase. rewrite <- list_fmap_compose. apply list_fmap_ext. intros _ b _. by destruct b.
Qed.
Lemma lower_ws1 b : ws1 (ascii_lower b) = ws1 b.
Proof. by destruct b. Qed.
Lemma lower_small b : ascii_lower b = b \/ (u8 (ascii_lower b) <? 0x80)%Z && (u8 b <? 0x80)%Z = true.
Proof. destruct b; first [by left|by right]. Qed.
Lemma lower_high lo hi b : (0x80 <= lo)%Z -> in_range lo hi (ascii_lower b) = in_range lo hi b.
Proof.
  intros Hlo. destruct (lower_small b) as [->|[H1%Z.ltb_lt H2%Z.ltb_lt]%andb_prop]; [done|].
  unfold in_range. by rewrite (proj2 (Z.leb_gt lo (u8 (ascii_lower b)))), (proj2 (Z.leb_gt lo (u8 b))) by lia.
Qed.
Lemma lower_ws2 b0 b1 : ws2 (ascii_lower b0) (ascii_lower b1) = ws2 b0 b1.
Proof. unfold ws2. by rewrite !lower_high by lia. Qed.
Lemma lower_ws3 b0 b1 b2 : ws3 (ascii_lower b0) (ascii_lower b1) (ascii_lower b2) = ws3 b0 b1 b2.
Proof. unfold ws3. by rewrite !lower_high by lia. Qed.

Lemma trim_start_lower s : trim_start (to_ascii_lowercase s) = to_ascii_lowercase (trim_start s).
Proof.
  induction s as [s IH] using (induction_ltof1 _ (@length byte)). unfold ltof in IH.
  destruct s as [|b0 r0]; [done|]. cbn. rewrite lower_ws1. destruct (ws1 b0); [apply IH; cbn; lia|].
  destruct r0 as [|b1 r1]; [done|]. cbn. rewrite lower_ws2. destruct (ws2 _ _); [apply IH; cbn; lia|].
  destruct r1 as [|b2 r2]; [done|]. cbn. rewrite lower_ws3. destruct (ws3 _ _ _); [apply IH; cbn; lia|done].
Qed.
Lemma trim_start_rev_lower s : trim_start_rev (to_ascii_lowercase s) = to_ascii_lowercase (trim_start_rev s).
Proof.
  induction s as [s IH] using (induction_ltof1 _ (@length byte)). unfold ltof in IH.
  destruct s as [|b0 r0]; [done|]. cbn. rewrite lower_ws1. destruct (ws1 b0); [apply IH; cbn; lia|].
  destruct r0 as [|b1 r1]; [done|]. cbn. rewrite lower_ws2. destruct (ws2 _ _); [apply IH; cbn; lia|].
  destruct r1 as [|b2 r2]; [done|]. cbn. rewrite lower_ws3. destruct (ws3 _ _ _); [apply IH; cbn; lia|done].
Qed.
Lemma lower_rev s : rev (to_ascii_lowercase s) = to_ascii_lowercase (rev s).
Proof. symmetry. apply map_rev. Qed.
Lemma trim_lower s : trim (to_ascii_lowercase s) = to_ascii_lowercase (trim s).
Proof. unfold trim, trim_end. by rewrite trim_start_lower, !lower_rev, trim_start_rev_lower, lower_rev. Qed.

Lemma trim_nonempty_Some o v :
  trim_nonempty o = Some v -> exists raw, o = Some raw /\ v = trim raw /\ v <> [].
Proof.
  destruct o as [raw|]; [|done]. simpl. destruct (trim raw) eqn:E; [done|].
  simpl. intros [= <-]. exists raw. by rewrite E.
Qed.

Lemma trim_nonempty_idem o : trim_nonempty (trim_nonempty o) = trim_nonempty o.
Proof.
  destruct o as [v|]; [|done]. simpl. destruct (is_empty (trim v)) eqn:E; [done|].
  simpl. by rewrite trim_idem, E.
Qed.

(** ** Lemmas: splitting *)

Lemma strip_prefix_app p s : strip_prefix p (p ++ s) = Some s.
Proof. induction p as [|c p IH]; [done|]. simpl. by rewrite decide_True. Qed.

Lemma strip_prefix_Some p s r : strip_prefix p s = Some r -> s = p ++ r.
Proof.
  revert s. induction p as [|c p IH]; intros [|d s]; simpl; try congruence.
  case_decide; [|done]. subst. intros ->%IH. done.
Qed.

Lemma split_once_first c p k v :
  c ∉ k -> split_once (c :: p) (k ++ (c :: p) ++ v) = Some (k, v).
Proof.
  induction k as [|d k IH]; intros H.
  - cbn [app]. change (c :: p ++ v) with ((c :: p) ++ v).
    destruct ((c :: p) ++ v) eqn:E; [done|].
    unfold split_once; rewrite <- E. by rewrite strip_prefix_app.
  - apply not_elem_of_cons in H as [Hd Hk]. specialize (IH Hk).
    cbn [app split_once strip_prefix]. rewrite decide_False by done.
    change ((c :: p) ++ v) with (c :: p ++ v) in IH. by rewrite IH.
Qed.

(** ** Lemmas: JSON objects *)

Lemma obj_get_insert k k' v m :
  obj_get k (obj_insert k' v m) = if decide (k = k') then Some v else obj_get k m.
Proof.
  induction m as [|[k1 v1] m IH]; simpl.
  - by repeat case_decide.
  - destruct (decide (k' = k1)) as [->|]; [simpl; by repeat case_decide|].
    simpl. rewrite IH. repeat case_decide; congruence.
Qed.

(** ** Lemmas: lines *)

(** A line without control characters, as [serde_json] prints. *)
Definition plain (b : byte) : bool := (0x20 <=? u8 b)%Z.

Lemma plain_not_nl b : plain b = true -> b <> Byte.x0a /\ b <> Byte.x0d.
Proof. intros H. split; intros ->; done. Qed.

Lemma read_lines_line l s :
  Forall (fun b => plain b = true) l ->
  read_lines (l ++ Byte.x0a :: s) = l :: read_lines s.
Proof.
  induction 1 as [|b l [Hb1 Hb2]%plain_not_nl HF IH]; [done|].
  cbn [app read_lines]. rewrite decide_False by done.
  destruct (l ++ Byte.x0a :: s) as [|d r] eqn:E; [by destruct l|].
  rewrite decide_False by tauto. by rewrite IH.
Qed.

(** The text of a file made of complete lines. *)
Definition unlines (ls : list bytes) : bytes := mjoin (map (fun l => l ++ [Byte.x0a]) ls).

Lemma unlines_app ls ls' : unlines (ls ++ ls') = unlines ls ++ unlines ls'.
Proof. unfold unlines. by rewrite map_app, join_app. Qed.

Lemma read_lines_unlines ls :
  Forall (Forall (fun b => plain b = true)) ls -> read_lines (unlines ls) = ls.
Proof.
  induction 1 as [|l ls Hl HF IH]; [done|].
  change (unlines (l :: ls)) with ((l ++ [Byte.x0a]) ++ unlines ls).
  rewrite <- app_assoc. cbn [app]. by rewrite read_lines_line, IH.
Qed.
