(* ===== verification/Net.v ===== *)
(** Environment variables, network addresses and file paths of the Rust
    standard library, as far as start-up and connections use them: [env::var],
    the parser of [IpAddr] and [SocketAddr], which addresses are loopback, and
    the last component of a [Path]. *)

From stdpp Require Import pretty.
From S2P Require Import Prelude RustStd.

(** ** Environment *)

Inductive VarError := NotPresent | NotUnicode.
(** [env::var] *)
Abbreviation environment := (str -> result VarError str).

(** ** Addresses *)

Inductive IpAddr :=
| IpV4 (octets : list Z)
| IpV6 (segments : list Z).

(** [127.0.0.0/8] and [::1]; IPv4 addresses mapped into IPv6 do not count. *)
Definition is_loopback (a : IpAddr) : bool :=
  match a with
  | IpV4 octets => bool_decide (octets !! 0 = Some 127%Z)
  | IpV6 segments => bool_decide (segments = [0; 0; 0; 0; 0; 0; 0; 1]%Z)
  end.

(** *** The parser: readers that consume a prefix or fail without consuming. *)

Abbreviation reader A := (str -> option (A * str)).

Definition to_digit (radix : Z) (c : byte) : option Z :=
  let d := if in_range 0x30 0x39 c then (u8 c - 0x30)%Z
           else if in_range 0x61 0x7a c then (u8 c - 0x61 + 10)%Z
           else if in_range 0x41 0x5a c then (u8 c - 0x41 + 10)%Z
           else radix in
  if (d <? radix)%Z then Some d else None.

Fixpoint read_digits (radix : Z) (s : str) : list Z * str :=
  match s with
  | c :: rest =>
    match to_digit radix c with
    | Some d => let '(ds, rest') := read_digits radix rest in (d :: ds, rest')
    | None => ([], s)
    end
  | [] => ([], [])
  end.

(** [read_number]: at most [max_digits] digits where there is such a limit,
    and a value within [limit]. *)
Definition read_number (radix : Z) (max_digits : option nat) (allow_zero_prefix : bool) (limit : Z) : reader Z :=
  fun s =>
  let '(ds, rest) := read_digits radix s in
  let too_many := match max_digits with Some n => (n <? length ds)%nat | None => false end in
  let leading_zero := match ds with 0%Z :: _ :: _ => true | _ => false end in
  let value := fold_left (fun v d => v * radix + d)%Z ds 0%Z in
  if is_empty ds || too_many || (negb allow_zero_prefix && leading_zero) || (limit <? value)%Z then None
  else Some (value, rest).

Definition read_given_char (c : byte) : reader unit := fun s =>
  match s with
  | d :: rest => if decide (c = d) then Some (tt, rest) else None
  | [] => None
  end.

Definition read_then {A B} (p : reader A) (k : A -> reader B) : reader B := fun s =>
  match p s with Some (a, rest) => k a rest | None => None end.
Definition read_pure {A} (a : A) : reader A := fun s => Some (a, s).

(** [read_separator]: the separator comes before every element but the first. *)
Definition read_separator {A} (sep : byte) (index : nat) (inner : reader A) : reader A :=
  if (index =? 0)%nat then inner else read_then (read_given_char sep) (fun _ => inner).

Definition dot : byte := Byte.x2e.
Definition colon : byte := Byte.x3a.

Fixpoint read_octets (more index : nat) : reader (list Z) :=
  match more with
  | O => read_pure []
  | S more => read_then (read_separator dot index (read_number 10 (Some 3) false 255))
                (fun o => read_then (read_octets more (S index)) (fun os => read_pure (o :: os)))
  end.
Definition read_ipv4_addr : reader (list Z) := read_octets 4 0.

(** [read_groups]: as many groups as there are, up to [more]; an IPv4 address
    takes the place of two and ends them. *)
Fixpoint read_groups (more index : nat) (s : str) : list Z * bool * str :=
  match more with
  | O => ([], false, s)
  | S m' =>
    let ipv4 := if (0 <? m')%nat then read_separator colon index read_ipv4_addr s else None in
    match ipv4 with
    | Some (octets, rest) =>
      ([nth 0 octets 0%Z * 256 + nth 1 octets 0%Z; nth 2 octets 0%Z * 256 + nth 3 octets 0%Z]%Z, true, rest)
    | None =>
      match read_separator colon index (read_number 16 (Some 4) true 65535) s with
      | Some (g, rest) => let '(gs, v4, rest') := read_groups m' (S index) rest in (g :: gs, v4, rest')
      | None => ([], false, s)
      end
    end
  end.

Definition read_ipv6_addr : reader (list Z) := fun s =>
  let '(head, head_ipv4, rest) := read_groups 8 0 s in
  if (length head =? 8)%nat then Some (head, rest)
  else if head_ipv4 then None
  else
    match rest with
    | c :: c' :: rest =>
      if bool_decide (c = colon) && bool_decide (c' = colon) then
        let '(tail, _, rest') := read_groups (8 - (length head + 1)) 0 rest in
        Some (head ++ repeat 0%Z (8 - length head - length tail) ++ tail, rest')
      else None
    | _ => None
    end.

Definition or_else {A} (p q : reader A) : reader A := fun s =>
  match p s with Some x => Some x | None => q s end.
Definition read_map {A B} (f : A -> B) (p : reader A) : reader B := read_then p (fun a => read_pure (f a)).

Definition read_ip_addr : reader IpAddr := or_else (read_map IpV4 read_ipv4_addr) (read_map IpV6 read_ipv6_addr).

(** [parse_with]: the whole input must be consumed. *)
Definition parse_all {A} (p : reader A) (s : str) : option A :=
  match p s with Some (a, []) => Some a | _ => None end.

Definition parse_ip (s : str) : option IpAddr := parse_all read_ip_addr s.

(** *** Socket addresses *)

Record SocketAddr := mkSocketAddr { sa_ip : IpAddr; sa_port : Z }.

Definition read_port : reader Z :=
  read_then (read_given_char colon) (fun _ => read_number 10 None true 65535).
(** An absent scope is zero. *)
Definition read_scope_id : reader Z := fun s =>
  match read_then (read_given_char Byte.x25) (fun _ => read_number 10 None true (2^32 - 1)) s with
  | Some x => Some x
  | None => Some (0%Z, s)
  end.

Definition read_socket_addr_v4 : reader SocketAddr :=
  read_then read_ipv4_addr (fun ip => read_map (mkSocketAddr (IpV4 ip)) read_port).
Definition read_socket_addr_v6 : reader SocketAddr :=
  read_then (read_given_char Byte.x5b) (fun _ => read_then read_ipv6_addr (fun ip =>
  read_then read_scope_id (fun _ => read_then (read_given_char Byte.x5d) (fun _ =>
  read_map (mkSocketAddr (IpV6 ip)) read_port)))).
Definition parse_socket_addr (s : str) : option SocketAddr :=
  parse_all (or_else read_socket_addr_v4 read_socket_addr_v6) s.

(** [Display] of an IPv4 address *)
Definition show_ipv4 (a b c d : N) : str :=
  show_N a ++ [dot] ++ show_N b ++ [dot] ++ show_N c ++ [dot] ++ show_N d.

(** ** Paths

    Unix paths: components are separated by one or more slashes, and ["."] is a
    component only at the start of a relative path. *)

Definition slash : byte := Byte.x2f.

Fixpoint join (sep : str) (parts : list str) : str :=
  match parts with
  | [] => []
  | [part] => part
  | part :: parts => part ++ sep ++ join sep parts
  end.

Fixpoint drop_trivial (rev_parts : list str) : list str :=
  match rev_parts with
  | part :: parts => if is_empty part || str_eqb part #"." then drop_trivial parts else rev_parts
  | [] => []
  end.

(** The parent of a path and its last component, unless that is the root. *)
Definition path_split (path : str) : option (str * str) :=
  match split_on slash path with
  | [] => None
  | first :: parts =>
    match drop_trivial (rev parts) with
    | name :: before =>
      let before := rev (drop_trivial before) in
      Some (if is_empty first && is_empty before then #"/" else join #"/" (first :: before), name)
    | [] => if is_empty first then None else Some ([], first)
    end
  end.

Definition path_parent (path : str) : option str := fst <$> path_split path.
Definition file_name (path : str) : option str :=
  match path_split path with
  | Some (_, name) => if str_eqb name #".." || str_eqb name #"." then None else Some name
  | None => None
  end.

(** [push], of a relative path *)
Definition path_push (path name : str) : str :=
  match rev path with
  | [] => name
  | c :: _ => if decide (c = slash) then path ++ name else path ++ #"/" ++ name
  end.
Definition set_file_name (path name : str) : str :=
  match file_name path, path_parent path with
  | Some _, Some parent => path_push parent name
  | _, _ => path_push path name
  end.

(** ** Lemmas *)

Definition is_digit (c : byte) : bool := in_range 0x30 0x39 c.

Lemma pretty_digits x s :
  Forall (fun c => is_digit c = true) (String.list_byte_of_string s) ->
  Forall (fun c => is_digit c = true) (String.list_byte_of_string (pretty_N_go x s)).
Proof.
  revert s. induction (N.lt_wf_0 x) as [x _ IH]; intros s Hs.
  destruct (decide (x = 0)%N) as [->|Hx]; [done|].
  rewrite pretty_N_go_step by lia. apply IH; [apply N.div_lt; lia|].
  cbn [String.list_byte_of_string String.list_ascii_of_string map]. apply Forall_cons. split; [|exact Hs].
  unfold pretty_N_char. by repeat case_match.
Qed.

(** Numbers are printed in digits, each in its own way. *)
Lemma show_N_digits n : Forall (fun c => is_digit c = true) (show_N n).
Proof.
  unfold show_N, pretty, pretty_N. destruct (decide (n = 0)%N); [by repeat constructor|].
  by apply pretty_digits.
Qed.
Lemma show_N_inj n n' : show_N n = show_N n' -> n = n'.
Proof.
  intros E. apply (f_equal String.string_of_list_byte) in E. unfold show_N in E.
  rewrite !String.string_of_list_byte_of_string in E. by apply (inj pretty).
Qed.

(** A text splits in one way into digits and a rest that starts with none. *)
Lemma digits_split p p' r r' :
  Forall (fun c => is_digit c = true) p -> Forall (fun c => is_digit c = true) p' ->
  match r with c :: _ => is_digit c = false | [] => True end ->
  match r' with c :: _ => is_digit c = false | [] => True end ->
  p ++ r = p' ++ r' -> p = p' /\ r = r'.
Proof.
  intros Hp Hp' Hr Hr'. revert p' Hp'. induction Hp as [|c p Hc _ IH]; intros p' Hp' E.
  - destruct Hp' as [|c p' Hc _]; [done|]. cbn in E. subst r. congruence.
  - destruct Hp' as [|c' p' Hc' Hp'].
    + cbn in E. subst r'. congruence.
    + injection E as -> E. destruct (IH p' Hp' E) as [-> ->]. done.
Qed.

Lemma read_digits_app p rest :
  Forall (fun c => is_Some (to_digit 10 c)) p -> match rest with c :: _ => to_digit 10 c = None | [] => True end ->
  read_digits 10 (p ++ rest) = ((read_digits 10 p).1, rest).
Proof.
  intros Hp Hr. induction Hp as [|c p [d Hd] _ IH]; cbn [app read_digits].
  - destruct rest as [|c rest]; [done|]. cbn. by rewrite Hr.
  - rewrite Hd, IH. by destruct (read_digits 10 p).
Qed.

(** What [show_N] prints for an octet is read back. *)
Definition octet_ok (n : N) : bool :=
  forallb (fun c => match to_digit 10 c with Some _ => true | None => false end) (show_N n)
  && bool_decide (read_number 10 (Some 3) false 255 (show_N n) = Some (Z.of_N n, [])).
Lemma octets_ok : forallb octet_ok (map N.of_nat (seq 0 256)) = true.
Proof. vm_compute. reflexivity. Qed.

Lemma read_octet n rest :
  (n < 256)%N -> match rest with c :: _ => to_digit 10 c = None | [] => True end ->
  read_number 10 (Some 3) false 255 (show_N n ++ rest) = Some (Z.of_N n, rest).
Proof.
  intros Hn Hr. pose proof octets_ok as Hok. rewrite forallb_forall in Hok.
  assert (Hin : In n (map N.of_nat (seq 0 256)))
    by (apply in_map_iff; exists (N.to_nat n); rewrite in_seq; lia).
  apply Hok, andb_prop in Hin as [Hd Hv]. apply bool_decide_eq_true in Hv.
  unfold read_number in *. rewrite read_digits_app; [|clear Hv|done].
  - destruct (read_digits 10 (show_N n)) as [ds r]. cbn [fst].
    destruct (_ || _ || _ || _); [done|]. injection Hv as -> _. done.
  - rewrite forallb_forall in Hd. apply Forall_forall. intros c Hc.
    apply list_elem_of_In, Hd in Hc. by destruct (to_digit 10 c).
Qed.

Lemma read_dot rest : read_given_char dot (dot :: rest) = Some (tt, rest).
Proof. done. Qed.

(** Every IPv4 address is read back from its text. *)
Lemma ipv4_roundtrip a b c d :
  (a < 256)%N -> (b < 256)%N -> (c < 256)%N -> (d < 256)%N ->
  parse_ip (show_ipv4 a b c d) = Some (IpV4 [Z.of_N a; Z.of_N b; Z.of_N c; Z.of_N d]).
Proof.
  intros Ha Hb Hc Hd. unfold parse_ip, parse_all, read_ip_addr, or_else, read_map, read_then at 1.
  unfold read_ipv4_addr, show_ipv4, read_octets, read_separator, read_then, read_pure. cbn [Nat.eqb app].
  rewrite read_octet by done. cbn beta iota. rewrite read_dot. cbn beta iota.
  rewrite read_octet by done. cbn beta iota. rewrite read_dot. cbn beta iota.
  rewrite read_octet by done. cbn beta iota. rewrite read_dot. cbn beta iota.
  rewrite <- (app_nil_r (show_N d)), read_octet by done. done.
Qed.

(** Text that starts with a bracket is no address without a port. *)
Lemma bracket_no_ip s : parse_ip (Byte.x5b :: s) = None.
Proof. vm_compute. by destruct s. Qed.

Lemma read_groups_length more index s : length (read_groups more index s).1.1 <= more.
Proof.
  revert index s. induction more as [|more IH]; intros index s; cbn [read_groups]; [done|].
  destruct (0 <? more)%nat eqn:El; [apply Nat.ltb_lt in El|].
  - destruct (read_separator colon index read_ipv4_addr s) as [[o r]|]; [cbn; lia|].
    destruct (read_separator colon index _ s) as [[g r]|]; [|cbn; lia].
    specialize (IH (S index) r). destruct (read_groups more (S index) r) as [[gs v] r']. cbn in *. lia.
  - destruct (read_separator colon index _ s) as [[g r]|]; [|cbn; lia].
    specialize (IH (S index) r). destruct (read_groups more (S index) r) as [[gs v] r']. cbn in *. lia.
Qed.

(** An IPv6 address has eight segments. *)
Lemma ipv6_segments s a rest : read_ipv6_addr s = Some (a, rest) -> length a = 8.
Proof.
  unfold read_ipv6_addr. pose proof (read_groups_length 8 0 s) as Hh.
  destruct (read_groups 8 0 s) as [[head v4] r]. cbn [fst] in Hh.
  destruct (length head =? 8)%nat eqn:E8; [apply Nat.eqb_eq in E8; by intros [= <- _]|].
  apply Nat.eqb_neq in E8. destruct v4; [done|]. destruct r as [|c [|c' r]]; [done|done|].
  destruct (_ && _); [|done]. pose proof (read_groups_length (8 - (length head + 1)) 0 r) as Ht.
  destruct (read_groups (8 - (length head + 1)) 0 r) as [[tail v] r']. cbn [fst] in Ht.
  intros [= <- _]. rewrite !length_app, repeat_length. lia.
Qed.

Example addresses :
  parse_ip #"127.0.0.1" = Some (IpV4 [127; 0; 0; 1]%Z) /\ parse_ip #"127.0.0.01" = None
  /\ parse_ip #"::1" = Some (IpV6 [0; 0; 0; 0; 0; 0; 0; 1]%Z)
  /\ parse_ip #"fe80::1:192.0.2.1" = Some (IpV6 [0xfe80; 0; 0; 0; 0; 1; 0xc000; 0x201]%Z)
  /\ parse_socket_addr #"0.0.0.0:50052" = Some (mkSocketAddr (IpV4 [0; 0; 0; 0]%Z) 50052)
  /\ parse_socket_addr #"[::1]:50052" = Some (mkSocketAddr (IpV6 [0; 0; 0; 0; 0; 0; 0; 1]%Z) 50052).
Proof. vm_compute. repeat split. Qed.

Example paths :
  set_file_name #"/var/lib/broker.sled" #"k" = #"/var/lib/k" /\ set_file_name #"/db//./" #"k" = #"/k"
  /\ set_file_name #"db" #"k" = #"k" /\ set_file_name #"." #"k" = #"./k" /\ set_file_name #"/a/.." #"k" = #"/a/../k"
  /\ path_parent #"/a" = Some #"/" /\ path_parent #"/" = None /\ path_parent #"a//b/" = Some #"a".
Proof. vm_compute. repeat split. Qed.
