(* ===== verification/Externals.v ===== *)
(** Interfaces of the third-party crates the broker calls for text encodings,
    dates and hashing, and the documented facts about them the code relies
    on.  [Reference] is a small executable instance of the interfaces: it
    shows that the stated facts can hold together and lets the theorems be
    evaluated on concrete inputs. *)

From S2P Require Import Prelude RustStd.

(** ** Interfaces *)

(** The alphabets of [base64]'s STANDARD and URL_SAFE_NO_PAD engines. *)
Definition b64_char (b : byte) : bool :=
  in_range 0x41 0x5a b || in_range 0x61 0x7a b || in_range 0x30 0x39 b
  || bool_decide (b ∈ #"+/=").
Definition b64url_char (b : byte) : bool :=
  in_range 0x41 0x5a b || in_range 0x61 0x7a b || in_range 0x30 0x39 b
  || bool_decide (b ∈ #"-_").
(** Lower-case hexadecimal digits and hyphens. *)
Definition uuid_char (b : byte) : bool :=
  in_range 0x30 0x39 b || in_range 0x61 0x66 b || in_range 0x2d 0x2d b.

(** Crates [base64] (two engines), [hex], [chrono] (dates, in nanoseconds
    since the epoch) and [uuid]. *)
Class TextCodecs := {
  b64_encode : bytes -> str;
  b64_decode : str -> option bytes;
  b64url_encode : bytes -> str;
  b64url_decode : str -> option bytes;
  hex_encode : bytes -> str;
  uuid_to_string : uuid -> str;
  to_rfc3339 : datetime -> str;
  parse_rfc3339 : str -> option datetime;
  datetime_min : datetime;
  datetime_max : datetime;
}.

(** Years 0 to 9999, the dates RFC 3339 can express. *)
Definition rfc3339_range (t : datetime) : Prop :=
  (-62167219200 * 10^9 <= t < 253402300800 * 10^9)%Z.

Class TextCodecsLaws `{TextCodecs} : Prop := {
  b64_roundtrip d : b64_decode (b64_encode d) = Some d;
  b64_longer d : d <> [] -> length d < length (b64_encode d);
  b64_alphabet d : Forall (fun b => b64_char b = true) (b64_encode d);
  b64url_roundtrip d : b64url_decode (b64url_encode d) = Some d;
  b64url_alphabet d : Forall (fun b => b64url_char b = true) (b64url_encode d);
  hex_graphic d : Forall (fun b => graphic b = true) (hex_encode d);
  hex_inj d1 d2 : hex_encode d1 = hex_encode d2 -> d1 = d2;
  uuid_alphabet u : Forall (fun b => uuid_char b = true) (uuid_to_string u);
  rfc3339_graphic t : Forall (fun b => graphic b = true) (to_rfc3339 t);
  rfc3339_roundtrip t : rfc3339_range t -> parse_rfc3339 (to_rfc3339 t) = Some t;
  datetime_range t : rfc3339_range t -> (datetime_min <= t <= datetime_max)%Z;
}.

(** Crate [hex]: two lower-case digits per byte. *)
Class HexLaws `{TextCodecs} : Prop := {
  hex_length d : length (hex_encode d) = 2 * length d;
  hex_lower d : Forall (fun b => in_range 0x30 0x39 b || in_range 0x61 0x66 b = true) (hex_encode d);
  hex_injective d d' : hex_encode d = hex_encode d' -> d = d';
}.

(** Crates [hmac] and [sha2].  [update] calls append to the message. *)
Class Hashes := {
  hmac_sha256 : bytes -> bytes -> bytes;
  sha256 : bytes -> bytes;
}.

Class HashesLaws `{Hashes} : Prop := {
  hmac_length k d : length (hmac_sha256 k d) = 32;
  sha256_length d : length (sha256 d) = 32;
}.

(** Crate [serde_json]: [json_text] prints a structure from its fields in
    declaration order ([to_string] of a [Serialize] type), [json_parse] is
    [from_str::<Value>], and [datetime_json] is [chrono]'s serialised date. *)
Class JsonText := {
  json_text : list (str * json) -> str;
  json_parse : str -> option json;
  datetime_json : datetime -> str;
}.

Class JsonTextLaws `{JsonText} : Prop := {
  (** compact printing puts no control character outside escapes *)
  json_text_braces fs : exists body, json_text fs = #"{" ++ body ++ #"}";
  json_text_plain fs : Forall (fun b => plain b = true) (json_text fs);
  json_text_utf8 fs : Forall (fun f => utf8_valid f.1 = true /\ printable f.2 = true) fs ->
    utf8_valid (json_text fs) = true;
  json_text_parse fs :
    NoDup (map fst fs) -> Forall (fun f => utf8_valid f.1 = true /\ printable f.2 = true) fs ->
    exists m, json_parse (json_text fs) = Some (JObject m)
      /\ forall k v, obj_get k fs = Some v -> json_exact v = true -> obj_get k m = Some v;
  datetime_json_utf8 t : utf8_valid (datetime_json t) = true;
}.

(** ** Dates

    [Duration::seconds] panics beyond [i64::MAX / 1000] seconds and
    [DateTime + Duration] panics outside the representable dates. *)

Definition ns_per_sec : Z := (10^9)%Z.

Definition duration_seconds {E} (s : Z) : result E duration :=
  if (Z.abs s <=? (2^63 - 1) / 1000)%Z then Ok (s * ns_per_sec)%Z else Panic.

Definition num_seconds (d : duration) : Z := Z.quot d ns_per_sec.

Section Dates.
Context `{TextCodecs}.

Definition add_duration {E} (t : datetime) (d : duration) : result E datetime :=
  let t' := (t + d)%Z in
  if (datetime_min <=? t')%Z && (t' <=? datetime_max)%Z then Ok t' else Panic.

(** [DateTime::timestamp] (whole seconds, rounded down) and
    [DateTime::from_timestamp(secs, 0)]. *)
Definition timestamp (t : datetime) : Z := (t / ns_per_sec)%Z.

Definition from_timestamp (secs : Z) : option datetime :=
  let t := (secs * ns_per_sec)%Z in
  if (datetime_min <=? t)%Z && (t <=? datetime_max)%Z then Some t else None.
End Dates.

(** ** Consequences *)

Section Consequences.
Context `{TextCodecsLaws}.

Lemma b64_char_graphic b : b64_char b = true -> graphic b = true.
Proof.
  unfold b64_char, graphic, in_range. intros Hb. apply orb_prop in Hb as [Hb|Hb].
  - repeat apply orb_prop in Hb as [Hb|Hb]; bool_to_prop;
      apply andb_true_intro; split; apply Z.leb_le; lia.
  - apply bool_decide_eq_true in Hb. unfold lit in Hb. cbn in Hb.
    repeat (apply elem_of_cons in Hb as [->|Hb]; [done|]). by apply elem_of_nil in Hb.
Qed.

Lemma b64url_char_graphic b : b64url_char b = true -> graphic b = true /\ b <> Byte.x3a.
Proof.
  unfold b64url_char, graphic, in_range. intros Hb. apply orb_prop in Hb as [Hb|Hb].
  - split.
    + repeat apply orb_prop in Hb as [Hb|Hb]; bool_to_prop;
        apply andb_true_intro; split; apply Z.leb_le; lia.
    + intros ->. done.
  - apply bool_decide_eq_true in Hb. unfold lit in Hb. cbn in Hb.
    repeat (apply elem_of_cons in Hb as [->|Hb]; [done|]). by apply elem_of_nil in Hb.
Qed.

Lemma b64_nonempty d : d <> [] -> b64_encode d <> [].
Proof. intros Hd%b64_longer E. rewrite E in Hd. cbn in Hd. lia. Qed.

Lemma uuid_graphic u : Forall (fun b => graphic b = true) (uuid_to_string u).
Proof.
  eapply Forall_impl; [apply uuid_alphabet|]. intros b. unfold uuid_char, graphic, in_range. intros Hb.
  repeat apply orb_prop in Hb as [Hb|Hb]; bool_to_prop; apply andb_true_intro; split; apply Z.leb_le; lia.
Qed.

Lemma b64_graphic d : Forall (fun b => graphic b = true) (b64_encode d).
Proof. eapply Forall_impl; [apply b64_alphabet|]. apply b64_char_graphic. Qed.

Lemma b64url_graphic d : Forall (fun b => graphic b = true) (b64url_encode d).
Proof. eapply Forall_impl; [apply b64url_alphabet|]. intros b Hb. by apply b64url_char_graphic. Qed.

Lemma b64url_no_colon d : Byte.x3a ∉ b64url_encode d.
Proof.
  intros Hin. pose proof (b64url_alphabet d) as HF.
  rewrite Forall_forall in HF. by apply HF, b64url_char_graphic in Hin as [_ Hin].
Qed.

Lemma b64_encode_inj d1 d2 : b64_encode d1 = b64_encode d2 -> d1 = d2.
Proof. intros E. apply (f_equal b64_decode) in E. rewrite !b64_roundtrip in E. by injection E. Qed.

Lemma add_duration_ok {E} t d :
  rfc3339_range (t + d) -> @add_duration _ E t d = Ok (t + d)%Z.
Proof.
  intros R%datetime_range. unfold add_duration.
  by rewrite (proj2 (Z.leb_le _ _)), (proj2 (Z.leb_le _ _)) by lia.
Qed.
End Consequences.
#[export] Hint Resolve b64_graphic b64url_graphic hex_graphic uuid_graphic rfc3339_graphic graphic_utf8 : broker.
#[export] Hint Rewrite @b64_roundtrip @b64url_roundtrip using typeclasses eauto : broker_rw.
