(* ===== verification/Reference.v ===== *)
(** An executable instance of the interfaces of [Externals]: hexadecimal text
    codecs and a toy hash.  It is used only to evaluate the model on concrete
    inputs; no theorem about the broker depends on it. *)

From S2P Require Import Prelude RustStd Externals.

Module Reference.

Definition hex_digit (n : Z) : byte := if (n <? 10)%Z then to_u8 (48 + n) else to_u8 (87 + n).
Definition hex_value (b : byte) : option Z :=
  if in_range 0x30 0x39 b then Some (u8 b - 48)%Z
  else if in_range 0x61 0x66 b then Some (u8 b - 87)%Z else None.

Definition hex_byte (b : byte) : str := [hex_digit (u8 b / 16); hex_digit (u8 b mod 16)].
Definition hex (d : bytes) : str := mjoin (hex_byte <$> d).

Fixpoint unhex (s : str) : option bytes :=
  match s with
  | [] => Some []
  | a :: b :: s =>
    match hex_value a, hex_value b, unhex s with
    | Some x, Some y, Some d => Some (to_u8 (16 * x + y) :: d)
    | _, _, _ => None
    end
  | [_] => None
  end.

(** Dates are shifted to be positive and printed as 16 little-endian bytes. *)
Definition date_shift : Z := (2^100)%Z.
Definition print_date (t : datetime) : str := hex (le_bytes 16 (t + date_shift)).
Definition parse_date (s : str) : option datetime :=
  match unhex s with
  | Some d => Some (of_le_bytes d - date_shift)%Z
  | None => None
  end.

Fixpoint mix (h : Z) (d : bytes) : Z :=
  match d with
  | [] => h
  | b :: d => mix ((h * 1000003 + u8 b + 7) mod 2^256)%Z d
  end.
Definition toy_hash (k d : bytes) : bytes := le_bytes 32 (mix (mix 5381 k * 65599 + 1)%Z d).

#[export] Instance text : TextCodecs := {
  b64_encode := hex; b64_decode := unhex;
  b64url_encode := hex; b64url_decode := unhex;
  hex_encode := hex; uuid_to_string := hex;
  to_rfc3339 := print_date; parse_rfc3339 := parse_date;
  datetime_min := - 10^24; datetime_max := 10^24 }.

#[export] Instance hashes : Hashes := { hmac_sha256 := toy_hash; sha256 := toy_hash [] }.

Lemma unhex_hex_byte b s : unhex (hex_byte b ++ s) = (cons b) <$> unhex s.
Proof. destruct b; reflexivity. Qed.

Lemma unhex_hex d : unhex (hex d) = Some d.
Proof.
  induction d as [|b d IH]; [done|].
  change (hex (b :: d)) with (hex_byte b ++ hex d). by rewrite unhex_hex_byte, IH.
Qed.

Definition hex_char (b : byte) : bool := in_range 0x30 0x39 b || in_range 0x61 0x66 b.

Lemma hex_chars d : Forall (fun b => hex_char b = true) (hex d).
Proof.
  induction d as [|b d IH]; [constructor|].
  change (hex (b :: d)) with (hex_byte b ++ hex d). apply Forall_app. split; [|done].
  destruct b; repeat constructor.
Qed.

Lemma hex_char_cases b : hex_char b = true ->
  b64_char b = true /\ b64url_char b = true /\ graphic b = true /\ uuid_char b = true.
Proof. destruct b; vm_compute; auto; discriminate. Qed.

Lemma hex_forall (P : byte -> bool) d :
  (forall b, hex_char b = true -> P b = true) -> Forall (fun b => P b = true) (hex d).
Proof. intros H. eapply Forall_impl; [apply hex_chars|]. exact H. Qed.

Lemma hex_longer d : d <> [] -> length d < length (hex d).
Proof.
  assert (HL : length (hex d) = 2 * length d).
  { induction d as [|b d IH]; [done|].
    change (hex (b :: d)) with (hex_byte b ++ hex d). rewrite length_app, IH. cbn. lia. }
  rewrite HL. destruct d; [done|cbn; lia].
Qed.

#[export] Instance text_laws : TextCodecsLaws.
Proof.
  split; intros; simpl.
  1,4: apply unhex_hex.
  - by apply hex_longer.
  - apply hex_forall; intros ? ?%hex_char_cases; tauto.
  - apply hex_forall; intros ? ?%hex_char_cases; tauto.
  - apply hex_forall; intros ? ?%hex_char_cases; tauto.
  - apply (f_equal unhex) in H. rewrite !unhex_hex in H. by injection H.
  - apply hex_forall; intros ? ?%hex_char_cases; tauto.
  - apply hex_forall; intros ? ?%hex_char_cases; tauto.
  - unfold parse_date, print_date. rewrite unhex_hex, of_le_bytes_le_bytes. f_equal.
    unfold rfc3339_range, date_shift in *. rewrite Z.mod_small; lia.
  - unfold rfc3339_range in *. lia.
Qed.

#[export] Instance hashes_laws : HashesLaws.
Proof. split; intros; apply length_le_bytes. Qed.

(** ** A self-delimiting binary codec, the stand-in for serialisation *)

Class Codec (A : Type) := { enc : A -> bytes; dec : bytes -> option (A * bytes) }.
Class CodecLaws A `{Codec A} : Prop := dec_enc (a : A) r : dec (enc a ++ r) = Some (a, r).

Section Sequences.
Context {A : Type} (e : A -> bytes) (d : bytes -> option (A * bytes)).

Fixpoint enc_seq (l : list A) : bytes :=
  match l with [] => [Byte.x00] | a :: l => Byte.x01 :: e a ++ enc_seq l end.

Fixpoint dec_seq (fuel : nat) (s : bytes) : option (list A * bytes) :=
  match fuel, s with
  | S n, Byte.x00 :: r => Some ([], r)
  | S n, Byte.x01 :: r =>
    match d r with
    | Some (a, r) => match dec_seq n r with Some (l, r) => Some (a :: l, r) | None => None end
    | None => None
    end
  | _, _ => None
  end.

Lemma dec_seq_enc l : forall n r, length (enc_seq l) <= n ->
  Forall (fun a => forall r, d (e a ++ r) = Some (a, r)) l ->
  dec_seq n (enc_seq l ++ r) = Some (l, r).
Proof.
  induction l as [|a l IH]; intros [|n] r Hn HF; cbn in Hn; try lia; [done|].
  apply Forall_cons in HF as [Ha HF]. cbn. rewrite <- app_assoc, Ha.
  rewrite IH; [done| |done]. rewrite length_app in Hn. lia.
Qed.
End Sequences.

#[export] Instance byte_codec : Codec byte :=
  { enc b := [b]; dec s := match s with b :: r => Some (b, r) | [] => None end }.
#[export] Instance byte_codec_laws : CodecLaws byte.
Proof. done. Qed.

#[export] Instance list_codec `{Codec A} : Codec (list A) :=
  { enc := enc_seq enc; dec s := dec_seq dec (length s) s }.
#[export] Instance list_codec_laws `{CodecLaws A} : CodecLaws (list A).
Proof.
  intros l r. cbn. apply dec_seq_enc; [rewrite length_app; lia|].
  apply Forall_forall. intros a _ r'. apply dec_enc.
Qed.

Definition z_bytes (z : Z) : bytes := le_bytes (Z.to_nat (Z.log2 (Z.abs z) / 8 + 1)) (Z.abs z).
Definition enc_Z (z : Z) : bytes :=
  (if (z <? 0)%Z then Byte.x01 else Byte.x00) :: enc (z_bytes z).
Definition dec_Z (s : bytes) : option (Z * bytes) :=
  match s with
  | b :: r =>
    match dec (A := list byte) r with
    | Some (l, r) => Some ((if decide (b = Byte.x00) then 1 else -1) * of_le_bytes l, r)%Z
    | None => None
    end
  | [] => None
  end.
#[export] Instance Z_codec : Codec Z := { enc := enc_Z; dec := dec_Z }.
Lemma z_bytes_abs z : of_le_bytes (z_bytes z) = Z.abs z.
Proof.
  unfold z_bytes. rewrite of_le_bytes_le_bytes. apply Z.mod_small.
  pose proof (Z.log2_nonneg (Z.abs z)). split; [lia|].
  rewrite Z2Nat.id by (pose proof (Z.div_pos (Z.log2 (Z.abs z)) 8); lia).
  change 256%Z with (2^8)%Z.
  assert (Hd : (Z.log2 (Z.abs z) < 8 * (Z.log2 (Z.abs z) / 8 + 1))%Z).
  { pose proof (Z.div_mod (Z.log2 (Z.abs z)) 8). pose proof (Z.mod_pos_bound (Z.log2 (Z.abs z)) 8). lia. }
  assert (0 <= Z.log2 (Z.abs z) / 8)%Z by (apply Z.div_pos; lia).
  rewrite <- Z.pow_mul_r by lia.
  destruct (Z.eq_dec z 0%Z) as [->|Hz]; [done|]. apply Z.log2_lt_pow2; lia.
Qed.
#[export] Instance Z_codec_laws : CodecLaws Z.
Proof.
  intros z r. change (dec_Z (enc_Z z ++ r) = Some (z, r)). unfold enc_Z, dec_Z. cbn [app].
  rewrite dec_enc, z_bytes_abs. destruct (Z.ltb_spec z 0%Z).
  - rewrite decide_False by done. do 2 f_equal. lia.
  - rewrite decide_True by done. do 2 f_equal. lia.
Qed.

#[export] Instance bool_codec : Codec bool :=
  { enc b := [if b : bool then Byte.x01 else Byte.x00];
    dec s := match s with b :: r => Some (bool_decide (b = Byte.x01), r) | [] => None end }.
#[export] Instance bool_codec_laws : CodecLaws bool.
Proof. by intros []. Qed.

#[export] Instance option_codec `{Codec A} : Codec (option A) :=
  { enc o := match o with Some a => Byte.x01 :: enc a | None => [Byte.x00] end;
    dec s := match s with
      | Byte.x00 :: r => Some (None, r)
      | _ :: r => match dec r with Some (a, r) => Some (Some a, r) | None => None end
      | [] => None end }.
#[export] Instance option_codec_laws `{CodecLaws A} : CodecLaws (option A).
Proof. intros [a|] r; cbn; [by rewrite dec_enc|done]. Qed.

#[export] Instance prod_codec `{Codec A, Codec B} : Codec (A * B) :=
  { enc p := enc p.1 ++ enc p.2;
    dec s := match dec s with
      | Some (a, r) => match dec r with Some (b, r) => Some ((a, b), r) | None => None end
      | None => None end }.
#[export] Instance prod_codec_laws `{CodecLaws A, CodecLaws B} : CodecLaws (A * B).
Proof. intros [a b] r. cbn. by rewrite <- app_assoc, !dec_enc. Qed.

Fixpoint enc_json (j : json) : bytes :=
  match j with
  | JNull => [Byte.x00]
  | JBool b => Byte.x01 :: enc b
  | JNumber (PosInt n) => Byte.x02 :: enc n
  | JNumber (NegInt n) => Byte.x03 :: enc n
  | JNumber (Float n) => Byte.x04 :: enc n
  | JString s => Byte.x05 :: enc s
  | JArray l => Byte.x06 :: enc_seq enc_json l
  | JObject m => Byte.x07 :: enc_seq (fun kv => enc kv.1 ++ enc_json kv.2) m
  end.

Definition tagged {A B} (f : A -> B) (o : option (A * bytes)) : option (B * bytes) :=
  match o with Some (a, r) => Some (f a, r) | None => None end.

Fixpoint dec_json (fuel : nat) (s : bytes) : option (json * bytes) :=
  match fuel, s with
  | S n, Byte.x00 :: r => Some (JNull, r)
  | S n, Byte.x01 :: r => tagged JBool (dec r)
  | S n, Byte.x02 :: r => tagged (fun n => JNumber (PosInt n)) (dec r)
  | S n, Byte.x03 :: r => tagged (fun n => JNumber (NegInt n)) (dec r)
  | S n, Byte.x04 :: r => tagged (fun n => JNumber (Float n)) (dec r)
  | S n, Byte.x05 :: r => tagged JString (dec r)
  | S n, Byte.x06 :: r => tagged JArray (dec_seq (dec_json n) (length r) r)
  | S n, Byte.x07 :: r => tagged JObject (dec_seq (fun s =>
      match dec s with Some (k, r) => tagged (pair k) (dec_json n r) | None => None end) (length r) r)
  | _, _ => None
  end.

Lemma dec_json_enc j : forall n r, json_depth j < n -> dec_json n (enc_json j ++ r) = Some (j, r).
Proof.
  induction j as [|b|[x|x|x]|s|l IH|m IH] using json_ind_nested; intros [|n] r Hn;
    try (cbn in Hn; lia); cbn [enc_json app dec_json].
  1,3-5: done || (rewrite dec_enc; done).
  - by destruct b.
  - by rewrite dec_enc.
  - cbn [json_depth] in Hn. rewrite dec_seq_enc; [done|rewrite length_app; lia|].
    assert (Hd : foldr (fun x k => Nat.max (json_depth x) k) 0 l < n) by lia. clear Hn.
    induction IH as [|x l Hx HF IHl]; [constructor|]. cbn in Hd.
    constructor; [intros; apply Hx; lia|apply IHl; lia].
  - cbn [json_depth] in Hn. rewrite dec_seq_enc; [done|rewrite length_app; lia|].
    assert (Hd : foldr (fun kv k => Nat.max (json_depth kv.2) k) 0 m < n) by lia. clear Hn.
    induction IH as [|[k x] m Hx HF IHm]; [constructor|]. cbn in Hd, Hx.
    constructor; [intros; cbn [fst snd]; rewrite <- app_assoc, dec_enc, Hx by lia; done|apply IHm; lia].
Qed.

Lemma json_depth_length j : json_depth j < length (enc_json j).
Proof.
  induction j as [|b|[x|x|x]|s|l IH|m IH] using json_ind_nested; cbn [json_depth enc_json length]; try lia.
  - apply -> Nat.succ_lt_mono. induction IH as [|x l Hx HF IHl]; [cbn; lia|].
    cbn [foldr enc_seq length]. rewrite length_app. lia.
  - apply -> Nat.succ_lt_mono. induction IH as [|[k x] m Hx HF IHm]; [cbn; lia|].
    cbn [snd] in Hx. cbn [foldr enc_seq length fst snd]. rewrite !length_app. lia.
Qed.

#[export] Instance json_codec : Codec json :=
  { enc := enc_json; dec s := dec_json (length s) s }.
#[export] Instance json_codec_laws : CodecLaws json.
Proof.
  intros j r. change (dec_json (length (enc_json j ++ r)) (enc_json j ++ r) = Some (j, r)).
  apply dec_json_enc. pose proof (json_depth_length j). rewrite length_app. lia.
Qed.

(** Fields in braces, hexadecimal. *)
Definition toy_text (fs : list (str * json)) : str := #"{" ++ hex (enc fs) ++ #"}".
Definition toy_parse (s : str) : option json :=
  match s with
  | _ :: r => match unhex (removelast r) with
      | Some d => match dec (A := list (str * json)) d with
          | Some (fs, _) => Some (JObject fs)
          | None => None end
      | None => None end
  | [] => None
  end.

#[export] Instance json_text_instance : JsonText :=
  { json_text := toy_text; json_parse := toy_parse; datetime_json := print_date }.

Lemma toy_parse_text fs : toy_parse (toy_text fs) = Some (JObject fs).
Proof.
  unfold toy_text, toy_parse. change #"{" with [Byte.x7b]. change #"}" with [Byte.x7d].
  cbn [app]. rewrite removelast_last, unhex_hex.
  rewrite <- (app_nil_r (enc fs)), dec_enc. done.
Qed.

Lemma toy_text_plain fs : Forall (fun b => plain b = true) (toy_text fs).
Proof.
  unfold toy_text. apply Forall_app. split; [by repeat constructor|].
  apply Forall_app. split; [|by repeat constructor].
  apply hex_forall. intros b. destruct b; vm_compute; auto; discriminate.
Qed.

Lemma hex_utf8 d : utf8_valid (hex d) = true.
Proof. apply graphic_utf8, hex_forall. intros ? ?%hex_char_cases; tauto. Qed.

#[export] Instance json_text_laws : JsonTextLaws.
Proof.
  split.
  - intros fs. exists (hex (enc fs)). reflexivity.
  - apply toy_text_plain.
  - intros fs _. apply utf8_valid_app_true; [done|]. apply utf8_valid_app_true; [apply hex_utf8|done].
  - intros fs _ _. exists fs. split; [apply toy_parse_text|auto].
  - intros t. apply hex_utf8.
Qed.

#[export] Instance toy_hex_laws : HexLaws.
Proof.
  split.
  - intros d. change (length (hex d) = 2 * length d). induction d as [|b d IH]; [done|].
    change (hex (b :: d)) with (hex_byte b ++ hex d). rewrite length_app, IH. cbn [length hex_byte]. lia.
  - intros d. apply hex_chars.
  - intros d d' E. cbn in E. apply (f_equal unhex) in E. rewrite !unhex_hex in E. by injection E.
Qed.

End Reference.
