(* ===== verification/Macaroon.v ===== *)
(** Chained-HMAC macaroons (macaroon_caveats.rs): caveats and their text
    form, the macaroon and its HMAC chain, discharge macaroons, and the
    verifier that checks caveats against a request.  The wire formats of both
    kinds of macaroon are in [MacaroonWire]. *)

From S2P Require Import Prelude RustStd Externals Reference.

Inductive MacaroonError :=
| InvalidFormat
| SignatureInvalid
| CaveatFailed (msg : str)
| Expired
| UnknownCaveat (key : str).

Inductive Caveat :=
| TenantId (v : str)
| Provider (v : str)
| Expires (t : datetime)
| CircuitId (v : str)
| NodeId (v : str)
| Action (v : str)
| MaxUses
| ThirdParty (location key_id : str).

Record Macaroon := mkMacaroon {
  identifier : uuid;
  caveats : list str;
  signature : bytes;
}.

Record DischargeMacaroon := mkDischarge {
  location : str;
  condition : str;
  expires_at : option datetime;
  discharge_signature : bytes;
  binding : bytes;
}.

Record DischargeKeyRef := mkDischargeKeyRef {
  key_location : str;
  key_id : str;
  key_condition : str;
  key : bytes;
}.

Record CaveatVerifier := mkVerifier {
  v_tenant_id : option str;
  v_provider : option str;
  v_circuit_id : option str;
  v_node_id : option str;
  v_action : option str;
  use_count : Z;
  now : datetime;
  discharges : list DischargeMacaroon;
  discharge_keys : list DischargeKeyRef;
}.

Section Macaroons.
Context `{TextCodecs} `{Hashes}.

(** ** Caveats *)

Definition encode (c : Caveat) : str :=
  match c with
  | TenantId v => #"tenant_id = " ++ v
  | Provider v => #"provider = " ++ v
  | Expires t => #"expires = " ++ to_rfc3339 t
  | CircuitId v => #"circuit_id = " ++ v
  | NodeId v => #"node_id = " ++ v
  | Action v => #"action = " ++ v
  | MaxUses => #"max_uses = 1"
  | ThirdParty location key_id =>
    #"3p = v3:" ++ b64url_encode location ++ #":" ++ b64url_encode key_id
  end.

(** [String::from_utf8(URL_SAFE_NO_PAD.decode(..)?)?] *)
Definition decode_url_string (s : str) : result MacaroonError str :=
  let! raw := ok_or (b64url_decode s) InvalidFormat in
  ok_or (from_utf8 raw) InvalidFormat.

Definition parse_third_party (value : str) : result MacaroonError Caveat :=
  let! encoded := ok_or (strip_prefix #"v3:" value) InvalidFormat in
  let! (location, key_id) := ok_or (split_once #":" encoded) InvalidFormat in
  let! _ := guard (contains_byte Byte.x3a key_id) InvalidFormat in
  let! location := decode_url_string location in
  let! key_id := decode_url_string key_id in
  let! _ := guard (is_empty location || is_empty key_id) InvalidFormat in
  Ok (ThirdParty location key_id).

Definition parse_max_uses (value : str) : result MacaroonError Caveat :=
  let! n := ok_or (parse_unsigned u32_max value) InvalidFormat in
  if (n =? 1)%Z then Ok MaxUses
  else Err (CaveatFailed (#"max_uses only supports value 1, got " ++ show_N (Z.to_N n))).

Definition parse (s : str) : result MacaroonError Caveat :=
  let! (key, value) := ok_or (split_once #" = " s) InvalidFormat in
  if str_eqb key #"tenant_id" then Ok (TenantId value)
  else if str_eqb key #"provider" then Ok (Provider value)
  else if str_eqb key #"expires" then
    let! t := ok_or (parse_rfc3339 value) InvalidFormat in Ok (Expires t)
  else if str_eqb key #"circuit_id" then Ok (CircuitId value)
  else if str_eqb key #"node_id" then Ok (NodeId value)
  else if str_eqb key #"action" then Ok (Action value)
  else if str_eqb key #"max_uses" then parse_max_uses value
  else if str_eqb key #"3p" then parse_third_party value
  else Err (UnknownCaveat key).

(** ** The HMAC chain *)

Definition hmac_compute (k d : bytes) : bytes := hmac_sha256 k d.

(** [for c in caveats { sig = hmac_compute(&sig, c) }] *)
Definition chain (sig : bytes) (cs : list str) : bytes := foldl hmac_compute sig cs.

Definition root_sig (root_key : bytes) (identifier : uuid) : bytes :=
  hmac_compute root_key identifier.

Definition mint (root_key : bytes) (identifier : uuid) (cs : list Caveat) : Macaroon :=
  let caveat_strings := map encode cs in
  mkMacaroon identifier caveat_strings (chain (root_sig root_key identifier) caveat_strings).

Definition add_caveat (m : Macaroon) (c : Caveat) : Macaroon :=
  let encoded := encode c in
  mkMacaroon (identifier m) (caveats m ++ [encoded]) (hmac_compute (signature m) encoded).

Definition verify_signature (m : Macaroon) (root_key : bytes) : result MacaroonError unit :=
  let sig := chain (root_sig root_key (identifier m)) (caveats m) in
  if str_eqb sig (signature m) then Ok tt else Err SignatureInvalid.

(** The signature after each caveat: [caveat_signatures] of [verify]. *)
Fixpoint caveat_signatures (sig : bytes) (cs : list str) : list bytes :=
  match cs with
  | [] => []
  | c :: cs => let sig := hmac_compute sig c in sig :: caveat_signatures sig cs
  end.

(** ** Discharges *)

Definition mint_with_expiry (location condition : str) (discharge_key primary_signature : bytes)
    (expires_at : option datetime) : DischargeMacaroon :=
  let discharge_signature := hmac_compute discharge_key condition in
  let binding := hmac_compute primary_signature discharge_signature in
  mkDischarge location condition expires_at discharge_signature binding.

Definition bind_discharge (d : DischargeMacaroon) (primary_signature : bytes) : bytes :=
  hmac_compute primary_signature (discharge_signature d).

Definition discharge_verify (d : DischargeMacaroon) (condition : str)
    (discharge_key primary_signature : bytes) (now : datetime) : result MacaroonError unit :=
  let! _ := guard (match expires_at d with Some deadline => (deadline <? now)%Z | None => false end)
              Expired in
  let expected := hmac_compute discharge_key condition in
  let! _ := guard (negb (str_eqb expected (discharge_signature d)))
              (CaveatFailed #"discharge signature invalid") in
  let expected_binding := bind_discharge d primary_signature in
  let! _ := guard (negb (str_eqb expected_binding (binding d)))
              (CaveatFailed #"discharge binding invalid") in
  Ok tt.

(** ** Checking one caveat *)

(** The five equality caveats share this shape in the source. *)
Definition check_equal (name expected : str) (actual : option str) : result MacaroonError unit :=
  match actual with
  | Some actual =>
    if str_eqb actual expected then Ok tt
    else Err (CaveatFailed (name ++ #": expected " ++ expected ++ #", got " ++ actual))
  | None => Err (CaveatFailed (name ++ #" required but not provided"))
  end.

Definition key_matches (location kid : str) (e : DischargeKeyRef) : bool :=
  str_eqb (key_location e) location && str_eqb (key_id e) kid.

Definition candidate (loc cond : str) (d : DischargeMacaroon) : bool :=
  str_eqb (location d) loc && str_eqb (condition d) cond.

Definition check_third_party (v : CaveatVerifier) (location kid : str)
    (primary_signature : option bytes) : result MacaroonError unit :=
  let! primary_signature := ok_or primary_signature
    (CaveatFailed #"missing primary binding signature for third-party caveat") in
  let! k := ok_or (List.find (key_matches location kid) (discharge_keys v))
    (CaveatFailed (#"no discharge key configured for location " ++ location)) in
  let expected_condition := key_condition k in
  let candidates := List.filter (candidate location expected_condition) (discharges v) in
  if existsb (fun d => is_ok (discharge_verify d expected_condition (key k)
                                 primary_signature (now v))) candidates
  then Ok tt
  else if is_empty candidates
  then Err (CaveatFailed (#"no discharge macaroon for third-party caveat at " ++ location))
  else Err (CaveatFailed (#"no valid discharge macaroon for third-party caveat at " ++ location)).

Definition check (v : CaveatVerifier) (c : Caveat) (primary_signature : option bytes)
    : result MacaroonError unit :=
  match c with
  | TenantId expected => check_equal #"tenant_id" expected (v_tenant_id v)
  | Provider expected => check_equal #"provider" expected (v_provider v)
  | Expires deadline => if (deadline <? now v)%Z then Err Expired else Ok tt
  | CircuitId expected => check_equal #"circuit_id" expected (v_circuit_id v)
  | NodeId expected => check_equal #"node_id" expected (v_node_id v)
  | Action expected => check_equal #"action" expected (v_action v)
  | MaxUses =>
    if (use_count v <=? 1)%Z then Ok tt
    else Err (CaveatFailed (#"max_uses: attempted use " ++ show_N (Z.to_N (use_count v))
                            ++ #" exceeds single-use limit"))
  | ThirdParty location kid => check_third_party v location kid primary_signature
  end.

(** ** Verification of a macaroon *)

Definition check_raw (v : CaveatVerifier) (p : str * bytes) : result MacaroonError unit :=
  let! caveat := parse p.1 in check v caveat (Some p.2).

Definition verify (m : Macaroon) (root_key : bytes) (v : CaveatVerifier)
    : result MacaroonError unit :=
  let sig := root_sig root_key (identifier m) in
  let sigs := caveat_signatures sig (caveats m) in
  if str_eqb (chain sig (caveats m)) (signature m)
  then for_each (check_raw v) (zip (caveats m) sigs)
  else Err SignatureInvalid.

(** The loop of [third_party_binding_info_by_key_id]. *)
Fixpoint binding_info_loop (loc kid : str) (sig : bytes) (matched : option bytes) (cs : list str)
    : result MacaroonError (option bytes) :=
  match cs with
  | [] => Ok matched
  | raw :: cs =>
    let sig := hmac_compute sig raw in
    let! c := parse raw in
    match c with
    | ThirdParty caveat_location caveat_key_id =>
      if str_eqb caveat_location loc && str_eqb caveat_key_id kid then
        match matched with
        | Some _ => Err (CaveatFailed
            (#"multiple third-party caveats match " ++ loc ++ #" with opaque key"))
        | None => binding_info_loop loc kid sig (Some sig) cs
        end
      else binding_info_loop loc kid sig matched cs
    | _ => binding_info_loop loc kid sig matched cs
    end
  end.

Definition third_party_binding_info_by_key_id (m : Macaroon) (root_key : bytes) (loc kid : str)
    : result MacaroonError bytes :=
  let! matched := binding_info_loop loc kid (root_sig root_key (identifier m)) None (caveats m) in
  ok_or matched (CaveatFailed
    (#"no third-party caveat for " ++ loc ++ #" with requested opaque key")).

End Macaroons.

(** * Properties *)

(** What [encode] can represent losslessly: RFC 3339 dates, and non-empty
    third-party fields ([parse] refuses empty ones). *)
Definition encodable (c : Caveat) : Prop :=
  match c with
  | Expires t => rfc3339_range t
  | ThirdParty l k => l <> [] /\ k <> [] /\ utf8_valid l = true /\ utf8_valid k = true
  | _ => True
  end.

(** The strings inside a caveat are Rust [String]s. *)
Definition caveat_utf8 (c : Caveat) : Prop :=
  match c with
  | TenantId v | Provider v | CircuitId v | NodeId v | Action v => utf8_valid v = true
  | ThirdParty l k => utf8_valid l = true /\ utf8_valid k = true
  | Expires _ | MaxUses => True
  end.

(** The queries made to HMAC while a chain is computed, as (key, message). *)
Fixpoint queries `{Hashes} (k : bytes) (ms : list bytes) : list (bytes * bytes) :=
  match ms with
  | [] => []
  | m :: ms => (k, m) :: queries (hmac_compute k m) ms
  end.

Definition mac_queries `{Hashes} (root_key : bytes) (m : Macaroon) : list (bytes * bytes) :=
  queries root_key (identifier m :: caveats m).

Definition query_out `{Hashes} (q : bytes * bytes) : bytes := hmac_compute q.1 q.2.

Section Laws.
Context `{TextCodecsLaws} `{HashesLaws}.

(** ** Caveat text *)

Lemma split_key k v : Byte.x20 ∉ k -> split_once #" = " (k ++ #" = " ++ v) = Some (k, v).
Proof. apply (split_once_first Byte.x20 [Byte.x3d; Byte.x20]). Qed.

Ltac by_key k :=
  unfold parse; cbn [encode];
  match goal with
  | |- context [split_once _ (?e ++ ?v)] =>
    change (e ++ v) with (k ++ #" = " ++ v);
    rewrite (split_key k v) by (refine (bool_decide_eq_true_1 _ _); vm_compute; reflexivity)
  end; cbn [ok_or rbind fst snd].

Lemma decode_url_string_encode s :
  utf8_valid s = true -> decode_url_string (b64url_encode s) = Ok s.
Proof. intros U. unfold decode_url_string. rewrite b64url_roundtrip. simpl. unfold from_utf8. by rewrite U. Qed.

Lemma parse_third_party_encode l k :
  encodable (ThirdParty l k) ->
  parse_third_party (#"v3:" ++ b64url_encode l ++ #":" ++ b64url_encode k) = Ok (ThirdParty l k).
Proof.
  intros (Hl & Hk & Ul & Uk). unfold parse_third_party.
  rewrite strip_prefix_app. cbn [ok_or rbind].
  rewrite (split_once_first Byte.x3a [] (b64url_encode l)) by apply b64url_no_colon.
  cbn [ok_or rbind].
  assert (contains_byte Byte.x3a (b64url_encode k) = false) as ->
    by (apply bool_decide_eq_false, b64url_no_colon).
  cbn [guard rbind]. rewrite !decode_url_string_encode by done. cbn [rbind].
  by destruct l, k.
Qed.

Lemma parse_encode c : encodable c -> parse (encode c) = Ok c.
Proof.
  destruct c as [v|v|t|v|v|v| |l k]; intros W.
  - by_key #"tenant_id". done.
  - by_key #"provider". done.
  - by_key #"expires". cbn. by rewrite rfc3339_roundtrip.
  - by_key #"circuit_id". done.
  - by_key #"node_id". done.
  - by_key #"action". done.
  - reflexivity.
  - unfold parse. cbn [encode].
    change (#"3p = v3:" ++ ?x) with (#"3p" ++ #" = " ++ #"v3:" ++ x).
    rewrite split_key by (refine (bool_decide_eq_true_1 _ _); vm_compute; reflexivity).
    by apply parse_third_party_encode.
Qed.

Lemma lit_utf8 s : forallb (in_range 0 0x7f) s = true -> utf8_valid s = true.
Proof. induction s as [|b s IH]; [done|]. simpl. intros [-> ?]%andb_prop. auto. Qed.

Lemma encode_utf8 c : caveat_utf8 c -> utf8_valid (encode c) = true.
Proof.
  destruct c; simpl; intros U; repeat apply utf8_valid_app_true; auto with broker;
    by apply lit_utf8.
Qed.

(** Printing a caveat gives valid UTF-8, and parsing it back gives the
    caveat, for every kind of caveat, whatever text the values contain (a
    value may itself contain the separator " = "). *)
Theorem caveat_text_roundtrip c :
  encodable c -> caveat_utf8 c -> utf8_valid (encode c) = true /\ parse (encode c) = Ok c.
Proof. auto using encode_utf8, parse_encode. Qed.

(** ** The chain *)

Lemma chain_app sig cs cs' : chain sig (cs ++ cs') = chain (chain sig cs) cs'.
Proof. apply foldl_app. Qed.

Lemma verify_signature_ok m k :
  verify_signature m k = Ok tt <-> signature m = chain (root_sig k (identifier m)) (caveats m).
Proof.
  unfold verify_signature. case_if; bool_to_prop; split; congruence.
Qed.

Lemma length_chain sig cs : length sig = 32 -> length (chain sig cs) = 32.
Proof.
  revert sig; induction cs as [|c cs IH]; intros sig Hs; [done|].
  apply IH, hmac_length.
Qed.

Lemma length_caveat_signatures sig cs : length (caveat_signatures sig cs) = length cs.
Proof. revert sig; induction cs; simpl; auto. Qed.

Lemma lookup_caveat_signatures sig cs i c :
  cs !! i = Some c -> caveat_signatures sig cs !! i = Some (chain sig (take (S i) cs)).
Proof.
  revert sig i; induction cs as [|d cs IH]; intros sig [|i]; intros E; try discriminate E.
  - done.
  - cbn in E. exact (IH (hmac_compute sig d) i E).
Qed.

Lemma caveat_signatures_app sig cs cs' :
  caveat_signatures sig (cs ++ cs') = caveat_signatures sig cs ++ caveat_signatures (chain sig cs) cs'.
Proof. revert sig; induction cs as [|c cs IH]; intros; [done|]. cbn. by rewrite IH. Qed.

(** The caveat at position [i] of the chain holds for the request. *)
Definition caveat_holds (m : Macaroon) (k : bytes) (v : CaveatVerifier) (i : nat) : Prop :=
  forall raw, caveats m !! i = Some raw ->
  exists c, parse raw = Ok c /\
    check v c (Some (chain (root_sig k (identifier m)) (take (S i) (caveats m)))) = Ok tt.

Lemma verify_iff m k v :
  verify m k v = Ok tt <->
  signature m = chain (root_sig k (identifier m)) (caveats m) /\
  (forall i, caveat_holds m k v i).
Proof.
  unfold verify. destruct (str_eqb _ _) eqn:E; bool_to_prop.
  2: { split; [done|]. intros [? _]. congruence. }
  rewrite for_each_ok, Forall_lookup. set (sig := root_sig k (identifier m)) in *.
  split.
  - intros HF. split; [done|]. intros i raw Hi.
    pose proof (lookup_caveat_signatures sig _ _ _ Hi) as Hs.
    specialize (HF i (raw, chain sig (take (S i) (caveats m)))).
    unfold check_raw in HF. cbn [fst snd] in HF.
    apply rbind_ok in HF as (c & Hc & Hk); [eauto|].
    apply lookup_zip_with_Some. eauto.
  - intros [_ HF] i [raw s] (raw' & s' & [= <- <-] & Hi & Hs)%lookup_zip_with_Some.
    rewrite (lookup_caveat_signatures sig _ _ _ Hi) in Hs. injection Hs as <-.
    destruct (HF i raw Hi) as (c & Hc & Hk). unfold check_raw. cbn [fst snd].
    by rewrite Hc.
Qed.

(** C20: [verify] accepts exactly the macaroons whose signature is the HMAC
    chain of the root key, the identifier and all caveats, and whose every
    caveat parses and holds, a third-party caveat being checked against the
    signature at its own position of the chain.  A wrong signature is
    reported as such before any caveat is looked at. *)
Theorem verify_accepts m k v :
  (verify m k v = Ok tt <->
   signature m = chain (root_sig k (identifier m)) (caveats m) /\
   (forall i, caveat_holds m k v i)) /\
  (signature m <> chain (root_sig k (identifier m)) (caveats m) ->
   verify m k v = Err SignatureInvalid).
Proof.
  split; [apply verify_iff|]. intros Hn. unfold verify.
  case_if; bool_to_prop; congruence.
Qed.

Lemma identifier_attenuated m extra : identifier (foldl add_caveat m extra) = identifier m.
Proof. revert m. induction extra as [|c extra IH]; intros m; [done|]. cbn [foldl]. by rewrite IH. Qed.

Lemma verify_attenuated m k extra :
  verify_signature m k = Ok tt -> verify_signature (foldl add_caveat m extra) k = Ok tt.
Proof.
  revert m. induction extra as [|c extra IH]; intros m Hm%verify_signature_ok.
  - by apply verify_signature_ok.
  - apply IH, verify_signature_ok. cbn [add_caveat identifier caveats signature].
    rewrite chain_app. by rewrite Hm.
Qed.

Lemma verify_minted k id cs : verify_signature (mint k id cs) k = Ok tt.
Proof. by apply verify_signature_ok. Qed.

(** A minted macaroon is accepted when its caveats hold at every position. *)
Lemma verify_minted_ok k id cs v :
  Forall (fun c => encodable c /\ forall sig, check v c sig = Ok tt) cs ->
  verify (mint k id cs) k v = Ok tt.
Proof.
  intros HF. apply verify_iff. split; [done|]. intros i raw Hi.
  cbn [mint caveats] in Hi. apply list_lookup_fmap_Some in Hi as (c & -> & Hc).
  rewrite Forall_lookup in HF. destruct (HF i c Hc) as [He Hk].
  exists c. by rewrite parse_encode.
Qed.

(** Minting and attenuation need no check to be accepted: a minted
    macaroon verifies under its root key, and adding a caveat (without the
    root key) to a macaroon that verifies gives one that verifies. *)
Theorem mint_attenuate_authentic k id cs extra :
  verify_signature (foldl add_caveat (mint k id cs) extra) k = Ok tt.
Proof. apply verify_attenuated, verify_minted. Qed.

Lemma verify_add_caveat m k v c :
  verify_signature m k = Ok tt -> encodable c ->
  verify (add_caveat m c) k v = Ok tt <->
  verify m k v = Ok tt /\ check v c (Some (signature (add_caveat m c))) = Ok tt.
Proof.
  intros Hs%verify_signature_ok Hc. rewrite !verify_iff. unfold caveat_holds.
  cbn [add_caveat identifier caveats signature].
  set (sig := root_sig k (identifier m)) in *.
  assert (Hlast : chain sig (caveats m ++ [encode c]) = hmac_compute (signature m) (encode c)).
  { rewrite chain_app. by rewrite Hs. }
  rewrite Hlast. split.
  - intros [_ HF]. split; [split; [done|]|].
    + intros i raw Hi. destruct (HF i raw) as (d & Hd & Hk); [by apply lookup_app_l_Some|].
      exists d. split; [done|]. rewrite take_app_le in Hk; [done|].
      apply lookup_lt_Some in Hi. lia.
    + destruct (HF (length (caveats m)) (encode c)) as (d & Hd & Hk).
      { by apply list_lookup_middle. }
      rewrite parse_encode in Hd by done. injection Hd as <-.
      by rewrite firstn_all2, Hlast in Hk by (rewrite length_app; simpl; lia).
  - intros [[_ HF] Hk]. split; [done|]. intros i raw Hi.
    apply lookup_app_Some in Hi as [Hi|[Hi1 Hi2]].
    + destruct (HF i raw Hi) as (d & Hd & Hc'). exists d. split; [done|].
      rewrite take_app_le; [done|]. apply lookup_lt_Some in Hi. lia.
    + apply list_lookup_singleton_Some in Hi2 as [Hi2 <-].
      exists c. split; [by apply parse_encode|].
      by rewrite firstn_all2, Hlast by (rewrite length_app; simpl; lia).
Qed.

(** Attenuation only narrows. *)
Lemma verify_narrows m k v cs :
  verify_signature m k = Ok tt -> verify (foldl add_caveat m cs) k v = Ok tt -> verify m k v = Ok tt.
Proof.
  intros Hs%verify_signature_ok. rewrite !verify_iff. intros [_ HF]. split; [done|]. intros i raw Hi.
  assert (exists post, caveats (foldl add_caveat m cs) = caveats m ++ post /\
    identifier (foldl add_caveat m cs) = identifier m) as (post & Hc & Hid).
  { clear. revert m. induction cs as [|c cs IH]; intros m; [exists []; by rewrite app_nil_r|].
    destruct (IH (add_caveat m c)) as (post & Hp & Hid). exists (encode c :: post). cbn [foldl].
    rewrite Hp, Hid. cbn [add_caveat caveats]. by rewrite <- app_assoc. }
  destruct (HF i raw) as (d & Hd & Hk); [rewrite Hc; by apply lookup_app_l_Some|].
  exists d. split; [done|]. rewrite Hc, Hid, take_app_le in Hk; [done|]. apply lookup_lt_Some in Hi. lia.
Qed.

(** C35: attenuation is monotonic: the attenuated macaroon is accepted exactly
    when the original is and the added caveat holds, at its own position of
    the chain.  In particular no request becomes acceptable by adding a
    caveat. *)
Theorem attenuation_monotonic m k v c :
  verify_signature m k = Ok tt -> encodable c ->
  verify (add_caveat m c) k v = Ok tt <->
  verify m k v = Ok tt /\ check v c (Some (signature (add_caveat m c))) = Ok tt.
Proof. apply verify_add_caveat. Qed.

(** ** Forgery *)

Lemma queries_snoc k ms x : queries k (ms ++ [x]) = queries k ms ++ [(chain k ms, x)].
Proof. revert k; induction ms as [|m ms IH]; intros; [done|]. cbn. by rewrite IH. Qed.

(** Two different HMAC queries with the same answer, one made while the first
    chain is computed and one while the second is. *)
Definition chain_collision (k : bytes) (ms ms' : list bytes) : Prop :=
  exists q q', q ∈ queries k ms /\ q' ∈ queries k ms' /\ q <> q' /\ query_out q = query_out q'.

(** The secret key shows up as an answer in one of the chains. *)
Definition chain_cycle (k : bytes) (ms ms' : list bytes) : Prop :=
  exists q, q ∈ queries k ms ++ queries k ms' /\ query_out q = k.

Lemma chain_inj k ms ms' :
  chain k ms = chain k ms' -> ms = ms' \/ chain_collision k ms ms' \/ chain_cycle k ms ms'.
Proof.
  revert ms'. induction ms as [|x a IH] using rev_ind; intros ms' E.
  - induction ms' as [|y b _] using rev_ind; [by left|]. right; right.
    exists (chain k b, y). rewrite queries_snoc. split; [set_solver|].
    by rewrite chain_app in E.
  - induction ms' as [|y b _] using rev_ind.
    + right; right. exists (chain k a, x). rewrite queries_snoc. split; [set_solver|].
      by rewrite chain_app in E.
    + rewrite !chain_app in E. cbn in E.
      destruct (decide ((chain k a, x) = (chain k b, y))) as [Eq|Ne].
      * injection Eq as Ea ->. destruct (IH b Ea) as [->|[C|C]]; [by left| |]; right.
        -- left. destruct C as (q & q' & ? & ? & ?). exists q, q'. rewrite !queries_snoc. set_solver.
        -- right. destruct C as (q & ? & ?). exists q. rewrite !queries_snoc. set_solver.
      * right; left. exists (chain k a, x), (chain k b, y). rewrite !queries_snoc. set_solver.
Qed.

(** C21: no caveat can be removed, added, changed or moved without breaking
    HMAC: two macaroons with the same signature that both verify under one
    root key have the same identifier and the same caveats, unless computing
    their two chains exhibits an explicit HMAC collision or reproduces the
    root key. *)
Theorem signature_binds_caveats k m m' :
  verify_signature m k = Ok tt -> verify_signature m' k = Ok tt ->
  signature m = signature m' ->
  (identifier m = identifier m' /\ caveats m = caveats m')
  \/ chain_collision k (identifier m :: caveats m) (identifier m' :: caveats m')
  \/ chain_cycle k (identifier m :: caveats m) (identifier m' :: caveats m').
Proof.
  intros E%verify_signature_ok E'%verify_signature_ok Es.
  destruct (chain_inj k (identifier m :: caveats m) (identifier m' :: caveats m')) as [Eq|C].
  - change (chain (root_sig k (identifier m)) (caveats m)
            = chain (root_sig k (identifier m')) (caveats m')). congruence.
  - left. by injection Eq.
  - by right.
Qed.

(** ** Third-party caveats *)

Lemma take_middle {A} (pre : list A) x post :
  take (S (length pre)) (pre ++ x :: post) = pre ++ [x].
Proof.
  rewrite cons_middle, app_assoc. apply take_app_length'. rewrite length_app. simpl. lia.
Qed.

Definition is_caveat (loc kid : str) (raw : str) : Prop := parse raw = Ok (ThirdParty loc kid).

Lemma binding_info_loop_ok loc kid sig matched cs r :
  binding_info_loop loc kid sig matched cs = Ok (Some r) ->
  (matched = Some r /\ Forall (fun raw => ~ is_caveat loc kid raw) cs)
  \/ (matched = None /\ exists pre raw post, cs = pre ++ raw :: post /\ is_caveat loc kid raw
        /\ r = chain sig (pre ++ [raw])
        /\ Forall (fun raw => ~ is_caveat loc kid raw) (pre ++ post)).
Proof.
  revert sig matched. induction cs as [|c cs IH]; intros sig matched E.
  { cbn in E. injection E as ->. left. by split. }
  cbn [binding_info_loop] in E. apply rbind_ok in E as (cv & Hc & E).
  assert (skip : ~ is_caveat loc kid c ->
    binding_info_loop loc kid (hmac_compute sig c) matched cs = Ok (Some r) ->
    (matched = Some r /\ Forall (fun raw => ~ is_caveat loc kid raw) (c :: cs)) \/
    (matched = None /\ exists pre raw post, c :: cs = pre ++ raw :: post /\ is_caveat loc kid raw
        /\ r = chain sig (pre ++ [raw])
        /\ Forall (fun raw => ~ is_caveat loc kid raw) (pre ++ post))).
  { intros Hn [[-> HF]|(-> & pre & raw & post & -> & Hr & -> & HF)]%IH.
    - left. split; [done|]. by constructor.
    - right. split; [done|]. exists (c :: pre), raw, post. repeat split; auto.
      by constructor. }
  assert (Hsame : forall l k, cv = ThirdParty l k -> is_caveat loc kid c -> l = loc /\ k = kid)
    by (unfold is_caveat; intros; split; congruence).
  destruct cv as [v|v|v|v|v|v| |l k];
    try (apply skip; [intros Hi; unfold is_caveat in Hi; congruence|exact E]).
  destruct (str_eqb l loc && str_eqb k kid) eqn:M.
  - apply andb_prop in M as [->%str_eqb_eq ->%str_eqb_eq].
    destruct matched; [done|]. right. split; [done|].
    apply IH in E as [[[= <-] HF]|[? _]]; [|done].
    exists [], c, cs. by repeat split.
  - apply skip; [|exact E]. intros Hi. destruct (Hsame l k eq_refl Hi) as [-> ->].
    by rewrite !str_eqb_refl in M.
Qed.

Lemma binding_info_exact m k loc kid s :
  third_party_binding_info_by_key_id m k loc kid = Ok s ->
  exists pre raw post,
    caveats m = pre ++ raw :: post /\ is_caveat loc kid raw
    /\ s = chain (root_sig k (identifier m)) (pre ++ [raw])
    /\ Forall (fun raw => ~ is_caveat loc kid raw) (pre ++ post).
Proof.
  unfold third_party_binding_info_by_key_id. intros E. monad_inv. subst.
  by apply binding_info_loop_ok in Hr as [[? _]|[_ ?]].
Qed.

Definition parses (raw : str) : Prop := is_ok (parse raw) = true.

Lemma binding_info_loop_parses loc kid sig matched cs r :
  binding_info_loop loc kid sig matched cs = Ok r -> Forall parses cs.
Proof.
  revert sig matched. induction cs as [|c cs IH]; intros sig matched E; [constructor|].
  cbn [binding_info_loop] in E. apply rbind_ok in E as (cv & Hc & E).
  constructor; [unfold parses; by rewrite Hc|].
  destruct cv; try destruct matched; repeat case_if; try discriminate E; eauto.
Qed.

Lemma binding_info_loop_skip loc kid sig matched cs cs' :
  Forall parses cs -> Forall (fun raw => ~ is_caveat loc kid raw) cs ->
  binding_info_loop loc kid sig matched (cs ++ cs') =
  binding_info_loop loc kid (chain sig cs) matched cs'.
Proof.
  revert sig. induction cs as [|c cs IH]; intros sig HP HN; [done|].
  inversion HP as [|? ? P1 P2]; inversion HN as [|? ? N1 N2]; subst.
  cbn [app binding_info_loop]. unfold parses in P1.
  destruct (parse c) as [cv| |] eqn:Hc; try discriminate P1. cbn [rbind].
  destruct cv as [v|v|v|v|v|v| |l k]; try (by apply IH).
  destruct (str_eqb l loc && str_eqb k kid) eqn:M; [|by apply IH].
  apply andb_prop in M as [->%str_eqb_eq ->%str_eqb_eq]. by destruct N1.
Qed.

Lemma binding_info_iff m k loc kid s :
  third_party_binding_info_by_key_id m k loc kid = Ok s <->
  Forall parses (caveats m) /\
  exists pre raw post,
    caveats m = pre ++ raw :: post /\ is_caveat loc kid raw
    /\ s = chain (root_sig k (identifier m)) (pre ++ [raw])
    /\ Forall (fun raw => ~ is_caveat loc kid raw) (pre ++ post).
Proof.
  split.
  - intros E. split; [|by apply binding_info_exact].
    unfold third_party_binding_info_by_key_id in E. monad_inv.
    eauto using binding_info_loop_parses.
  - intros (HP & pre & raw & post & Hc & Hr & -> & [N1 N2]%Forall_app).
    rewrite Hc in HP. apply Forall_app in HP as [P1 [_ P2]%Forall_cons].
    unfold third_party_binding_info_by_key_id. rewrite Hc, binding_info_loop_skip by done.
    cbn [binding_info_loop]. rewrite Hr. cbn [rbind]. rewrite !str_eqb_refl. cbn [andb].
    pose proof (binding_info_loop_skip loc kid (hmac_compute (chain (root_sig k (identifier m)) pre) raw)
      (Some (hmac_compute (chain (root_sig k (identifier m)) pre) raw)) post [] P2 N2) as Hs.
    rewrite app_nil_r in Hs. rewrite Hs. cbn. by rewrite chain_app.
Qed.

(** The signature a discharge is bound to is the chain value right after
    the one third-party caveat with that location and key id.  The lookup
    succeeds exactly when all caveats parse and exactly one of them is that
    caveat: it fails when the caveat is absent or present twice. *)
Theorem binding_info_unique m k loc kid s :
  third_party_binding_info_by_key_id m k loc kid = Ok s <->
  Forall parses (caveats m) /\
  exists pre raw post,
    caveats m = pre ++ raw :: post /\ is_caveat loc kid raw
    /\ s = chain (root_sig k (identifier m)) (pre ++ [raw])
    /\ Forall (fun raw => ~ is_caveat loc kid raw) (pre ++ post).
Proof. apply binding_info_iff. Qed.

Lemma discharge_verify_ok d cond key psig t :
  discharge_verify d cond key psig t = Ok tt <->
  (forall e, expires_at d = Some e -> (t <= e)%Z)
  /\ discharge_signature d = hmac_compute key cond
  /\ binding d = hmac_compute psig (discharge_signature d).
Proof.
  unfold discharge_verify, bind_discharge. rewrite rbind_ok. split.
  - intros (u & G & E). monad_inv. bool_to_prop. repeat split; try congruence.
    intros e He. rewrite He in G. by apply Z.ltb_ge.
  - intros (He & Hs & Hb). exists tt. split.
    + apply guard_ok. destruct (expires_at d) as [e|]; [|done].
      apply Z.ltb_ge. by apply He.
    + rewrite Hs in Hb |- *. by rewrite Hb, !str_eqb_refl.
Qed.

(** A discharge with the caveat's key, condition and binding satisfies it. *)
Lemma check_discharged v loc kid s kr d :
  List.find (key_matches loc kid) (discharge_keys v) = Some kr -> d ∈ discharges v ->
  location d = loc -> condition d = key_condition kr ->
  discharge_signature d = hmac_compute (key kr) (key_condition kr) ->
  binding d = hmac_compute s (discharge_signature d) ->
  (forall t, expires_at d = Some t -> (now v <= t)%Z) ->
  check v (ThirdParty loc kid) (Some s) = Ok tt.
Proof.
  intros Hf Hd Hl Hc Hsig Hb He. cbn [check]. unfold check_third_party. cbn [ok_or rbind]. rewrite Hf.
  cbn [ok_or rbind].
  assert (existsb (fun d => is_ok (discharge_verify d (key_condition kr) (key kr) s (now v)))
     (List.filter (candidate loc (key_condition kr)) (discharges v)) = true) as ->; [|done].
  apply existsb_exists. exists d. split.
  - apply filter_In. split; [by apply list_elem_of_In|]. unfold candidate. by rewrite Hl, Hc, !str_eqb_refl.
  - assert (discharge_verify d (key_condition kr) (key kr) s (now v) = Ok tt) as ->; [|done].
    by apply discharge_verify_ok.
Qed.

(** Without discharges, a third-party caveat fails. *)
Lemma check_undischarged v loc kid s : discharges v = [] -> check v (ThirdParty loc kid) s <> Ok tt.
Proof.
  intros Hd. cbn [check]. unfold check_third_party. rewrite Hd. destruct s; [|done]. cbn [ok_or rbind].
  by destruct (List.find _ _).
Qed.

(** Completeness of discharging: a discharge minted with the caveat's
    key, condition and binding signature, and presented before it expires,
    satisfies that caveat, whatever other discharges accompany it. *)
Theorem minted_discharge_satisfies m k v loc kid s kr e :
  third_party_binding_info_by_key_id m k loc kid = Ok s ->
  List.find (key_matches loc kid) (discharge_keys v) = Some kr ->
  mint_with_expiry loc (key_condition kr) (key kr) s e ∈ discharges v ->
  (forall t, e = Some t -> (now v <= t)%Z) ->
  exists i raw, caveats m !! i = Some raw /\ is_caveat loc kid raw /\ caveat_holds m k v i.
Proof.
  intros (pre & raw & post & Hc & Hr & -> & _)%binding_info_exact Hf Hd He.
  exists (length pre), raw. split; [rewrite Hc; by apply list_lookup_middle|].
  split; [done|]. intros raw'. rewrite Hc, list_lookup_middle by done. intros [= <-].
  exists (ThirdParty loc kid). split; [done|]. rewrite take_middle.
  by eapply check_discharged; [exact Hf|exact Hd|..].
Qed.

(** A discharge is bound to one position of one macaroon: if it is
    accepted for two different chain values, the two binding computations are
    an HMAC collision. *)
Theorem discharge_bound_to_position d cond k p p' t t' :
  discharge_verify d cond k p t = Ok tt -> discharge_verify d cond k p' t' = Ok tt ->
  p = p' \/ ((p, discharge_signature d) <> (p', discharge_signature d)
             /\ query_out (p, discharge_signature d) = query_out (p', discharge_signature d)).
Proof.
  intros (_ & _ & E)%discharge_verify_ok (_ & _ & E')%discharge_verify_ok.
  destruct (decide (p = p')); [by left|right]. split; [congruence|].
  unfold query_out; cbn. congruence.
Qed.

(** The expiry of a discharge is not authenticated: neither signature
    covers it, so whoever holds an accepted discharge can remove or change
    its expiry and the result is accepted at any time. *)
Theorem discharge_expiry_unauthenticated d cond k p t t' :
  discharge_verify d cond k p t = Ok tt ->
  discharge_verify (mkDischarge (location d) (condition d) None (discharge_signature d) (binding d))
    cond k p t' = Ok tt.
Proof.
  intros (_ & E & Eb)%discharge_verify_ok. apply discharge_verify_ok. by repeat split.
Qed.

End Laws.

(** * The theorems on concrete inputs *)

Module MacaroonExamples.
Import Reference.

Definition root : bytes := #"root key".
Definition id0 : uuid := le_bytes 16 7.
Definition tp : Caveat := ThirdParty #"https://idp" #"kid-1".
Definition mac : Macaroon := mint root id0 [TenantId #"acme = east"; tp].
Definition keyref : DischargeKeyRef := mkDischargeKeyRef #"https://idp" #"kid-1" #"mfa" #"shared".
Definition binding0 : bytes := chain (root_sig root id0) (map encode [TenantId #"acme = east"; tp]).
Definition dis : DischargeMacaroon :=
  mint_with_expiry #"https://idp" #"mfa" #"shared" binding0 (Some 2000%Z).
Definition ver : CaveatVerifier :=
  mkVerifier (Some #"acme = east") None None None None 1 1000 [dis] [keyref].

Example mac_accepted : verify mac root ver = Ok tt.
Proof. vm_compute. reflexivity. Qed.

Lemma caveat_text_roundtrip_witness :
  utf8_valid (encode tp) = true /\ parse (encode tp) = Ok tp.
Proof. apply (caveat_text_roundtrip tp); repeat split; discriminate. Defined.

Lemma verify_accepts_witness :
  verify (mkMacaroon id0 (caveats mac) []) root ver = Err SignatureInvalid.
Proof.
  refine (proj2 (verify_accepts (mkMacaroon id0 (caveats mac) []) root ver) _).
  apply (bool_decide_unpack _). vm_compute. exact I.
Defined.

Lemma attenuation_monotonic_witness :
  verify (add_caveat mac (Action #"unwrap")) root ver <> Ok tt.
Proof.
  assert (V : verify_signature mac root = Ok tt) by (vm_compute; reflexivity).
  intros E. destruct (proj1 (attenuation_monotonic mac root ver (Action #"unwrap") V I) E) as [_ h].
  discriminate h.
Defined.

Lemma signature_binds_caveats_witness :
  verify_signature mac root = Ok tt /\
  ((identifier mac = identifier mac /\ caveats mac = caveats mac)
   \/ chain_collision root (identifier mac :: caveats mac) (identifier mac :: caveats mac)
   \/ chain_cycle root (identifier mac :: caveats mac) (identifier mac :: caveats mac)).
Proof.
  split; [vm_compute; reflexivity|].
  apply (signature_binds_caveats root mac mac); vm_compute; reflexivity.
Defined.

Lemma minted_discharge_satisfies_witness :
  exists i raw, caveats mac !! i = Some raw /\ is_caveat #"https://idp" #"kid-1" raw
    /\ caveat_holds mac root ver i.
Proof.
  apply (minted_discharge_satisfies mac root ver #"https://idp" #"kid-1" binding0 keyref (Some 2000%Z)).
  - vm_compute. reflexivity.
  - vm_compute. reflexivity.
  - apply list_elem_of_here.
  - intros t [= <-]. vm_compute. discriminate.
Defined.

Lemma discharge_bound_to_position_witness :
  discharge_verify dis #"mfa" #"shared" binding0 1000 = Ok tt /\
  (binding0 = binding0 \/ ((binding0, discharge_signature dis) <> (binding0, discharge_signature dis)
     /\ query_out (binding0, discharge_signature dis) = query_out (binding0, discharge_signature dis))).
Proof.
  split; [vm_compute; reflexivity|].
  apply (discharge_bound_to_position dis #"mfa" #"shared" binding0 binding0 1000 1500);
    vm_compute; reflexivity.
Defined.

Lemma discharge_expiry_unauthenticated_witness :
  discharge_verify (mkDischarge (location dis) (condition dis) None (discharge_signature dis) (binding dis))
    #"mfa" #"shared" binding0 999999 = Ok tt.
Proof.
  apply (discharge_expiry_unauthenticated dis #"mfa" #"shared" binding0 1000 999999).
  vm_compute. reflexivity.
Defined.

End MacaroonExamples.
