(* ===== verification/MacaroonWire.v ===== *)
(** The wire formats of macaroons and discharge macaroons
    (macaroon_caveats.rs, [serialize] and [deserialize] of both types): a
    binary layout with 16-bit little-endian lengths inside base64.  Reads of
    the buffer are the indexing operations of the source, which panic out of
    range; the theorems show that they never do. *)

From S2P Require Import Prelude RustStd Externals Macaroon Reference.

Section Wire.
Context `{TextCodecs}.

(** ** Writing *)

(** [len as u16], little-endian, then the bytes. *)
Definition frame (c : bytes) : bytes := le_bytes 2 (as_u16 (Z.of_nat (length c))) ++ c.

Definition macaroon_buf (m : Macaroon) : bytes :=
  identifier m ++ le_bytes 2 (as_u16 (Z.of_nat (length (caveats m))))
  ++ concat (map frame (caveats m)) ++ signature m.

Definition serialize (m : Macaroon) : str := b64_encode (macaroon_buf m).

(** [expires_at.timestamp().to_le_bytes()], when there is an expiry. *)
Definition expiry_bytes (e : option datetime) : bytes :=
  match e with Some t => le_bytes 8 (timestamp t) | None => [] end.

Definition discharge_buf (d : DischargeMacaroon) : bytes :=
  frame (location d) ++ frame (condition d) ++ expiry_bytes (expires_at d)
  ++ discharge_signature d ++ binding d.

Definition discharge_serialize (d : DischargeMacaroon) : str := b64_encode (discharge_buf d).

(** ** Reading *)

(** [u16::from_le_bytes([buf[pos], buf[pos + 1]]) as usize] *)
Definition read_u16 (buf : bytes) (pos : nat) : result MacaroonError nat :=
  let! lo := index buf pos in
  let! hi := index buf (pos + 1) in
  Ok (Z.to_nat (of_le_bytes [lo; hi])).

(** [std::str::from_utf8(&buf[a..b])] *)
Definition read_str (buf : bytes) (a b : nat) : result MacaroonError str :=
  let! raw := slice buf a b in
  ok_or (from_utf8 raw) InvalidFormat.

(** The loop over [num_caveats]; returns the caveats and the final [pos]. *)
Fixpoint read_caveats (num_caveats : nat) (buf : bytes) (pos : nat)
    : result MacaroonError (list str * nat) :=
  match num_caveats with
  | O => Ok ([], pos)
  | S n =>
    let! _ := guard (length buf <? pos + 2)%nat InvalidFormat in
    let! len := read_u16 buf pos in
    let pos := pos + 2 in
    let! _ := guard (length buf <? pos + len)%nat InvalidFormat in
    let! s := read_str buf pos (pos + len) in
    let pos := pos + len in
    let! (cs, pos) := read_caveats n buf pos in
    Ok (s :: cs, pos)
  end.

Definition deserialize (s : str) : result MacaroonError Macaroon :=
  let! buf := ok_or (b64_decode s) InvalidFormat in
  let! _ := guard (length buf <? 16 + 2 + 32)%nat InvalidFormat in
  let! identifier := slice buf 0 16 in
  let! num_caveats := read_u16 buf 16 in
  let! (caveats, pos) := read_caveats num_caveats buf 18 in
  let! _ := guard (negb (pos + 32 =? length buf)%nat) InvalidFormat in
  let! signature := slice buf pos (pos + 32) in
  Ok (mkMacaroon identifier caveats signature).

(** The end of a discharge: optional expiry and the two signatures, read at
    the position [pos] that follows the condition. *)
Definition discharge_tail (buf : bytes) (remaining pos : nat)
    : result MacaroonError (option datetime * bytes * bytes) :=
  let! (e, pos) :=
    (if (remaining =? 72)%nat then
       let! expiry_bytes := slice buf pos (pos + 8) in
       Ok (from_timestamp (as_i64 (of_le_bytes expiry_bytes)), pos + 8)
     else Ok (None, pos)) in
  let! sg := slice buf pos (pos + 32) in
  let! bd := slice buf (pos + 32) (pos + 32 + 32) in
  Ok (e, sg, bd).

Definition discharge_deserialize (s : str) : result MacaroonError DischargeMacaroon :=
  let! buf := ok_or (b64_decode s) InvalidFormat in
  let! _ := guard (length buf <? 4 + 64)%nat InvalidFormat in
  let! loc_len := read_u16 buf 0 in
  let pos := 2 in
  let! _ := guard (length buf <? pos + loc_len + 2 + 64)%nat InvalidFormat in
  let! location := read_str buf pos (pos + loc_len) in
  let pos := pos + loc_len in
  let! cond_len := read_u16 buf pos in
  let pos := pos + 2 in
  let remaining := length buf - (pos + cond_len) in
  let! _ := guard (negb ((remaining =? 64)%nat || (remaining =? 72)%nat)) InvalidFormat in
  let! condition := read_str buf pos (pos + cond_len) in
  let pos := pos + cond_len in
  let! (expires_at, discharge_signature, binding) := discharge_tail buf remaining pos in
  Ok (mkDischarge location condition expires_at discharge_signature binding).

End Wire.

(** * Properties *)

(** What fits the wire format: 16-bit counts and lengths, UTF-8 caveats,
    a UUID and a SHA-256 signature. *)
Definition fits_u16 (c : str) : Prop := (Z.of_nat (length c) < 2^16)%Z /\ utf8_valid c = true.

Definition macaroon_fits (m : Macaroon) : Prop :=
  length (identifier m) = 16 /\ length (signature m) = 32 /\
  (Z.of_nat (length (caveats m)) < 2^16)%Z /\ Forall fits_u16 (caveats m).

Definition discharge_fits (d : DischargeMacaroon) : Prop :=
  fits_u16 (location d) /\ fits_u16 (condition d) /\
  length (discharge_signature d) = 32 /\ length (binding d) = 32.

(** The expiry is transmitted in whole seconds. *)
Definition truncate_expiry (d : DischargeMacaroon) : DischargeMacaroon :=
  mkDischarge (location d) (condition d)
    ((fun t => (timestamp t * ns_per_sec)%Z) <$> expires_at d)
    (discharge_signature d) (binding d).

Section WireLaws.
Context `{TextCodecsLaws}.

(** ** Reading back what was written *)

Lemma read_u16_frame n p q pos :
  (0 <= n < 2^16)%Z -> pos = length p ->
  read_u16 (p ++ le_bytes 2 (as_u16 n) ++ q) pos = Ok (Z.to_nat n).
Proof.
  intros Hn ->. unfold as_u16. rewrite Z.mod_small by lia. unfold read_u16.
  cbn [le_bytes app]. rewrite (index_middle p) by done. cbn [rbind].
  rewrite (index_app_r p _ 1). cbn [index lookup list_lookup rbind].
  change [to_u8 n; to_u8 (n / 256)] with (le_bytes 2 n).
  rewrite of_le_bytes_le_bytes, Z.mod_small; [done|]. lia.
Qed.

Lemma read_u16_head n q :
  (0 <= n < 2^16)%Z -> read_u16 (le_bytes 2 (as_u16 n) ++ q) 0 = Ok (Z.to_nat n).
Proof. intros. by apply (read_u16_frame n []). Qed.

Lemma read_str_middle p m q a b :
  utf8_valid m = true -> a = length p -> b = a + length m ->
  read_str (p ++ m ++ q) a b = Ok m.
Proof.
  intros U -> ->. unfold read_str. rewrite slice_middle by done. cbn [rbind].
  unfold from_utf8. by rewrite U.
Qed.

Lemma length_frame c : length (frame c) = 2 + length c.
Proof. unfold frame. rewrite length_app. by autorewrite with broker_rw. Qed.

(** Lengths of buffers put together from framed parts. *)
Ltac len_solve := rewrite ?length_app, ?length_frame; autorewrite with broker_rw; lia.

Lemma read_caveats_frames cs : forall p q pos,
  Forall fits_u16 cs -> pos = length p ->
  read_caveats (length cs) (p ++ concat (map frame cs) ++ q) pos
  = Ok (cs, pos + length (concat (map frame cs))).
Proof.
  induction cs as [|c cs IH]; intros p q pos HF ->.
  { cbn. by rewrite Nat.add_0_r. }
  apply Forall_cons in HF as [[Hl Hu] HF].
  cbn [length map concat read_caveats].
  rewrite (proj2 (Nat.ltb_ge _ _)) by len_solve.
  cbn [guard rbind]. change (frame c) with (le_bytes 2 (as_u16 (Z.of_nat (length c))) ++ c).
  rewrite <- !app_assoc.
  rewrite read_u16_frame by (done || lia). cbn [rbind]. rewrite Nat2Z.id.
  rewrite (proj2 (Nat.ltb_ge _ _)) by len_solve.
  cbn [guard rbind]. rewrite (app_assoc p).
  rewrite read_str_middle by (done || len_solve).
  cbn [rbind]. rewrite (app_assoc (p ++ _)).
  rewrite IH by (done || len_solve).
  cbn [rbind]. do 2 f_equal. len_solve.
Qed.

Lemma deserialize_serialize m : macaroon_fits m -> deserialize (serialize m) = Ok m.
Proof.
  destruct m as [i cs s]; unfold macaroon_fits; cbn. intros (Hi & Hs & Hn & HF).
  unfold deserialize, serialize. rewrite b64_roundtrip. cbn [ok_or rbind].
  unfold macaroon_buf; cbn [identifier caveats signature].
  rewrite (proj2 (Nat.ltb_ge _ _)) by len_solve.
  cbn [guard rbind].
  rewrite slice_prefix by done. cbn [rbind].
  rewrite read_u16_frame by lia. cbn [rbind]. rewrite Nat2Z.id, app_assoc.
  rewrite read_caveats_frames by (done || len_solve).
  cbn [rbind].
  rewrite (proj2 (Nat.eqb_eq _ _)) by len_solve.
  cbn [negb guard rbind]. rewrite app_assoc, slice_suffix by len_solve. done.
Qed.

(** ** What a successful read says about the buffer *)

Definition bad_format (e : MacaroonError) : Prop := e = InvalidFormat.

Lemma read_u16_outcome buf pos :
  pos + 2 <= length buf ->
  outcome (fun n => take pos buf ++ le_bytes 2 (as_u16 (Z.of_nat n)) = take (pos + 2) buf
                    /\ (Z.of_nat n < 2^16)%Z) bad_format (read_u16 buf pos).
Proof.
  intros Hp. unfold read_u16.
  eapply outcome_bind; [apply outcome_index; lia|]. intros lo Hlo.
  eapply outcome_bind; [apply outcome_index; lia|]. intros hi Hhi. simpl.
  pose proof (of_le_bytes_bound [lo; hi]) as B. change (256 ^ _)%Z with (2^16)%Z in B.
  change (u8 lo + 256 * (u8 hi + 256 * 0))%Z with (of_le_bytes [lo; hi]).
  rewrite Z2Nat.id by lia. split; [|lia].
  change (2^16)%Z with 65536%Z in B. unfold as_u16. rewrite Z.mod_small by exact B.
  pose proof (le_bytes_of_le_bytes [lo; hi]) as L. cbn [length] in L.
  cbn [le_bytes] in L |- *. rewrite L.
  rewrite Nat.add_1_r in Hhi. replace (pos + 2) with (S (S pos)) by lia.
  rewrite <- Hhi, <- Hlo. by rewrite <- app_assoc.
Qed.

Lemma read_str_outcome buf a b :
  a <= b <= length buf -> (Z.of_nat (b - a) < 2^16)%Z ->
  outcome (fun s => take a buf ++ s = take b buf /\ length s = b - a /\ fits_u16 s)
    bad_format (read_str buf a b).
Proof.
  intros Hb Hl. unfold read_str.
  eapply outcome_bind; [by apply outcome_slice|]. intros m [Hm Hlm]. unfold from_utf8.
  destruct (utf8_valid m) eqn:U; simpl; [|done]. unfold fits_u16. rewrite Hlm. auto.
Qed.

(** One framed string, from its length to its end. *)
Lemma frame_read buf pos n s :
  take pos buf ++ le_bytes 2 (as_u16 (Z.of_nat n)) = take (pos + 2) buf ->
  take (pos + 2) buf ++ s = take (pos + 2 + n) buf -> length s = pos + 2 + n - (pos + 2) ->
  take pos buf ++ frame s = take (pos + 2 + n) buf.
Proof.
  intros Hn Hs Hl. unfold frame. replace (length s) with n by lia.
  by rewrite app_assoc, Hn, Hs.
Qed.

Lemma read_caveats_outcome n buf : forall pos,
  pos <= length buf ->
  outcome (fun '(cs, pos') => take pos buf ++ concat (map frame cs) = take pos' buf
             /\ pos <= pos' <= length buf /\ length cs = n /\ Forall fits_u16 cs)
    bad_format (read_caveats n buf pos).
Proof.
  induction n as [|n IH]; intros pos Hp; cbn [read_caveats].
  { simpl. by rewrite app_nil_r. }
  eapply outcome_bind; [by apply outcome_guard|]. intros _ G1%Nat.ltb_ge.
  eapply outcome_bind; [by apply read_u16_outcome|]. intros len [Hlen Hb].
  eapply outcome_bind; [by apply outcome_guard|]. intros _ G2%Nat.ltb_ge.
  eapply outcome_bind; [apply read_str_outcome; lia|]. intros s (Hs & Hl & Hf).
  eapply outcome_bind; [apply IH; lia|]. intros [cs pos'] (Hcs & Hp' & Hn & HF).
  split; [|split; [lia|split; [by rewrite <- Hn|by constructor]]].
  cbn [map concat]. rewrite app_assoc, (frame_read _ _ len) by done. done.
Qed.

Lemma take_all_eq {A} (l : list A) n : n = length l -> take n l = l.
Proof. intros ->. by rewrite firstn_all. Qed.

Lemma deserialize_outcome s :
  outcome (fun m => macaroon_fits m /\ b64_decode s = Some (macaroon_buf m))
    bad_format (deserialize s).
Proof.
  unfold deserialize.
  eapply outcome_bind; [by apply outcome_ok_or|]. intros buf Hbuf.
  eapply outcome_bind; [by apply outcome_guard|]. intros _ G1%Nat.ltb_ge.
  eapply outcome_bind; [apply outcome_slice; lia|]. intros i [Hi Hli].
  eapply outcome_bind; [apply read_u16_outcome; lia|]. intros n [Hn Hb].
  eapply outcome_bind; [apply read_caveats_outcome; lia|].
  intros [cs pos] (Hcs & Hp & Hl & HF).
  eapply outcome_bind; [by apply outcome_guard|]. intros _ G2%negb_false_iff%Nat.eqb_eq.
  eapply outcome_bind; [apply outcome_slice; lia|]. intros sg [Hsg Hlsg].
  unfold outcome, macaroon_fits, macaroon_buf. cbn [identifier caveats signature]. rewrite Hl.
  repeat split; [lia|lia|done|done|].
  change (take 0 buf ++ i) with i in Hi. subst i. change (16 + 2) with 18 in Hn.
  rewrite !app_assoc, Hn, Hcs, Hsg. by rewrite take_all_eq.
Qed.

(** C22: the wire format of macaroons is lossless exactly for the macaroons
    that fit it: fewer than 65536 caveats of fewer than 65536 bytes each.
    Beyond that [serialize] wraps the length and the token cannot be read
    back. *)
Theorem macaroon_wire_roundtrip m :
  deserialize (serialize m) = Ok m <-> macaroon_fits m.
Proof.
  split; [|apply deserialize_serialize]. intros E.
  pose proof (deserialize_outcome (serialize m)) as O. rewrite E in O. apply O.
Qed.

(** Reading a macaroon never panics, whatever the input; every failure
    is InvalidFormat, and what is accepted is canonical: the bytes read are
    the bytes [serialize] writes for the result, so no two accepted byte
    strings denote the same macaroon. *)
Theorem macaroon_deserialize_canonical s :
  match deserialize s with
  | Ok m => macaroon_fits m /\ b64_decode s = Some (macaroon_buf m)
  | Err e => e = InvalidFormat
  | Panic => False
  end.
Proof. apply deserialize_outcome. Qed.

(** ** Discharge macaroons *)

Lemma as_i64_mod z : (- 2^63 <= z < 2^63)%Z -> as_i64 (z mod 256 ^ 8) = z.
Proof.
  intros Hz. unfold as_i64. change (256 ^ 8)%Z with (2^64)%Z. rewrite Zmod_mod.
  destruct (Z.ltb_spec (z mod 2^64) (2^63)).
  - destruct (Z.neg_nonneg_cases z); [|rewrite Z.mod_small; lia].
    rewrite <- (Z_mod_plus_full z 1), Z.mod_small in H1; lia.
  - destruct (Z.neg_nonneg_cases z).
    + rewrite <- (Z_mod_plus_full z 1), Z.mod_small; lia.
    + rewrite Z.mod_small in H1; lia.
Qed.

Lemma timestamp_range t :
  rfc3339_range t -> rfc3339_range (timestamp t * ns_per_sec) /\ (- 2^63 <= timestamp t < 2^63)%Z.
Proof.
  unfold rfc3339_range, timestamp, ns_per_sec. intros Ht.
  pose proof (Z.div_mod t (10^9) ltac:(lia)). pose proof (Z.mod_pos_bound t (10^9) ltac:(lia)). lia.
Qed.

Lemma from_timestamp_timestamp t :
  rfc3339_range t -> from_timestamp (timestamp t) = Some (timestamp t * ns_per_sec)%Z.
Proof.
  intros [R _]%timestamp_range. apply datetime_range in R. unfold from_timestamp.
  by rewrite !(proj2 (Z.leb_le _ _)) by lia.
Qed.

Lemma discharge_tail_expiry p e sg bd :
  length sg = 32 -> length bd = 32 -> (forall t, e = Some t -> rfc3339_range t) ->
  discharge_tail (p ++ expiry_bytes e ++ sg ++ bd) (length (expiry_bytes e) + 64) (length p)
  = Ok ((fun t => (timestamp t * ns_per_sec)%Z) <$> e, sg, bd).
Proof.
  intros Hs Hb He. unfold discharge_tail. destruct e as [t|]; cbn [expiry_bytes length fmap].
  - autorewrite with broker_rw. cbn [Nat.eqb Nat.add].
    rewrite slice_middle by (autorewrite with broker_rw; lia). cbn [rbind].
    autorewrite with broker_rw. rewrite as_i64_mod by (by apply timestamp_range, He).
    rewrite from_timestamp_timestamp by auto.
    rewrite (app_assoc p), slice_middle by len_solve. cbn [rbind].
    rewrite (app_assoc _ sg bd), slice_suffix by len_solve. done.
  - cbn [app Nat.eqb Nat.add rbind]. rewrite slice_middle by lia. cbn [rbind].
    rewrite (app_assoc p), slice_suffix by len_solve. done.
Qed.

Lemma discharge_deserialize_serialize d :
  discharge_fits d -> (forall t, expires_at d = Some t -> rfc3339_range t) ->
  discharge_deserialize (discharge_serialize d) = Ok (truncate_expiry d).
Proof.
  destruct d as [l c e sg bd]. intros ([Hl Ul] & [Hc Uc] & Hs & Hb) He; cbn in *.
  unfold discharge_deserialize, discharge_serialize. rewrite b64_roundtrip. cbn [ok_or rbind].
  set (x := expiry_bytes e).
  assert (Hx : length x = 0 \/ length x = 8) by (subst x; destruct e; auto).
  assert (HB : discharge_buf (mkDischarge l c e sg bd)
    = le_bytes 2 (as_u16 (Z.of_nat (length l))) ++ l
      ++ le_bytes 2 (as_u16 (Z.of_nat (length c))) ++ c ++ x ++ sg ++ bd)
    by (unfold discharge_buf, frame; cbn -[le_bytes]; by rewrite <- !app_assoc).
  rewrite HB. clear HB.
  rewrite (proj2 (Nat.ltb_ge _ _)) by len_solve. cbn [guard rbind].
  rewrite read_u16_head by lia. cbn [rbind]. rewrite Nat2Z.id.
  rewrite (proj2 (Nat.ltb_ge _ _)) by len_solve. cbn [guard rbind].
  rewrite read_str_middle by (done || len_solve). cbn [rbind].
  rewrite (app_assoc _ l), read_u16_frame by (done || len_solve). cbn [rbind]. rewrite Nat2Z.id.
  set (rem := length _ - _).
  assert (Hr : rem = length x + 64) by (subst rem; len_solve). rewrite Hr. clear Hr rem.
  assert (negb ((length x + 64 =? 64)%nat || (length x + 64 =? 72)%nat) = false) as ->
    by (by destruct Hx as [-> | ->]).
  cbn [guard rbind].
  rewrite (app_assoc (_ ++ l)), read_str_middle by (done || len_solve). cbn [rbind].
  rewrite (app_assoc _ c).
  replace (2 + length l + 2 + length c) with
    (length (((le_bytes 2 (as_u16 (Z.of_nat (length l))) ++ l)
       ++ le_bytes 2 (as_u16 (Z.of_nat (length c)))) ++ c)) by len_solve.
  by rewrite (discharge_tail_expiry _ e) by done.
Qed.

(** A discharge survives serialisation, its expiry rounded down to whole
    seconds, when its strings are shorter than 65536 bytes and its expiry is
    an RFC 3339 date. *)
Theorem discharge_wire_roundtrip d :
  discharge_fits d -> (forall t, expires_at d = Some t -> rfc3339_range t) ->
  discharge_deserialize (discharge_serialize d) = Ok (truncate_expiry d).
Proof. apply discharge_deserialize_serialize. Qed.

Lemma discharge_tail_outcome buf remaining pos :
  length buf - pos = remaining -> remaining = 64 \/ remaining = 72 ->
  outcome (fun '(_, sg, bd) => length sg = 32 /\ length bd = 32) bad_format
    (discharge_tail buf remaining pos).
Proof.
  intros Hr Hc. unfold discharge_tail.
  apply (outcome_bind (fun '(_, pos') => pos' + 64 = length buf)).
  - destruct Hc as [-> | ->]; cbn [Nat.eqb].
    + simpl. lia.
    + eapply outcome_bind; [apply outcome_slice; lia|]. intros; simpl. lia.
  - intros [e pos'] Hp.
    eapply outcome_bind; [apply outcome_slice; lia|]. intros sg [_ Hs].
    eapply outcome_bind; [apply outcome_slice; lia|]. intros bd [_ Hb]. simpl. lia.
Qed.

(** Reading a discharge never panics, whatever the input: it gives a
    discharge with UTF-8 strings and two 32-byte signatures, or
    InvalidFormat. *)
Theorem discharge_deserialize_total s :
  match discharge_deserialize s with
  | Ok d => discharge_fits d
  | Err e => e = InvalidFormat
  | Panic => False
  end.
Proof.
  change (outcome discharge_fits bad_format (discharge_deserialize s)).
  unfold discharge_deserialize.
  eapply outcome_bind; [by apply outcome_ok_or|]. intros buf _.
  eapply outcome_bind; [by apply outcome_guard|]. intros _ G1%Nat.ltb_ge.
  eapply outcome_bind; [apply read_u16_outcome; lia|]. intros ll [_ Hll].
  eapply outcome_bind; [by apply outcome_guard|]. intros _ G2%Nat.ltb_ge.
  eapply outcome_bind; [apply read_str_outcome; lia|]. intros loc (_ & _ & Hloc).
  eapply outcome_bind; [apply read_u16_outcome; lia|]. intros cl [_ Hcl].
  eapply outcome_bind; [by apply outcome_guard|]. intros _ G3%negb_false_iff.
  assert (Hr : length buf - (2 + ll + 2 + cl) = 64 \/ length buf - (2 + ll + 2 + cl) = 72)
    by (apply orb_prop in G3 as [?%Nat.eqb_eq|?%Nat.eqb_eq]; auto).
  eapply outcome_bind; [apply read_str_outcome; lia|]. intros cond (_ & _ & Hcond).
  eapply outcome_bind; [by apply discharge_tail_outcome|]. intros [[e sg] bd] [Hs Hb].
  unfold outcome, discharge_fits. auto.
Qed.

End WireLaws.

(** * The theorems on concrete inputs *)

Module WireExamples.
Import Reference MacaroonExamples.

Lemma macaroon_wire_roundtrip_witness :
  macaroon_fits mac /\ deserialize (serialize mac) = Ok mac.
Proof.
  assert (F : macaroon_fits mac) by (repeat constructor).
  split; [exact F|]. exact (proj2 (macaroon_wire_roundtrip mac) F).
Defined.

Lemma discharge_wire_roundtrip_witness :
  discharge_deserialize (discharge_serialize dis) = Ok (truncate_expiry dis).
Proof.
  apply (discharge_wire_roundtrip dis).
  - repeat constructor.
  - intros t [= <-]. by vm_compute.
Defined.

End WireExamples.
