(* ===== verification/Threshold.v ===== *)
(** Feldman verifiable secret sharing over the P-256 scalar field
    (threshold.rs).  Field and group arithmetic come from the [p256] crate and
    are a parameter with the laws of a field and of a vector space over it;
    the polynomial evaluation, the share check against the commitments and
    the Lagrange interpolation are the loops of the source. *)

From Stdlib Require Import Field.
From S2P Require Import Prelude RustStd Externals.

(** ** The [p256] crate *)

Class P256 := {
  scalar : Type;
  s0 : scalar; s1 : scalar;
  sadd : scalar -> scalar -> scalar;
  smul : scalar -> scalar -> scalar;
  ssub : scalar -> scalar -> scalar;
  sopp : scalar -> scalar;
  sinv : scalar -> scalar;
  scalar_eq_dec :: EqDecision scalar;
  (** [Scalar::from(u64)], [Reduce::reduce_bytes], [to_bytes], [from_repr] *)
  scalar_from_u64 : Z -> scalar;
  reduce_bytes : bytes -> scalar;
  scalar_to_bytes : scalar -> bytes;
  scalar_from_repr : bytes -> option scalar;
  point : Type;
  pidentity : point;
  pgenerator : point;
  padd : point -> point -> point;
  pmul : point -> scalar -> point;
  point_eq_dec :: EqDecision point;
  point_to_bytes : point -> bytes;
  point_from_bytes : bytes -> option point;
}.

Class P256Laws `{P256} : Prop := {
  scalar_field :
    field_theory s0 s1 sadd smul ssub sopp (fun a b => smul a (sinv b)) sinv (@eq scalar);
  scalar_repr s : scalar_from_repr (scalar_to_bytes s) = Some s;
  scalar_bytes_length s : length (scalar_to_bytes s) = 32;
  scalar_from_u64_zero : scalar_from_u64 0 = s0;
  (** (used here on [u8] values only) *)
  scalar_from_u64_inj a b : (0 <= a < 256)%Z -> (0 <= b < 256)%Z ->
    scalar_from_u64 a = scalar_from_u64 b -> a = b;
  point_repr p : point_from_bytes (point_to_bytes p) = Some p;
  point_bytes_length p : length (point_to_bytes p) = 33;
  padd_identity p : padd pidentity p = p;
  padd_assoc p q r : padd p (padd q r) = padd (padd p q) r;
  padd_comm p q : padd p q = padd q p;
  pmul_add p a b : pmul p (sadd a b) = padd (pmul p a) (pmul p b);
  pmul_mul p a b : pmul p (smul a b) = pmul (pmul p a) b;
  pmul_zero p : pmul p s0 = pidentity;
  generator_order a b : pmul pgenerator a = pmul pgenerator b -> a = b;
}.

(** ** The module *)

Definition SHARE_LENGTH : nat := 32.
Definition COMMITMENT_LENGTH : nat := 33.

Inductive ThresholdError :=
| InvalidParams
| InsufficientShares (threshold : Z) (got : nat)
| DuplicateShares
| InvalidShareLength
| InvalidShareScalar
| MissingCommitments
| InvalidCommitmentCount (expected got : nat)
| InvalidCommitmentLength
| InvalidCommitmentEncoding
| CommitmentMismatch.

Record Share := mkShare { share_x : byte; share_y : bytes }.
#[export] Instance share_eq_dec : EqDecision Share.
Proof. solve_decision. Defined.

Record SplitResult := mkSplit { shares : list Share; commitments : list bytes }.

Section Threshold.
Context `{P256}.

Definition scalar_from_x (x : byte) : scalar := scalar_from_u64 (u8 x).

Definition secret_scalar_from_bytes (secret : bytes) : scalar := reduce_bytes secret.

Definition scalar_to_array (value : scalar) : bytes := scalar_to_bytes value.

Definition canonical_secret_bytes (secret : bytes) : bytes :=
  scalar_to_array (secret_scalar_from_bytes secret).

Definition commitment_for_scalar (coeff : scalar) : bytes :=
  point_to_bytes (pmul pgenerator coeff).

Definition decode_commitment (b : bytes) : result ThresholdError point :=
  let! _ := guard (negb (length b =? COMMITMENT_LENGTH)%nat) InvalidCommitmentLength in
  ok_or (point_from_bytes b) InvalidCommitmentEncoding.

Definition share_scalar (share : Share) : result ThresholdError scalar :=
  let! _ := guard (negb (length (share_y share) =? SHARE_LENGTH)%nat) InvalidShareLength in
  ok_or (scalar_from_repr (share_y share)) InvalidShareScalar.

Definition eval_poly (coeffs : list scalar) (x : scalar) : scalar :=
  foldl (fun result coeff => sadd (smul result x) coeff) s0 (rev coeffs).

(** [Scalar::random] is called [threshold - 1] times: [random] holds the
    scalars it returns. *)
Definition split (random : nat -> scalar) (secret : bytes) (threshold num_shares : Z)
    : result ThresholdError SplitResult :=
  let! _ := guard ((threshold <? 1)%Z || (num_shares <? threshold)%Z) InvalidParams in
  let! _ := guard (num_shares =? 0)%Z InvalidParams in
  let coeffs := secret_scalar_from_bytes secret :: map random (seq 1 (Z.to_nat threshold - 1)) in
  let commitments := map commitment_for_scalar coeffs in
  let shares := map (fun i =>
      let x := to_u8 (Z.of_nat i) in
      mkShare x (scalar_to_array (eval_poly coeffs (scalar_from_x x))))
    (seq 1 (Z.to_nat num_shares)) in
  Ok (mkSplit shares commitments).

Definition validate_commitments (commitments : list bytes) (threshold : Z)
    : result ThresholdError unit :=
  let! _ := guard (is_empty commitments) MissingCommitments in
  guard (negb (length commitments =? Z.to_nat threshold)%nat)
    (InvalidCommitmentCount (Z.to_nat threshold) (length commitments)).

(** The two nested loops over share indices. *)
Fixpoint check_duplicates (shares : list Share) : result ThresholdError unit :=
  match shares with
  | [] => Ok tt
  | s :: rest =>
    let! _ := for_each (fun s' => guard (bool_decide (share_x s = share_x s')) DuplicateShares) rest in
    check_duplicates rest
  end.

(** The loop computes (rhs, x_power). *)
Definition commitment_step (x : scalar) (acc : point * scalar) (commitment : point) : point * scalar :=
  (padd acc.1 (pmul commitment acc.2), smul acc.2 x).

Definition verify_share_with_commitments (share : Share) (commitments : list point)
    : result ThresholdError unit :=
  let! y := share_scalar share in
  let x := scalar_from_x (share_x share) in
  let '(rhs, _) := foldl (commitment_step x) (pidentity, s1) commitments in
  let lhs := pmul pgenerator y in
  if bool_decide (lhs = rhs) then Ok tt else Err CommitmentMismatch.

(** [Scalar::invert], a [CtOption] *)
Definition invert (s : scalar) : option scalar :=
  if bool_decide (s = s0) then None else Some (sinv s).

(** The inner loop for share [i]: (numerator, denominator) over [j <> i]. *)
Fixpoint products (xi : scalar) (i j : nat) (xs : list scalar) (num den : scalar) : scalar * scalar :=
  match xs with
  | [] => (num, den)
  | xj :: xs =>
    if (i =? j)%nat then products xi i (S j) xs num den
    else products xi i (S j) xs (smul num xj) (smul den (ssub xj xi))
  end.

(** The outer loop, from index [i] on. *)
Fixpoint interpolate (all : list scalar) (i : nat) (pts : list (scalar * scalar)) (secret : scalar)
    : result ThresholdError scalar :=
  match pts with
  | [] => Ok secret
  | (xi, yi) :: pts =>
    let '(numerator, denominator) := products xi i 0 all s1 s1 in
    let! denominator_inv := ok_or (invert denominator) DuplicateShares in
    interpolate all (S i) pts (sadd secret (smul (smul yi numerator) denominator_inv))
  end.

Definition reconstruct (shares : list Share) (threshold : Z) (commitments : list bytes)
    : result ThresholdError bytes :=
  let! _ := guard (Z.of_nat (length shares) <? threshold)%Z
              (InsufficientShares threshold (length shares)) in
  let! _ := validate_commitments commitments threshold in
  let! _ := check_duplicates shares in
  let! decoded_commitments := collect decode_commitment commitments in
  let! share_scalars := collect (fun share =>
      let! _ := verify_share_with_commitments share decoded_commitments in
      share_scalar share) shares in
  let xs := map (fun s => scalar_from_x (share_x s)) shares in
  let! secret := interpolate xs 0 (zip xs share_scalars) s0 in
  Ok (scalar_to_array secret).

End Threshold.

(** * Polynomials over the scalar field *)

Section Polynomials.
Context `{P256Laws}.

Add Field scalars : scalar_field.

(** Coefficients from the constant term up; [eval_poly] is Horner's rule. *)
Definition poly_eval (p : list scalar) (x : scalar) : scalar :=
  foldr (fun c r => sadd (smul r x) c) s0 p.

Lemma eval_poly_eval p x : eval_poly p x = poly_eval p x.
Proof.
  unfold eval_poly. induction p as [|c p IH]; [done|].
  cbn [rev]. rewrite foldl_app, IH. done.
Qed.

Lemma poly_eval_cons c p x : poly_eval (c :: p) x = sadd (smul (poly_eval p x) x) c.
Proof. done. Qed.
Lemma poly_eval_nil x : poly_eval [] x = s0.
Proof. done. Qed.

Fixpoint poly_add (p q : list scalar) : list scalar :=
  match p, q with
  | [], _ => q
  | _, [] => p
  | a :: p, b :: q => sadd a b :: poly_add p q
  end.
Definition poly_scale (c : scalar) (p : list scalar) : list scalar := map (smul c) p.
(** [(a - x) * p] *)
Definition poly_lin (a : scalar) (p : list scalar) : list scalar :=
  poly_add (poly_scale a p) (s0 :: poly_scale (sopp s1) p).

Lemma poly_add_eval p q x : poly_eval (poly_add p q) x = sadd (poly_eval p x) (poly_eval q x).
Proof.
  revert q; induction p as [|a p IH]; intros [|b q]; cbn [poly_add];
    rewrite ?poly_eval_cons, ?poly_eval_nil; try ring.
  rewrite IH. ring.
Qed.

Lemma poly_scale_eval c p x : poly_eval (poly_scale c p) x = smul c (poly_eval p x).
Proof.
  induction p as [|a p IH]; [cbn; ring|].
  change (poly_scale c (a :: p)) with (smul c a :: poly_scale c p).
  rewrite !poly_eval_cons, IH. ring.
Qed.

Lemma poly_lin_eval a p x : poly_eval (poly_lin a p) x = smul (ssub a x) (poly_eval p x).
Proof.
  unfold poly_lin. rewrite poly_add_eval, poly_eval_cons, !poly_scale_eval. ring.
Qed.

Lemma length_poly_add p q : length (poly_add p q) = Nat.max (length p) (length q).
Proof. revert q; induction p as [|a p IH]; intros [|b q]; cbn; auto. Qed.

Lemma length_poly_scale c p : length (poly_scale c p) = length p.
Proof. apply length_map. Qed.

Lemma length_poly_lin a p : length (poly_lin a p) = S (length p).
Proof. unfold poly_lin. rewrite length_poly_add. cbn [length]. rewrite !length_poly_scale. lia. Qed.

(** ** A polynomial with too many roots is zero *)

(** Synthetic division by [x - a]. *)
Fixpoint poly_quot (a : scalar) (p : list scalar) : list scalar :=
  match p with
  | [] => []
  | _ :: p => match p with [] => [] | _ => poly_eval p a :: poly_quot a p end
  end.

Lemma length_poly_quot a p : length (poly_quot a p) = length p - 1.
Proof. induction p as [|c [|d p] IH]; cbn in *; auto. by rewrite IH, Nat.sub_0_r. Qed.

Lemma poly_quot_eval a p x :
  poly_eval p x = sadd (smul (ssub x a) (poly_eval (poly_quot a p) x)) (poly_eval p a).
Proof.
  induction p as [|c p IH]; [cbn; ring|].
  destruct p as [|d p]; [cbn; ring|].
  change (poly_quot a (c :: d :: p)) with (poly_eval (d :: p) a :: poly_quot a (d :: p)).
  rewrite (poly_eval_cons c _ x), (poly_eval_cons c _ a), (poly_eval_cons _ (poly_quot a _)).
  rewrite IH at 1. ring.
Qed.

Lemma smul_zero_cancel a b : smul a b = s0 -> a <> s0 -> b = s0.
Proof.
  intros E Ha. transitivity (smul (sinv a) (smul a b)); [field; done|]. rewrite E. ring.
Qed.

Lemma ssub_zero a b : ssub a b = s0 -> a = b.
Proof. intros E. transitivity (sadd (ssub a b) b); [ring|]. rewrite E. ring. Qed.

Lemma poly_roots p : forall xs,
  length p <= length xs -> NoDup xs -> Forall (fun x => poly_eval p x = s0) xs ->
  forall x, poly_eval p x = s0.
Proof.
  remember (length p) as n eqn:Hn. revert p Hn.
  induction n as [|n IH]; intros p Hn xs Hl ND HF x.
  { by destruct p. }
  destruct xs as [|a xs]; [cbn in Hl; lia|].
  apply NoDup_cons in ND as [Ha ND]. apply Forall_cons in HF as [Ra HF].
  rewrite (poly_quot_eval a), Ra.
  rewrite (IH (poly_quot a p)) with (xs := xs); [ring|rewrite length_poly_quot; lia|cbn in Hl; lia|done|].
  apply Forall_forall. intros b Hb. rewrite Forall_forall in HF. pose proof (HF b Hb) as Rb.
  rewrite (poly_quot_eval a), Ra in Rb.
  apply (smul_zero_cancel (ssub b a)).
  - rewrite <- Rb. ring.
  - intros ->%ssub_zero. done.
Qed.

Lemma poly_unique p q xs :
  length p <= length xs -> length q <= length xs -> NoDup xs ->
  Forall (fun x => poly_eval p x = poly_eval q x) xs -> forall x, poly_eval p x = poly_eval q x.
Proof.
  intros Hp Hq ND HF x. apply ssub_zero.
  assert (E : forall x, poly_eval (poly_add p (poly_scale (sopp s1) q)) x
            = ssub (poly_eval p x) (poly_eval q x)).
  { intros y. rewrite poly_add_eval, poly_scale_eval. ring. }
  rewrite <- E. apply (poly_roots _ xs); [|done|].
  - rewrite length_poly_add. rewrite length_poly_scale. lia.
  - eapply Forall_impl; [exact HF|]. intros y Hy; cbn in Hy. rewrite E, Hy. ring.
Qed.

(** ** Lagrange interpolation *)

(** The product of [a - x] over the points [xs]. *)
Definition node_prod (xs : list scalar) (x : scalar) : scalar :=
  foldr (fun a r => smul (ssub a x) r) s1 xs.
Definition node_poly (xs : list scalar) : list scalar := foldr poly_lin [s1] xs.

Lemma node_poly_eval xs x : poly_eval (node_poly xs) x = node_prod xs x.
Proof.
  induction xs as [|a xs IH]; [cbn; ring|].
  change (node_poly (a :: xs)) with (poly_lin a (node_poly xs)). by rewrite poly_lin_eval, IH.
Qed.
Lemma length_node_poly xs : length (node_poly xs) = S (length xs).
Proof.
  induction xs as [|a xs IH]; [done|].
  change (node_poly (a :: xs)) with (poly_lin a (node_poly xs)). by rewrite length_poly_lin, IH.
Qed.

Lemma node_prod_cons a xs x : node_prod (a :: xs) x = smul (ssub a x) (node_prod xs x).
Proof. done. Qed.

Lemma node_prod_root xs x : x ∈ xs -> node_prod xs x = s0.
Proof.
  induction 1 as [x xs|x y xs _ IH]; rewrite node_prod_cons; [ring|].
  rewrite IH. ring.
Qed.
Lemma node_prod_nonzero xs x : x ∉ xs -> node_prod xs x <> s0.
Proof.
  induction xs as [|a xs IH]; intros Hx.
  - destruct scalar_field as [_ N _ _]. done.
  - apply not_elem_of_cons in Hx as [Hne Hx]. rewrite node_prod_cons. intros E.
    apply smul_zero_cancel in E; [by apply IH|]. intros ->%ssub_zero. done.
Qed.

(** The interpolating polynomial of the points [(xs, ys)] from index [i] on. *)
Fixpoint lagrange (all : list scalar) (i : nat) (pts : list (scalar * scalar)) : list scalar :=
  match pts with
  | [] => []
  | (xi, yi) :: pts =>
    poly_add (poly_scale (smul yi (sinv (node_prod (delete i all) xi))) (node_poly (delete i all)))
      (lagrange all (S i) pts)
  end.

Definition lagrange_term (all : list scalar) (i : nat) (xi yi x : scalar) : scalar :=
  smul (smul yi (node_prod (delete i all) x)) (sinv (node_prod (delete i all) xi)).

Fixpoint lagrange_sum (all : list scalar) (i : nat) (pts : list (scalar * scalar)) (x : scalar) : scalar :=
  match pts with
  | [] => s0
  | (xi, yi) :: pts => sadd (lagrange_term all i xi yi x) (lagrange_sum all (S i) pts x)
  end.

Lemma lagrange_eval all i pts x : poly_eval (lagrange all i pts) x = lagrange_sum all i pts x.
Proof.
  revert i; induction pts as [|[xi yi] pts IH]; intros i; [done|]. cbn [lagrange lagrange_sum].
  rewrite poly_add_eval, poly_scale_eval, node_poly_eval, IH. unfold lagrange_term. ring.
Qed.

Lemma length_delete_lookup {A} (l : list A) i x : l !! i = Some x -> S (length (delete i l)) = length l.
Proof. intros E. rewrite length_delete by eauto. apply lookup_lt_Some in E. lia. Qed.

Lemma drop_cons_inv {A} (l : list A) i x r :
  drop i l = x :: r -> l !! i = Some x /\ r = drop (S i) l.
Proof.
  intros E. assert (L : l !! i = Some x) by (by rewrite <- (Nat.add_0_r i), <- lookup_drop, E).
  split; [done|]. rewrite (drop_S _ _ _ L) in E. by injection E.
Qed.

Lemma length_lagrange all i pts :
  map fst pts = drop i all -> length (lagrange all i pts) <= length all.
Proof.
  revert i; induction pts as [|[xi yi] pts IH]; intros i E; [cbn; lia|].
  cbn [lagrange]. symmetry in E. apply drop_cons_inv in E as [L E].
  rewrite length_poly_add, length_poly_scale, length_node_poly, (length_delete_lookup _ _ _ L).
  apply Nat.max_lub; auto.
Qed.

(** At the nodes the interpolating polynomial has the given values. *)
Lemma lagrange_sum_node all i pts m x :
  NoDup all -> map fst pts = drop i all -> all !! m = Some x ->
  lagrange_sum all i pts x = if (i <=? m)%nat then default s0 (snd <$> pts !! (m - i)) else s0.
Proof.
  intros ND. revert i; induction pts as [|[xi yi] pts IH]; intros i E Hm.
  { cbn. by case_match. }
  symmetry in E. apply drop_cons_inv in E as [L E]. cbn [lagrange_sum].
  rewrite IH by done. unfold lagrange_term.
  pose proof (delete_Permutation _ _ _ L) as P.
  pose proof ND as ND'. rewrite P, NoDup_cons in ND'. destruct ND' as [Hxi _].
  destruct (Nat.eq_dec i m) as [<-|Hne].
  - rewrite L in Hm. injection Hm as <-.
    rewrite (proj2 (Nat.leb_gt _ _)), Nat.leb_refl, Nat.sub_diag by lia. cbn.
    field. by apply node_prod_nonzero.
  - rewrite (node_prod_root _ x).
    2: { assert (Hin : x ∈ all) by (by eapply list_elem_of_lookup_2).
         rewrite P in Hin. apply elem_of_cons in Hin as [->|?]; [|done].
         destruct Hne. eapply NoDup_lookup; eauto. }
    destruct (Nat.leb_spec i m), (Nat.leb_spec (S i) m); try lia.
    + replace (m - i) with (S (m - S i)) by lia.
      change (((xi, yi) :: pts) !! S (m - S i)) with (pts !! (m - S i)).
      generalize (default s0 (snd <$> pts !! (m - S i))). intros d. ring.
    + ring.
Qed.

Lemma fst_zip_drop {A B} (l : list A) (k : list B) :
  length l = length k -> map fst (zip l k) = drop 0 l.
Proof. intros E. rewrite drop_0. apply fst_zip. by rewrite E. Qed.

(** Interpolation recovers any polynomial with no more coefficients than
    there are nodes. *)
Lemma lagrange_sum_poly p all x :
  NoDup all -> length p <= length all ->
  lagrange_sum all 0 (zip all (map (poly_eval p) all)) x = poly_eval p x.
Proof.
  intros ND Hl. rewrite <- lagrange_eval.
  assert (E : map fst (zip all (map (poly_eval p) all)) = drop 0 all).
  { apply fst_zip_drop. by rewrite length_map. }
  apply (poly_unique _ _ all); [by apply length_lagrange|done|done|].
  apply Forall_lookup. intros m y Hm. rewrite lagrange_eval.
  rewrite (lagrange_sum_node all 0 _ m y), Nat.sub_0_r by done. cbn [Nat.leb].
  assert (zip all (map (poly_eval p) all) !! m = Some (y, poly_eval p y)) as ->; [|done].
  apply lookup_zip_with_Some. exists y, (poly_eval p y). split; [done|]. split; [done|].
  change (map (poly_eval p) all) with (poly_eval p <$> all). by rewrite list_lookup_fmap, Hm.
Qed.

End Polynomials.

(** * The code computes the interpolation *)

Section Correctness.
Context `{P256Laws}.

Add Field scalars' : scalar_field.

Lemma products_spec xi i xs : forall j num den,
  products xi i j xs num den =
  let rest := if (j <=? i)%nat then delete (i - j) xs else xs in
  (smul num (node_prod rest s0), smul den (node_prod rest xi)).
Proof.
  induction xs as [|a xs IH]; intros j num den.
  { assert (delete (i - j) (@nil scalar) = []) as E by (by destruct (i - j)).
    cbn. rewrite E. case_match; cbn; f_equal; ring. }
  cbn [products]. rewrite !IH. cbn zeta.
  destruct (Nat.eqb_spec i j) as [->|Hne].
  - rewrite (proj2 (Nat.leb_gt _ _)), Nat.leb_refl, Nat.sub_diag by lia. done.
  - destruct (Nat.leb_spec j i), (Nat.leb_spec (S j) i); try lia.
    + replace (i - j) with (S (i - S j)) by lia.
      change (delete (S (i - S j)) (a :: xs)) with (a :: delete (i - S j) xs).
      rewrite !node_prod_cons. f_equal; ring.
    + rewrite !node_prod_cons. f_equal; ring.
Qed.

Lemma interpolate_ok all : NoDup all -> forall pts i secret,
  map fst pts = drop i all ->
  interpolate all i pts secret = Ok (sadd secret (lagrange_sum all i pts s0)).
Proof.
  intros ND. induction pts as [|[xi yi] pts IH]; intros i secret E.
  { cbn. f_equal. ring. }
  symmetry in E. apply drop_cons_inv in E as [L E].
  cbn [interpolate]. rewrite products_spec. cbn [Nat.leb]. rewrite Nat.sub_0_r. cbn zeta.
  assert (Hnz : node_prod (delete i all) xi <> s0).
  { apply node_prod_nonzero. rewrite (delete_Permutation _ _ _ L), NoDup_cons in ND. apply ND. }
  assert (Hone : smul s1 (node_prod (delete i all) xi) = node_prod (delete i all) xi) by ring.
  rewrite Hone. unfold invert. rewrite bool_decide_eq_false_2 by done. cbn [ok_or rbind].
  rewrite IH by done. cbn [lagrange_sum]. unfold lagrange_term. f_equal. ring.
Qed.

(** ** Feldman commitments *)

Lemma commitment_steps x coeffs : forall acc pw,
  (foldl (commitment_step x) (acc, pw) (map (pmul pgenerator) coeffs)).1
  = padd acc (pmul pgenerator (smul pw (poly_eval coeffs x))).
Proof.
  induction coeffs as [|c cs IH]; intros acc pw; cbn [map foldl].
  - replace (smul pw (poly_eval [] x)) with s0 by (cbn; ring).
    by rewrite pmul_zero, padd_comm, padd_identity.
  - unfold commitment_step at 2. cbn [fst snd]. rewrite IH, <- padd_assoc. f_equal.
    rewrite <- pmul_mul, <- pmul_add. f_equal. rewrite poly_eval_cons. ring.
Qed.

(** The share lies on the polynomial. *)
Definition on_poly (coeffs : list scalar) (s : Share) : Prop :=
  share_scalar s = Ok (poly_eval coeffs (scalar_from_x (share_x s))).

Lemma verify_share_iff coeffs s :
  verify_share_with_commitments s (map (pmul pgenerator) coeffs) = Ok tt <-> on_poly coeffs s.
Proof.
  unfold verify_share_with_commitments, on_poly.
  pose proof (commitment_steps (scalar_from_x (share_x s)) coeffs pidentity s1) as C.
  destruct (foldl _ _ _) as [rhs pw]. cbn [fst] in C. subst rhs.
  replace (smul s1 _) with (poly_eval coeffs (scalar_from_x (share_x s))) by ring.
  rewrite padd_identity. destruct (share_scalar s) as [y|e|]; cbn [rbind]; [|done..].
  case_if; bool_to_prop; split; try done.
  - intros _. f_equal. by apply generator_order.
  - intros [= ->]. done.
Qed.

Lemma decode_commitments coeffs :
  collect decode_commitment (map commitment_for_scalar coeffs) = Ok (map (pmul pgenerator) coeffs).
Proof.
  apply collect_map. intros c _. unfold decode_commitment, commitment_for_scalar.
  by rewrite point_bytes_length, point_repr.
Qed.

Lemma check_duplicates_ok ss : check_duplicates ss = Ok tt <-> NoDup (map share_x ss).
Proof.
  induction ss as [|s ss IH]; cbn [check_duplicates map]; [split; auto using NoDup_nil_2|].
  rewrite NoDup_cons, rbind_ok. split.
  - intros ([] & HF & HD). split; [|by apply IH].
    apply for_each_ok in HF. rewrite Forall_forall in HF.
    intros (s' & Hs & Hin)%list_elem_of_fmap.
    by apply HF, guard_ok, bool_decide_eq_false in Hin.
  - intros [Hn HD%IH]. exists tt. split; [|done]. apply for_each_ok, Forall_forall.
    intros s' Hin. apply guard_ok, bool_decide_eq_false. intros Hs. apply Hn.
    rewrite Hs. by apply list_elem_of_fmap_2.
Qed.

#[local] Instance scalar_from_x_inj : Inj eq eq scalar_from_x.
Proof.
  intros x y E. pose proof (u8_bound x). pose proof (u8_bound y).
  apply scalar_from_u64_inj in E; [|lia..]. by rewrite <- (to_u8_u8 x), <- (to_u8_u8 y), E.
Qed.

Lemma NoDup_nodes ss :
  NoDup (map share_x ss) -> NoDup (map (fun s => scalar_from_x (share_x s)) ss).
Proof.
  intros ND. rewrite <- (map_map share_x scalar_from_x).
  by apply (NoDup_fmap_2 scalar_from_x).
Qed.

Lemma collect_shares coeffs ss ys :
  collect (fun s => let! _ := verify_share_with_commitments s (map (pmul pgenerator) coeffs) in
                    share_scalar s) ss = Ok ys <->
  Forall (on_poly coeffs) ss /\ ys = map (fun s => poly_eval coeffs (scalar_from_x (share_x s))) ss.
Proof.
  rewrite collect_ok. revert ys. induction ss as [|s ss IH]; intros ys.
  - split; [inversion 1; by repeat constructor|]. intros [_ ->]. constructor.
  - split.
    + inversion 1 as [|? y ? ys' Hs Hss]; subst. apply rbind_ok in Hs as ([] & Hv & Hy).
      apply verify_share_iff in Hv. apply IH in Hss as [HF ->].
      split; [by constructor|]. unfold on_poly in Hv. cbn. congruence.
    + intros [[Hs HF]%Forall_cons ->]. cbn. constructor; [|by apply IH].
      apply rbind_ok. exists tt. by rewrite verify_share_iff.
Qed.

(** Interpolating shares of a polynomial at 0 gives its constant term. *)
Lemma interpolate_shares coeffs c0 rest ss :
  coeffs = c0 :: rest -> length coeffs <= length ss -> NoDup (map share_x ss) ->
  interpolate (map (fun s => scalar_from_x (share_x s)) ss) 0
    (zip (map (fun s => scalar_from_x (share_x s)) ss)
         (map (fun s => poly_eval coeffs (scalar_from_x (share_x s))) ss)) s0 = Ok c0.
Proof.
  intros Hc Hl ND%NoDup_nodes. rewrite interpolate_ok; [|done|].
  2: { apply fst_zip_drop. by rewrite !length_map. }
  rewrite <- (map_map (fun s => scalar_from_x (share_x s)) (poly_eval coeffs)).
  rewrite lagrange_sum_poly by (first [done | by rewrite length_map]).
  subst. f_equal. rewrite poly_eval_cons. ring.
Qed.

(** Reconstruction against the commitments of a polynomial succeeds exactly
    for enough distinct shares of that polynomial, and gives its constant
    term. *)
Lemma reconstruct_iff coeffs c0 rest ss r :
  coeffs = c0 :: rest ->
  reconstruct ss (Z.of_nat (length coeffs)) (map commitment_for_scalar coeffs) = Ok r <->
  length coeffs <= length ss /\ NoDup (map share_x ss) /\ Forall (on_poly coeffs) ss
  /\ r = scalar_to_array c0.
Proof.
  intros Hc. unfold reconstruct, validate_commitments.
  assert (is_empty (map commitment_for_scalar coeffs) = false) as -> by (by subst).
  rewrite length_map, Nat2Z.id, Nat.eqb_refl, decode_commitments. cbn [guard negb rbind].
  rewrite rbind_ok. setoid_rewrite guard_ok. split.
  - intros (u & G%Z.ltb_ge & E).
    apply rbind_ok in E as ([] & D%check_duplicates_ok & E).
    apply rbind_ok in E as (ys & [HF ->]%collect_shares & E).
    rewrite (interpolate_shares coeffs c0 rest) in E by (done || lia). injection E as <-.
    repeat split; auto. lia.
  - intros (Hl & ND & HF & ->). exists tt. split; [apply Z.ltb_ge; lia|].
    rewrite (proj2 (check_duplicates_ok ss)) by done. cbn [rbind].
    rewrite (proj2 (collect_shares coeffs ss _)) by done. cbn [rbind].
    by rewrite (interpolate_shares coeffs c0 rest).
Qed.

(** ** Properties of [split] and [reconstruct] *)

(** The polynomial [split] shares. *)
Definition split_coeffs (random : nat -> scalar) (secret : bytes) (threshold : Z) : list scalar :=
  secret_scalar_from_bytes secret :: map random (seq 1 (Z.to_nat threshold - 1)).

Definition share_at (coeffs : list scalar) (i : nat) : Share :=
  mkShare (to_u8 (Z.of_nat i))
    (scalar_to_array (poly_eval coeffs (scalar_from_x (to_u8 (Z.of_nat i))))).

Lemma split_ok random secret k n r :
  split random secret k n = Ok r <->
  (1 <= k <= n)%Z /\
  r = mkSplit (map (share_at (split_coeffs random secret k)) (seq 1 (Z.to_nat n)))
        (map commitment_for_scalar (split_coeffs random secret k)).
Proof.
  unfold split. rewrite rbind_ok. setoid_rewrite guard_ok.
  assert (E : forall cs, map (fun i => mkShare (to_u8 (Z.of_nat i))
      (scalar_to_array (eval_poly cs (scalar_from_x (to_u8 (Z.of_nat i)))))) (seq 1 (Z.to_nat n))
    = map (share_at cs) (seq 1 (Z.to_nat n))).
  { intros cs. apply map_ext. intros i. unfold share_at. by rewrite eval_poly_eval. }
  cbn zeta. rewrite E. split.
  - intros (_ & G & D). apply rbind_ok in D as (_ & Z0%guard_ok & D). injection D as <-.
    bool_to_prop. split; [lia|done].
  - intros [Hk ->]. exists tt. split.
    + apply orb_false_iff. split; apply Z.ltb_ge; lia.
    + by rewrite (proj2 (Z.eqb_neq n 0)) by lia.
Qed.

Lemma length_split_coeffs random secret k :
  (1 <= k)%Z -> Z.of_nat (length (split_coeffs random secret k)) = k.
Proof. intros Hk. unfold split_coeffs. cbn [length]. rewrite length_map, length_seq. lia. Qed.

Lemma share_at_on_poly coeffs i : on_poly coeffs (share_at coeffs i).
Proof.
  unfold on_poly, share_scalar, share_at, scalar_to_array. cbn.
  by rewrite scalar_bytes_length, scalar_repr.
Qed.

Lemma share_at_inj coeffs i j :
  (0 <= Z.of_nat i < 256)%Z -> (0 <= Z.of_nat j < 256)%Z ->
  to_u8 (Z.of_nat i) = to_u8 (Z.of_nat j) -> share_at coeffs i = share_at coeffs j /\ i = j.
Proof.
  intros Hi Hj E. apply (f_equal u8) in E. rewrite !u8_to_u8, !Z.mod_small in E by lia.
  assert (i = j) as -> by lia. done.
Qed.

(** Distinct dealt shares have distinct x-coordinates. *)
Lemma dealt_distinct coeffs n ss :
  (n <= 255)%Z -> ss ⊆ map (share_at coeffs) (seq 1 (Z.to_nat n)) -> NoDup ss ->
  NoDup (map share_x ss).
Proof.
  intros Hn Hs ND. apply NoDup_fmap_2_strong; [|done]. intros s t Hin Hit E.
  apply Hs in Hin, Hit.
  apply list_elem_of_fmap in Hin as (i & -> & Hi%elem_of_seq).
  apply list_elem_of_fmap in Hit as (j & -> & Hj%elem_of_seq).
  apply (share_at_inj coeffs i j); [lia..|exact E].
Qed.

Lemma reconstruct_dealt random secret k n r ss :
  (n <= 255)%Z -> split random secret k n = Ok r ->
  ss ⊆ shares r -> NoDup ss -> (k <= Z.of_nat (length ss))%Z ->
  reconstruct ss k (commitments r) = Ok (canonical_secret_bytes secret).
Proof.
  intros Hn [Hk ->]%split_ok Hs ND Hl. cbn [shares commitments] in *.
  pose proof (length_split_coeffs random secret k ltac:(lia)) as L. rewrite <- L at 1.
  eapply reconstruct_iff; [done|]. split; [lia|]. split; [by eapply dealt_distinct|].
  split; [|done]. apply Forall_forall. intros s Hin%Hs.
  apply list_elem_of_fmap in Hin as (i & -> & _). apply share_at_on_poly.
Qed.

(** C23: any [threshold] or more distinct shares of a split recover the
    canonical form of the secret. *)
Theorem split_reconstruct random secret k n r ss :
  (n <= 255)%Z -> split random secret k n = Ok r ->
  ss ⊆ shares r -> NoDup ss -> (k <= Z.of_nat (length ss))%Z ->
  reconstruct ss k (commitments r) = Ok (canonical_secret_bytes secret).
Proof. apply reconstruct_dealt. Qed.

(** C24: reconstruction is verifiable: whatever shares are presented, forged
    ones included, the result is the shared secret or an error; and every
    accepted share is on the dealer's polynomial, so one with the
    x-coordinate of a dealt share carries the dealt value. *)
Theorem reconstruct_sound random secret k n r ss v :
  split random secret k n = Ok r -> reconstruct ss k (commitments r) = Ok v ->
  v = canonical_secret_bytes secret /\ (k <= Z.of_nat (length ss))%Z /\
  forall s d, s ∈ ss -> d ∈ shares r -> share_x s = share_x d -> share_scalar s = share_scalar d.
Proof.
  intros [Hk ->]%split_ok E. cbn [shares commitments] in *.
  pose proof (length_split_coeffs random secret k ltac:(lia)) as L. rewrite <- L in E at 1.
  eapply reconstruct_iff in E as (Hl & _ & HF & ->); [|done].
  split; [done|]. split; [lia|]. intros s d Hs Hd Hx.
  apply list_elem_of_fmap in Hd as (i & -> & _). rewrite Forall_forall in HF.
  rewrite (HF s Hs), (share_at_on_poly _ i). by rewrite Hx.
Qed.

Lemma check_duplicates_err ss : ~ NoDup (map share_x ss) -> check_duplicates ss = Err DuplicateShares.
Proof.
  intros Hn.
  assert (C : check_duplicates ss = Ok tt \/ check_duplicates ss = Err DuplicateShares).
  { clear Hn. induction ss as [|s ss IH]; cbn [check_duplicates]; [by left|].
    assert (F : forall l, for_each (fun s' => guard (bool_decide (share_x s = share_x s'))
        DuplicateShares) l = Ok tt \/ for_each (fun s' => guard (bool_decide (share_x s = share_x s'))
        DuplicateShares) l = Err DuplicateShares).
    { induction l as [|t l IHl]; cbn [for_each]; [by left|].
      destruct (bool_decide _); cbn [guard rbind]; auto. }
    destruct (F ss) as [-> | ->]; cbn [rbind]; auto. }
  destruct C as [C%check_duplicates_ok|C]; [by destruct Hn|done].
Qed.

Definition decodes (s : Share) : Prop := is_ok (share_scalar s) = true.

Lemma collect_shares_err coeffs ss :
  Forall decodes ss -> ~ Forall (on_poly coeffs) ss ->
  collect (fun s => let! _ := verify_share_with_commitments s (map (pmul pgenerator) coeffs) in
                    share_scalar s) ss = Err CommitmentMismatch.
Proof.
  intros HD. induction HD as [|s ss Hs HD IH]; intros Hn; [by destruct Hn|].
  cbn [collect]. unfold decodes in Hs. pose proof (verify_share_iff coeffs s) as V.
  destruct (verify_share_with_commitments s _) as [[]|e|] eqn:E.
  - cbn [rbind]. destruct (share_scalar s); try discriminate Hs. cbn [rbind].
    rewrite IH; [done|]. intros HF. apply Hn. constructor; [by apply V|done].
  - unfold verify_share_with_commitments in E. destruct (share_scalar s); try discriminate Hs.
    cbn [rbind] in *. destruct (foldl _ _ _). case_if; congruence.
  - unfold verify_share_with_commitments in E. destruct (share_scalar s); try discriminate Hs.
    cbn [rbind] in *. destruct (foldl _ _ _). case_if; congruence.
Qed.

(** The ways reconstruction fails, in the order the code checks them:
    too few shares, repeated x-coordinates, and a share that is not the
    dealer's. *)
Theorem reconstruct_rejects random secret k n r ss :
  split random secret k n = Ok r ->
  ((Z.of_nat (length ss) < k)%Z ->
     reconstruct ss k (commitments r) = Err (InsufficientShares k (length ss))) /\
  ((k <= Z.of_nat (length ss))%Z -> ~ NoDup (map share_x ss) ->
     reconstruct ss k (commitments r) = Err DuplicateShares) /\
  ((k <= Z.of_nat (length ss))%Z -> NoDup (map share_x ss) -> Forall decodes ss ->
   ~ Forall (on_poly (split_coeffs random secret k)) ss ->
     reconstruct ss k (commitments r) = Err CommitmentMismatch).
Proof.
  intros [Hk ->]%split_ok. cbn [commitments]. unfold reconstruct, validate_commitments.
  pose proof (length_split_coeffs random secret k ltac:(lia)) as L.
  rewrite length_map, decode_commitments, (proj2 (Nat.eqb_eq _ (Z.to_nat k))) by lia.
  cbn [is_empty map split_coeffs guard negb rbind].
  split; [|split]; intros Hl.
  - by rewrite (proj2 (Z.ltb_lt _ _)).
  - intros Hd. rewrite (proj2 (Z.ltb_ge _ _)) by lia. cbn [guard rbind].
    by rewrite check_duplicates_err.
  - intros ND%check_duplicates_ok HD Hb. rewrite (proj2 (Z.ltb_ge _ _)) by lia. cbn [guard rbind].
    rewrite ND. cbn [rbind].
    change (pmul pgenerator (secret_scalar_from_bytes secret) ::
      map (pmul pgenerator) (map random (seq 1 (Z.to_nat k - 1))))
      with (map (pmul pgenerator) (split_coeffs random secret k)).
    by rewrite collect_shares_err.
Qed.

(** ** Secrecy of fewer than [threshold] shares *)

Lemma poly_eval_pad k : forall q x, length q <= k ->
  poly_eval (map (fun i => nth i q s0) (seq 0 k)) x = poly_eval q x.
Proof.
  induction k as [|k IH]; intros q x Hq.
  { by destruct q; [|cbn in Hq; lia]. }
  cbn [seq map]. rewrite poly_eval_cons, <- seq_shift, map_map. destruct q as [|c q].
  - rewrite (map_ext _ (fun i => nth i [] s0)) by (by intros []). rewrite IH by (cbn; lia). cbn. ring.
  - cbn [nth]. rewrite IH by (cbn in Hq; lia). by rewrite poly_eval_cons.
Qed.

Lemma secret_interpolant coeffs c0 ss :
  Forall (on_poly coeffs) ss -> NoDup (map share_x ss) -> Byte.x00 ∉ map share_x ss ->
  exists q, length q <= S (length ss) /\ poly_eval q s0 = c0 /\ Forall (on_poly q) ss.
Proof.
  intros HF ND Hx0. set (xs := map (fun s => scalar_from_x (share_x s)) ss).
  assert (Hz : scalar_from_x Byte.x00 = s0) by apply scalar_from_u64_zero.
  assert (NDx : NoDup (s0 :: xs)).
  { apply NoDup_cons. split; [|by apply NoDup_nodes]. subst xs.
    rewrite <- (map_map share_x scalar_from_x), <- Hz.
    intros (x & E%(inj scalar_from_x) & Hin)%list_elem_of_fmap. by subst. }
  set (pts := zip (s0 :: xs) (c0 :: map (poly_eval coeffs) xs)).
  assert (Hp : map fst pts = drop 0 (s0 :: xs)) by (apply fst_zip_drop; cbn; by rewrite length_map).
  exists (lagrange (s0 :: xs) 0 pts). split; [|split].
  - etransitivity; [by apply length_lagrange|]. cbn. subst xs. by rewrite length_map.
  - rewrite lagrange_eval. by rewrite (lagrange_sum_node (s0 :: xs) 0 pts 0 s0).
  - apply Forall_lookup. intros i s Hi. unfold on_poly. rewrite Forall_lookup in HF.
    rewrite (HF i s Hi), lagrange_eval. f_equal.
    assert (Hx : xs !! i = Some (scalar_from_x (share_x s))).
    { subst xs. change (map ?f ss) with (f <$> ss). by rewrite list_lookup_fmap, Hi. }
    rewrite (lagrange_sum_node (s0 :: xs) 0 pts (S i)) by done. cbn [Nat.leb]. rewrite Nat.sub_0_r.
    change (pts !! S i) with (zip xs (map (poly_eval coeffs) xs) !! i).
    rewrite (proj2 (lookup_zip_with_Some _ _ _ _ (scalar_from_x (share_x s),
      poly_eval coeffs (scalar_from_x (share_x s))))); [done|].
    eexists _, _. split; [done|]. split; [done|].
    change (map ?f xs) with (f <$> xs). by rewrite list_lookup_fmap, Hx.
Qed.

(** C25: fewer than [threshold] shares say nothing about the secret: for every
    other secret there is a choice of random coefficients for which [split]
    deals exactly the same values to those holders.  (The commitments do
    determine the secret; they hide it only computationally.) *)
Theorem shares_hide_secret random secret secret' k n r ss :
  (n <= 255)%Z -> split random secret k n = Ok r ->
  ss ⊆ shares r -> NoDup ss -> (Z.of_nat (length ss) < k)%Z ->
  exists random' r', split random' secret' k n = Ok r' /\ ss ⊆ shares r'.
Proof.
  intros Hn [Hk ->]%split_ok Hs ND Hl. cbn [shares] in *.
  set (coeffs := split_coeffs random secret k) in *.
  pose proof (dealt_distinct _ _ _ Hn Hs ND) as NDx.
  destruct (secret_interpolant coeffs (secret_scalar_from_bytes secret') ss) as (q & Lq & Q0 & QF).
  - apply Forall_forall. intros s Hin%Hs. apply list_elem_of_fmap in Hin as (i & -> & _).
    apply share_at_on_poly.
  - done.
  - intros (s & E & Hin%Hs)%list_elem_of_fmap.
    apply list_elem_of_fmap in Hin as (i & -> & Hi%elem_of_seq). cbn in E.
    apply (f_equal u8) in E. rewrite u8_to_u8, Z.mod_small in E by lia.
    change (u8 Byte.x00) with 0%Z in E. lia.
  - exists (fun i => nth i q s0). eexists. split; [by apply split_ok|]. cbn [shares].
    set (cs := split_coeffs _ secret' k).
    assert (Ecs : forall x, poly_eval cs x = poly_eval q x).
    { intros x. rewrite <- (poly_eval_pad (Z.to_nat k) q x) by lia.
      replace (Z.to_nat k) with (S (Z.to_nat k - 1)) by lia. cbn [seq map].
      subst cs. unfold split_coeffs. rewrite !poly_eval_cons. f_equal.
      rewrite <- Q0. destruct q as [|c q]; cbn; [done|ring]. }
    intros s Hin. pose proof (Hs s Hin) as Hd. apply list_elem_of_fmap in Hd as (i & -> & Hi).
    apply list_elem_of_fmap. exists i. split; [|done].
    rewrite Forall_forall in QF. pose proof (QF _ Hin) as Q. unfold on_poly in Q.
    rewrite (share_at_on_poly coeffs i : share_scalar _ = _) in Q.
    set (x := scalar_from_x (to_u8 (Z.of_nat i))).
    assert (Qx : poly_eval coeffs x = poly_eval q x) by (subst x; cbn [share_at share_x] in Q; congruence).
    unfold share_at. fold x. by rewrite Ecs, Qx.
Qed.

End Correctness.

(** * A small instance: the field of 257 elements as its own group *)

Module Toy257.

Definition p : Z := 257.

Record fp := FP { fpv : Z; fp_reduced : (fpv mod p)%Z = fpv }.

Lemma fp_eq a b : fpv a = fpv b -> a = b.
Proof. destruct a, b; cbn. intros ->. f_equal. apply proof_irrel. Qed.

Definition mk (z : Z) : fp := FP (z mod p) (Zmod_mod z p).

#[export] Instance fp_eq_dec : EqDecision fp.
Proof.
  intros a b. destruct (decide (fpv a = fpv b)) as [E|E]; [left; by apply fp_eq|right; congruence].
Defined.

Definition inv (a : fp) : fp := mk (fpv a ^ 255).

Definition of_bytes (b : bytes) : option fp :=
  let z := of_le_bytes b in if (z <? p)%Z then Some (mk z) else None.

#[export] Instance toy_p256 : P256 := {
  scalar := fp; s0 := mk 0; s1 := mk 1;
  sadd a b := mk (fpv a + fpv b); smul a b := mk (fpv a * fpv b);
  ssub a b := mk (fpv a - fpv b); sopp a := mk (- fpv a); sinv := inv;
  scalar_from_u64 := mk;
  reduce_bytes b := mk (of_le_bytes b);
  scalar_to_bytes a := le_bytes 32 (fpv a); scalar_from_repr := of_bytes;
  point := fp; pidentity := mk 0; pgenerator := mk 1;
  padd a b := mk (fpv a + fpv b); pmul a b := mk (fpv a * fpv b);
  point_to_bytes a := le_bytes 33 (fpv a); point_from_bytes := of_bytes }.
Lemma fp_bound a : (0 <= fpv a < p)%Z.
Proof. rewrite <- (fp_reduced a). by apply Z.mod_pos_bound. Qed.

Lemma inv_table : forallb (fun z => (z =? 0)%Z || ((z ^ 255 mod p * z) mod p =? 1)%Z) (seqZ 0 p) = true.
Proof. vm_compute. reflexivity. Qed.

Lemma inv_mul a : a <> mk 0 -> mk (fpv (inv a) * fpv a) = mk 1.
Proof.
  intros Ha. apply fp_eq. cbn [fpv mk inv].
  assert (Hin : In (fpv a) (seqZ 0 p)) by (apply list_elem_of_In, elem_of_seqZ, fp_bound).
  pose proof (proj1 (forallb_forall _ _) inv_table (fpv a) Hin) as I.
  apply orb_prop in I as [I|I]; bool_to_prop; [|done].
  destruct Ha. by apply fp_eq.
Qed.

Lemma p_nonzero : p <> 0%Z.
Proof. done. Qed.

Ltac modp :=
  apply fp_eq; cbn [fpv mk];
  rewrite ?Z.add_mod_idemp_l, ?Z.add_mod_idemp_r, ?Z.mul_mod_idemp_l, ?Z.mul_mod_idemp_r,
    ?Zminus_mod_idemp_l, ?Zminus_mod_idemp_r, ?Z.add_0_l, ?Z.mul_1_l by exact p_nonzero;
  match goal with
  | |- (fpv _ mod p)%Z = fpv _ => apply fp_reduced
  | |- (?a mod p)%Z = (?b mod p)%Z => replace a with b by ring; reflexivity
  | |- _ => idtac
  end.

Lemma fp_ring : ring_theory (mk 0) (mk 1) (fun a b => mk (fpv a + fpv b))
  (fun a b => mk (fpv a * fpv b)) (fun a b => mk (fpv a - fpv b)) (fun a => mk (- fpv a)) eq.
Proof.
  split; intros; modp.
Qed.

Lemma of_bytes_le n a : 2 <= n -> of_bytes (le_bytes n (fpv a)) = Some a.
Proof.
  intros Hn. unfold of_bytes. rewrite of_le_bytes_le_bytes. pose proof (fp_bound a) as B.
  assert (256 ^ 2 <= 256 ^ Z.of_nat n)%Z by (apply Z.pow_le_mono_r; lia).
  assert (p < 256 ^ 2)%Z by done. rewrite Z.mod_small by lia.
  rewrite (proj2 (Z.ltb_lt _ _)) by apply B. f_equal. apply fp_eq, fp_reduced.
Qed.

Lemma mk_inj a b : (0 <= a < 256)%Z -> (0 <= b < 256)%Z -> mk a = mk b -> a = b.
Proof.
  intros Ha Hb E. apply (f_equal fpv) in E. cbn [fpv mk] in E.
  assert (p = 257%Z) by done. rewrite !Z.mod_small in E by lia. done.
Qed.

Lemma one_mul a : mk (fpv (mk 1) * fpv a) = a.
Proof. modp. Qed.

#[export] Instance toy_p256_laws : P256Laws.
Proof.
  split.
  - split; [apply fp_ring| |done|apply inv_mul].
    intros E. apply (f_equal fpv) in E. discriminate E.
  - intros s. apply (of_bytes_le 32). lia.
  - intros s. apply (length_le_bytes 32).
  - reflexivity.
  - exact mk_inj.
  - intros s. apply (of_bytes_le 33). lia.
  - intros s. apply (length_le_bytes 33).
  - apply (Radd_0_l fp_ring).
  - apply (Radd_assoc fp_ring).
  - apply (Radd_comm fp_ring).
  - intros q a b. change (mk (fpv q * fpv (mk (fpv a + fpv b)))
      = mk (fpv (mk (fpv q * fpv a)) + fpv (mk (fpv q * fpv b)))). modp.
  - intros q a b. apply (Rmul_assoc fp_ring).
  - intros q. change (mk (fpv q * fpv (mk 0)) = mk 0). modp.
  - intros a b E. change (mk (fpv (mk 1) * fpv a) = mk (fpv (mk 1) * fpv b)) in E.
    by rewrite !one_mul in E.
Qed.

End Toy257.

(** * The theorems on concrete inputs *)


(** * The theorems on concrete inputs *)

Module ThresholdExamples.
Import Toy257.

Definition coeff (i : nat) : scalar := mk (Z.of_nat (17 * i + 5)).
Definition secret : bytes := le_bytes 32 201.
Definition dealt : SplitResult :=
  match split coeff secret 3 5 with Ok r => r | _ => mkSplit [] [] end.
Definition dealt_share (i : nat) : Share := nth i (shares dealt) (mkShare Byte.x00 []).
Definition three : list Share := [dealt_share 4; dealt_share 0; dealt_share 3].
Definition two : list Share := [dealt_share 4; dealt_share 0].

Lemma dealt_ok : split coeff secret 3 5 = Ok dealt.
Proof. vm_compute. reflexivity. Qed.

Lemma three_dealt : three ⊆ shares dealt.
Proof.
  intros s Hs. repeat (apply elem_of_cons in Hs as [->|Hs];
    [apply (bool_decide_unpack _); vm_compute; exact I|]). by apply elem_of_nil in Hs.
Qed.
Lemma three_distinct : NoDup three.
Proof. apply (bool_decide_unpack _). vm_compute. exact I. Qed.

Lemma split_reconstruct_witness :
  reconstruct three 3 (commitments dealt) = Ok (canonical_secret_bytes secret).
Proof.
  apply (split_reconstruct coeff secret 3 5 dealt three).
  - discriminate.
  - exact dealt_ok.
  - exact three_dealt.
  - exact three_distinct.
  - discriminate.
Defined.

Lemma reconstruct_sound_witness :
  le_bytes 32 201 = canonical_secret_bytes secret /\ (3 <= Z.of_nat (length three))%Z /\
  forall s d, s ∈ three -> d ∈ shares dealt -> share_x s = share_x d -> share_scalar s = share_scalar d.
Proof.
  apply (reconstruct_sound coeff secret 3 5 dealt three (le_bytes 32 201)).
  - exact dealt_ok.
  - vm_compute. reflexivity.
Defined.

Lemma reconstruct_rejects_witness :
  reconstruct two 3 (commitments dealt) = Err (InsufficientShares 3 2) /\
  reconstruct (dealt_share 0 :: two) 3 (commitments dealt) = Err DuplicateShares.
Proof.
  split.
  - apply (proj1 (reconstruct_rejects coeff secret 3 5 dealt two dealt_ok)). reflexivity.
  - apply (proj1 (proj2 (reconstruct_rejects coeff secret 3 5 dealt (dealt_share 0 :: two) dealt_ok))).
    + discriminate.
    + apply (bool_decide_unpack _). vm_compute. exact I.
Defined.

Lemma shares_hide_secret_witness :
  exists random' r', split random' (le_bytes 32 77) 3 5 = Ok r' /\ two ⊆ shares r'.
Proof.
  apply (shares_hide_secret coeff secret (le_bytes 32 77) 3 5 dealt two).
  - discriminate.
  - exact dealt_ok.
  - intros s Hs. apply three_dealt. apply elem_of_cons in Hs as [->|Hs]; [by left|].
    apply elem_of_cons in Hs as [->|Hs]; [by right; left|]. by apply elem_of_nil in Hs.
  - apply (bool_decide_unpack _). vm_compute. exact I.
  - reflexivity.
Defined.

End ThresholdExamples.
