(* ===== verification/Transparency.v ===== *)
(** The transparency log (transparency.rs): audit events, the hash-chained
    append-only file, its recovery after a restart and its verification.  The
    logger state is the sequence counter, the hash of the last line and the
    contents of the file.  [record] is given both as one call running alone
    and as the separate atomic actions that concurrent calls interleave. *)

From S2P Require Import Prelude RustStd Externals Reference.

(** ** Events *)

Record TransparencyEvent := mkEvent {
  ev_sequence : Z;
  ev_prev_hash : str;
  ev_event : str;
  ev_handle_fingerprint : option str;
  ev_envelope_key_id : option str;
  ev_customer_id : option str;
  ev_status : str;
  ev_timestamp : datetime;
  ev_metadata : option json;
  ev_caller_identity : option str;
  ev_parent_handle_fingerprint : option str;
  ev_lease_sequence : option Z;
  ev_previous_expires_at : option datetime;
}.

Record TransparencyLogger := mkLogger {
  sequence : Z;
  prev_hash : str;
  file : bytes;
}.

(** The failures of the log: which line of the file, or which step. *)
Inductive LogError :=
| ReadingLine (lineno : nat)
| ParsingJson (lineno : nat)
| MissingPrevHash (lineno : nat)
| ChainBroken (lineno : nat) (seq : Z) (expected got : str)
| LogIo.

Record VerifyResult := mkVerifyResult { entries : Z; head_hash : str }.

Definition GENESIS_HASH : str :=
  #"0000000000000000000000000000000000000000000000000000000000000000".

Section Events.
Context `{TextCodecs} `{Hashes} `{JsonText}.

Definition hash_line (line : bytes) : str := hex_encode (sha256 line).

Definition handle_fingerprint (handle : str) : str :=
  #"sha256:" ++ hex_encode (sha256 (trim handle)).

Definition with_caller (e : TransparencyEvent) (caller : str) : TransparencyEvent :=
  mkEvent (ev_sequence e) (ev_prev_hash e) (ev_event e) (ev_handle_fingerprint e)
    (ev_envelope_key_id e) (ev_customer_id e) (ev_status e) (ev_timestamp e) (ev_metadata e)
    (Some caller) (ev_parent_handle_fingerprint e) (ev_lease_sequence e) (ev_previous_expires_at e).

Definition with_parent_handle (e : TransparencyEvent) (parent : str) : TransparencyEvent :=
  mkEvent (ev_sequence e) (ev_prev_hash e) (ev_event e) (ev_handle_fingerprint e)
    (ev_envelope_key_id e) (ev_customer_id e) (ev_status e) (ev_timestamp e) (ev_metadata e)
    (ev_caller_identity e) (Some (handle_fingerprint parent)) (ev_lease_sequence e)
    (ev_previous_expires_at e).

Definition with_lease_renewal (e : TransparencyEvent) (seq : Z) (previous_expires : datetime)
    : TransparencyEvent :=
  mkEvent (ev_sequence e) (ev_prev_hash e) (ev_event e) (ev_handle_fingerprint e)
    (ev_envelope_key_id e) (ev_customer_id e) (ev_status e) (ev_timestamp e) (ev_metadata e)
    (ev_caller_identity e) (ev_parent_handle_fingerprint e) (Some seq) (Some previous_expires).

(** The struct update [..Self::base()]: an event with the given fields, the
    rest as [base] sets them; [now] is [Utc::now()]. *)
Definition base (event : str) (fingerprint envelope customer : option str) (status : str)
    (now : datetime) (metadata : option json) : TransparencyEvent :=
  mkEvent 0 [] event fingerprint envelope customer status now metadata None None None None.

Definition ev_wrap (now : datetime) (handle envelope customer_id : str) (metadata : option json) :=
  base #"wrap" (Some (handle_fingerprint handle)) (Some envelope) (Some customer_id)
    #"issued" now metadata.

Definition ev_unwrap (now : datetime) (handle : str) (envelope : option str) (customer_id : str)
    (metadata : option json) :=
  base #"unwrap" (Some (handle_fingerprint handle)) envelope (Some customer_id)
    #"unwrapped" now metadata.

Definition ev_delete (now : datetime) (handle : str) (found : bool) (metadata : option json) :=
  base #"delete" (Some (handle_fingerprint handle)) None None
    (if found then #"removed" else #"not_found") now metadata.

Definition ev_revoke (now : datetime) (handle customer_id : str) (metadata : option json) :=
  base #"revoke" (Some (handle_fingerprint handle)) None (Some customer_id) #"revoked" now metadata.

Definition ev_renew_lease (now : datetime) (handle customer_id : str) (metadata : option json) :=
  base #"renew_lease" (Some (handle_fingerprint handle)) None (Some customer_id)
    #"renewed" now metadata.

Definition ev_attenuate (now : datetime) (handle customer_id : str) (metadata : option json) :=
  base #"attenuate" (Some (handle_fingerprint handle)) None (Some customer_id)
    #"attenuated" now metadata.

Definition ev_rotate (now : datetime) (old_handle new_handle envelope_key_id customer_id : str)
    (metadata : option json) :=
  let meta := match metadata with Some (JObject m) => m | _ => [] end in
  let meta := obj_insert #"old_handle_fingerprint" (JString (handle_fingerprint old_handle)) meta in
  let meta := obj_insert #"new_handle_fingerprint" (JString (handle_fingerprint new_handle)) meta in
  base #"rotate" (Some (handle_fingerprint new_handle)) (Some envelope_key_id) (Some customer_id)
    #"rotated" now (Some (JObject meta)).

(** ** Serialisation: the derived [Serialize] of the event *)

Definition json_opt {A} (f : A -> json) (o : option A) : json :=
  match o with Some a => f a | None => JNull end.
(** [skip_serializing_if = "Option::is_none"] *)
Definition field_opt {A} (k : str) (f : A -> json) (o : option A) : list (str * json) :=
  match o with Some a => [(k, f a)] | None => [] end.

Definition event_fields (e : TransparencyEvent) : list (str * json) :=
  [(#"sequence", JNumber (PosInt (ev_sequence e)));
   (#"prev_hash", JString (ev_prev_hash e));
   (#"event", JString (ev_event e));
   (#"handle_fingerprint", json_opt JString (ev_handle_fingerprint e));
   (#"envelope_key_id", json_opt JString (ev_envelope_key_id e));
   (#"customer_id", json_opt JString (ev_customer_id e));
   (#"status", JString (ev_status e));
   (#"timestamp", JString (datetime_json (ev_timestamp e)))]
  ++ field_opt #"metadata" id (ev_metadata e)
  ++ field_opt #"caller_identity" JString (ev_caller_identity e)
  ++ field_opt #"parent_handle_fingerprint" JString (ev_parent_handle_fingerprint e)
  ++ field_opt #"lease_sequence" (fun n => JNumber (PosInt n)) (ev_lease_sequence e)
  ++ field_opt #"previous_expires_at" (fun t => JString (datetime_json t)) (ev_previous_expires_at e).

(** [entry.sequence = seq; entry.prev_hash = prev] *)
Definition stamped (e : TransparencyEvent) (seq : Z) (prev : str) : TransparencyEvent :=
  mkEvent seq prev (ev_event e) (ev_handle_fingerprint e)
    (ev_envelope_key_id e) (ev_customer_id e) (ev_status e) (ev_timestamp e) (ev_metadata e)
    (ev_caller_identity e) (ev_parent_handle_fingerprint e) (ev_lease_sequence e)
    (ev_previous_expires_at e).

Definition event_line (e : TransparencyEvent) (seq : Z) (prev : str) : str :=
  json_text (event_fields (stamped e seq prev)).

(** ** The logger *)

(** The last sequence number and the last line, over the lines of the file. *)
Fixpoint recover_loop (lineno : nat) (ls : list bytes) (last_seq : Z) (last_line : option str)
    : result LogError (Z * option str) :=
  match ls with
  | [] => Ok (last_seq, last_line)
  | line :: ls =>
    let! line := ok_or (from_utf8 line) (ReadingLine lineno) in
    if is_empty (trim line) then recover_loop (S lineno) ls last_seq last_line
    else
      let last_seq :=
        match json_parse line with
        | Some value =>
          match value_get #"sequence" value with
          | Some v => match as_u64 v with Some seq => seq | None => last_seq end
          | None => last_seq
          end
        | None => last_seq
        end in
      recover_loop (S lineno) ls last_seq (Some line)
  end.

(** [last_seq + 1] on [u64] wraps in release builds. *)
Definition u64_succ (n : Z) : Z := ((n + 1) mod 2^64)%Z.

Definition recover_chain_state (contents : option bytes) : result LogError (Z * str) :=
  match contents with
  | None => Ok (0%Z, GENESIS_HASH)
  | Some contents =>
    let! (last_seq, last_line) := recover_loop 0 (read_lines contents) 0 None in
    let hash := match last_line with Some line => hash_line line | None => GENESIS_HASH end in
    let next_seq :=
      match last_line with
      | Some _ => u64_succ last_seq
      | None => if (0 <? last_seq)%Z then u64_succ last_seq else 0%Z
      end in
    Ok (next_seq, hash)
  end.

(** [TransparencyLogger::new] on an existing file, or on none (it is
    created empty). *)
Definition logger_new (contents : option bytes) : result LogError TransparencyLogger :=
  let contents := default [] contents in
  let! (seq, hash) := recover_chain_state (Some contents) in
  Ok (mkLogger seq hash contents).

Fixpoint verify_loop (lineno : nat) (ls : list bytes) (expected_prev : str) (count : Z)
    : result LogError VerifyResult :=
  match ls with
  | [] => Ok (mkVerifyResult count expected_prev)
  | line :: ls =>
    let! line := ok_or (from_utf8 line) (ReadingLine lineno) in
    if is_empty (trim line) then verify_loop (S lineno) ls expected_prev count
    else
      let! value := ok_or (json_parse line) (ParsingJson lineno) in
      let! prev := ok_or (match value_get #"prev_hash" value with
                          | Some v => as_str v | None => None end) (MissingPrevHash lineno) in
      if str_eqb prev expected_prev
      then verify_loop (S lineno) ls (hash_line line) (count + 1)
      else Err (ChainBroken lineno
             (default 0%Z (match value_get #"sequence" value with
                         | Some v => as_u64 v | None => None end)) expected_prev prev)
  end.

(** [last_hash] and [expected_prev] of the source are always equal. *)
Definition verify_chain (contents : bytes) : result LogError VerifyResult :=
  verify_loop 0 (read_lines contents) GENESIS_HASH 0.

(** ** Recording

    The atomic actions of one call: [fetch_add] on the counter, reading the
    hash under its lock, writing the new hash under its lock, appending the
    line to the file.  The blocking task that appends opens the file, writes
    the line and the line feed and syncs; it can fail at each step, also when
    part of the line, or all of it, is already in the file. *)

Inductive Append :=
| Appended
| AppendFailed (written : nat).

Definition fetch_add (l : TransparencyLogger) : Z * TransparencyLogger :=
  (sequence l, mkLogger (u64_succ (sequence l)) (prev_hash l) (file l)).

Definition set_prev_hash (h : str) (l : TransparencyLogger) : TransparencyLogger :=
  mkLogger (sequence l) h (file l).

Definition append_line (line : str) (l : TransparencyLogger) : TransparencyLogger :=
  mkLogger (sequence l) (prev_hash l) (file l ++ line ++ [Byte.x0a]).

(** The file after an append that failed with [written] bytes in it. *)
Definition append_part (written : nat) (line : str) (l : TransparencyLogger) : TransparencyLogger :=
  mkLogger (sequence l) (prev_hash l) (file l ++ take written (line ++ [Byte.x0a])).

(** One call without interference. *)
Definition record (io : Append) (e : TransparencyEvent) : M TransparencyLogger LogError unit := fun l =>
  let '(seq, l) := fetch_add l in
  let prev := prev_hash l in
  let line := event_line e seq prev in
  let l := set_prev_hash (hash_line line) l in
  match io with
  | Appended => (Ok tt, append_line line l)
  | AppendFailed written => (Err LogIo, append_part written line l)
  end.

(** Where a concurrent call to [record] stands. *)
Inductive Call :=
| Start (e : TransparencyEvent)
| GotSequence (e : TransparencyEvent) (seq : Z)
| GotPrev (e : TransparencyEvent) (seq : Z) (prev : str)
| HashSet (line : str)
| Done.

(** One atomic action of a call. *)
Definition call_step (c : Call) (l : TransparencyLogger) : Call * TransparencyLogger :=
  match c with
  | Start e => let '(seq, l) := fetch_add l in (GotSequence e seq, l)
  | GotSequence e seq => (GotPrev e seq (prev_hash l), l)
  | GotPrev e seq prev =>
    let line := event_line e seq prev in (HashSet line, set_prev_hash (hash_line line) l)
  | HashSet line => (Done, append_line line l)
  | Done => (Done, l)
  end.

(** Run the calls in the order of a schedule of call numbers. *)
Fixpoint run_schedule (sched : list nat) (cs : list Call) (l : TransparencyLogger)
    : list Call * TransparencyLogger :=
  match sched with
  | [] => (cs, l)
  | i :: sched =>
    match cs !! i with
    | Some c => let '(c', l') := call_step c l in run_schedule sched (<[i := c']> cs) l'
    | None => run_schedule sched cs l
    end
  end.

End Events.

(** * Properties *)

(** The text of an event that [serde_json] can print and read back. *)
Definition event_ok `{JsonText} (e : TransparencyEvent) : Prop :=
  Forall (fun f => printable f.2 = true) (event_fields e).

Section LogLaws.
Context `{TextCodecsLaws} `{HashesLaws} `{JsonTextLaws}.

(** ** One line *)

Lemma event_fields_keys e :
  NoDup (map fst (event_fields e)) /\ Forall (fun f => utf8_valid f.1 = true) (event_fields e).
Proof.
  destruct e as [? ? ? ? ? ? ? ? [?|] [?|] [?|] [?|] [?|]];
    (split; [apply (bool_decide_unpack _); vm_compute; exact I|by repeat constructor]).
Qed.

Lemma hash_line_utf8 x : utf8_valid (hash_line x) = true.
Proof. apply graphic_utf8, hex_graphic. Qed.

(** A sequence number and a hash as the logger keeps them. *)
Definition stamp_ok (seq : Z) (prev : str) : Prop := (0 <= seq < 2^64)%Z /\ utf8_valid prev = true.

Lemma stamped_printable e seq prev :
  event_ok e -> stamp_ok seq prev ->
  Forall (fun f => utf8_valid f.1 = true /\ printable f.2 = true) (event_fields (stamped e seq prev)).
Proof.
  unfold event_ok. intros HF [_ Hp]. apply Forall_and. split; [apply event_fields_keys|].
  unfold event_fields in *. cbn [app stamped ev_sequence ev_prev_hash ev_event ev_handle_fingerprint
    ev_envelope_key_id ev_customer_id ev_status ev_timestamp ev_metadata ev_caller_identity
    ev_parent_handle_fingerprint ev_lease_sequence ev_previous_expires_at] in *.
  inversion HF as [|? ? _ HF1]; subst. inversion HF1 as [|? ? _ HF2]; subst.
  constructor; [done|]. constructor; [|done]. unfold printable. cbn. by rewrite Hp.
Qed.

(** What readers of the log see in a line. *)
Definition line_seq (line : str) : option Z :=
  match json_parse line with
  | Some v => match value_get #"sequence" v with Some v => as_u64 v | None => None end
  | None => None
  end.
Definition line_prev (line : str) : option str :=
  match json_parse line with
  | Some v => match value_get #"prev_hash" v with Some v => as_str v | None => None end
  | None => None
  end.

Record line_ok (line : str) (seq : Z) (prev : str) : Prop := {
  line_plain : Forall (fun b => plain b = true) line;
  line_utf8 : utf8_valid line = true;
  line_nonblank : is_empty (trim line) = false;
  line_has_seq : line_seq line = Some seq;
  line_has_prev : line_prev line = Some prev;
}.

Lemma event_line_ok e seq prev :
  event_ok e -> stamp_ok seq prev -> line_ok (event_line e seq prev) seq prev.
Proof.
  intros He Hs. pose proof (stamped_printable e seq prev He Hs) as HF.
  destruct (json_text_parse (event_fields (stamped e seq prev))) as (m & Hm & Hget);
    [apply event_fields_keys|done|].
  assert (Sq : obj_get #"sequence" m = Some (JNumber (PosInt seq))).
  { apply Hget; [done|]. destruct Hs as [Hs _]. cbn.
    by rewrite (proj2 (Z.leb_le _ _)), (proj2 (Z.ltb_lt _ _)) by lia. }
  assert (Pv : obj_get #"prev_hash" m = Some (JString prev)) by (apply Hget; done).
  split; unfold event_line, line_seq, line_prev.
  - apply json_text_plain.
  - by apply json_text_utf8.
  - destruct (json_text_braces (event_fields (stamped e seq prev))) as [body ->].
    unfold trim. change #"{" with [Byte.x7b]. cbn [app]. rewrite trim_start_graphic by done.
    change (Byte.x7b :: body ++ #"}") with ((Byte.x7b :: body) ++ [Byte.x7d]).
    by rewrite trim_end_graphic.
  - rewrite Hm. cbn [value_get]. by rewrite Sq.
  - rewrite Hm. cbn [value_get]. by rewrite Pv.
Qed.

(** ** Logs written one call at a time *)

(** The lines, the next sequence number and the head of a log. *)
Inductive chained : list str -> Z -> str -> Prop :=
| chained_nil : chained [] 0 GENESIS_HASH
| chained_snoc ls n h e :
    chained ls n h -> event_ok e ->
    chained (ls ++ [event_line e n h]) (u64_succ n) (hash_line (event_line e n h)).

Lemma chained_stamp ls n h : chained ls n h -> stamp_ok n h /\ n = (Z.of_nat (length ls) mod 2^64)%Z.
Proof.
  induction 1 as [|ls n h e _ [_ IH] _]; [by split|]. split.
  - split; [by apply Z.mod_pos_bound|apply hash_line_utf8].
  - unfold u64_succ. rewrite IH, length_app, Nat2Z.inj_add. cbn [length].
    by rewrite Z.add_mod_idemp_l.
Qed.

Lemma chained_plain ls n h : chained ls n h -> Forall (Forall (fun b => plain b = true)) ls.
Proof.
  induction 1 as [|ls n h e Hc IH He]; [constructor|]. apply Forall_app. split; [done|].
  repeat constructor. eapply line_plain, event_line_ok; [done|]. by eapply chained_stamp.
Qed.

Lemma verify_loop_app ls ls' : forall k h c r,
  verify_loop k ls h c = Ok r ->
  verify_loop k (ls ++ ls') h c = verify_loop (k + length ls) ls' (head_hash r) (entries r).
Proof.
  induction ls as [|x ls IH]; intros k h c r E.
  - cbn in E. injection E as <-. by rewrite Nat.add_0_r.
  - cbn [app verify_loop] in *. apply rbind_ok in E as (l & Hl & E). rewrite Hl. cbn [rbind length].
    replace (k + S (length ls)) with (S k + length ls) by lia.
    destruct (is_empty (trim l)); [by apply IH|].
    apply rbind_ok in E as (v & Hv & E). apply rbind_ok in E as (p & Hp & E).
    rewrite Hv. cbn [rbind]. rewrite Hp. cbn [rbind].
    destruct (str_eqb p h); [by apply IH|discriminate E].
Qed.

(** One more line: accepted when it carries the expected hash. *)
Lemma verify_loop_line k line seq prev h c :
  line_ok line seq prev ->
  verify_loop k [line] h c =
  if str_eqb prev h then Ok (mkVerifyResult (c + 1) (hash_line line))
  else Err (ChainBroken k seq h prev).
Proof.
  intros [_ U B S P]. unfold line_seq, line_prev in *. cbn [verify_loop].
  unfold from_utf8. rewrite U. cbn [ok_or rbind]. rewrite B.
  destruct (json_parse line) as [v|]; [|done]. cbn [ok_or rbind].
  destruct (value_get #"prev_hash" v) as [pv|]; [|done]. rewrite P. cbn [ok_or rbind].
  case_if; [done|]. destruct (value_get #"sequence" v) as [sv|]; [|done]. by rewrite S.
Qed.

Lemma verify_chained ls n h :
  chained ls n h -> verify_loop 0 ls GENESIS_HASH 0 = Ok (mkVerifyResult (Z.of_nat (length ls)) h).
Proof.
  induction 1 as [|ls n h e Hc IH He]; [done|].
  rewrite (verify_loop_app _ _ _ _ _ _ IH). cbn [head_hash entries].
  erewrite verify_loop_line by (apply event_line_ok; [done|by eapply chained_stamp]).
  rewrite str_eqb_refl, length_app, Nat2Z.inj_add. done.
Qed.

Lemma recover_loop_app ls ls' : forall k s o r,
  recover_loop k ls s o = Ok r ->
  recover_loop k (ls ++ ls') s o = recover_loop (k + length ls) ls' r.1 r.2.
Proof.
  induction ls as [|x ls IH]; intros k s o r E.
  - cbn in E. injection E as <-. by rewrite Nat.add_0_r.
  - cbn [app recover_loop] in *. apply rbind_ok in E as (l & Hl & E). rewrite Hl. cbn [rbind length].
    replace (k + S (length ls)) with (S k + length ls) by lia.
    destruct (is_empty (trim l)); by apply IH.
Qed.

Lemma recover_chained ls n h :
  chained ls n h -> exists s o, recover_loop 0 ls 0 None = Ok (s, o)
    /\ n = (match o with Some _ => u64_succ s | None => if (0 <? s)%Z then u64_succ s else 0%Z end)
    /\ h = (match o with Some line => hash_line line | None => GENESIS_HASH end).
Proof.
  induction 1 as [|ls n h e Hc (s & o & IH & _) He]; [by exists 0%Z, None|].
  exists n, (Some (event_line e n h)). split; [|done].
  rewrite (recover_loop_app _ _ _ _ _ _ IH). cbn [fst snd recover_loop].
  destruct (event_line_ok e n h He) as [_ U B S _]; [by eapply chained_stamp|].
  unfold line_seq in S. unfold from_utf8. rewrite U. cbn [ok_or rbind]. rewrite B.
  destruct (json_parse _) as [v|]; [|done]. destruct (value_get _ v) as [sv|]; [|done]. by rewrite S.
Qed.

(** The invariant of a logger whose calls did not overlap or fail. *)
Definition log_inv (l : TransparencyLogger) (ls : list str) : Prop :=
  file l = unlines ls /\ chained ls (sequence l) (prev_hash l).

Lemma log_inv_verify l ls :
  log_inv l ls ->
  verify_chain (file l) = Ok (mkVerifyResult (Z.of_nat (length ls)) (prev_hash l)).
Proof.
  intros [Hf Hc]. unfold verify_chain. rewrite Hf, read_lines_unlines by (by eapply chained_plain).
  by eapply verify_chained.
Qed.

Lemma log_inv_recover l ls :
  log_inv l ls -> recover_chain_state (Some (file l)) = Ok (sequence l, prev_hash l).
Proof.
  intros [Hf Hc]. unfold recover_chain_state. rewrite Hf, read_lines_unlines by (by eapply chained_plain).
  destruct (recover_chained _ _ _ Hc) as (s & o & -> & Hn & Hh). cbn [rbind].
  rewrite Hn, Hh. by destruct o.
Qed.

Lemma log_inv_record l ls e :
  log_inv l ls -> event_ok e ->
  record Appended e l = (Ok tt, append_line (event_line e (sequence l) (prev_hash l))
     (mkLogger (u64_succ (sequence l)) (hash_line (event_line e (sequence l) (prev_hash l))) (file l)))
  /\ log_inv (record Appended e l).2 (ls ++ [event_line e (sequence l) (prev_hash l)]).
Proof.
  intros [Hf Hc] He. split; [done|]. split; cbn.
  - rewrite Hf, unlines_app. unfold unlines at 3. cbn. by rewrite app_nil_r.
  - by apply chained_snoc.
Qed.

(** Calls that do not overlap, and restarts between them. *)
Inductive LogOp := OpRecord (e : TransparencyEvent) | OpRestart.

Definition log_step (op : LogOp) (l : TransparencyLogger) : result LogError TransparencyLogger :=
  match op with
  | OpRecord e => let '(r, l') := record Appended e l in let! _ := r in Ok l'
  | OpRestart => logger_new (Some (file l))
  end.

Fixpoint log_run (ops : list LogOp) (l : TransparencyLogger) : result LogError TransparencyLogger :=
  match ops with
  | [] => Ok l
  | op :: ops => let! l := log_step op l in log_run ops l
  end.

Definition op_ok (op : LogOp) : Prop := match op with OpRecord e => event_ok e | OpRestart => True end.
(** The events recorded, in order. *)
Fixpoint recorded (ops : list LogOp) : list TransparencyEvent :=
  match ops with
  | [] => []
  | OpRecord e :: ops => e :: recorded ops
  | OpRestart :: ops => recorded ops
  end.

(** The lines of the events recorded by a logger with counter [n] and hash [h]. *)
Fixpoint log_lines (es : list TransparencyEvent) (n : Z) (h : str) : list str :=
  match es with
  | [] => []
  | e :: es => let line := event_line e n h in line :: log_lines es (u64_succ n) (hash_line line)
  end.

Lemma length_log_lines es : forall n h, length (log_lines es n h) = length es.
Proof. induction es as [|e es IH]; intros n h; cbn; [done|]. by rewrite IH. Qed.

(** The hash that line [i] of [ls] has to carry. *)
Definition hash_before (h : str) (ls : list str) (i : nat) : str :=
  match i with O => h | S j => match ls !! j with Some line => hash_line line | None => h end end.

Lemma log_lines_lookup es : forall k h i e,
  es !! i = Some e ->
  log_lines es (Z.of_nat k mod 2^64) h !! i
  = Some (event_line e (Z.of_nat (k + i) mod 2^64) (hash_before h (log_lines es (Z.of_nat k mod 2^64) h) i)).
Proof.
  induction es as [|x es IH]; intros k h [|i] e E; [done..| |].
  - injection E as <-. cbn. by rewrite Nat.add_0_r.
  - cbn [log_lines lookup list_lookup] in *.
    assert (Hs : u64_succ (Z.of_nat k mod 2^64) = (Z.of_nat (S k) mod 2^64)%Z)
      by (unfold u64_succ; rewrite Z.add_mod_idemp_l by done; f_equal; lia).
    rewrite Hs, (IH (S k) _ i e E). do 2 f_equal; [do 2 f_equal; lia|].
    destruct i as [|j]; [done|]. unfold hash_before.
    destruct (lookup_lt_is_Some_2 (log_lines es (Z.of_nat (S k) mod 2^64)
      (hash_line (event_line x (Z.of_nat k mod 2^64) h))) j) as [y Hy].
    { rewrite length_log_lines. apply lookup_lt_Some in E. lia. }
    rewrite Hy. rewrite lookup_cons. by rewrite Hy.
Qed.

(** A line that reads as an object with the fields of [e], stamped. *)
Definition line_records (line : str) (e : TransparencyEvent) (seq : Z) (prev : str) : Prop :=
  exists m, json_parse line = Some (JObject m)
    /\ forall k v, obj_get k (event_fields (stamped e seq prev)) = Some v -> json_exact v = true ->
         obj_get k m = Some v.

Lemma event_line_records e seq prev :
  event_ok e -> stamp_ok seq prev -> line_records (event_line e seq prev) e seq prev.
Proof. intros He Hs. apply json_text_parse; [apply event_fields_keys|by apply stamped_printable]. Qed.

Lemma hash_before_utf8 h ls i : utf8_valid h = true -> utf8_valid (hash_before h ls i) = true.
Proof. intros Hh. destruct i as [|j]; [done|]. cbn. destruct (ls !! j); [apply hash_line_utf8|done]. Qed.

Lemma recorded_ok ops i e : Forall op_ok ops -> recorded ops !! i = Some e -> event_ok e.
Proof.
  intros HF. revert i. induction HF as [|[x|] ops Ho HF IH]; intros i E; [done| |exact (IH i E)].
  destruct i as [|i]; [by injection E as <-|exact (IH i E)].
Qed.

Lemma log_run_inv ops : Forall op_ok ops -> forall l ls, log_inv l ls ->
  exists l', log_run ops l = Ok l'
    /\ log_inv l' (ls ++ log_lines (recorded ops) (sequence l) (prev_hash l)).
Proof.
  induction 1 as [|[e|] ops Ho HF IH]; intros l ls Hi.
  - exists l. cbn. by rewrite app_nil_r.
  - destruct (log_inv_record l ls e Hi Ho) as [_ Hi'].
    destruct (IH _ _ Hi') as (l' & Hr & Hi2). exists l'.
    split; [exact Hr|]. rewrite <- app_assoc in Hi2. exact Hi2.
  - destruct (IH _ _ Hi) as (l' & Hr & Hi2). exists l'. split; [|done].
    cbn [log_run log_step]. unfold logger_new. change (default [] (Some (file l))) with (file l).
    cbn zeta.
    rewrite (log_inv_recover _ _ Hi). cbn [rbind]. rewrite <- Hr. by destruct l.
Qed.

(** C26: a log written by calls that do not overlap or fail, with restarts of
    the broker anywhere in between, is complete: the file has one line per
    recorded event, in order; line [i] reads as an object with every field of
    the [i]-th event, the sequence number [i] (as a [u64]) and the hash of the
    line before it, or the genesis value; the file verifies, its head is the
    hash in memory, and the next restart recovers exactly the counter and the
    hash. *)
Theorem log_complete ops :
  Forall op_ok ops ->
  exists l, log_run ops (mkLogger 0 GENESIS_HASH []) = Ok l
    /\ length (read_lines (file l)) = length (recorded ops)
    /\ (forall i e, recorded ops !! i = Some e ->
          exists line, read_lines (file l) !! i = Some line
            /\ line_records line e (Z.of_nat i mod 2^64) (hash_before GENESIS_HASH (read_lines (file l)) i))
    /\ verify_chain (file l) = Ok (mkVerifyResult (Z.of_nat (length (recorded ops))) (prev_hash l))
    /\ recover_chain_state (Some (file l)) = Ok (sequence l, prev_hash l)
    /\ sequence l = (Z.of_nat (length (recorded ops)) mod 2^64)%Z.
Proof.
  intros HF. destruct (log_run_inv ops HF (mkLogger 0 GENESIS_HASH []) []) as (l & Hr & Hi).
  { split; [done|constructor]. }
  cbn [app sequence prev_hash] in Hi. exists l. rewrite <- (length_log_lines (recorded ops) 0 GENESIS_HASH).
  assert (Hf : read_lines (file l) = log_lines (recorded ops) 0 GENESIS_HASH).
  { destruct Hi as [-> Hc]. apply read_lines_unlines. by eapply chained_plain. }
  split; [done|]. rewrite Hf. split; [done|]. split.
  - intros i e E. eexists. split; [exact (log_lines_lookup _ 0 _ _ _ E)|]. apply event_line_records.
    + by eapply recorded_ok.
    + split; [by apply Z.mod_pos_bound|by apply hash_before_utf8].
  - split; [by apply log_inv_verify|]. split; [by eapply log_inv_recover|].
    destruct Hi as [_ Hc]. exact (proj2 (chained_stamp _ _ _ Hc)).
Qed.

(** ** Tampering *)

Definition content_lines (contents : bytes) : list str :=
  List.filter (fun l => negb (is_empty (trim l))) (read_lines contents).

(** Lines linked by their hashes, from the genesis value to a head. *)
Inductive linked : list str -> str -> Prop :=
| linked_nil : linked [] GENESIS_HASH
| linked_snoc ls h line : linked ls h -> line_prev line = Some h -> linked (ls ++ [line]) (hash_line line).

Lemma verify_loop_linked ls : forall pre k h c r,
  linked pre h -> verify_loop k ls h c = Ok r ->
  linked (pre ++ List.filter (fun l => negb (is_empty (trim l))) ls) (head_hash r).
Proof.
  induction ls as [|x ls IH]; intros pre k h c r Hp E.
  - cbn in *. injection E as <-. by rewrite app_nil_r.
  - cbn [verify_loop List.filter] in *. apply rbind_ok in E as (l & Hl & E).
    unfold from_utf8 in Hl. apply ok_or_ok in Hl. destruct (utf8_valid x); [|done]. injection Hl as <-.
    destruct (is_empty (trim x)); [by eapply IH|]. cbn [negb].
    apply rbind_ok in E as (v & Hv%ok_or_ok & E). apply rbind_ok in E as (p & Hpr%ok_or_ok & E).
    destruct (str_eqb p h) eqn:Eh; [|discriminate E]. bool_to_prop. subst p.
    rewrite cons_middle, app_assoc. eapply IH; [|exact E]. apply (linked_snoc _ h); [done|].
    unfold line_prev. by rewrite Hv.
Qed.

Lemma linked_inj ls h : linked ls h -> forall ls', linked ls' h ->
  ls = ls'
  \/ (exists x y, x ∈ ls /\ y ∈ ls' /\ x <> y /\ sha256 x = sha256 y)
  \/ (exists x, x ∈ ls ++ ls' /\ hash_line x = GENESIS_HASH).
Proof.
  induction 1 as [|ls h x Hl IH Hx]; intros ls' Hl'.
  - remember GENESIS_HASH as g eqn:Eg. destruct Hl' as [|b h' y Hb Hy]; [by left|].
    right; right. exists y. split; [set_solver|done].
  - remember (hash_line x) as hx eqn:Eh. destruct Hl' as [|b h' y Hb Hy].
    + right; right. exists x. split; [set_solver|done].
    + unfold hash_line in Eh. apply hex_inj in Eh.
      destruct (decide (x = y)) as [->|Hne].
      2: { right; left. exists x, y. set_solver. }
      assert (h = h') as -> by congruence.
      destruct (IH b Hb) as [->|[(u & v & ? & ? & ?)|(u & ? & ?)]]; [by left| |]; right.
      * left. exists u, v. set_solver.
      * right. exists u. set_solver.
Qed.

(** C27: the log is tamper evident: two files that verify with the same head
    contain the same lines, whatever was edited, removed, inserted or
    reordered, unless two different lines have the same SHA-256 digest or a
    line hashes to the all-zero genesis value. *)
Theorem log_tamper_evident f f' r r' :
  verify_chain f = Ok r -> verify_chain f' = Ok r' -> head_hash r = head_hash r' ->
  content_lines f = content_lines f'
  \/ (exists x y, x ∈ content_lines f /\ y ∈ content_lines f' /\ x <> y /\ sha256 x = sha256 y)
  \/ (exists x, x ∈ content_lines f ++ content_lines f' /\ hash_line x = GENESIS_HASH).
Proof.
  intros E E' Eh.
  apply (verify_loop_linked _ [] _ _ _ _ linked_nil) in E, E'. cbn [app] in *.
  rewrite <- Eh in E'. by eapply linked_inj.
Qed.

(** ** Overlapping and failing calls *)

Lemma unlines_two x y : [] ++ x ++ [Byte.x0a] = unlines [x]
  /\ ([] ++ x ++ [Byte.x0a]) ++ y ++ [Byte.x0a] = unlines [x; y].
Proof. unfold unlines. cbn. rewrite !app_nil_r, <- !app_assoc. done. Qed.

(** Two lines with the same previous hash do not verify. *)
Lemma verify_fork h x y sx sy p :
  line_ok x sx h -> line_ok y sy p -> hash_line x <> p ->
  verify_loop 0 [x; y] h 0 = Err (ChainBroken 1 sy (hash_line x) p).
Proof.
  intros Hx Hy Hn. change [x; y] with ([x] ++ [y]).
  pose proof (verify_loop_line 0 x sx h h 0 Hx) as E. rewrite str_eqb_refl in E.
  rewrite (verify_loop_app _ _ _ _ _ _ E). cbn [head_hash entries length Nat.add].
  rewrite (verify_loop_line _ _ _ _ _ _ Hy). case_if; bool_to_prop; congruence.
Qed.

(** Overlapping calls break the chain: when two calls of [record] on a
    fresh log both read the previous hash before either has stored its own,
    both lines carry the genesis hash, both calls return, and the file no
    longer verifies (unless the first line hashes to the genesis value). *)
Theorem record_race e1 e2 :
  event_ok e1 -> event_ok e2 ->
  hash_line (event_line e1 0 GENESIS_HASH) <> GENESIS_HASH ->
  exists l,
    run_schedule [0; 0; 1; 1; 0; 0; 1; 1] [Start e1; Start e2] (mkLogger 0 GENESIS_HASH [])
      = ([Done; Done], l)
    /\ verify_chain (file l)
       = Err (ChainBroken 1 1 (hash_line (event_line e1 0 GENESIS_HASH)) GENESIS_HASH).
Proof.
  intros Ok1 Ok2 Hn. eexists. split; [reflexivity|]. cbn [file append_line set_prev_hash].
  rewrite (proj2 (unlines_two _ _)). unfold verify_chain.
  assert (L1 : line_ok (event_line e1 0 GENESIS_HASH) 0 GENESIS_HASH)
    by (apply event_line_ok; [done|by split]).
  assert (L2 : line_ok (event_line e2 1 GENESIS_HASH) 1 GENESIS_HASH)
    by (apply event_line_ok; [done|by split]).
  change (u64_succ 0) with 1%Z.
  rewrite read_lines_unlines by (repeat constructor; by eapply line_plain).
  by apply (verify_fork _ _ _ 0).
Qed.

(** An append that fails before it has written anything breaks the chain for
    good: [record] stores the hash of the line before writing it, so after the
    I/O error the next line refers to a line that is not in the file. *)
Theorem failed_append_breaks_chain l ls e1 e2 :
  log_inv l ls -> event_ok e1 -> event_ok e2 ->
  hash_line (event_line e1 (sequence l) (prev_hash l)) <> prev_hash l ->
  let l1 := (record (AppendFailed 0) e1 l).2 in
  let l2 := (record Appended e2 l1).2 in
  (record (AppendFailed 0) e1 l).1 = Err LogIo /\ (record Appended e2 l1).1 = Ok tt /\
  verify_chain (file l2) = Err (ChainBroken (length ls) (u64_succ (sequence l)) (prev_hash l)
    (hash_line (event_line e1 (sequence l) (prev_hash l)))).
Proof.
  intros [Hf Hc] Ok1 Ok2 Hn. cbn zeta. split; [done|]. split; [done|].
  cbn [record fetch_add set_prev_hash append_line append_part fst snd file sequence prev_hash].
  rewrite take_0, (app_nil_r (file l)).
  destruct (chained_stamp _ _ _ Hc) as [[Hs Hp] _].
  set (x := event_line e1 (sequence l) (prev_hash l)) in *.
  set (y := event_line e2 (u64_succ (sequence l)) (hash_line x)).
  assert (Ly : line_ok y (u64_succ (sequence l)) (hash_line x)).
  { apply event_line_ok; [done|]. split; [by apply Z.mod_pos_bound|apply hash_line_utf8]. }
  assert (Hu : file l ++ y ++ [Byte.x0a] = unlines (ls ++ [y])).
  { rewrite Hf, unlines_app. unfold unlines at 3. cbn. by rewrite app_nil_r. }
  rewrite Hu. unfold verify_chain. rewrite read_lines_unlines.
  2: { apply Forall_app. split; [by eapply chained_plain|]. repeat constructor. by eapply line_plain. }
  rewrite (verify_loop_app _ _ _ _ _ _ (verify_chained _ _ _ Hc)). cbn [head_hash entries Nat.add].
  rewrite (verify_loop_line _ _ _ _ _ _ Ly). case_if; bool_to_prop; congruence.
Qed.

End LogLaws.

(** * The theorems on concrete inputs *)

Module TransparencyExamples.
Import Reference.

Definition e1 : TransparencyEvent := ev_wrap 1000 #"handle" #"env" #"acme" (Some (JObject [])).
Definition e2 : TransparencyEvent := with_caller (ev_revoke 2000 #"handle" #"acme" None) #"admin".
Definition fresh : TransparencyLogger := mkLogger 0 GENESIS_HASH [].
Definition one : TransparencyLogger := (record Appended e1 fresh).2.

Lemma e1_ok : event_ok e1.
Proof. by repeat constructor. Qed.
Lemma e2_ok : event_ok e2.
Proof. by repeat constructor. Qed.

Lemma log_complete_witness :
  exists l line, log_run [OpRecord e1; OpRestart; OpRecord e2] fresh = Ok l
    /\ length (read_lines (file l)) = 2
    /\ read_lines (file l) !! 1 = Some line
    /\ line_records line e2 1 (hash_before GENESIS_HASH (read_lines (file l)) 1)
    /\ verify_chain (file l) = Ok (mkVerifyResult 2 (prev_hash l)).
Proof.
  assert (F : Forall op_ok [OpRecord e1; OpRestart; OpRecord e2])
    by (repeat constructor; exact e1_ok || exact e2_ok).
  destruct (log_complete _ F) as (l & Hr & Hn & Hl & Hv & _).
  destruct (Hl 1 e2 eq_refl) as (line & Hi & Hrec).
  exists l, line. exact (conj Hr (conj Hn (conj Hi (conj Hrec Hv)))).
Defined.

Lemma verify_one : verify_chain (file one) = Ok (mkVerifyResult 1 (prev_hash one)).
Proof. vm_compute. reflexivity. Qed.

Lemma log_tamper_evident_witness :
  content_lines (file one) = content_lines (file one ++ #"  ")
  \/ (exists x y, x ∈ content_lines (file one) /\ y ∈ content_lines (file one ++ #"  ")
        /\ x <> y /\ sha256 x = sha256 y)
  \/ (exists x, x ∈ content_lines (file one) ++ content_lines (file one ++ #"  ")
        /\ hash_line x = GENESIS_HASH).
Proof.
  apply (log_tamper_evident (file one) (file one ++ #"  ") (mkVerifyResult 1 (prev_hash one))
    (mkVerifyResult 1 (prev_hash one))).
  - exact verify_one.
  - vm_compute. reflexivity.
  - reflexivity.
Defined.

Lemma line_not_genesis : hash_line (event_line e1 0 GENESIS_HASH) <> GENESIS_HASH.
Proof. apply (bool_decide_unpack _). vm_compute. exact I. Qed.

Lemma record_race_witness :
  exists l,
    run_schedule [0; 0; 1; 1; 0; 0; 1; 1] [Start e1; Start e2] fresh = ([Done; Done], l)
    /\ verify_chain (file l)
       = Err (ChainBroken 1 1 (hash_line (event_line e1 0 GENESIS_HASH)) GENESIS_HASH).
Proof. exact (record_race e1 e2 e1_ok e2_ok line_not_genesis). Defined.

Lemma failed_append_breaks_chain_witness :
  verify_chain (file (record Appended e2 (record (AppendFailed 0) e1 fresh).2).2)
  = Err (ChainBroken 0 (u64_succ 0) GENESIS_HASH (hash_line (event_line e1 0 GENESIS_HASH))).
Proof.
  exact (proj2 (proj2 (failed_append_breaks_chain fresh [] e1 e2
    (conj eq_refl chained_nil) e1_ok e2_ok line_not_genesis))).
Defined.

End TransparencyExamples.
