(* ===== verification/World.v ===== *)
(** The state the broker process works on and the effects its code uses: the
    clock, the operating system's random numbers and fresh UUIDs, the sled
    trees on disk, the in-memory key tables and the transparency log.  Also
    the interfaces of the crates for authenticated encryption, post-quantum
    keys and serialisation. *)

From S2P Require Import Prelude RustStd Externals Reference Transparency.

(** ** Interfaces *)

(** Crates [aes-gcm] and [chacha20poly1305]: key, nonce, message.  Sealing
    fails only beyond 64 GiB of plaintext, which is not modelled. *)
Class Aead := {
  aes_seal : bytes -> bytes -> bytes -> bytes;
  aes_open : bytes -> bytes -> bytes -> option bytes;
  chacha_seal : bytes -> bytes -> bytes -> bytes;
  chacha_open : bytes -> bytes -> bytes -> option bytes;
}.
Class AeadLaws `{Aead} : Prop := {
  aes_open_seal k n m : aes_open k n (aes_seal k n m) = Some m;
  chacha_open_seal k n m : chacha_open k n (chacha_seal k n m) = Some m;
}.

(** Crates [fips203] (ML-KEM-768) and [ml-dsa] (ML-DSA-65).  Key generation
    and encapsulation take the random bytes they draw. *)
Class PqCrypto := {
  mlkem_keygen : bytes -> bytes * bytes;
  mlkem_encaps : bytes -> bytes -> option (bytes * bytes);
  mlkem_decaps : bytes -> bytes -> option bytes;
  mldsa_public : bytes -> bytes;
  mldsa_sign : bytes -> bytes -> bytes;
  (** [None]: the signature bytes are not a signature encoding *)
  mldsa_verify : bytes -> bytes -> bytes -> option bool;
  (** crate [blake3] *)
  blake3 : bytes -> bytes;
}.
Class PqCryptoLaws `{PqCrypto} : Prop := {
  mlkem_sizes r : length (mlkem_keygen r).1 = 1184 /\ length (mlkem_keygen r).2 = 2400;
  mlkem_correct r r' : exists ss ct,
    mlkem_encaps (mlkem_keygen r).1 r' = Some (ss, ct)
    /\ mlkem_decaps (mlkem_keygen r).2 ct = Some ss
    /\ length ss = 32 /\ length ct = 1088;
  mldsa_public_size seed : length (mldsa_public seed) = 1952;
  mldsa_correct seed msg :
    mldsa_verify (mldsa_public seed) msg (mldsa_sign seed msg) = Some true;
}.

(** [serde_json::to_vec] and [from_slice] of a type. *)
Class Serde (A : Type) := { to_vec : A -> bytes; from_slice : bytes -> option A }.
Class SerdeLaws (A : Type) `{Serde A} (ok : A -> Prop) : Prop :=
  serde_roundtrip a : ok a -> from_slice (to_vec a) = Some a.

(** The environment, indexed by the number of earlier interactions:
    [Utc::now()], [OsRng] (how many bytes), [Uuid::new_v4()], and whether an
    append to the log file succeeds. *)
Class Oracle := {
  time_at : nat -> datetime;
  random_at : nat -> nat -> bytes;
  uuid_at : nat -> uuid;
  log_io_at : nat -> Append;
}.
Class OracleLaws `{Oracle} : Prop := {
  random_length t n : length (random_at t n) = n;
  uuid_length t : length (uuid_at t) = 16;
}.

(** ** State *)

(** [KeyPair], [KeyStatus] and [KeyMetadata] of key_manager.rs *)
Record KeyPair := mkKeyPair {
  kp_key_id : str;
  kp_public_key : bytes;
  kp_private_key : bytes;
  kp_algorithm : str;
  kp_created_at : datetime;
  kp_expires_at : option datetime;
  kp_metadata : gmap str str;
}.

Inductive KeyStatus := Active | Rotating | Rotated | Expired | Revoked | Compromised.
#[export] Instance key_status_eq_dec : EqDecision KeyStatus.
Proof. solve_decision. Defined.

Record KeyMetadata := mkKeyMetadata {
  km_key_id : str;
  km_algorithm : str;
  km_key_size_bits : Z;
  km_created_at : datetime;
  km_expires_at : option datetime;
  km_customer_id : str;
  km_usage_count : Z;
  km_last_used_at : option datetime;
  km_status : KeyStatus;
  km_metadata : gmap str str;
}.

(** [EncryptionKey] of engine.rs *)
Record EncryptionKey := mkEncryptionKey {
  ek_key_id : str;
  ek_key_data : bytes;
  ek_algorithm : str;
  ek_created_at : datetime;
  ek_expires_at : option datetime;
}.

(** sled trees map keys to bytes; [envelopes] is "sealed_envelopes",
    [kyber_keys] and [dilithium_keys] the trees of the key store.
    [key_cache] holds the symmetric keys of the cipher engine. *)
Record World := mkWorld {
  tick : nat;
  envelopes : gmap bytes bytes;
  kyber_keys : gmap bytes bytes;
  dilithium_keys : gmap bytes bytes;
  key_pairs : gmap str KeyPair;
  key_metadata : gmap str KeyMetadata;
  key_cache : gmap str EncryptionKey;
  logger : option TransparencyLogger;
}.

Definition set_envelopes (t : gmap bytes bytes) (w : World) : World :=
  mkWorld (tick w) t (kyber_keys w) (dilithium_keys w) (key_pairs w) (key_metadata w) (key_cache w) (logger w).
Definition set_kyber_keys (t : gmap bytes bytes) (w : World) : World :=
  mkWorld (tick w) (envelopes w) t (dilithium_keys w) (key_pairs w) (key_metadata w) (key_cache w) (logger w).
Definition set_dilithium_keys (t : gmap bytes bytes) (w : World) : World :=
  mkWorld (tick w) (envelopes w) (kyber_keys w) t (key_pairs w) (key_metadata w) (key_cache w) (logger w).
Definition set_key_tables (kp : gmap str KeyPair) (km : gmap str KeyMetadata) (w : World) : World :=
  mkWorld (tick w) (envelopes w) (kyber_keys w) (dilithium_keys w) kp km (key_cache w) (logger w).
Definition set_key_cache (c : gmap str EncryptionKey) (w : World) : World :=
  mkWorld (tick w) (envelopes w) (kyber_keys w) (dilithium_keys w) (key_pairs w) (key_metadata w) c (logger w).
Definition set_logger (l : option TransparencyLogger) (w : World) : World :=
  mkWorld (tick w) (envelopes w) (kyber_keys w) (dilithium_keys w) (key_pairs w) (key_metadata w) (key_cache w) l.
Definition advance (w : World) : World :=
  mkWorld (S (tick w)) (envelopes w) (kyber_keys w) (dilithium_keys w) (key_pairs w)
    (key_metadata w) (key_cache w) (logger w).

(** ** Effects *)

Section Effects.
Context `{Oracle}.

Definition gets {E A} (f : World -> A) : M World E A := fun w => (Ok (f w), w).
Definition modify {E} (f : World -> World) : M World E unit := fun w => (Ok tt, f w).

(** Every interaction with the environment moves the clock on. *)
Definition interact {E A} (f : nat -> A) : M World E A := fun w => (Ok (f (tick w)), advance w).

Definition utc_now {E} : M World E datetime := interact time_at.
Definition os_random {E} (n : nat) : M World E bytes := interact (fun t => random_at t n).
Definition new_uuid {E} : M World E uuid := interact uuid_at.
Definition log_io {E} : M World E Append := interact log_io_at.

End Effects.

Section EffectLemmas.
Context `{Oracle} {E : Type}.

Lemma wp_interact {A} (f : nat -> A) w Q : Q (f (tick w)) (advance w) -> wp (E := E) (interact f) w Q.
Proof. done. Qed.
Lemma wp_gets {A} (f : World -> A) w Q : Q (f w) w -> wp (E := E) (gets f) w Q.
Proof. done. Qed.
Lemma wp_modify f w (Q : unit -> World -> Prop) : Q tt (f w) -> wp (E := E) (modify f) w Q.
Proof. done. Qed.
End EffectLemmas.

(** One step of a total-correctness proof. *)
Ltac wp_step :=
  match goal with
  | |- wp (bind _ _) _ _ => apply wp_bind
  | |- wp (ret _) _ _ => apply wp_ret
  | |- wp (utc_now) _ _ => apply wp_interact
  | |- wp (os_random _) _ _ => apply wp_interact
  | |- wp (new_uuid) _ _ => apply wp_interact
  | |- wp log_io _ _ => apply wp_interact
  | |- wp (gets _) _ _ => apply wp_gets
  | |- wp (modify _) _ _ => apply wp_modify
  | |- wp (map_err_m _ _) _ _ => apply wp_map_err_m
  end.
Ltac wp_run := repeat wp_step.

(** Everything but the clock is unchanged. *)
Definition same_data (w w' : World) : Prop :=
  envelopes w' = envelopes w /\ kyber_keys w' = kyber_keys w
  /\ dilithium_keys w' = dilithium_keys w /\ key_pairs w' = key_pairs w
  /\ key_metadata w' = key_metadata w /\ logger w' = logger w.

#[export] Instance same_data_equiv : Equivalence same_data.
Proof.
  unfold same_data. split; [done|intros ? ?; naive_solver|].
  intros w1 w2 w3 (?&?&?&?&?&?) (?&?&?&?&?&?). repeat split; congruence.
Qed.

Lemma same_data_advance w : same_data w (advance w).
Proof. done. Qed.
#[export] Hint Resolve same_data_advance : broker.

Lemma frames_interact {E A} (f : nat -> A) : frames (E := E) same_data (interact f).
Proof. intros w. apply same_data_advance. Qed.
Lemma frames_gets {E A} R `{!PreOrder R} (f : World -> A) : frames (E := E) R (gets f).
Proof. intros w. cbn. reflexivity. Qed.

(** Follow the structure of a computation. *)
Ltac frame_step :=
  match goal with
  | |- frames _ (bind _ _) => apply frames_bind; [typeclasses eauto| |intros ?]
  | |- frames _ (ret _) => apply frames_ret; typeclasses eauto
  | |- frames _ (fail _) => apply frames_fail; typeclasses eauto
  | |- frames _ (lift _) => apply frames_lift; typeclasses eauto
  | |- frames _ (gets _) => apply frames_gets; typeclasses eauto
  | |- frames _ (map_err_m _ _) => apply frames_map_err
  | |- frames same_data utc_now => apply frames_interact
  | |- frames same_data (os_random _) => apply frames_interact
  | |- frames same_data new_uuid => apply frames_interact
  | |- frames same_data log_io => apply frames_interact
  | |- frames _ (if ?b then _ else _) => destruct b
  | |- frames _ (match ?x with _ => _ end) => destruct x
  end.
Ltac frame_run := repeat frame_step.

(** * A small instance of the interfaces *)

Module ToyWorld.
Import Reference.

Definition pad (n : nat) (d : bytes) : bytes := take n (d ++ replicate n Byte.x00).

Lemma length_pad n d : length (pad n d) = n.
Proof. unfold pad. rewrite length_take, length_app, length_replicate. lia. Qed.

Lemma take_pad n m d : length d = m -> m <= n -> take m (pad n d) = d.
Proof. intros <- Hn. unfold pad. rewrite take_take, Nat.min_l by done. apply take_app_length. Qed.

(** "Encryption" keeps the message: only correctness is at stake here. *)
#[export] Instance toy_aead : Aead :=
  { aes_seal _ _ m := m; aes_open _ _ c := Some c; chacha_seal _ _ m := m; chacha_open _ _ c := Some c }.
#[export] Instance toy_aead_laws : AeadLaws.
Proof. by split. Qed.

#[export] Instance toy_pq : PqCrypto := {
  mlkem_keygen r := (pad 1184 r, pad 2400 r);
  mlkem_encaps _ r := let ss := toy_hash [] r in Some (ss, pad 1088 ss);
  mlkem_decaps _ ct := Some (take 32 ct);
  mldsa_public seed := pad 1952 (toy_hash [] seed);
  mldsa_sign seed msg := toy_hash (toy_hash [] seed) msg;
  mldsa_verify pk msg sg := Some (bool_decide (sg = toy_hash (take 32 pk) msg));
  blake3 := toy_hash [] }.
#[export] Instance toy_pq_laws : PqCryptoLaws.
Proof.
  assert (Hh : forall k d, length (toy_hash k d) = 32) by (intros; apply length_le_bytes).
  split; intros.
  - split; apply length_pad.
  - exists (toy_hash [] r'), (pad 1088 (toy_hash [] r')). split; [done|]. split.
    + unfold mlkem_decaps, toy_pq. by rewrite take_pad by (done || lia).
    + split; [apply Hh|apply length_pad].
  - apply length_pad.
  - unfold mldsa_verify, mldsa_public, mldsa_sign, toy_pq. rewrite take_pad by (done || lia).
    by rewrite bool_decide_eq_true_2.
Qed.

(** One second per interaction from a fixed start; distinct identifiers. *)
#[export] Instance toy_oracle : Oracle := {
  time_at t := (1700000000 * 10^9 + Z.of_nat t * 10^9)%Z;
  random_at t n := le_bytes n (Z.of_nat t * 7919 + 13);
  uuid_at t := le_bytes 16 (Z.of_nat t + 1);
  log_io_at _ := Appended }.
#[export] Instance toy_oracle_laws : OracleLaws.
Proof. split; intros; apply length_le_bytes. Qed.

#[export] Instance codec_serde `{Codec A} : Serde A := {
  to_vec := enc;
  from_slice d := match dec d with Some (a, _) => Some a | None => None end }.
#[export] Instance codec_serde_laws `{CodecLaws A} ok : SerdeLaws A ok.
Proof. intros a _. cbn. rewrite <- (app_nil_r (enc a)). by rewrite dec_enc. Qed.

(** A codec through an isomorphism. *)
Definition iso_codec {A B} `{Codec B} (to : A -> B) (from : B -> A) : Codec A :=
  {| enc a := enc (to a);
     dec s := match dec s with Some (b, r) => Some (from b, r) | None => None end |}.
Lemma iso_codec_laws {A B} `{CodecLaws B} (to : A -> B) (from : B -> A) :
  (forall a, from (to a) = a) -> @CodecLaws A (iso_codec to from).
Proof. intros Hft a r. cbn. by rewrite dec_enc, Hft. Qed.

Definition empty_world : World :=
  mkWorld 0 empty empty empty empty empty empty (Some (mkLogger 0 GENESIS_HASH [])).

End ToyWorld.
