(* ===== verification/SealedStore.v ===== *)
(** The sealed store (sealed_store.rs): secret records, serialised, encrypted
    and kept in a sled tree under their handle, and the operations on them.
    The second part refines the store to a map from handles to records.

    A sled tree is a map whose operations succeed; the I/O errors that the code
    passes on from sled's [get], [insert], [remove] and [flush] are left out. *)

From S2P Require Import Prelude RustStd Externals Transparency World Reference.

(** ** Records *)

Record SecretEnvelope := mkEnvelope {
  e_envelope_key_id : str;
  e_algorithm : str;
  e_ciphertext : str;
  e_kyber_ciphertext : str;
  e_customer_id : str;
  e_exporter_binding : option str;
  e_metadata : option json;
  e_created_at : datetime;
}.

Inductive SecretLifecycle := SingleUseUnwrap | RenewableLease | ServiceBootstrap.
#[export] Instance lifecycle_eq_dec : EqDecision SecretLifecycle.
Proof. solve_decision. Defined.

Definition from_proto_i32 (v : Z) : SecretLifecycle :=
  if (v =? 1)%Z then RenewableLease
  else if (v =? 2)%Z then ServiceBootstrap
  else SingleUseUnwrap.

Record ShareAssignment := mkAssignment {
  a_custodian_id : str;
  a_share_index : byte;
  a_claimed : bool;
}.

Record HeldShare := mkHeld { h_x : byte; h_y_b64 : str }.

Record ThirdPartyCaveatKey := mkCaveatKey {
  tp_location : str;
  tp_key_id : str;
  tp_condition : option str;
  tp_secret_b64 : str;
  tp_created_at : datetime;
}.

Record StoredEnvelopeRecord := mkRecord {
  r_envelope : SecretEnvelope;
  r_signature : str;
  r_signing_key_id : str;
  r_signing_public_key : str;
  r_signing_key_expires_at : option datetime;
  r_expires_at : option datetime;
  r_last_accessed : option datetime;
  r_redeem_nonce : option str;
  r_redeem_binding : option str;
  r_unwrap_principal_id : option str;
  r_issued_with_authenticated_transport : bool;
  r_issued_by_principal_id : option str;
  r_issued_by_peer_cert_sha256 : option str;
  r_issued_by_attestation_digest : option str;
  r_third_party_caveat_keys : option (list ThirdPartyCaveatKey);
  r_redeem_expires_at : option datetime;
  r_redeem_used : bool;
  r_threshold : option Z;
  r_threshold_commitments : option (list str);
  r_lifecycle : SecretLifecycle;
  r_lease_expires_at : option datetime;
  r_lease_renewal_count : Z;
  r_revoked : bool;
  r_revoked_at : option datetime;
  r_revocation_reason : option str;
  r_share_assignments : option (list ShareAssignment);
  r_held_shares : option (list HeldShare);
}.

Record ClaimResult := mkClaim {
  c_x : byte;
  c_y : bytes;
  c_commitments : list bytes;
  c_previously_claimed : bool;
}.

Record EncryptedRecord := mkEncrypted { enc_nonce : str; enc_ciphertext : str }.

Inductive StoreError :=
| StoreHandleNotFound
| DeserializingEncrypted
| DecodingNonce
| DecodingCiphertext
| DecryptFailed
| DeserializingRecord
| NoShareAssignments
| NoHeldShares
| NoThresholdCommitments
| CustodianNotAssigned (cid : str)
| ShareIndexNotFound (x : byte)
| DecodingHeldShare
| DecodingEnvelopeField.

(** ** Field updates of the operations *)

Definition set_last_accessed (t : option datetime) (r : StoredEnvelopeRecord) : StoredEnvelopeRecord :=
  mkRecord (r_envelope r) (r_signature r) (r_signing_key_id r) (r_signing_public_key r)
    (r_signing_key_expires_at r) (r_expires_at r) t (r_redeem_nonce r) (r_redeem_binding r)
    (r_unwrap_principal_id r) (r_issued_with_authenticated_transport r)
    (r_issued_by_principal_id r) (r_issued_by_peer_cert_sha256 r)
    (r_issued_by_attestation_digest r) (r_third_party_caveat_keys r) (r_redeem_expires_at r)
    (r_redeem_used r) (r_threshold r) (r_threshold_commitments r) (r_lifecycle r)
    (r_lease_expires_at r) (r_lease_renewal_count r) (r_revoked r) (r_revoked_at r)
    (r_revocation_reason r) (r_share_assignments r) (r_held_shares r).

Definition set_threshold (k : option Z) (c : option (list str)) (r : StoredEnvelopeRecord) : StoredEnvelopeRecord :=
  mkRecord (r_envelope r) (r_signature r) (r_signing_key_id r) (r_signing_public_key r)
    (r_signing_key_expires_at r) (r_expires_at r) (r_last_accessed r) (r_redeem_nonce r)
    (r_redeem_binding r) (r_unwrap_principal_id r) (r_issued_with_authenticated_transport r)
    (r_issued_by_principal_id r) (r_issued_by_peer_cert_sha256 r)
    (r_issued_by_attestation_digest r) (r_third_party_caveat_keys r) (r_redeem_expires_at r)
    (r_redeem_used r) k c (r_lifecycle r) (r_lease_expires_at r) (r_lease_renewal_count r)
    (r_revoked r) (r_revoked_at r) (r_revocation_reason r) (r_share_assignments r)
    (r_held_shares r).

Definition set_caveat_keys (k : option (list ThirdPartyCaveatKey)) (r : StoredEnvelopeRecord) : StoredEnvelopeRecord :=
  mkRecord (r_envelope r) (r_signature r) (r_signing_key_id r) (r_signing_public_key r)
    (r_signing_key_expires_at r) (r_expires_at r) (r_last_accessed r) (r_redeem_nonce r)
    (r_redeem_binding r) (r_unwrap_principal_id r) (r_issued_with_authenticated_transport r)
    (r_issued_by_principal_id r) (r_issued_by_peer_cert_sha256 r)
    (r_issued_by_attestation_digest r) k (r_redeem_expires_at r) (r_redeem_used r)
    (r_threshold r) (r_threshold_commitments r) (r_lifecycle r) (r_lease_expires_at r)
    (r_lease_renewal_count r) (r_revoked r) (r_revoked_at r) (r_revocation_reason r)
    (r_share_assignments r) (r_held_shares r).

Definition set_share_custody (a : option (list ShareAssignment)) (h : option (list HeldShare)) (r : StoredEnvelopeRecord) : StoredEnvelopeRecord :=
  mkRecord (r_envelope r) (r_signature r) (r_signing_key_id r) (r_signing_public_key r)
    (r_signing_key_expires_at r) (r_expires_at r) (r_last_accessed r) (r_redeem_nonce r)
    (r_redeem_binding r) (r_unwrap_principal_id r) (r_issued_with_authenticated_transport r)
    (r_issued_by_principal_id r) (r_issued_by_peer_cert_sha256 r)
    (r_issued_by_attestation_digest r) (r_third_party_caveat_keys r) (r_redeem_expires_at r)
    (r_redeem_used r) (r_threshold r) (r_threshold_commitments r) (r_lifecycle r)
    (r_lease_expires_at r) (r_lease_renewal_count r) (r_revoked r) (r_revoked_at r)
    (r_revocation_reason r) a h.

Definition set_redeem_used  (r : StoredEnvelopeRecord) : StoredEnvelopeRecord :=
  mkRecord (r_envelope r) (r_signature r) (r_signing_key_id r) (r_signing_public_key r)
    (r_signing_key_expires_at r) (r_expires_at r) (r_last_accessed r) None None
    (r_unwrap_principal_id r) (r_issued_with_authenticated_transport r)
    (r_issued_by_principal_id r) (r_issued_by_peer_cert_sha256 r)
    (r_issued_by_attestation_digest r) (r_third_party_caveat_keys r) (r_redeem_expires_at r)
    true (r_threshold r) (r_threshold_commitments r) (r_lifecycle r) (r_lease_expires_at r)
    (r_lease_renewal_count r) (r_revoked r) (r_revoked_at r) (r_revocation_reason r)
    (r_share_assignments r) (r_held_shares r).

Definition set_lease (lease : option datetime) (count : Z) (accessed : option datetime) (r : StoredEnvelopeRecord) : StoredEnvelopeRecord :=
  mkRecord (r_envelope r) (r_signature r) (r_signing_key_id r) (r_signing_public_key r)
    (r_signing_key_expires_at r) (r_expires_at r) accessed (r_redeem_nonce r)
    (r_redeem_binding r) (r_unwrap_principal_id r) (r_issued_with_authenticated_transport r)
    (r_issued_by_principal_id r) (r_issued_by_peer_cert_sha256 r)
    (r_issued_by_attestation_digest r) (r_third_party_caveat_keys r) (r_redeem_expires_at r)
    (r_redeem_used r) (r_threshold r) (r_threshold_commitments r) (r_lifecycle r) lease count
    (r_revoked r) (r_revoked_at r) (r_revocation_reason r) (r_share_assignments r)
    (r_held_shares r).

Definition set_revoked (at_ : option datetime) (reason : option str) (r : StoredEnvelopeRecord) : StoredEnvelopeRecord :=
  mkRecord (r_envelope r) (r_signature r) (r_signing_key_id r) (r_signing_public_key r)
    (r_signing_key_expires_at r) (r_expires_at r) (r_last_accessed r) None None
    (r_unwrap_principal_id r) (r_issued_with_authenticated_transport r)
    (r_issued_by_principal_id r) (r_issued_by_peer_cert_sha256 r)
    (r_issued_by_attestation_digest r) (r_third_party_caveat_keys r) (r_redeem_expires_at r)
    true (r_threshold r) (r_threshold_commitments r) (r_lifecycle r) (r_lease_expires_at r)
    (r_lease_renewal_count r) true at_ reason (r_share_assignments r) (r_held_shares r).

(** ** Accessors *)

Definition is_expired (r : StoredEnvelopeRecord) (now : datetime) : bool :=
  match r_expires_at r with Some expiry => (expiry <? now)%Z | None => false end.

Section Store.
Context `{TextCodecs} `{Aead} `{Oracle}.
Context `{!Serde StoredEnvelopeRecord} `{!Serde EncryptedRecord} `{!Serde SecretEnvelope}.
(** The AES key of the store, read from its master key file. *)
Variable cipher : bytes.

Definition envelope_bytes (r : StoredEnvelopeRecord) : bytes := to_vec (r_envelope r).
Definition ciphertext_bytes (r : StoredEnvelopeRecord) : result StoreError bytes :=
  ok_or (b64_decode (e_ciphertext (r_envelope r))) DecodingEnvelopeField.
Definition kem_ciphertext_bytes (r : StoredEnvelopeRecord) : result StoreError bytes :=
  ok_or (b64_decode (e_kyber_ciphertext (r_envelope r))) DecodingEnvelopeField.
Definition signature_bytes (r : StoredEnvelopeRecord) : result StoreError bytes :=
  ok_or (b64_decode (r_signature r)) DecodingEnvelopeField.
Definition exporter_binding_bytes (r : StoredEnvelopeRecord) : result StoreError (option bytes) :=
  match e_exporter_binding (r_envelope r) with
  | Some binding => let! b := ok_or (b64_decode binding) DecodingEnvelopeField in Ok (Some b)
  | None => Ok None
  end.

(** ** Sealing and opening a record *)

Definition encrypt_payload (plaintext : bytes) : M World StoreError (bytes * bytes) :=
  let* nonce := os_random 12 in
  ret (nonce, aes_seal cipher nonce plaintext).

(** [Nonce::from_slice] panics unless the nonce has 12 bytes. *)
Definition decrypt_payload (nonce ciphertext : bytes) : result StoreError bytes :=
  if (length nonce =? 12)%nat
  then ok_or (aes_open cipher nonce ciphertext) DecryptFailed
  else Panic.

Definition open_record (value : bytes) : result StoreError StoredEnvelopeRecord :=
  let! encrypted := ok_or (from_slice (A := EncryptedRecord) value) DeserializingEncrypted in
  let! nonce := ok_or (b64_decode (enc_nonce encrypted)) DecodingNonce in
  let! ciphertext := ok_or (b64_decode (enc_ciphertext encrypted)) DecodingCiphertext in
  let! plaintext := decrypt_payload nonce ciphertext in
  ok_or (from_slice plaintext) DeserializingRecord.

Definition seal_record (r : StoredEnvelopeRecord) : M World StoreError bytes :=
  let* (nonce, ciphertext) := encrypt_payload (to_vec r) in
  ret (to_vec (mkEncrypted (b64_encode nonce) (b64_encode ciphertext))).

(** [tree.get] and [tree.insert] followed by [flush]. *)
Definition tree_get (h : uuid) : M World StoreError (option bytes) := gets (fun w => envelopes w !! h).
Definition tree_insert (h : uuid) (value : bytes) : M World StoreError unit :=
  modify (fun w => set_envelopes (<[h := value]> (envelopes w)) w).

(** ** Operations *)

Definition insert_with_id (h : uuid) (r : StoredEnvelopeRecord) : M World StoreError uuid :=
  let* value := seal_record r in
  let* _ := tree_insert h value in
  ret h.

(** The shape of every read-modify-write operation: read and open the record,
    compute the new one (the clock may be read for it), seal and write it. *)
Definition rewrite_record {A} (h : uuid) (value : bytes)
    (f : StoredEnvelopeRecord -> M World StoreError (StoredEnvelopeRecord * A))
    : M World StoreError A :=
  let* r := lift (open_record value) in
  let* (r', a) := f r in
  let* updated := seal_record r' in
  let* _ := tree_insert h updated in
  ret a.

Definition update_record {A} (h : uuid)
    (f : StoredEnvelopeRecord -> M World StoreError (StoredEnvelopeRecord * A))
    : M World StoreError A :=
  let* v := tree_get h in
  match v with
  | None => fail StoreHandleNotFound
  | Some value => rewrite_record h value f
  end.

Definition load (h : uuid) : M World StoreError (option StoredEnvelopeRecord) :=
  let* accessed_at := utc_now in
  let* v := tree_get h in
  match v with
  | None => ret None
  | Some value =>
    rewrite_record h value (fun r =>
      let r := set_last_accessed (Some accessed_at) r in ret (r, Some r))
  end.

Definition delete (h : uuid) : M World StoreError bool :=
  let* v := tree_get h in
  let* _ := modify (fun w => set_envelopes (base.delete h (envelopes w)) w) in
  ret (match v with Some _ => true | None => false end).

Definition update_threshold_config (h : uuid) (threshold : Z) (commitments : list str)
    : M World StoreError unit :=
  update_record h (fun r => ret (set_threshold (Some threshold) (Some commitments) r, tt)).

Definition append_third_party_caveat_key (h : uuid) (entry : ThirdPartyCaveatKey)
    : M World StoreError unit :=
  update_record h (fun r =>
    let entries := default [] (r_third_party_caveat_keys r) in
    let entries := if existsb (fun e => str_eqb (tp_key_id e) (tp_key_id entry)) entries
                   then entries else entries ++ [entry] in
    ret (set_caveat_keys (Some entries) r, tt)).

Definition update_share_assignments (h : uuid) (assignments : list ShareAssignment)
    (held : list HeldShare) : M World StoreError unit :=
  update_record h (fun r => ret (set_share_custody (Some assignments) (Some held) r, tt)).

(** [assignment.claimed = true] on the first entry of the custodian. *)
Fixpoint mark_claimed (cid : str) (l : list ShareAssignment) : list ShareAssignment :=
  match l with
  | [] => []
  | a :: l =>
    if str_eqb (a_custodian_id a) cid
    then mkAssignment (a_custodian_id a) (a_share_index a) true :: l
    else a :: mark_claimed cid l
  end.

Definition find_assignment (cid : str) (l : list ShareAssignment) : option ShareAssignment :=
  List.find (fun a => str_eqb (a_custodian_id a) cid) l.
Definition find_held (x : byte) (l : list HeldShare) : option HeldShare :=
  List.find (fun s => bool_decide (h_x s = x)) l.

Definition claim_step (cid : str) (r : StoredEnvelopeRecord)
    : result StoreError (StoredEnvelopeRecord * ClaimResult) :=
  let! assignments := ok_or (r_share_assignments r) NoShareAssignments in
  let! held := ok_or (r_held_shares r) NoHeldShares in
  let! commitments := ok_or (r_threshold_commitments r) NoThresholdCommitments in
  let! assignment := ok_or (find_assignment cid assignments) (CustodianNotAssigned cid) in
  let! share := ok_or (find_held (a_share_index assignment) held)
                  (ShareIndexNotFound (a_share_index assignment)) in
  let! y := ok_or (b64_decode (h_y_b64 share)) DecodingHeldShare in
  Ok (set_share_custody (Some (mark_claimed cid assignments)) (Some held) r,
      mkClaim (h_x share) y (map (fun c => default [] (b64_decode c)) commitments)
        (a_claimed assignment)).

Definition claim_custodian_share (h : uuid) (cid : str) : M World StoreError ClaimResult :=
  update_record h (fun r => lift (claim_step cid r)).

Definition mark_redeem_used (h : uuid) : M World StoreError unit :=
  update_record h (fun r => ret (set_redeem_used r, tt)).

Definition renew_lease (h : uuid) (new_lease_expires_at : datetime)
    : M World StoreError StoredEnvelopeRecord :=
  update_record h (fun r =>
    let* now := utc_now in
    let r := set_lease (Some new_lease_expires_at)
               (saturating_add_u32 (r_lease_renewal_count r) 1) (Some now) r in
    ret (r, r)).

Definition revoke (h : uuid) (reason : option str) : M World StoreError bool :=
  let* v := tree_get h in
  match v with
  | None => ret false
  | Some value =>
    rewrite_record h value (fun r =>
      let* now := utc_now in
      ret (set_revoked (Some now) reason r, true))
  end.

End Store.

(** * The store as a map from handles to records *)

(** What the JSON form of a record keeps: the other fields are strings,
    integers and dates, but metadata is an arbitrary JSON value. *)
Definition record_ok (r : StoredEnvelopeRecord) : Prop :=
  match e_metadata (r_envelope r) with
  | Some j => j <> JNull /\ json_exact j = true /\ printable j = true
  | None => True
  end.

(** The operations and their replies as data. *)
Inductive StoreOp :=
| OpInsert (h : uuid) (r : StoredEnvelopeRecord)
| OpLoad (h : uuid)
| OpDelete (h : uuid)
| OpThreshold (h : uuid) (k : Z) (commitments : list str)
| OpCaveatKey (h : uuid) (entry : ThirdPartyCaveatKey)
| OpAssign (h : uuid) (assignments : list ShareAssignment) (held : list HeldShare)
| OpClaim (h : uuid) (cid : str)
| OpMarkUsed (h : uuid)
| OpRenew (h : uuid) (lease : datetime)
| OpRevoke (h : uuid) (reason : option str).

Inductive StoreReply :=
| RUnit
| RHandle (h : uuid)
| RRecord (r : StoredEnvelopeRecord)
| RMaybe (r : option StoredEnvelopeRecord)
| RBool (b : bool)
| RClaim (c : ClaimResult).

Definition op_handle (op : StoreOp) : uuid :=
  match op with
  | OpInsert h _ | OpLoad h | OpDelete h | OpThreshold h _ _ | OpCaveatKey h _ | OpAssign h _ _
  | OpClaim h _ | OpMarkUsed h | OpRenew h _ | OpRevoke h _ => h
  end.
Definition op_ok (op : StoreOp) : Prop :=
  match op with OpInsert _ r => record_ok r | _ => True end.

(** What each operation does to the record of its handle, at time [now]. *)
Definition add_caveat_key (entry : ThirdPartyCaveatKey) (r : StoredEnvelopeRecord) :=
  let entries := default [] (r_third_party_caveat_keys r) in
  set_caveat_keys (Some (if existsb (fun e => str_eqb (tp_key_id e) (tp_key_id entry)) entries
                         then entries else entries ++ [entry])) r.

Definition spec_rewrite `{TextCodecs} (op : StoreOp) (now : datetime) (r : StoredEnvelopeRecord)
    : result StoreError (StoredEnvelopeRecord * StoreReply) :=
  match op with
  | OpInsert h r' => Ok (r', RHandle h)
  | OpLoad _ => let r' := set_last_accessed (Some now) r in Ok (r', RMaybe (Some r'))
  | OpDelete _ => Ok (r, RBool true)
  | OpThreshold _ k cs => Ok (set_threshold (Some k) (Some cs) r, RUnit)
  | OpCaveatKey _ entry => Ok (add_caveat_key entry r, RUnit)
  | OpAssign _ a hs => Ok (set_share_custody (Some a) (Some hs) r, RUnit)
  | OpClaim _ cid => let! (r', c) := claim_step cid r in Ok (r', RClaim c)
  | OpMarkUsed _ => Ok (set_redeem_used r, RUnit)
  | OpRenew _ lease =>
    let r' := set_lease (Some lease) (saturating_add_u32 (r_lease_renewal_count r) 1) (Some now) r in
    Ok (r', RRecord r')
  | OpRevoke _ reason => Ok (set_revoked (Some now) reason r, RBool true)
  end.

(** The specification: a map from handles to records. *)
Definition spec_op `{TextCodecs} (op : StoreOp) (now : datetime)
    (t : gmap bytes StoredEnvelopeRecord)
    : result StoreError StoreReply * gmap bytes StoredEnvelopeRecord :=
  let h := op_handle op in
  match op, t !! h with
  | OpInsert _ r, _ => (Ok (RHandle h), <[h := r]> t)
  | OpLoad _, None => (Ok (RMaybe None), t)
  | OpDelete _, None => (Ok (RBool false), t)
  | OpRevoke _ _, None => (Ok (RBool false), t)
  | _, None => (Err StoreHandleNotFound, t)
  | OpDelete _, Some _ => (Ok (RBool true), base.delete h t)
  | _, Some r =>
    match spec_rewrite op now r with
    | Ok (r', a) => (Ok a, <[h := r']> t)
    | Err e => (Err e, t)
    | Panic => (Panic, t)
    end
  end.

Section Refinement.
Context `{TextCodecsLaws} `{AeadLaws} `{OracleLaws}.
Context `{!Serde StoredEnvelopeRecord} `{!Serde EncryptedRecord}.
Context `{!SerdeLaws StoredEnvelopeRecord record_ok} `{!SerdeLaws EncryptedRecord (fun _ => True)}.
Variable cipher : bytes.

(** The implementation of an operation. *)
Definition fmap_m {S E A B} (f : A -> B) (m : M S E A) : M S E B := bind m (fun a => ret (f a)).

Definition run_op (op : StoreOp) : M World StoreError StoreReply :=
  match op with
  | OpInsert h r => fmap_m RHandle (insert_with_id cipher h r)
  | OpLoad h => fmap_m RMaybe (load cipher h)
  | OpDelete h => fmap_m RBool (delete h)
  | OpThreshold h k cs => fmap_m (fun _ => RUnit) (update_threshold_config cipher h k cs)
  | OpCaveatKey h e => fmap_m (fun _ => RUnit) (append_third_party_caveat_key cipher h e)
  | OpAssign h a hs => fmap_m (fun _ => RUnit) (update_share_assignments cipher h a hs)
  | OpClaim h cid => fmap_m RClaim (claim_custodian_share cipher h cid)
  | OpMarkUsed h => fmap_m (fun _ => RUnit) (mark_redeem_used cipher h)
  | OpRenew h lease => fmap_m RRecord (renew_lease cipher h lease)
  | OpRevoke h reason => fmap_m RBool (revoke cipher h reason)
  end.

(** Every stored value opens to a record that its JSON form keeps. *)
Definition store_inv (w : World) : Prop :=
  forall h v, envelopes w !! h = Some v -> exists r, open_record cipher v = Ok r /\ record_ok r.

Definition records (w : World) : gmap bytes StoredEnvelopeRecord :=
  omap (fun v => result_ok (open_record cipher v)) (envelopes w).

Definition sealed (r : StoredEnvelopeRecord) (t : nat) : bytes :=
  to_vec (mkEncrypted (b64_encode (random_at t 12))
                      (b64_encode (aes_seal cipher (random_at t 12) (to_vec r)))).

Lemma seal_record_eq r w : seal_record cipher r w = (Ok (sealed r (tick w)), advance w).
Proof. done. Qed.

Lemma open_sealed r t : record_ok r -> open_record cipher (sealed r t) = Ok r.
Proof.
  intros Hr. unfold open_record, sealed. rewrite (serde_roundtrip (A := EncryptedRecord)) by done.
  cbn [ok_or rbind enc_nonce enc_ciphertext]. rewrite !b64_roundtrip. cbn [ok_or rbind].
  unfold decrypt_payload. rewrite random_length. cbn [Nat.eqb].
  rewrite aes_open_seal. cbn [ok_or rbind]. by rewrite (serde_roundtrip r).
Qed.

Lemma records_lookup w h v :
  envelopes w !! h = Some v -> records w !! h = result_ok (open_record cipher v).
Proof. intros E. unfold records. by rewrite lookup_omap, E. Qed.

Lemma records_none w h : store_inv w -> records w !! h = None <-> envelopes w !! h = None.
Proof.
  intros Hi. unfold records. rewrite lookup_omap. split; [|by intros ->].
  destruct (envelopes w !! h) as [v|] eqn:E; [|done]. cbn.
  destruct (Hi h v E) as (r & -> & _). done.
Qed.

Lemma records_some w h r :
  store_inv w -> records w !! h = Some r ->
  exists v, envelopes w !! h = Some v /\ open_record cipher v = Ok r /\ record_ok r.
Proof.
  intros Hi. unfold records. rewrite lookup_omap.
  destruct (envelopes w !! h) as [v|] eqn:E; [|done]. cbn.
  destruct (Hi h v E) as (r' & Hr & Hok). rewrite Hr. intros [= <-]. eauto.
Qed.

Lemma records_set w w' h r t :
  envelopes w' = <[h := sealed r t]> (envelopes w) -> record_ok r ->
  records w' = <[h := r]> (records w).
Proof.
  intros E Hr. unfold records. rewrite E, omap_insert. by rewrite open_sealed.
Qed.

Lemma store_inv_set w w' h r t :
  envelopes w' = <[h := sealed r t]> (envelopes w) -> store_inv w -> record_ok r -> store_inv w'.
Proof.
  intros E Hi Hr h' v. rewrite E. destruct (decide (h = h')) as [<-|Hne].
  - rewrite lookup_insert_eq. intros [= <-]. exists r. by rewrite open_sealed.
  - rewrite lookup_insert_ne by done. apply Hi.
Qed.

Lemma store_inv_same w w' : envelopes w' = envelopes w -> store_inv w -> store_inv w'.
Proof. intros E Hi h v. rewrite E. apply Hi. Qed.
Lemma records_same w w' : envelopes w' = envelopes w -> records w' = records w.
Proof. intros E. unfold records. by rewrite E. Qed.

(** Writing the record of a handle, from the value read earlier. *)
Lemma rewrite_record_ok {A} h v f (r r' : StoredEnvelopeRecord) (a : A) w w1 :
  open_record cipher v = Ok r -> f r w = (Ok (r', a), w1) -> record_ok r' ->
  exists w', rewrite_record cipher h v f w = (Ok a, w')
    /\ w' = set_envelopes (<[h := sealed r' (tick w1)]> (envelopes w1)) (advance w1).
Proof.
  intros Hv Hf Hr. unfold rewrite_record. unfold bind at 1, lift. rewrite Hv.
  unfold bind at 1. rewrite Hf. eexists. split; [|reflexivity]. reflexivity.
Qed.

Lemma rewrite_record_err {A} h v f (r : StoredEnvelopeRecord) (e : StoreError) w w1 :
  open_record cipher v = Ok r -> f r w = (Err e, w1) ->
  rewrite_record (A := A) cipher h v f w = (Err e, w1).
Proof. intros Hv Hf. unfold rewrite_record, bind at 1, lift. rewrite Hv. unfold bind. by rewrite Hf. Qed.

(** What a read-modify-write does to the map, given what its body does. *)
Definition body_refines {A} (spec : result StoreError (StoredEnvelopeRecord * StoreReply))
    (g : A -> StoreReply) (body : result StoreError (StoredEnvelopeRecord * A) * World) (w : World) : Prop :=
  envelopes body.2 = envelopes w /\
  match spec, body.1 with
  | Ok (r', rep), Ok (r1, a) => r1 = r' /\ g a = rep /\ record_ok r'
  | Err e, Err e' => e' = e
  | _, _ => False
  end.

Definition spec_outcome (spec : result StoreError (StoredEnvelopeRecord * StoreReply)) (h : uuid)
    (t : gmap bytes StoredEnvelopeRecord)
    : result StoreError StoreReply * gmap bytes StoredEnvelopeRecord :=
  match spec with
  | Ok (r', a) => (Ok a, <[h := r']> t)
  | Err e => (Err e, t)
  | Panic => (Panic, t)
  end.

Lemma rewrite_refines {A} spec (g : A -> StoreReply) h v r f w :
  store_inv w -> open_record cipher v = Ok r -> body_refines spec g (f r w) w ->
  let res := fmap_m g (rewrite_record cipher h v f) w in
  spec_outcome spec h (records w) = (res.1, records res.2) /\ store_inv res.2.
Proof.
  intros Hi Hv [He Hb]. destruct (f r w) as [body w1] eqn:Hf. cbn [fst snd] in *.
  destruct spec as [[r' rep]|e|]; destruct body as [[r1 a]|e'|]; try done.
  - destruct Hb as (-> & <- & Hok).
    destruct (rewrite_record_ok h v f r r' a w w1 Hv Hf Hok) as (w' & Hw & ->).
    unfold fmap_m, bind. rewrite Hw. cbn [ret fst snd spec_outcome]. split.
    + f_equal. symmetry. apply (records_set w _ h r' (tick w1)); [|done]. cbn. by rewrite He.
    + apply (store_inv_set w _ h r' (tick w1)); [|done|done]. cbn. by rewrite He.
  - subst e'. unfold fmap_m, bind. rewrite (rewrite_record_err h v f r e w w1 Hv Hf).
    cbn [fst snd spec_outcome]. rewrite (records_same w w1 He).
    split; [done|]. by apply (store_inv_same w).
Qed.

Lemma update_refines {A} op (g : A -> StoreReply) f w :
  store_inv w ->
  (forall r, record_ok r ->
    body_refines (spec_rewrite op (time_at (tick w)) r) g (f r w) w) ->
  let res := fmap_m g (update_record cipher (op_handle op) f) w in
  (match records w !! op_handle op with
   | None => (Err StoreHandleNotFound, records w)
   | Some r => spec_outcome (spec_rewrite op (time_at (tick w)) r) (op_handle op) (records w)
   end) = (res.1, records res.2) /\ store_inv res.2.
Proof.
  intros Hi Hf. cbn zeta.
  destruct (records w !! op_handle op) as [r|] eqn:R.
  - destruct (records_some w _ r Hi R) as (v & Hv & Hopen & Hok).
    assert (fmap_m g (update_record cipher (op_handle op) f) w
      = fmap_m g (rewrite_record cipher (op_handle op) v f) w) as ->.
    { unfold fmap_m, update_record, bind, tree_get, gets. by rewrite Hv. }
    by apply (rewrite_refines _ g _ _ r); [| |apply Hf].
  - apply (records_none w _ Hi) in R. unfold fmap_m, update_record, bind, tree_get, gets, fail.
    rewrite R. done.
Qed.

Lemma claim_step_ok cid r : record_ok r ->
  match claim_step cid r with Ok (r', _) => record_ok r' | Err _ => True | Panic => False end.
Proof.
  intros Hr. unfold claim_step.
  repeat match goal with |- context [ok_or ?o _] => destruct o; cbn [ok_or rbind]; [|done] end.
  exact Hr.
Qed.

Lemma store_op_refines op w :
  store_inv w -> op_ok op ->
  spec_op op (time_at (tick w)) (records w) = ((run_op op w).1, records (run_op op w).2)
  /\ store_inv (run_op op w).2.
Proof.
  intros Hi Ho.
  destruct op as [h r|h|h|h k cs|h e|h a hs|h cid|h|h lease|h reason].
  - cbn [op_ok] in Ho. split.
    + by rewrite (records_set w (run_op (OpInsert h r) w).2 h r (tick w) eq_refl Ho).
    + by apply (store_inv_set w _ h r (tick w)).
  - unfold spec_op. cbn [op_handle run_op]. destruct (records w !! h) as [r|] eqn:R.
    + destruct (records_some w _ r Hi R) as (v & Hv & Hopen & Hok).
      assert (fmap_m RMaybe (load cipher h) w = fmap_m RMaybe (rewrite_record cipher h v (fun r =>
          let r := set_last_accessed (Some (time_at (tick w))) r in ret (r, Some r))) (advance w)) as ->.
      { unfold fmap_m, load, bind, utc_now, interact, tree_get, gets. cbn [advance envelopes].
        by rewrite Hv. }
      rewrite <- (records_same w (advance w)) by done.
      by apply (rewrite_refines (spec_rewrite (OpLoad h) (time_at (tick w)) r) RMaybe h v r).
    + apply (records_none w _ Hi) in R.
      unfold fmap_m, load, bind, utc_now, interact, tree_get, gets. cbn [advance envelopes]. by rewrite R.
  - unfold spec_op. cbn [op_handle run_op]. unfold fmap_m, delete, bind, tree_get, gets, modify, ret.
    cbn [fst snd]. assert (Hr : records (set_envelopes (base.delete h (envelopes w)) w)
      = base.delete h (records w)) by (unfold records; apply omap_delete).
    rewrite Hr. split.
    + destruct (records w !! h) as [r|] eqn:R.
      * destruct (records_some w _ r Hi R) as (v & -> & _). done.
      * rewrite (delete_id (records w)) by done. apply (records_none w _ Hi) in R. by rewrite R.
    + intros h' v. cbn [envelopes set_envelopes]. intros [_ Hv]%lookup_delete_Some. by eapply Hi.
  - apply (update_refines (OpThreshold h k cs) (fun _ : unit => RUnit)); [done|]. by repeat split.
  - apply (update_refines (OpCaveatKey h e) (fun _ : unit => RUnit)); [done|]. by repeat split.
  - apply (update_refines (OpAssign h a hs) (fun _ : unit => RUnit)); [done|]. by repeat split.
  - apply (update_refines (OpClaim h cid) RClaim); [done|]. intros r Hr. split; [done|].
    pose proof (claim_step_ok cid r Hr) as C. cbn [spec_rewrite lift fst].
    by destruct (claim_step cid r) as [[r' c]|e|].
  - apply (update_refines (OpMarkUsed h) (fun _ : unit => RUnit)); [done|]. by repeat split.
  - apply (update_refines (OpRenew h lease) RRecord); [done|]. by repeat split.
  - unfold spec_op. cbn [op_handle run_op]. destruct (records w !! h) as [r|] eqn:R.
    + destruct (records_some w _ r Hi R) as (v & Hv & Hopen & Hok).
      assert (fmap_m RBool (revoke cipher h reason) w = fmap_m RBool (rewrite_record cipher h v (fun r =>
          let* now := utc_now in ret (set_revoked (Some now) reason r, true))) w) as ->.
      { unfold fmap_m, revoke, bind, tree_get, gets. by rewrite Hv. }
      by apply (rewrite_refines (spec_rewrite (OpRevoke h reason) (time_at (tick w)) r) RBool h v r).
    + apply (records_none w _ Hi) in R. unfold fmap_m, revoke, bind, tree_get, gets. by rewrite R.
Qed.

(** ** Single operations, for the handlers *)

(** Nothing but the store and the clock changes. *)
Definition store_only (w w' : World) : Prop :=
  kyber_keys w' = kyber_keys w /\ dilithium_keys w' = dilithium_keys w
  /\ key_pairs w' = key_pairs w /\ key_metadata w' = key_metadata w /\ logger w' = logger w.

Lemma load_some h r w :
  store_inv w -> records w !! h = Some r ->
  let r' := set_last_accessed (Some (time_at (tick w))) r in
  exists w', load cipher h w = (Ok (Some r'), w')
    /\ records w' = <[h := r']> (records w) /\ store_inv w' /\ store_only w w'
    /\ tick w' = tick w + 2.
Proof.
  intros Hi Hr r'. destruct (records_some w h r Hi Hr) as (v & Hv & Hopen & Hok).
  assert (load cipher h w = rewrite_record cipher h v (fun r =>
      let r := set_last_accessed (Some (time_at (tick w))) r in ret (r, Some r)) (advance w)) as ->.
  { unfold load, bind, utc_now, interact, tree_get, gets. cbn [envelopes advance]. by rewrite Hv. }
  destruct (rewrite_record_ok h v (fun r => let r := set_last_accessed (Some (time_at (tick w))) r in
    ret (r, Some r)) r r' (Some r') (advance w) (advance w) Hopen eq_refl Hok) as (w' & -> & ->).
  eexists. split; [reflexivity|]. split; [by apply (records_set w _ h r' (S (tick w)))|].
  split; [by apply (store_inv_set w _ h r' (S (tick w)))|]. split; [done|]. cbn. lia.
Qed.

Lemma load_none h w :
  store_inv w -> records w !! h = None -> load cipher h w = (Ok None, advance w).
Proof.
  intros Hi Hr%records_none; [|done].
  unfold load, bind, utc_now, interact, tree_get, gets. cbn [envelopes advance]. by rewrite Hr.
Qed.

Lemma update_some {A} h f (r r' : StoredEnvelopeRecord) (a : A) w w1 :
  store_inv w -> records w !! h = Some r ->
  f r w = (Ok (r', a), w1) -> envelopes w1 = envelopes w -> record_ok r' ->
  exists w', update_record cipher h f w = (Ok a, w')
    /\ records w' = <[h := r']> (records w) /\ store_inv w' /\ store_only w1 w'
    /\ tick w' = S (tick w1).
Proof.
  intros Hi Hr Hf He Hok. destruct (records_some w h r Hi Hr) as (v & Hv & Hopen & _).
  unfold update_record, bind at 1, tree_get, gets. rewrite Hv.
  destruct (rewrite_record_ok h v f r r' a w w1 Hopen Hf Hok) as (w' & -> & ->).
  eexists. split; [reflexivity|]. split; [apply (records_set w _ h r' (tick w1)); [cbn; by rewrite He|done]|].
  split; [apply (store_inv_set w _ h r' (tick w1)); [cbn; by rewrite He|done..]|]. done.
Qed.

Lemma records_ok w h r : store_inv w -> records w !! h = Some r -> record_ok r.
Proof. intros Hi Hr. by destruct (records_some w h r Hi Hr) as (v & _ & _ & ?). Qed.

(** C28: the encrypted store implements a map from handles to records:
    starting from a store whose entries all open, every operation gives the
    reply and has the effect of the same operation on the map, and leaves a
    store whose entries all open. *)
Theorem store_refines ops w :
  store_inv w -> Forall op_ok ops ->
  exists w' t,
    foldl (fun '(rs, w) op => let '(r, w') := run_op op w in (rs ++ [r], w')) ([], w) ops = (t, w')
    /\ (exists times, length times = length ops /\
         foldl (fun '(rs, m) '(op, now) => let '(r, m') := spec_op op now m in (rs ++ [r], m'))
           ([], records w) (zip ops times) = (t, records w'))
    /\ store_inv w'.
Proof.
  intros Hi HF.
  enough (G : forall rs : list (result StoreError StoreReply), exists w' t,
    foldl (fun '(rs, w) op => let '(r, w') := run_op op w in (rs ++ [r], w')) (rs, w) ops = (t, w')
    /\ (exists times, length times = length ops /\
         foldl (fun '(rs, m) '(op, now) => let '(r, m') := spec_op op now m in (rs ++ [r], m'))
           (rs, records w) (zip ops times) = (t, records w'))
    /\ store_inv w') by apply G.
  revert w Hi. induction HF as [|op ops Ho HF IH]; intros w Hi rs.
  - exists w, rs. split; [done|]. split; [|done]. by exists [].
  - destruct (store_op_refines op w Hi Ho) as [Hs Hi'].
    destruct (run_op op w) as [r w1] eqn:E. cbn [fst snd] in *.
    destruct (IH w1 Hi' (rs ++ [r])) as (w' & t & Hr & (times & Hl & Ht) & Hi2).
    exists w', t. cbn [foldl]. rewrite E. split; [done|]. split; [|done].
    exists (time_at (tick w) :: times). split; [cbn; by rewrite Hl|]. cbn [zip zip_with foldl].
    by rewrite Hs.
Qed.

(** ** What stays true of a record *)

Fixpoint run_ops (ops : list StoreOp) (w : World) : World :=
  match ops with [] => w | op :: ops => run_ops ops (run_op op w).2 end.

(** The operation does not replace or remove the record of [h]. *)
Definition keeps (h : uuid) (op : StoreOp) : Prop :=
  match op with OpInsert h' _ | OpDelete h' => h' <> h | _ => True end.

(** [r'] is a later state of [r]: revocation and redemption are permanent,
    the renewal counter does not go back, and what was fixed when the secret
    was sealed is unchanged. *)
Record later (r r' : StoredEnvelopeRecord) : Prop := {
  later_revoked : r_revoked r = true -> r_revoked r' = true;
  later_used : r_redeem_used r = true -> r_redeem_used r' = true;
  later_nonce : r_redeem_nonce r' = r_redeem_nonce r \/ r_redeem_nonce r' = None;
  later_count : (r_lease_renewal_count r <= u32_max -> r_lease_renewal_count r <= r_lease_renewal_count r')%Z;
  later_count_u32 : (r_lease_renewal_count r <= u32_max -> r_lease_renewal_count r' <= u32_max)%Z;
  later_envelope : r_envelope r' = r_envelope r;
  later_expiry : r_expires_at r' = r_expires_at r;
  later_principal : r_unwrap_principal_id r' = r_unwrap_principal_id r;
  later_lifecycle : r_lifecycle r' = r_lifecycle r;
}.

Lemma later_refl r : later r r.
Proof. split; auto; lia. Qed.
Lemma later_trans r1 r2 r3 : later r1 r2 -> later r2 r3 -> later r1 r3.
Proof.
  intros [? ? N1 ? ? E1 X1 P1 L1] [? ? N2 ? ? E2 X2 P2 L2]. split; try congruence; auto.
  - destruct N1, N2; intuition congruence.
  - intros. transitivity (r_lease_renewal_count r2); auto.
Qed.

Lemma spec_rewrite_later op now r r' rep :
  (forall h x, op <> OpInsert h x) -> spec_rewrite op now r = Ok (r', rep) -> later r r'.
Proof.
  intros Hi E. destruct op; cbn [spec_rewrite] in E; try (by destruct (Hi _ _ eq_refl));
    try (injection E as <- _; split; cbn; auto; lia).
  - apply rbind_ok in E as ([r1 c] & Hc & E). injection E as <- _. unfold claim_step in Hc. monad_inv.
    split; cbn; auto; lia.
  - injection E as <- _. split; cbn; auto; unfold saturating_add_u32; intros;
      [apply Z.min_glb; lia|apply Z.le_min_l].
Qed.

Lemma spec_op_later h op now t r :
  keeps h op -> t !! h = Some r -> exists r', (spec_op op now t).2 !! h = Some r' /\ later r r'.
Proof.
  intros Hk Hr. unfold spec_op.
  assert (rewritten : (forall h x, op <> OpInsert h x) ->
    forall r0, t !! op_handle op = Some r0 ->
    exists r', (match spec_rewrite op now r0 with
      | Ok (r', a) => (Ok a, <[op_handle op := r']> t) | Err e => (Err e, t) | Panic => (Panic, t)
      end : result StoreError StoreReply * _).2 !! h = Some r' /\ later r r').
  { intros Hni r0 Hr0. destruct (spec_rewrite op now r0) as [[r1 a]|e|] eqn:E; cbn [snd];
      [|by exists r; split; [|apply later_refl]..].
    destruct (decide (op_handle op = h)) as [Hh|Hne].
    - rewrite <- Hh, lookup_insert_eq. exists r1. split; [done|].
      rewrite Hh, Hr in Hr0. injection Hr0 as <-. by eapply spec_rewrite_later.
    - rewrite lookup_insert_ne by done. exists r. split; [done|apply later_refl]. }
  destruct op as [h' x|h'|h'|h' k cs|h' e|h' a hs|h' cid|h'|h' lease|h' reason];
    cbn [op_handle keeps] in *.
  - cbn [snd]. rewrite lookup_insert_ne by done. exists r. split; [done|apply later_refl].
  - destruct (t !! h') eqn:E; [by apply rewritten|by exists r; split; [|apply later_refl]].
  - destruct (t !! h') eqn:E; cbn [snd]; [rewrite lookup_delete_ne by done|];
      exists r; (split; [done|apply later_refl]).
  - destruct (t !! h') eqn:E; [by apply rewritten|by exists r; split; [|apply later_refl]].
  - destruct (t !! h') eqn:E; [by apply rewritten|by exists r; split; [|apply later_refl]].
  - destruct (t !! h') eqn:E; [by apply rewritten|by exists r; split; [|apply later_refl]].
  - destruct (t !! h') eqn:E; [by apply rewritten|by exists r; split; [|apply later_refl]].
  - destruct (t !! h') eqn:E; [by apply rewritten|by exists r; split; [|apply later_refl]].
  - destruct (t !! h') eqn:E; [by apply rewritten|by exists r; split; [|apply later_refl]].
  - destruct (t !! h') eqn:E; [by apply rewritten|by exists r; split; [|apply later_refl]].
Qed.

Lemma run_ops_later ops w h r :
  store_inv w -> Forall op_ok ops -> Forall (keeps h) ops -> records w !! h = Some r ->
  exists r', records (run_ops ops w) !! h = Some r' /\ later r r' /\ store_inv (run_ops ops w).
Proof.
  intros Hi HF. revert w r Hi. induction HF as [|op ops Ho HF IH]; intros w r Hi HK Hr.
  - exists r. split; [done|]. split; [apply later_refl|done].
  - apply Forall_cons in HK as [Hk HK].
    destruct (store_op_refines op w Hi Ho) as [Hs Hi'].
    destruct (spec_op_later h op (time_at (tick w)) (records w) r Hk Hr) as (r1 & Hr1 & L1).
    rewrite Hs in Hr1. cbn [snd] in Hr1.
    destruct (IH _ r1 Hi' HK Hr1) as (r2 & Hr2 & L2 & Hi2).
    exists r2. split; [done|]. split; [by eapply later_trans|done].
Qed.

(** Along any sequence of store operations that does not replace or
    delete a record, a revoked secret stays revoked, a redeemed one stays
    redeemed, a cleared redeem nonce never comes back, the renewal counter
    never decreases or overflows, and the sealed envelope, the expiry and the
    bound principal never change. *)
Theorem record_lifecycle ops w h r :
  store_inv w -> Forall op_ok ops -> Forall (keeps h) ops -> records w !! h = Some r ->
  exists r', records (run_ops ops w) !! h = Some r' /\ later r r'.
Proof. intros Hi HF HK Hr. destruct (run_ops_later ops w h r Hi HF HK Hr) as (r' & ? & ? & _). eauto. Qed.

(** ** Reads and writes of different calls can interleave *)

(** A revocation can be undone by a concurrent read: [load] writes the
    record back with a new access time, so when a revocation completes between
    the read and the write of a [load], the record is no longer revoked, its
    redeem token is valid again, and both calls report success. *)
Theorem load_undoes_revoke h v r w accessed reason :
  store_inv w -> envelopes w !! h = Some v -> open_record cipher v = Ok r ->
  exists w1 w2 r',
    revoke cipher h reason w = (Ok true, w1)
    /\ (exists r1, records w1 !! h = Some r1 /\ r_revoked r1 = true)
    /\ rewrite_record cipher h v (fun r =>
         let r := set_last_accessed (Some accessed) r in ret (r, Some r)) w1 = (Ok (Some r'), w2)
    /\ records w2 !! h = Some r'
    /\ r_revoked r' = r_revoked r /\ r_redeem_nonce r' = r_redeem_nonce r.
Proof.
  intros Hi Hv Hopen. destruct (Hi h v Hv) as (r0 & Hr0 & Hok). rewrite Hopen in Hr0. injection Hr0 as <-.
  assert (Hrec : records w !! h = Some r) by (rewrite (records_lookup w h v Hv), Hopen; done).
  destruct (store_op_refines (OpRevoke h reason) w Hi I) as [Hs Hi'].
  unfold spec_op in Hs. cbn [op_handle] in Hs. rewrite Hrec in Hs. cbn [spec_rewrite run_op] in Hs.
  cbn [run_op] in Hi'. unfold fmap_m in Hs, Hi'. unfold bind in Hs, Hi'.
  destruct (revoke cipher h reason w) as [[b|e|] w1] eqn:Hrv; cbn [ret fst snd] in Hs, Hi'; try discriminate Hs.
  injection Hs as Hb Hw1. subst b.
  destruct (rewrite_record_ok h v (fun r => let r := set_last_accessed (Some accessed) r in
    ret (r, Some r)) r (set_last_accessed (Some accessed) r) (Some (set_last_accessed (Some accessed) r))
    w1 w1 Hopen eq_refl Hok) as (w2 & Hw2 & Hw2').
  exists w1, w2, (set_last_accessed (Some accessed) r). split; [done|]. split.
  { eexists. rewrite <- Hw1, lookup_insert_eq. done. }
  split; [done|]. split; [|done].
  rewrite (records_set w1 w2 h (set_last_accessed (Some accessed) r) (tick w1)) by (by subst w2).
  by rewrite lookup_insert_eq.
Qed.

End Refinement.

(** * A codec for records, standing in for JSON *)

Module ToyStore.
Import Reference ToyWorld.

Definition envelope_to (e : SecretEnvelope) :=
  (e_envelope_key_id e, e_algorithm e, e_ciphertext e, e_kyber_ciphertext e, e_customer_id e,
   e_exporter_binding e, e_metadata e, e_created_at e).
Definition envelope_from '(a, b, c, d, e, f, g, h) : SecretEnvelope := mkEnvelope a b c d e f g h.
#[export] Instance envelope_codec : Codec SecretEnvelope := iso_codec envelope_to envelope_from.
#[export] Instance envelope_codec_laws : CodecLaws SecretEnvelope.
Proof. apply iso_codec_laws. by intros []. Qed.

Definition lifecycle_to (l : SecretLifecycle) : Z :=
  match l with SingleUseUnwrap => 0 | RenewableLease => 1 | ServiceBootstrap => 2 end.
#[export] Instance lifecycle_codec : Codec SecretLifecycle := iso_codec lifecycle_to from_proto_i32.
#[export] Instance lifecycle_codec_laws : CodecLaws SecretLifecycle.
Proof. apply iso_codec_laws. by intros []. Qed.

#[export] Instance assignment_codec : Codec ShareAssignment :=
  iso_codec (fun a => (a_custodian_id a, a_share_index a, a_claimed a))
    (fun '(a, b, c) => mkAssignment a b c).
#[export] Instance assignment_codec_laws : CodecLaws ShareAssignment.
Proof. apply iso_codec_laws. by intros []. Qed.

#[export] Instance held_codec : Codec HeldShare :=
  iso_codec (fun h => (h_x h, h_y_b64 h)) (fun '(a, b) => mkHeld a b).
#[export] Instance held_codec_laws : CodecLaws HeldShare.
Proof. apply iso_codec_laws. by intros []. Qed.

#[export] Instance caveat_key_codec : Codec ThirdPartyCaveatKey :=
  iso_codec (fun k => (tp_location k, tp_key_id k, tp_condition k, tp_secret_b64 k, tp_created_at k))
    (fun '(a, b, c, d, e) => mkCaveatKey a b c d e).
#[export] Instance caveat_key_codec_laws : CodecLaws ThirdPartyCaveatKey.
Proof. apply iso_codec_laws. by intros []. Qed.

#[export] Instance encrypted_codec : Codec EncryptedRecord :=
  iso_codec (fun e => (enc_nonce e, enc_ciphertext e)) (fun '(a, b) => mkEncrypted a b).
#[export] Instance encrypted_codec_laws : CodecLaws EncryptedRecord.
Proof. apply iso_codec_laws. by intros []. Qed.

Definition record_to (r : StoredEnvelopeRecord) :=
  (r_envelope r, r_signature r, r_signing_key_id r, r_signing_public_key r,
   r_signing_key_expires_at r, r_expires_at r, r_last_accessed r, r_redeem_nonce r,
   r_redeem_binding r, r_unwrap_principal_id r, r_issued_with_authenticated_transport r,
   r_issued_by_principal_id r, r_issued_by_peer_cert_sha256 r,
   r_issued_by_attestation_digest r, r_third_party_caveat_keys r, r_redeem_expires_at r,
   r_redeem_used r, r_threshold r, r_threshold_commitments r, r_lifecycle r,
   r_lease_expires_at r, r_lease_renewal_count r, r_revoked r, r_revoked_at r,
   r_revocation_reason r, r_share_assignments r, r_held_shares r).
Definition record_from '(x0, x1, x2, x3, x4, x5, x6, x7, x8, x9, x10, x11, x12, x13,
    x14, x15, x16, x17, x18, x19, x20, x21, x22, x23, x24, x25, x26) : StoredEnvelopeRecord :=
  mkRecord x0 x1 x2 x3 x4 x5 x6 x7 x8 x9 x10 x11 x12 x13 x14 x15 x16 x17 x18 x19 x20 x21 x22 x23 x24 x25 x26.
#[export] Instance record_codec : Codec StoredEnvelopeRecord := iso_codec record_to record_from.
#[export] Instance record_codec_laws : CodecLaws StoredEnvelopeRecord.
Proof. apply iso_codec_laws. by intros []. Qed.

(** ** The theorems on concrete inputs *)

Definition cipher0 : bytes := le_bytes 32 5.
Definition h0 : uuid := le_bytes 16 99.
Definition rec0 : StoredEnvelopeRecord :=
  mkRecord (mkEnvelope #"k" #"mlkem768-hybrid" #"00" #"00" #"acme" None (Some (JObject [])) 0)
    #"00" #"sk" #"00" None (Some 10%Z) None (Some #"aa") (Some #"bb") (Some #"alice") true
    (Some #"alice") None None None (Some 20%Z) false None None RenewableLease None 0 false None None
    None None.
Definition ops0 : list StoreOp :=
  [OpRenew h0 7; OpLoad h0; OpRevoke h0 (Some #"leak"); OpMarkUsed h0; OpRenew h0 9].
Definition w0 : World := (insert_with_id cipher0 h0 rec0 empty_world).2.

Lemma rec0_ok : record_ok rec0.
Proof. by repeat split. Qed.
Lemma empty_inv : store_inv cipher0 empty_world.
Proof. intros h v E. discriminate E. Qed.
Lemma w0_inv : store_inv cipher0 w0.
Proof. exact (store_inv_set cipher0 empty_world w0 h0 rec0 0 eq_refl empty_inv rec0_ok). Qed.
Lemma w0_records : records cipher0 w0 !! h0 = Some rec0.
Proof. vm_compute. reflexivity. Qed.
Lemma ops0_ok : Forall op_ok ops0.
Proof. by repeat constructor. Qed.

Lemma store_refines_witness :
  exists w' t,
    foldl (fun '(rs, w) op => let '(r, w') := run_op cipher0 op w in (rs ++ [r], w')) ([], w0) ops0
      = (t, w')
    /\ (exists times, length times = length ops0 /\
         foldl (fun '(rs, m) '(op, now) => let '(r, m') := spec_op op now m in (rs ++ [r], m'))
           ([], records cipher0 w0) (zip ops0 times) = (t, records cipher0 w'))
    /\ store_inv cipher0 w'.
Proof. exact (store_refines cipher0 ops0 w0 w0_inv ops0_ok). Defined.

Lemma record_lifecycle_witness :
  exists r', records cipher0 (run_ops cipher0 ops0 w0) !! h0 = Some r' /\ later rec0 r'.
Proof.
  assert (K : Forall (keeps h0) ops0) by (by repeat constructor).
  exact (record_lifecycle cipher0 ops0 w0 h0 rec0 w0_inv ops0_ok K w0_records).
Defined.

Definition v0 : bytes := sealed cipher0 rec0 0.

Lemma load_undoes_revoke_witness :
  exists w1 w2 r',
    revoke cipher0 h0 None w0 = (Ok true, w1)
    /\ (exists r1, records cipher0 w1 !! h0 = Some r1 /\ r_revoked r1 = true)
    /\ rewrite_record cipher0 h0 v0 (fun r =>
         let r := set_last_accessed (Some 3%Z) r in ret (r, Some r)) w1 = (Ok (Some r'), w2)
    /\ records cipher0 w2 !! h0 = Some r'
    /\ r_revoked r' = r_revoked rec0 /\ r_redeem_nonce r' = r_redeem_nonce rec0.
Proof.
  assert (V : envelopes w0 !! h0 = Some v0) by (vm_compute; reflexivity).
  exact (load_undoes_revoke cipher0 h0 v0 rec0 w0 3 None w0_inv V (open_sealed cipher0 rec0 0 rec0_ok)).
Defined.

End ToyStore.
