(* ===== verification/Config.v ===== *)
(** The crypto engine's configuration (crypto_engine/config.rs): its sections,
    its defaults and environment variables, its validation and the questions
    the engine asks of it. *)

From S2P Require Import Prelude RustStd Externals.

Record ServerConfig := mkServerConfig {
  bind_address : str;
  grpc_port : Z;
  http_port : Z;
  metrics_port : Z;
  max_connections : Z;
  connection_timeout_seconds : Z;
}.

Record KeyManagementConfig := mkKeyManagement {
  km_size_bits : Z;
  km_rotation_enabled : bool;
  km_rotation_interval_hours : Z;
  km_backup_enabled : bool;
  km_max_keys_per_customer : Z;
  km_encryption_algorithm : str;
  km_storage_backend : str;
}.

Record QuantumCryptoConfig := mkQuantumConfig {
  qc_enabled : bool;
  qc_default_algorithm : str;
  qc_supported_algorithms : list str;
  qc_key_exchange_enabled : bool;
  qc_signature_enabled : bool;
  qc_hybrid_mode_enabled : bool;
  qc_sealed_store_path : str;
}.

Record HsmConfig := mkHsmConfig { hsm_enabled_ : bool; hsm_type_ : str }.

Record PerformanceConfig := mkPerformanceConfig {
  max_concurrent_operations : Z;
  operation_timeout_seconds : Z;
  memory_limit_mb : Z;
  enable_parallel_processing : bool;
  thread_pool_size : Z;
  cache_enabled : bool;
  cache_size_mb : Z;
}.

Record SecurityPoliciesConfig := mkSecurityPolicies {
  minimum_key_strength_bits : Z;
  enforce_key_rotation : bool;
  sp_allowed_algorithms : list str;
  max_data_size_mb : Z;
  rate_limiting_enabled : bool;
  max_operations_per_minute : Z;
  sp_audit_logging_enabled : bool;
  fips_compliance_mode : bool;
}.

Record MonitoringConfig := mkMonitoringConfig {
  metrics_enabled : bool;
  metrics_collection_interval_seconds : Z;
  health_check_enabled : bool;
  health_check_interval_seconds : Z;
  log_level : str;
  mon_audit_logging_enabled : bool;
  performance_monitoring_enabled : bool;
}.

Record CryptoConfig := mkCryptoConfig {
  service_name : str;
  service_version : str;
  server : ServerConfig;
  key_management : KeyManagementConfig;
  quantum_crypto : QuantumCryptoConfig;
  hsm : HsmConfig;
  performance : PerformanceConfig;
  security_policies : SecurityPoliciesConfig;
  monitoring : MonitoringConfig;
}.

(** The fields the engine reads. *)
Definition key_size_bits (c : CryptoConfig) : Z := km_size_bits (key_management c).
Definition key_rotation_enabled (c : CryptoConfig) : bool := km_rotation_enabled (key_management c).
Definition rotation_interval_hours (c : CryptoConfig) : Z := km_rotation_interval_hours (key_management c).
Definition max_keys_per_customer (c : CryptoConfig) : Z := km_max_keys_per_customer (key_management c).
Definition quantum_enabled (c : CryptoConfig) : bool := qc_enabled (quantum_crypto c).
Definition hsm_enabled (c : CryptoConfig) : bool := hsm_enabled_ (hsm c).
Definition allowed_algorithms (c : CryptoConfig) : list str := sp_allowed_algorithms (security_policies c).

Inductive ConfigError :=
| KeySizeTooSmall
| NoKeysAllowed
| DefaultAlgorithmUnsupported
| HsmTypeUnsupported (hsm_type : str)
| AlgorithmUnsupported (algorithm : str).

Definition str_in (x : str) (l : list str) : bool := existsb (str_eqb x) l.

Definition known_algorithms : list str :=
  [ #"aes-256-gcm"; #"chacha20-poly1305"; #"xchacha20-poly1305"; #"kyber512"; #"kyber768";
   #"kyber1024"; #"dilithium2"; #"dilithium3"; #"dilithium5"].

Definition validate (c : CryptoConfig) : result ConfigError unit :=
  let! _ := guard (key_size_bits c <? 128)%Z KeySizeTooSmall in
  let! _ := guard (max_keys_per_customer c =? 0)%Z NoKeysAllowed in
  let! _ := guard (quantum_enabled c
                   && negb (str_in (qc_default_algorithm (quantum_crypto c))
                              (qc_supported_algorithms (quantum_crypto c))))
              DefaultAlgorithmUnsupported in
  let! _ := guard (hsm_enabled c && negb (str_eqb (hsm_type_ (hsm c)) #"software"))
              (HsmTypeUnsupported (hsm_type_ (hsm c))) in
  for_each (fun a => guard (negb (str_in a known_algorithms)) (AlgorithmUnsupported a))
    (allowed_algorithms c).

Definition is_algorithm_allowed (c : CryptoConfig) (algorithm : str) : bool :=
  str_in algorithm (allowed_algorithms c).

Definition get_default_algorithm (c : CryptoConfig) : str :=
  if quantum_enabled c && qc_hybrid_mode_enabled (quantum_crypto c) then #"aes-256-gcm"
  else if quantum_enabled c then qc_default_algorithm (quantum_crypto c)
  else #"aes-256-gcm".

Definition is_fips_compliance_required (c : CryptoConfig) : bool :=
  fips_compliance_mode (security_policies c).

(** [u32 as u64 * 1024 * 1024] cannot overflow. *)
Definition get_max_data_size (c : CryptoConfig) : Z :=
  (max_data_size_mb (security_policies c) * 1024 * 1024)%Z.

Definition is_rate_limiting_enabled (c : CryptoConfig) : bool :=
  rate_limiting_enabled (security_policies c).
Definition get_rate_limit_per_minute (c : CryptoConfig) : Z :=
  max_operations_per_minute (security_policies c).

(** ** Defaults and the environment *)

(** [v.parse::<bool>()] *)
Definition parse_bool (s : str) : option bool :=
  if str_eqb s #"true" then Some true else if str_eqb s #"false" then Some false else None.

Section FromEnv.
(** [env::var(name).ok()] *)
Variable env : str -> option str.

Definition env_or (name fallback : str) : str := default fallback (env name).
Definition env_number (name : str) (limit fallback : Z) : Z :=
  default fallback (v ← env name; parse_unsigned limit v).
Definition env_bool (name : str) (fallback : bool) : bool :=
  default fallback (v ← env name; parse_bool v).

Definition from_env : CryptoConfig :=
  let sealed_store_path := env_or #"CRYPTO_ENGINE_SEALED_STORE_PATH"
                             #"/var/lib/secret-broker/crypto-engine/pq_keys.db" in
  let max_keys := env_number #"CRYPTO_ENGINE_MAX_KEYS_PER_CUSTOMER" (2^32 - 1) 10000 in
  mkCryptoConfig #"crypto-engine" #"0.1.0"
    (mkServerConfig (env_or #"CRYPTO_ENGINE_BIND_ADDRESS" #"0.0.0.0")
       (env_number #"CRYPTO_ENGINE_GRPC_PORT" (2^16 - 1) 50052)
       (env_number #"CRYPTO_ENGINE_HTTP_PORT" (2^16 - 1) 8085) 9095 1000 30)
    (mkKeyManagement 256 true 24 true max_keys #"aes-256-gcm" #"software")
    (mkQuantumConfig true #"kyber768"
       [ #"kyber512"; #"kyber768"; #"kyber1024"; #"dilithium2"; #"dilithium3"; #"dilithium5"]
       true true true sealed_store_path)
    (mkHsmConfig (env_bool #"CRYPTO_ENGINE_HSM_ENABLED" false)
       (env_or #"CRYPTO_ENGINE_HSM_TYPE" #"software"))
    (mkPerformanceConfig 100 30 1024 true 4 true 256)
    (mkSecurityPolicies 128 true
       [ #"aes-256-gcm"; #"chacha20-poly1305"; #"xchacha20-poly1305"; #"kyber512"; #"kyber768";
        #"kyber1024"; #"dilithium2"; #"dilithium3"; #"dilithium5"]
       100 true 1000 true (env_bool #"CRYPTO_ENGINE_FIPS_MODE" false))
    (mkMonitoringConfig true 60 true 30 (env_or #"RUST_LOG" #"info") true true).

(** The defaults are valid unless the environment sets the key limit to zero
    or asks for a hardware module this build does not have. *)
Lemma from_env_valid :
  validate from_env = Ok tt <->
  env_number #"CRYPTO_ENGINE_MAX_KEYS_PER_CUSTOMER" (2^32 - 1) 10000 <> 0%Z
  /\ (env_bool #"CRYPTO_ENGINE_HSM_ENABLED" false = true ->
      env_or #"CRYPTO_ENGINE_HSM_TYPE" #"software" = #"software").
Proof.
  unfold validate. set (n := env_number _ _ _). set (b := env_bool _ _). set (t := env_or _ _).
  change (key_size_bits from_env <? 128)%Z with false. cbn [guard rbind].
  change (max_keys_per_customer from_env) with n. change (hsm_enabled from_env) with b.
  change (hsm_type_ (hsm from_env)) with t. rewrite guard_bind_ok, Z.eqb_neq.
  change (guard (quantum_enabled from_env && _) DefaultAlgorithmUnsupported) with (@Ok ConfigError unit tt).
  cbn [rbind]. rewrite guard_bind_ok, andb_false_iff, negb_false_iff.
  split.
  - intros (Hn & Hh & _). split; [done|]. intros E. destruct Hh as [Hh|Hh]; [congruence|].
    by apply str_eqb_eq in Hh.
  - intros [Hn Hh]. split; [done|]. split; [|by vm_compute].
    destruct b; [right; apply str_eqb_eq; auto|by left].
Qed.

End FromEnv.
