(* ===== verification/CryptoEngine.v ===== *)
(** The parts of the crypto engine the broker's handlers call: the sealed key
    store (sealed_key_store.rs), the ML-KEM hybrid encryption
    (quantum_resistant.rs), the signing key manager (key_manager.rs) and the
    service in front of them (service.rs).  Metrics, health checks and log messages have no functional effect and are
    left out. *)

From S2P Require Import Prelude RustStd Externals Reference Transparency World Config.

Inductive CryptoError :=
| QuantumDisabled
| UnsupportedAlgorithm (algorithm : str)
| MissingKemCiphertext
| KeyNotFound (key_id : str)
| InvalidSize
| AeadFailure
| KeyStoreFailure
| KemFailure
| MasterKeyMissing
| AlgorithmNotAllowed (algorithm : str)
| ClassicalAlgorithm (algorithm : str)
| KeyLimitReached (customer : str)
| KeyExpired (key_id : str)
| SignatureFormat.

(** ** Key pairs at rest *)

Record KyberKeyPair := mkKyber {
  ky_public_key : bytes;
  ky_private_key : bytes;
  ky_algorithm : str;
  ky_key_id : str;
  ky_created_at : datetime;
}.

Record DilithiumKeyPair := mkDilithium {
  di_public_key : bytes;
  di_private_key : bytes;
  di_algorithm : str;
  di_key_id : str;
  di_created_at : datetime;
}.

(** [EncryptedRecord] of sealed_key_store.rs *)
Record KeyRecord := mkKeyRecord {
  kr_key_id : str;
  kr_algorithm : str;
  kr_ciphertext : str;
  kr_nonce : str;
  kr_created_at : datetime;
}.

Record EncryptionResult := mkEncryption {
  er_ciphertext : bytes;
  er_nonce : bytes;
  er_associated_data : option bytes;
  er_algorithm : str;
  er_key_id : option str;
  er_exporter_binding : option bytes;
}.

Section Crypto.
Context `{TextCodecs} `{Aead} `{PqCrypto} `{Oracle}.
Context `{!Serde KyberKeyPair} `{!Serde DilithiumKeyPair} `{!Serde KeyRecord}.
Variable config : CryptoConfig.
(** Master key of the sealed key store, and of the in-memory key manager. *)
Variable store_key : bytes.
Variable master_key : option bytes.

Abbreviation C := (M World CryptoError).

(** ** Sealed key store *)

Definition ks_encrypt (plaintext : bytes) : C (str * str) :=
  let* nonce := os_random 12 in
  ret (b64_encode (aes_seal store_key nonce plaintext), b64_encode nonce).

Definition decrypt_record (r : KeyRecord) : result CryptoError bytes :=
  let! nonce := ok_or (b64_decode (kr_nonce r)) KeyStoreFailure in
  let! ciphertext := ok_or (b64_decode (kr_ciphertext r)) KeyStoreFailure in
  if (length nonce =? 12)%nat then ok_or (aes_open store_key nonce ciphertext) KeyStoreFailure
  else Panic.

(** [store_keypair] and [load_keypair] for one of the two trees. *)
Definition store_keypair {T} `{!Serde T} (get : World -> gmap bytes bytes)
    (put : gmap bytes bytes -> World -> World) (key_id algorithm : str) (created_at : datetime)
    (key_material : T) : C unit :=
  let* (ciphertext, nonce) := ks_encrypt (to_vec key_material) in
  let data := to_vec (mkKeyRecord key_id algorithm ciphertext nonce created_at) in
  modify (fun w => put (<[key_id := data]> (get w)) w).

Definition load_keypair {T} `{!Serde T} (get : World -> gmap bytes bytes) (key_id : str)
    : C (option T) :=
  let* v := gets (fun w => get w !! key_id) in
  match v with
  | None => ret None
  | Some value =>
    let* r := lift (ok_or (from_slice (A := KeyRecord) value) KeyStoreFailure) in
    let* plaintext := lift (decrypt_record r) in
    let* found_pair := lift (ok_or (from_slice (A := T) plaintext) KeyStoreFailure) in
    ret (Some found_pair)
  end.

Definition store_kyber_keypair (pair : KyberKeyPair) : C unit :=
  store_keypair kyber_keys set_kyber_keys (ky_key_id pair) (ky_algorithm pair) (ky_created_at pair) pair.
Definition store_dilithium_keypair (pair : DilithiumKeyPair) : C unit :=
  store_keypair dilithium_keys set_dilithium_keys (di_key_id pair) (di_algorithm pair)
    (di_created_at pair) pair.
Definition load_kyber_keypair (key_id : str) : C (option KyberKeyPair) :=
  load_keypair kyber_keys key_id.

(** ** ML-KEM hybrid encryption *)

Definition generate_mlkem_keypair : C KyberKeyPair :=
  let* seed := os_random 64 in
  let '(ek, dk) := mlkem_keygen seed in
  let* id := new_uuid in
  let* now := utc_now in
  ret (mkKyber ek dk #"mlkem768" (#"mlkem_" ++ uuid_to_string id) now).

Definition generate_mldsa_keypair (key_id : str) : C DilithiumKeyPair :=
  let* seed := os_random 32 in
  let* now := utc_now in
  ret (mkDilithium (mldsa_public seed) seed #"mldsa65" key_id now).

Definition perform_mlkem_encapsulation (public_key : bytes) : C (bytes * bytes) :=
  let* _ := lift (guard (negb (length public_key =? 1184)%nat) InvalidSize) in
  let* r := os_random 32 in
  lift (ok_or (mlkem_encaps public_key r) KemFailure).

Definition perform_mlkem_decapsulation (ciphertext secret_key : bytes) : result CryptoError bytes :=
  let! _ := guard (negb (length secret_key =? 2400)%nat) InvalidSize in
  let! _ := guard (negb (length ciphertext =? 1088)%nat) InvalidSize in
  ok_or (mlkem_decaps secret_key ciphertext) KemFailure.

Definition hybrid_encrypt_with_shared_secret (data shared_secret : bytes) : C bytes :=
  let* _ := lift (guard (negb (length shared_secret =? 32)%nat) InvalidSize) in
  let* nonce := os_random 12 in
  ret (nonce ++ aes_seal shared_secret nonce data).

Definition hybrid_decrypt_with_shared_secret (encrypted_data shared_secret : bytes)
    : result CryptoError bytes :=
  let! _ := guard (length encrypted_data <? 12)%nat InvalidSize in
  let! _ := guard (negb (length shared_secret =? 32)%nat) InvalidSize in
  let! nonce := slice encrypted_data 0 12 in
  let! ciphertext := slice encrypted_data 12 (length encrypted_data) in
  ok_or (aes_open shared_secret nonce ciphertext) AeadFailure.

Definition derive_exporter_binding (shared_secret exporter_secret : bytes) : bytes :=
  blake3 (shared_secret ++ exporter_secret).

Definition encrypt_with_mlkem (data : bytes) (key_id : option str) (exporter_secret : option bytes)
    : C EncryptionResult :=
  let* key_pair := generate_mlkem_keypair in
  let* id := new_uuid in
  let mldsa_key_id := #"mldsa_" ++ uuid_to_string id in
  let* mldsa_keypair := generate_mldsa_keypair mldsa_key_id in
  let storage_key_id := default (ky_key_id key_pair) key_id in
  let key_pair := mkKyber (ky_public_key key_pair) (ky_private_key key_pair)
                    (ky_algorithm key_pair) storage_key_id (ky_created_at key_pair) in
  let* _ := store_kyber_keypair key_pair in
  let* _ := store_dilithium_keypair mldsa_keypair in
  let* (shared_secret, kem_ciphertext) := perform_mlkem_encapsulation (ky_public_key key_pair) in
  let* encrypted_data := hybrid_encrypt_with_shared_secret data shared_secret in
  let exporter_binding := derive_exporter_binding shared_secret <$> exporter_secret in
  ret (mkEncryption encrypted_data kem_ciphertext None #"mlkem768-hybrid" (Some storage_key_id)
         exporter_binding).

Definition decrypt_with_mlkem (encrypted_data mlkem_ciphertext : bytes) (key_id : str) : C bytes :=
  let* found := load_kyber_keypair key_id in
  let* key_pair := lift (ok_or found (KeyNotFound key_id)) in
  let* shared_secret := lift (perform_mlkem_decapsulation mlkem_ciphertext (ky_private_key key_pair)) in
  lift (hybrid_decrypt_with_shared_secret encrypted_data shared_secret).

(** [encrypt_pqc] and [decrypt_pqc] of the service: the request they build
    always asks for Kyber768 and carries the KEM ciphertext. *)
Definition encrypt_pqc (data : bytes) (envelope_key_id customer_id : str)
    (exporter_secret : option bytes) : C EncryptionResult :=
  let* _ := new_uuid in
  let* _ := utc_now in
  let* _ := lift (guard (negb (quantum_enabled config)) QuantumDisabled) in
  encrypt_with_mlkem data (Some envelope_key_id) exporter_secret.

Definition decrypt_pqc (encrypted_data kyber_ciphertext : bytes) (envelope_key_id customer_id : str)
    (exporter_secret : option bytes) : C bytes :=
  let* _ := new_uuid in
  let* _ := utc_now in
  let* _ := lift (guard (negb (quantum_enabled config)) QuantumDisabled) in
  decrypt_with_mlkem encrypted_data kyber_ciphertext envelope_key_id.

(** ** Signing keys *)

Definition encrypt_private_key (private_key : bytes) : C bytes :=
  let* mk := lift (ok_or master_key MasterKeyMissing) in
  let* nonce := os_random 12 in
  ret (nonce ++ chacha_seal mk nonce private_key).

Definition decrypt_private_key (encrypted_key : bytes) : result CryptoError bytes :=
  let! _ := guard (length encrypted_key <? 12)%nat InvalidSize in
  let! mk := ok_or master_key MasterKeyMissing in
  let! nonce := slice encrypted_key 0 12 in
  let! ciphertext := slice encrypted_key 12 (length encrypted_key) in
  ok_or (chacha_open mk nonce ciphertext) AeadFailure.

Definition is_classical (a : str) : bool := str_in a [ #"rsa"; #"ecdsa"; #"ed25519"].

Definition validate_post_quantum_algorithm (algorithm : str) : result CryptoError unit :=
  let! _ := guard (negb (is_algorithm_allowed config algorithm)) (AlgorithmNotAllowed algorithm) in
  if str_in algorithm [ #"kyber768"; #"dilithium5"; #"kyber-dilithium"] then Ok tt
  else if is_classical algorithm then Err (ClassicalAlgorithm algorithm)
  else Err (UnsupportedAlgorithm algorithm).

(** The customer's keys that count against the limit. *)
Definition counts (customer_id : str) (m : KeyMetadata) : bool :=
  str_eqb (km_customer_id m) customer_id
  && (bool_decide (km_status m = Active) || bool_decide (km_status m = Rotating)).
Definition active_keys (customer_id : str) (km : gmap str KeyMetadata) : nat :=
  length (List.filter (fun kv => counts customer_id kv.2) (map_to_list km)).

Definition check_key_limits (customer_id : str) : C unit :=
  let* n := gets (fun w => active_keys customer_id (key_metadata w)) in
  lift (guard (max_keys_per_customer config <=? Z.of_nat n)%Z (KeyLimitReached customer_id)).

Definition generate_kyber_keys : C (bytes * bytes) :=
  let* seed := os_random 64 in ret (mlkem_keygen seed).
Definition generate_dilithium_keys : C (bytes * bytes) :=
  let* seed := os_random 32 in ret (mldsa_public seed, seed).
Definition generate_hybrid_pq_keys : C (bytes * bytes) :=
  let* (kyber_pub, kyber_sec) := generate_kyber_keys in
  let* (dilithium_pub, dilithium_sec) := generate_dilithium_keys in
  ret (kyber_pub ++ dilithium_pub, kyber_sec ++ dilithium_sec).

Definition get_key_size (algorithm : str) : Z :=
  if str_eqb algorithm #"rsa" then key_size_bits config else 256%Z.

(** [Duration::hours(rotation_hours as i64)] *)
Definition calculate_expiry : C (option datetime) :=
  if key_rotation_enabled config then
    let* now := utc_now in
    let* d := lift (duration_seconds (as_i64 (rotation_interval_hours config) * 3600)%Z) in
    let* t := lift (add_duration now d) in
    ret (Some t)
  else ret None.

Definition key_usage_step (now : datetime) (m : KeyMetadata) : KeyMetadata :=
  mkKeyMetadata (km_key_id m) (km_algorithm m) (km_key_size_bits m) (km_created_at m)
    (km_expires_at m) (km_customer_id m) ((km_usage_count m + 1) mod 2^64)%Z (Some now)
    (km_status m) (km_metadata m).

Definition update_key_usage (key_id : str) : C unit :=
  let* found := gets (fun w => key_metadata w !! key_id) in
  match found with
  | Some m =>
    let* now := utc_now in
    modify (fun w => set_key_tables (key_pairs w) (<[key_id := key_usage_step now m]> (key_metadata w)) w)
  | None => ret tt
  end.

Definition generate_key_pair (algorithm customer_id : str) : C KeyPair :=
  let* _ := lift (validate_post_quantum_algorithm algorithm) in
  let* _ := check_key_limits customer_id in
  let* (public_key, private_key) :=
    (if str_eqb algorithm #"kyber768" then generate_kyber_keys
     else if str_eqb algorithm #"dilithium5" then generate_dilithium_keys
     else if str_eqb algorithm #"kyber-dilithium" then generate_hybrid_pq_keys
     else fail (UnsupportedAlgorithm algorithm)) in
  let* id := new_uuid in
  let key_id := #"keypair_" ++ uuid_to_string id in
  let* encrypted_private_key := encrypt_private_key private_key in
  let* created_at := utc_now in
  let* expires_at := calculate_expiry in
  let key_pair := mkKeyPair key_id public_key encrypted_private_key algorithm created_at expires_at
    (<[ #"generator" := #"software"]> {[ #"customer_id" := customer_id]}) in
  let metadata := mkKeyMetadata key_id algorithm (get_key_size algorithm) created_at expires_at
    customer_id 0 None Active ∅ in
  let* _ := modify (fun w => set_key_tables (<[key_id := key_pair]> (key_pairs w))
                               (<[key_id := metadata]> (key_metadata w)) w) in
  ret key_pair.

Definition get_public_key (key_id : str) : C bytes :=
  let* found := gets (fun w => key_pairs w !! key_id) in
  match found with
  | Some kp => let* _ := update_key_usage key_id in ret (kp_public_key kp)
  | None => fail (KeyNotFound key_id)
  end.

Definition is_key_expired (kp : KeyPair) (now : datetime) : bool :=
  match kp_expires_at kp with Some e => (e <? now)%Z | None => false end.

Definition sign_dilithium5 (data private_key : bytes) : result CryptoError bytes :=
  let! _ := guard (negb (length private_key =? 32)%nat) InvalidSize in
  Ok (mldsa_sign private_key data).

Definition sign_hybrid_pq (data combined : bytes) : result CryptoError bytes :=
  let! _ := guard (length combined <? 2400)%nat InvalidSize in
  let! dilithium_private := slice combined 2400 (length combined) in
  sign_dilithium5 data dilithium_private.

(** [Self::is_key_expired] reads the clock only for keys with an expiry. *)
Definition check_expired (key_id : str) (kp : KeyPair) : C unit :=
  match kp_expires_at kp with
  | Some _ => let* now := utc_now in lift (guard (is_key_expired kp now) (KeyExpired key_id))
  | None => ret tt
  end.

Definition sign_data (data : bytes) (key_id : str) : C bytes :=
  let* found := gets (fun w => key_pairs w !! key_id) in
  match found with
  | None => fail (KeyNotFound key_id)
  | Some kp =>
    let* _ := check_expired key_id kp in
    let* private_key := lift (decrypt_private_key (kp_private_key kp)) in
    let* signature := lift (
      if str_eqb (kp_algorithm kp) #"dilithium5" then sign_dilithium5 data private_key
      else if str_eqb (kp_algorithm kp) #"kyber-dilithium" then sign_hybrid_pq data private_key
      else if is_classical (kp_algorithm kp) then Err (ClassicalAlgorithm (kp_algorithm kp))
      else Err (UnsupportedAlgorithm (kp_algorithm kp))) in
    let* _ := update_key_usage key_id in
    ret signature
  end.

Definition verify_dilithium5_with_public_key (data signature public_key : bytes)
    : result CryptoError bool :=
  let! _ := guard (negb (length public_key =? 1952)%nat) InvalidSize in
  ok_or (mldsa_verify public_key data signature) SignatureFormat.

Definition verify_hybrid_pq (data signature combined : bytes) : result CryptoError bool :=
  let! _ := guard (length combined <? 1184)%nat InvalidSize in
  let! dilithium_public := slice combined 1184 (length combined) in
  verify_dilithium5_with_public_key data signature dilithium_public.

Definition verify_signature (data signature : bytes) (key_id : str) : C bool :=
  let* found := gets (fun w => key_pairs w !! key_id) in
  match found with
  | None => fail (KeyNotFound key_id)
  | Some kp =>
    let* _ := check_expired key_id kp in
    let* valid := lift (
      if str_eqb (kp_algorithm kp) #"dilithium5"
      then verify_dilithium5_with_public_key data signature (kp_public_key kp)
      else if str_eqb (kp_algorithm kp) #"kyber-dilithium"
      then verify_hybrid_pq data signature (kp_public_key kp)
      else if is_classical (kp_algorithm kp) then Err (ClassicalAlgorithm (kp_algorithm kp))
      else Err (UnsupportedAlgorithm (kp_algorithm kp))) in
    let* _ := (if valid : bool then update_key_usage key_id else ret tt) in
    ret valid
  end.

Definition verify_persisted_envelope_signature (data signature public_key : bytes)
    : result CryptoError bool :=
  verify_dilithium5_with_public_key data signature public_key.

End Crypto.

(** * Properties *)

Section CryptoLaws.
Context `{TextCodecsLaws} `{AeadLaws} `{PqCryptoLaws} `{OracleLaws}.
Context `{!Serde KyberKeyPair} `{!Serde DilithiumKeyPair} `{!Serde KeyRecord}.
Context `{!SerdeLaws KyberKeyPair (fun _ => True)} `{!SerdeLaws KeyRecord (fun _ => True)}.
Variable config : CryptoConfig.
Variable store_key : bytes.
Variable master_key : option bytes.

(** Parts of the state an operation leaves alone. *)
Definition frame_records (w w' : World) : Prop :=
  envelopes w' = envelopes w /\ logger w' = logger w.

Lemma hybrid_roundtrip data ss nonce :
  length ss = 32 -> length nonce = 12 ->
  hybrid_decrypt_with_shared_secret (nonce ++ aes_seal ss nonce data) ss = Ok data.
Proof.
  intros Hs Hn. unfold hybrid_decrypt_with_shared_secret. rewrite Hs, length_app, Hn.
  rewrite (proj2 (Nat.ltb_ge _ _)) by lia. cbn [guard negb Nat.eqb rbind].
  rewrite slice_prefix by done. cbn [rbind]. rewrite slice_suffix by (rewrite ?Hn; lia).
  cbn [rbind]. by rewrite aes_open_seal.
Qed.

(** A key pair stored in a tree and read back. *)
Definition stored_kyber (w : World) (key_id : str) (kp : KyberKeyPair) : Prop :=
  exists value r, kyber_keys w !! key_id = Some value
    /\ from_slice (A := KeyRecord) value = Some r
    /\ decrypt_record store_key r = Ok (to_vec kp).

Lemma load_stored_kyber w key_id kp :
  stored_kyber w key_id kp -> load_kyber_keypair store_key key_id w = (Ok (Some kp), w).
Proof.
  intros (value & r & Hv & Hr & Hd). unfold load_kyber_keypair, load_keypair, bind, gets.
  rewrite Hv. unfold lift. rewrite Hr. cbn [ok_or]. rewrite Hd.
  by rewrite (serde_roundtrip (A := KyberKeyPair)).
Qed.

(** Nothing but the kyber and dilithium trees and the clock changes, and in the
    former only the entry of [key_id]. *)
Definition kyber_only (key_id : str) (w w' : World) : Prop :=
  frame_records w w' /\ key_pairs w' = key_pairs w /\ key_metadata w' = key_metadata w
  /\ (forall k, k <> key_id -> kyber_keys w' !! k = kyber_keys w !! k).

(** At most [n] interactions with the environment happened in between. *)
Definition within (n : nat) (w w' : World) : Prop := tick w <= tick w' <= n + tick w.

Lemma store_kyber_stored kp w :
  wp (store_kyber_keypair store_key kp) w (fun _ w' =>
    stored_kyber w' (ky_key_id kp) kp /\ kyber_only (ky_key_id kp) w w' /\ within 1 w w').
Proof.
  unfold store_kyber_keypair, store_keypair, ks_encrypt. wp_run. split.
  - unfold stored_kyber. cbn. eexists _, _. rewrite lookup_insert_eq.
    split; [done|]. split; [by rewrite (serde_roundtrip (A := KeyRecord))|].
    unfold decrypt_record. cbn [kr_nonce kr_ciphertext]. rewrite !b64_roundtrip. cbn [ok_or rbind].
    by rewrite random_length, aes_open_seal.
  - split; [|unfold within; cbn; lia]. repeat split. intros k Hk. cbn. by rewrite lookup_insert_ne.
Qed.

(** What encryption leaves behind for decryption. *)
Definition decryptable (data : bytes) (key_id : str) (r : EncryptionResult) (w : World) : Prop :=
  exists kp ss, stored_kyber w key_id kp
    /\ perform_mlkem_decapsulation (er_nonce r) (ky_private_key kp) = Ok ss
    /\ hybrid_decrypt_with_shared_secret (er_ciphertext r) ss = Ok data.

Lemma stored_kyber_same w w' key_id kp :
  kyber_keys w' !! key_id = kyber_keys w !! key_id -> stored_kyber w key_id kp -> stored_kyber w' key_id kp.
Proof. unfold stored_kyber. intros E (v & r & ? & ?). exists v, r. by rewrite E. Qed.

(** The pair is stored under [key_id], whatever was there before. *)
Lemma encrypt_mlkem_ok data key_id exporter w :
  let dk := (mlkem_keygen (random_at (tick w) 64)).2 in
  wp (encrypt_with_mlkem store_key data (Some key_id) exporter) w (fun r w' =>
    er_algorithm r = #"mlkem768-hybrid"
    /\ (exists kp ss, stored_kyber w' key_id kp /\ ky_private_key kp = dk
         /\ perform_mlkem_decapsulation (er_nonce r) dk = Ok ss
         /\ hybrid_decrypt_with_shared_secret (er_ciphertext r) ss = Ok data)
    /\ kyber_only key_id w w' /\ within 10 w w').
Proof.
  unfold encrypt_with_mlkem, generate_mlkem_keypair. do 3 wp_step.
  set (seed := random_at _ 64). pose proof (mlkem_sizes seed) as [Hek Hdk].
  pose proof (mlkem_correct seed) as Hkem.
  destruct (mlkem_keygen seed) as [ek dk]. cbn [fst snd] in *.
  wp_run. unfold generate_mldsa_keypair. wp_run.
  cbn [ky_public_key ky_private_key ky_algorithm ky_created_at default].
  eapply wp_mono; [apply store_kyber_stored|]. cbn [ky_key_id]. intros [] w1 (Hst & Hfr & Ht).
  unfold store_dilithium_keypair, store_keypair, ks_encrypt, perform_mlkem_encapsulation. wp_run.
  apply (wp_lift _ tt); [by rewrite Hek|]. wp_run.
  set (r' := random_at _ 32). destruct (Hkem r') as (ss & ct & He & Hd & Hss & Hct).
  apply (wp_lift _ (ss, ct)); [by rewrite He|]. unfold hybrid_encrypt_with_shared_secret. wp_run.
  apply (wp_lift _ tt); [by rewrite Hss|]. wp_run. split; [done|]. split; [|split; [exact Hfr|unfold within in *; cbn in *; lia]].
  eexists _, ss. split; [exact Hst|]. split; [done|]. cbn [er_nonce er_ciphertext]. split.
  - unfold perform_mlkem_decapsulation. by rewrite Hdk, Hct, Hd.
  - apply hybrid_roundtrip; [done|apply random_length].
Qed.

Lemma encrypt_pqc_ok data key_id customer exporter w :
  quantum_enabled config = true ->
  wp (encrypt_pqc config store_key data key_id customer exporter) w (fun r w' =>
    er_algorithm r = #"mlkem768-hybrid"
    /\ decryptable data key_id r w' /\ kyber_only key_id w w' /\ within 12 w w').
Proof.
  intros Q. unfold encrypt_pqc. rewrite Q. cbn [negb]. wp_run. apply (wp_lift _ tt); [done|].
  eapply wp_mono; [apply encrypt_mlkem_ok|].
  intros r w' (Ha & (kp & ss & Hst & Hdk & Hss & Hd) & Hfr & Ht). split; [done|]. split; [|split; [exact Hfr|]].
  - exists kp, ss. by rewrite Hdk.
  - unfold within in *. cbn in Ht. lia.
Qed.

Lemma decrypt_pqc_ok data key_id customer exporter r w :
  quantum_enabled config = true -> decryptable data key_id r w ->
  wp (decrypt_pqc config store_key (er_ciphertext r) (er_nonce r) key_id customer exporter) w
    (fun d w' => d = data /\ same_data w w' /\ within 2 w w').
Proof.
  intros Q (kp & ss & Hst & Hss & Hd). unfold decrypt_pqc, decrypt_with_mlkem. rewrite Q. wp_run.
  apply (wp_lift _ tt); [done|]. wp_run. apply wp_eq. do 2 eexists.
  split; [by apply load_stored_kyber; eapply stored_kyber_same, Hst|]. wp_run.
  apply (wp_lift _ kp); [done|]. wp_run. apply (wp_lift _ ss); [done|].
  apply (wp_lift _ data); [done|]. split; [done|]. split; [done|]. unfold within; cbn; lia.
Qed.

(** What [encrypt_pqc] encrypts under a key identifier, [decrypt_pqc]
    decrypts to the same bytes in every later state that still has the stored
    key pair; encryption always succeeds and changes no other key pair and no
    record. *)
Theorem pqc_roundtrip data key_id customer exporter exporter' w :
  quantum_enabled config = true ->
  exists r w1, encrypt_pqc config store_key data key_id customer exporter w = (Ok r, w1)
    /\ envelopes w1 = envelopes w
    /\ (forall k, k <> key_id -> kyber_keys w1 !! k = kyber_keys w !! k)
    /\ forall w2, kyber_keys w2 !! key_id = kyber_keys w1 !! key_id ->
         exists w3, decrypt_pqc config store_key (er_ciphertext r) (er_nonce r) key_id customer exporter' w2
                    = (Ok data, w3).
Proof.
  intros Q. pose proof (encrypt_pqc_ok data key_id customer exporter w Q) as HE.
  apply wp_eq in HE as (r & w1 & HE & _ & (kp & ss & Hst & Hd) & ((Hf & _) & _ & _ & Hk) & _).
  exists r, w1. split; [done|]. split; [done|]. split; [done|]. intros w2 Hw2.
  pose proof (decrypt_pqc_ok data key_id customer exporter' r w2 Q) as HD.
  apply wp_eq in HD as (d & w3 & HD & -> & _); [by exists w3|].
  exists kp, ss. split; [by eapply stored_kyber_same|done].
Qed.

(** ** Signing keys *)

Lemma private_key_roundtrip mk key nonce :
  master_key = Some mk -> length nonce = 12 ->
  decrypt_private_key master_key (nonce ++ chacha_seal mk nonce key) = Ok key.
Proof.
  intros Hm Hn. unfold decrypt_private_key. rewrite Hm, length_app, Hn.
  rewrite (proj2 (Nat.ltb_ge _ _)) by lia. cbn [guard ok_or rbind].
  rewrite slice_prefix by done. cbn [rbind]. rewrite slice_suffix by (rewrite ?Hn; lia).
  cbn [rbind]. by rewrite chacha_open_seal.
Qed.

(** The rotation interval, and that it leads to a date at step [t]. *)
Definition rotation : duration := (as_i64 (rotation_interval_hours config) * 3600 * ns_per_sec)%Z.
Definition rotation_ok (t : nat) : Prop :=
  key_rotation_enabled config = true ->
  (Z.abs (as_i64 (rotation_interval_hours config) * 3600) <= (2^63 - 1) / 1000)%Z
  /\ rfc3339_range (time_at t + rotation).

Lemma calculate_expiry_ok w :
  rotation_ok (tick w) ->
  wp (calculate_expiry config) w (fun e w' => same_data w w' /\ within 1 w w'
    /\ e = if key_rotation_enabled config then Some (time_at (tick w) + rotation)%Z else None).
Proof.
  intros R. unfold calculate_expiry, rotation_ok in *.
  destruct (key_rotation_enabled config); [|by wp_run; repeat split; unfold within; try lia].
  destruct (R eq_refl) as [Hd Ht]. wp_run.
  eapply wp_lift. { unfold duration_seconds. by rewrite (proj2 (Z.leb_le _ _)) by done. }
  wp_run. eapply wp_lift; [by apply add_duration_ok, Ht|]. wp_run.
  split; [done|]. split; [unfold within; cbn; lia|done].
Qed.

(** Only the tables of signing keys and the clock change. *)
Definition tables_only (w w' : World) : Prop :=
  envelopes w' = envelopes w /\ kyber_keys w' = kyber_keys w
  /\ dilithium_keys w' = dilithium_keys w /\ logger w' = logger w.

(** A usable signing key in the table. *)
Definition signing_key (kp : KeyPair) (w : World) : Prop :=
  key_pairs w !! kp_key_id kp = Some kp /\ kp_algorithm kp = #"dilithium5"
  /\ exists seed, kp_public_key kp = mldsa_public seed /\ length seed = 32
     /\ decrypt_private_key master_key (kp_private_key kp) = Ok seed.

Lemma update_key_usage_ok key_id w :
  wp (update_key_usage key_id) w (fun _ w' => tables_only w w' /\ within 1 w w'
    /\ key_pairs w' = key_pairs w).
Proof.
  unfold update_key_usage. wp_run. destruct (key_metadata w !! key_id); wp_run;
    repeat split; unfold within; cbn; lia.
Qed.

(** What the key generator adds to the tables. *)
Definition quota_free (customer : str) (w : World) : Prop :=
  (Z.of_nat (active_keys customer (key_metadata w)) < max_keys_per_customer config)%Z.

Lemma generate_signing_key_ok customer w mk :
  is_algorithm_allowed config #"dilithium5" = true -> quota_free customer w ->
  master_key = Some mk -> (forall t, tick w <= t <= tick w + 5 -> rotation_ok t) ->
  wp (generate_key_pair config master_key #"dilithium5" customer) w (fun kp w' =>
    signing_key kp w' /\ tables_only w w' /\ within 5 w w'
    /\ (exists m, key_metadata w' = <[kp_key_id kp := m]> (key_metadata w)
         /\ km_customer_id m = customer /\ km_status m = Active)
    /\ exists t, tick w <= t <= tick w + 5
       /\ kp_expires_at kp = if key_rotation_enabled config then Some (time_at t + rotation)%Z else None).
Proof.
  intros Ha Hq Hm Hr. unfold generate_key_pair. wp_run. apply (wp_lift _ tt).
  { unfold validate_post_quantum_algorithm. by rewrite Ha. }
  unfold check_key_limits. wp_run. apply (wp_lift _ tt).
  { unfold guard. by rewrite (proj2 (Z.leb_gt _ _)) by done. }
  unfold generate_dilithium_keys. change (str_eqb #"dilithium5" #"kyber768") with false.
  rewrite str_eqb_refl. cbn [andb]. wp_run.
  unfold encrypt_private_key. wp_run. apply (wp_lift _ mk); [by rewrite Hm|]. wp_run.
  eapply wp_mono; [apply calculate_expiry_ok, Hr; cbn; lia|].
  intros e w' (Hs & Ht & ->). wp_run. cbn [kp_key_id kp_expires_at].
  destruct Hs as (E1 & E2 & E3 & E4 & E5 & E6). unfold within in *. cbn in Ht, E1, E2, E3, E4, E5, E6.
  split; [|split; [|split; [|split]]].
  - split; [cbn; by rewrite lookup_insert_eq|]. split; [done|]. eexists. split; [reflexivity|].
    split; [apply random_length|]. apply private_key_roundtrip; [done|apply random_length].
  - by repeat split.
  - cbn. lia.
  - eexists. cbn. rewrite E5. by repeat split.
  - eexists. split; [|reflexivity]. cbn. lia.
Qed.

Lemma sign_data_ok kp data w :
  signing_key kp w ->
  (forall t, tick w <= t <= tick w + 1 -> is_key_expired kp (time_at t) = false) ->
  wp (sign_data master_key data (kp_key_id kp)) w (fun sg w' =>
    verify_persisted_envelope_signature data sg (kp_public_key kp) = Ok true
    /\ tables_only w w' /\ within 2 w w' /\ key_pairs w' = key_pairs w).
Proof.
  intros (Hk & Ha & seed & Hp & Hl & Hd) Hx. unfold sign_data. wp_run. rewrite Hk.
  assert (wp (check_expired (kp_key_id kp) kp) w (fun _ w' => same_data w w' /\ within 1 w w')) as HC.
  { unfold check_expired. destruct (kp_expires_at kp); wp_run.
    - apply (wp_lift _ tt); [by rewrite Hx by lia|]. split; [done|]. unfold within. cbn. lia.
    - split; [done|]. unfold within. lia. }
  wp_run. eapply wp_mono; [exact HC|]. intros _ w1 [(E1 & E2 & E3 & E4 & E5 & E6) Ht]. wp_run.
  apply (wp_lift _ seed); [done|]. wp_run. apply (wp_lift _ (mldsa_sign seed data)).
  { rewrite Ha. unfold sign_dilithium5. by rewrite Hl. }
  wp_run. eapply wp_mono; [apply update_key_usage_ok|].
  intros _ w2 ((F1 & F2 & F3 & F4) & Ht2 & F5). wp_run. split.
  - unfold verify_persisted_envelope_signature, verify_dilithium5_with_public_key.
    by rewrite Hp, mldsa_public_size, mldsa_correct.
  - unfold tables_only, within in *. repeat split; (congruence || lia).
Qed.

(** A signature made with a freshly generated signing key is accepted
    against the public key kept with the record, whatever happens to the
    in-memory key tables afterwards. *)
Theorem persisted_signature_verifies customer data w mk :
  is_algorithm_allowed config #"dilithium5" = true -> quota_free customer w ->
  master_key = Some mk ->
  (forall t, tick w <= t <= tick w + 7 -> rotation_ok t) ->
  (forall t t', tick w <= t <= tick w + 7 -> tick w <= t' <= tick w + 7 ->
    (time_at t' <= time_at t + rotation)%Z) ->
  exists kp w1 sg w2,
    generate_key_pair config master_key #"dilithium5" customer w = (Ok kp, w1)
    /\ sign_data master_key data (kp_key_id kp) w1 = (Ok sg, w2)
    /\ verify_persisted_envelope_signature data sg (kp_public_key kp) = Ok true
    /\ tables_only w w2.
Proof.
  intros Ha Hq Hm Hr Hc.
  pose proof (generate_signing_key_ok customer w mk Ha Hq Hm) as HG.
  apply wp_eq in HG as (kp & w1 & HG & Hk & T1 & Ht & _ & t & Hrange & Hexp);
    [|intros; apply Hr; lia].
  pose proof (sign_data_ok kp data w1 Hk) as HS.
  apply wp_eq in HS as (sg & w2 & HS & Hv & T2 & _ & _).
  - exists kp, w1, sg, w2. split; [done|]. split; [done|]. split; [done|].
    destruct T1 as (?&?&?&?), T2 as (?&?&?&?). repeat split; congruence.
  - intros t' Ht'. unfold is_key_expired. rewrite Hexp. unfold within in Ht.
    destruct (key_rotation_enabled config); [|done]. apply Z.ltb_ge.
    apply Hc; lia.
Qed.

(** ** The limit on a customer's keys *)

Lemma filter_permutation_length {A} (f : A -> bool) l l' :
  Permutation l l' -> length (List.filter f l) = length (List.filter f l').
Proof. induction 1; cbn; repeat case_match; cbn; congruence. Qed.

Lemma active_keys_insert customer key_id m km :
  km !! key_id = None ->
  active_keys customer (<[key_id := m]> km)
  = (if counts customer m then 1 else 0) + active_keys customer km.
Proof.
  intros Hk. unfold active_keys.
  rewrite (filter_permutation_length _ _ _ (map_to_list_insert _ _ m Hk)).
  cbn [List.filter snd]. by destruct (counts customer m).
Qed.

Lemma generate_dilithium_frame : frames same_data generate_dilithium_keys.
Proof. unfold generate_dilithium_keys. frame_run. Qed.
Lemma generate_kyber_frame : frames same_data generate_kyber_keys.
Proof. unfold generate_kyber_keys. frame_run. Qed.
Lemma generate_hybrid_frame : frames same_data generate_hybrid_pq_keys.
Proof.
  unfold generate_hybrid_pq_keys. frame_run; [apply generate_kyber_frame|apply generate_dilithium_frame].
Qed.
Lemma encrypt_private_key_frame k : frames same_data (encrypt_private_key master_key k).
Proof. unfold encrypt_private_key. frame_run. Qed.
Lemma calculate_expiry_frame : frames same_data (calculate_expiry config).
Proof. unfold calculate_expiry. frame_run. Qed.

Lemma frames_ok {E A} R (m : M World E A) w a w' : frames R m -> m w = (Ok a, w') -> R w w'.
Proof. intros Hf Hm. specialize (Hf w). by rewrite Hm in Hf. Qed.

(** A successful generation adds one active key for the customer. *)
Lemma generate_key_pair_adds algorithm customer w kp w' :
  generate_key_pair config master_key algorithm customer w = (Ok kp, w') ->
  exists m, key_metadata w' = <[kp_key_id kp := m]> (key_metadata w)
    /\ km_customer_id m = customer /\ km_status m = Active /\ quota_free customer w.
Proof.
  unfold generate_key_pair, check_key_limits, quota_free. intros G. monad_inv.
  unfold gets in *. monad_inv. bool_to_prop.
  assert (key_metadata s1 = key_metadata s0) as Hs1.
  { match goal with Hg : (if _ then _ else _) _ = _ |- _ =>
      eapply (frames_ok same_data) in Hg; [by destruct Hg as (_&_&_&_&?&_)|] end.
    frame_run; auto using generate_kyber_frame, generate_dilithium_frame, generate_hybrid_frame. }
  destruct a1 as [pub sec]. monad_inv.
  repeat match goal with
  | Hi : new_uuid _ = _ |- _ => apply (frames_ok same_data _ _ _ _ (frames_interact _)) in Hi
  | Hi : utc_now _ = _ |- _ => apply (frames_ok same_data _ _ _ _ (frames_interact _)) in Hi
  | Hi : encrypt_private_key _ _ _ = _ |- _ =>
    apply (frames_ok same_data _ _ _ _ (encrypt_private_key_frame _)) in Hi
  | Hi : calculate_expiry _ _ = _ |- _ =>
    apply (frames_ok same_data _ _ _ _ calculate_expiry_frame) in Hi
  | Hi : modify _ _ = _ |- _ => unfold modify in Hi; injection Hi as _ <-
  | Hi : same_data _ _ |- _ => destruct Hi as (_&_&_&_&?&_)
  end.
  eexists. split; [cbn; f_equal; congruence|]. by split.
Qed.

(** The limit on a customer's keys: a generation that succeeds adds
    exactly one active key for its customer and none for any other, and never
    exceeds the limit; once the limit is reached every further generation
    fails with [KeyLimitReached] and changes nothing. *)
Theorem key_quota algorithm customer w :
  validate_post_quantum_algorithm config algorithm = Ok tt ->
  (quota_free customer w -> forall kp w',
     generate_key_pair config master_key algorithm customer w = (Ok kp, w') ->
     key_metadata w !! kp_key_id kp = None ->
     active_keys customer (key_metadata w') = S (active_keys customer (key_metadata w))
     /\ (Z.of_nat (active_keys customer (key_metadata w')) <= max_keys_per_customer config)%Z
     /\ forall other, other <> customer ->
          active_keys other (key_metadata w') = active_keys other (key_metadata w))
  /\ (~ quota_free customer w ->
     generate_key_pair config master_key algorithm customer w = (Err (KeyLimitReached customer), w)).
Proof.
  intros V. split.
  - intros Hq kp w' G F. destruct (generate_key_pair_adds _ _ _ _ _ G) as (m & -> & Hc & Hs & _).
    unfold quota_free in Hq.
    assert (forall c, counts c m = str_eqb customer c) as Hm.
    { intros c. unfold counts. rewrite Hc, Hs. cbn. apply andb_true_r. }
    rewrite active_keys_insert, Hm, str_eqb_refl by done. split; [done|]. split; [lia|].
    intros other Ho. rewrite active_keys_insert, Hm, (proj2 (str_eqb_neq _ _)) by done. done.
  - intros Hq. unfold quota_free in Hq. unfold generate_key_pair, bind at 1, lift. rewrite V.
    unfold bind at 1, check_key_limits, bind at 1, gets, lift, guard.
    by rewrite (proj2 (Z.leb_le _ _)) by lia.
Qed.

End CryptoLaws.

(** * The default configuration, and the theorems on concrete inputs *)

Module CryptoExamples.
Import Reference ToyWorld.

#[export] Instance kyber_codec : Codec KyberKeyPair :=
  iso_codec (fun k => (ky_public_key k, ky_private_key k, ky_algorithm k, ky_key_id k, ky_created_at k))
    (fun '(a, b, c, d, e) => mkKyber a b c d e).
#[export] Instance kyber_codec_laws : CodecLaws KyberKeyPair.
Proof. apply iso_codec_laws. by intros []. Qed.
#[export] Instance dilithium_codec : Codec DilithiumKeyPair :=
  iso_codec (fun k => (di_public_key k, di_private_key k, di_algorithm k, di_key_id k, di_created_at k))
    (fun '(a, b, c, d, e) => mkDilithium a b c d e).
#[export] Instance dilithium_codec_laws : CodecLaws DilithiumKeyPair.
Proof. apply iso_codec_laws. by intros []. Qed.
#[export] Instance key_record_codec : Codec KeyRecord :=
  iso_codec (fun k => (kr_key_id k, kr_algorithm k, kr_ciphertext k, kr_nonce k, kr_created_at k))
    (fun '(a, b, c, d, e) => mkKeyRecord a b c d e).
#[export] Instance key_record_codec_laws : CodecLaws KeyRecord.
Proof. apply iso_codec_laws. by intros []. Qed.

Definition config0 : CryptoConfig := from_env (fun v => if str_eqb v #"CRYPTO_ENGINE_MAX_KEYS_PER_CUSTOMER" then Some #"1" else None).
Definition store_key0 : bytes := le_bytes 32 3.
Definition master0 : option bytes := Some (le_bytes 32 4).

Lemma pqc_roundtrip_witness :
  exists r w1, encrypt_pqc config0 store_key0 #"hunter2" #"k1" #"acme" None empty_world = (Ok r, w1)
    /\ envelopes w1 = envelopes empty_world
    /\ (forall k, k <> #"k1" -> kyber_keys w1 !! k = kyber_keys empty_world !! k)
    /\ forall w2, kyber_keys w2 !! #"k1" = kyber_keys w1 !! #"k1" ->
         exists w3, decrypt_pqc config0 store_key0 (er_ciphertext r) (er_nonce r) #"k1" #"acme" None w2
                    = (Ok #"hunter2", w3).
Proof. exact (pqc_roundtrip config0 store_key0 #"hunter2" #"k1" #"acme" None None empty_world eq_refl). Defined.

Lemma rotation0 t : t <= 100 -> rotation_ok config0 t.
Proof.
  intros Ht _. change (rotation config0) with (86400 * 10^9)%Z.
  split; [by vm_compute|]. unfold rfc3339_range, time_at, toy_oracle. lia.
Qed.

Lemma persisted_signature_verifies_witness :
  exists kp w1 sg w2,
    generate_key_pair config0 master0 #"dilithium5" #"acme" empty_world = (Ok kp, w1)
    /\ sign_data master0 #"data" (kp_key_id kp) w1 = (Ok sg, w2)
    /\ verify_persisted_envelope_signature #"data" sg (kp_public_key kp) = Ok true
    /\ tables_only empty_world w2.
Proof.
  assert (R : forall t, tick empty_world <= t <= tick empty_world + 7 -> rotation_ok config0 t)
    by (intros; apply rotation0; cbn in *; lia).
  assert (T : forall t t', tick empty_world <= t <= tick empty_world + 7 ->
    tick empty_world <= t' <= tick empty_world + 7 -> (time_at t' <= time_at t + rotation config0)%Z).
  { intros t t' Ht Ht'. change (rotation config0) with (86400 * 10^9)%Z. cbn [tick empty_world] in *.
    unfold time_at, toy_oracle. lia. }
  exact (persisted_signature_verifies config0 master0 #"acme" #"data" empty_world (le_bytes 32 4)
    eq_refl eq_refl eq_refl R T).
Defined.

Lemma key_quota_witness :
  exists kp w1, generate_key_pair config0 master0 #"dilithium5" #"acme" empty_world = (Ok kp, w1)
    /\ generate_key_pair config0 master0 #"dilithium5" #"acme" w1 = (Err (KeyLimitReached #"acme"), w1).
Proof.
  eexists _, _. split; [vm_compute; reflexivity|].
  refine (proj2 (key_quota config0 master0 #"dilithium5" #"acme" _ eq_refl) _).
  unfold quota_free. vm_compute. discriminate.
Defined.

End CryptoExamples.
