(* ===== verification/CipherEngine.v ===== *)
(** The symmetric ciphers of the crypto engine (crypto_engine/engine.rs), the
    dispatch of requests to them or to the post-quantum cipher
    (quantum_resistant.rs) and the service in front of both (service.rs).
    The performance counters around the calls are in [Monitor]. *)

From S2P Require Import Prelude RustStd Externals Reference Transparency World SealedStore Config CryptoEngine.

Inductive EncryptionAlgorithm := Aes256Gcm | ChaCha20Poly1305 | XChaCha20Poly1305 | Kyber768.

(** Crates [aes-gcm] and [chacha20poly1305] with associated data: cipher, key,
    nonce, associated data, message.  Without a payload the associated data
    is empty. *)
Class AeadData := {
  seal_data : EncryptionAlgorithm -> bytes -> bytes -> bytes -> bytes -> bytes;
  open_data : EncryptionAlgorithm -> bytes -> bytes -> bytes -> bytes -> option bytes;
}.
Class AeadDataLaws `{AeadData} : Prop :=
  open_seal_data a k n d m : open_data a k n d (seal_data a k n d m) = Some m.

Record EncryptionRequest := mkEncryptRequest {
  eq_id : str;
  eq_data : bytes;
  eq_algorithm : EncryptionAlgorithm;
  eq_key_id : option str;
  eq_associated_data : option bytes;
  eq_customer_id : str;
  eq_timestamp : datetime;
  eq_exporter_secret : option bytes;
}.

Record DecryptionRequest := mkDecryptRequest {
  dq_id : str;
  dq_encrypted_data : bytes;
  dq_nonce : option bytes;
  dq_algorithm : EncryptionAlgorithm;
  dq_key_id : str;
  dq_associated_data : option bytes;
  dq_customer_id : str;
  dq_timestamp : datetime;
  dq_exporter_secret : option bytes;
}.

Record DecryptionResult := mkDecryption {
  dr_plaintext : bytes;
  dr_algorithm : str;
  dr_verified : bool;
}.

Inductive EngineError :=
| EmptyData
| DataTooLarge
| EncryptedDataTooLarge
| CipherUnsupported
| CipherNotAllowed (algorithm : str)
| CipherKeySize
| CipherNonceSize
| CipherFailed
| EmptyExporterSecret
| CipherKeyNotFound (key_id : str)
| CipherKeyExpired (key_id : str) (at_ : datetime)
| EncryptedDataFormat
| PostQuantum (e : CryptoError).

(** The name of a symmetric cipher. *)
Definition algorithm_name (a : EncryptionAlgorithm) : result EngineError str :=
  match a with
  | Aes256Gcm => Ok #"aes-256-gcm"
  | ChaCha20Poly1305 => Ok #"chacha20-poly1305"
  | XChaCha20Poly1305 => Ok #"xchacha20-poly1305"
  | Kyber768 => Err CipherUnsupported
  end.

Section CipherEngine.
Context `{TextCodecs} `{Aead} `{PqCrypto} `{Oracle} `{AeadData}.
Context `{!Serde KyberKeyPair} `{!Serde DilithiumKeyPair} `{!Serde KeyRecord}.
Variable config : CryptoConfig.
Variable store_key : bytes.

Abbreviation CE := (M World EngineError).

(** ** Keys *)

Definition get_key (key_id : str) : CE (option EncryptionKey) :=
  gets (fun w => key_cache w !! key_id).

Definition generate_key (algorithm : EncryptionAlgorithm) : CE EncryptionKey :=
  let* name := lift (algorithm_name algorithm) in
  let* key_data := os_random 32 in
  let* id := new_uuid in
  let key_id := #"key_" ++ uuid_to_string id in
  let* now := utc_now in
  let key := mkEncryptionKey key_id key_data name now None in
  let* _ := modify (fun w => set_key_cache (<[key_id := key]> (key_cache w)) w) in
  ret key.

Definition get_or_generate_key (key_id : option str) (algorithm : EncryptionAlgorithm) : CE EncryptionKey :=
  let* found := (match key_id with Some id => get_key id | None => ret None end) in
  match found with
  | Some key => ret key
  | None => generate_key algorithm
  end.

(** ** Ciphers *)

(** [encrypt_*]: a fresh nonce of the cipher's length, put before the
    ciphertext. *)
Definition encrypt_with (a : EncryptionAlgorithm) (name : str) (nonce_size : nat) (plaintext : bytes)
    (key : EncryptionKey) (associated_data : option bytes) : CE EncryptionResult :=
  let* _ := lift (guard (negb (length (ek_key_data key) =? 32)%nat) CipherKeySize) in
  let* nonce := os_random nonce_size in
  let ciphertext := seal_data a (ek_key_data key) nonce (default [] associated_data) plaintext in
  ret (mkEncryption (nonce ++ ciphertext) nonce associated_data name (Some (ek_key_id key)) None).

Definition decrypt_with (a : EncryptionAlgorithm) (name : str) (nonce_size : nat)
    (ciphertext nonce : bytes) (key : EncryptionKey) (associated_data : option bytes)
    : result EngineError DecryptionResult :=
  let! _ := guard (negb (length (ek_key_data key) =? 32)%nat) CipherKeySize in
  let! _ := guard (negb (length nonce =? nonce_size)%nat) CipherNonceSize in
  let! plaintext := ok_or (open_data a (ek_key_data key) nonce (default [] associated_data) ciphertext)
                      CipherFailed in
  Ok (mkDecryption plaintext name true).

Definition encrypt_aes256_gcm := encrypt_with Aes256Gcm #"aes-256-gcm" 12.
Definition decrypt_aes256_gcm := decrypt_with Aes256Gcm #"aes-256-gcm" 12.
Definition encrypt_chacha20_poly1305 := encrypt_with ChaCha20Poly1305 #"chacha20-poly1305" 12.
Definition decrypt_chacha20_poly1305 := decrypt_with ChaCha20Poly1305 #"chacha20-poly1305" 12.
Definition encrypt_xchacha20_poly1305 := encrypt_with XChaCha20Poly1305 #"xchacha20-poly1305" 24.
Definition decrypt_xchacha20_poly1305 := decrypt_with XChaCha20Poly1305 #"xchacha20-poly1305" 24.

(** ** Requests *)

Definition validate_encryption_request (request : EncryptionRequest) : result EngineError unit :=
  let! _ := guard (get_max_data_size config <? Z.of_nat (length (eq_data request)))%Z DataTooLarge in
  let! name := algorithm_name (eq_algorithm request) in
  guard (negb (is_algorithm_allowed config name)) (CipherNotAllowed name).

Definition validate_decryption_request (request : DecryptionRequest) : result EngineError unit :=
  let! _ := guard (get_max_data_size config <? Z.of_nat (length (dq_encrypted_data request)))%Z
              EncryptedDataTooLarge in
  let! name := algorithm_name (dq_algorithm request) in
  guard (negb (is_algorithm_allowed config name)) (CipherNotAllowed name).

Definition with_exporter (secret : option bytes) (r : EncryptionResult) : EncryptionResult :=
  mkEncryption (er_ciphertext r) (er_nonce r) (er_associated_data r) (er_algorithm r) (er_key_id r)
    (match er_exporter_binding r with Some b => Some b | None => secret end).

Definition process_encryption_request (request : EncryptionRequest) : CE EncryptionResult :=
  let* _ := lift (guard (is_empty (eq_data request)) EmptyData) in
  let* _ := lift (validate_encryption_request request) in
  let* key := get_or_generate_key (eq_key_id request) (eq_algorithm request) in
  let* r := (match eq_algorithm request with
             | Aes256Gcm => encrypt_aes256_gcm (eq_data request) key (eq_associated_data request)
             | ChaCha20Poly1305 =>
               encrypt_chacha20_poly1305 (eq_data request) key (eq_associated_data request)
             | XChaCha20Poly1305 =>
               encrypt_xchacha20_poly1305 (eq_data request) key (eq_associated_data request)
             | Kyber768 => fail CipherUnsupported
             end) in
  ret (with_exporter (eq_exporter_secret request) r).

(** The clock is read only for keys with an expiry. *)
Definition reject_expired (key : EncryptionKey) : CE unit :=
  match ek_expires_at key with
  | Some expires_at =>
    let* now := utc_now in
    lift (guard (expires_at <? now)%Z (CipherKeyExpired (ek_key_id key) expires_at))
  | None => ret tt
  end.

Definition process_decryption_request (request : DecryptionRequest) : CE DecryptionResult :=
  let data := dq_encrypted_data request in
  let* _ := lift (guard (match dq_exporter_secret request with
                         | Some secret => is_empty secret
                         | None => false
                         end) EmptyExporterSecret) in
  let* _ := lift (validate_decryption_request request) in
  let* found := get_key (dq_key_id request) in
  let* key := lift (ok_or found (CipherKeyNotFound (dq_key_id request))) in
  let* _ := reject_expired key in
  let* _ := lift (guard (length data <? 12)%nat EncryptedDataFormat) in
  let* nonce := lift (slice data 0 12) in
  let* ciphertext := lift (slice data 12 (length data)) in
  lift (match dq_algorithm request with
        | Aes256Gcm => decrypt_aes256_gcm ciphertext nonce key (dq_associated_data request)
        | ChaCha20Poly1305 => decrypt_chacha20_poly1305 ciphertext nonce key (dq_associated_data request)
        | XChaCha20Poly1305 => decrypt_xchacha20_poly1305 ciphertext nonce key (dq_associated_data request)
        | Kyber768 => Err CipherUnsupported
        end).

(** ** The post-quantum cipher *)

Definition quantum_encryption_request (request : EncryptionRequest) : CE EncryptionResult :=
  let* _ := lift (guard (negb (quantum_enabled config)) (PostQuantum QuantumDisabled)) in
  match eq_algorithm request with
  | Kyber768 => map_err_m PostQuantum (encrypt_with_mlkem store_key (eq_data request) (eq_key_id request)
                                         (eq_exporter_secret request))
  | _ => fail CipherUnsupported
  end.

Definition quantum_decryption_request (request : DecryptionRequest) : CE DecryptionResult :=
  let* _ := lift (guard (negb (quantum_enabled config)) (PostQuantum QuantumDisabled)) in
  match dq_algorithm request with
  | Kyber768 =>
    let* mlkem_ciphertext := lift (ok_or (dq_nonce request) (PostQuantum MissingKemCiphertext)) in
    let* plaintext := map_err_m PostQuantum
      (decrypt_with_mlkem store_key (dq_encrypted_data request) mlkem_ciphertext (dq_key_id request)) in
    ret (mkDecryption plaintext #"mlkem768-hybrid" true)
  | _ => fail CipherUnsupported
  end.

(** ** The service *)

Definition encrypt_data_with_key (data : bytes) (algorithm : EncryptionAlgorithm) (key_id : option str)
    (customer_id : str) : CE EncryptionResult :=
  let* id := new_uuid in
  let* now := utc_now in
  let request := mkEncryptRequest (uuid_to_string id) data algorithm key_id None customer_id now None in
  match algorithm with
  | Aes256Gcm | ChaCha20Poly1305 | XChaCha20Poly1305 => process_encryption_request request
  | Kyber768 => quantum_encryption_request request
  end.

Definition decrypt_data (encrypted_data : bytes) (algorithm : EncryptionAlgorithm) (key_id customer_id : str)
    : CE DecryptionResult :=
  let* id := new_uuid in
  let* now := utc_now in
  let request := mkDecryptRequest (uuid_to_string id) encrypted_data None algorithm key_id None
                   customer_id now None in
  match algorithm with
  | Aes256Gcm | ChaCha20Poly1305 | XChaCha20Poly1305 => process_decryption_request request
  | Kyber768 => quantum_decryption_request request
  end.

(** The software security module draws from the operating system as well. *)
Definition hsm_random_bytes (length : nat) : CE bytes := os_random length.

Definition generate_random_bytes (length : nat) : CE bytes :=
  if hsm_enabled config then hsm_random_bytes length else os_random length.

End CipherEngine.

(** * Properties *)

Section CipherLaws.
Context `{TextCodecs} `{Aead} `{PqCrypto} `{OracleLaws} `{AeadDataLaws}.
Context `{!Serde KyberKeyPair} `{!Serde DilithiumKeyPair} `{!Serde KeyRecord}.
Variable config : CryptoConfig.
Variable store_key : bytes.

(** The keys of the cache: of the right size, without expiry, filed under
    their identifiers. *)
Definition cache_ok (w : World) : Prop :=
  forall id k, key_cache w !! id = Some k ->
    length (ek_key_data k) = 32 /\ ek_expires_at k = None /\ ek_key_id k = id.

(** A cipher the policy allows. *)
Definition allowed (a : EncryptionAlgorithm) (name : str) : Prop :=
  algorithm_name a = Ok name /\ is_algorithm_allowed config name = true.

Definition fits (d : bytes) : Prop := (Z.of_nat (length d) <= get_max_data_size config)%Z.
#[export] Instance fits_decision d : Decision (fits d).
Proof. unfold fits. apply _. Defined.

Lemma get_or_generate_ok key_id a name w :
  algorithm_name a = Ok name -> cache_ok w ->
  wp (get_or_generate_key key_id a) w (fun k w' =>
    key_cache w' !! ek_key_id k = Some k /\ cache_ok w'
    /\ (forall id, key_id = Some id -> is_Some (key_cache w !! id) -> ek_key_id k = id)).
Proof.
  intros Ha Hc. unfold get_or_generate_key. apply wp_bind.
  assert (Hgen : wp (generate_key a) w (fun k w' => key_cache w' !! ek_key_id k = Some k /\ cache_ok w')).
  { unfold generate_key. apply wp_bind, (wp_lift _ name); [done|]. wp_run. cbn.
    rewrite lookup_insert_eq. split; [done|].
    intros id k Hk. cbn in Hk. apply lookup_insert_Some in Hk as [[<- <-]|[_ Hk]]; [|by apply Hc].
    split; [apply random_length|done]. }
  destruct key_id as [id|].
  - unfold get_key. wp_run. destruct (key_cache w !! id) as [k|] eqn:Hk.
    + wp_run. destruct (Hc id k Hk) as (_ & _ & E). rewrite E. split; [done|]. split; [done|].
      by intros ? [= ->] _.
    + eapply wp_mono; [exact Hgen|]. intros k w' [? ?]. split; [done|]. split; [done|].
      intros ? [= <-] [? Hs]. congruence.
  - wp_run. eapply wp_mono; [exact Hgen|]. intros k w' [? ?]. by split.
Qed.

Lemma decrypt_allowed a name data kid customer k w :
  allowed a name -> a <> Kyber768 -> key_cache w !! kid = Some k -> ek_expires_at k = None ->
  decrypt_data config store_key data a kid customer w =
  (let! _ := guard (negb (bool_decide (fits data))) EncryptedDataTooLarge in
   let! _ := guard (length data <? 12)%nat EncryptedDataFormat in
   let! nonce := slice data 0 12 in
   let! ciphertext := slice data 12 (length data) in
   match a with
   | Aes256Gcm => decrypt_aes256_gcm ciphertext nonce k None
   | ChaCha20Poly1305 => decrypt_chacha20_poly1305 ciphertext nonce k None
   | XChaCha20Poly1305 => decrypt_xchacha20_poly1305 ciphertext nonce k None
   | Kyber768 => Err CipherUnsupported
   end, advance (advance w)).
Proof.
  intros [Hn Hal] Hk Hc Hx. unfold decrypt_data. do 2 (erewrite bind_run; [|reflexivity]).
  assert (Hfit : (get_max_data_size config <? Z.of_nat (length data))%Z = negb (bool_decide (fits data))).
  { unfold fits. case_bool_decide as Hb; [apply Z.ltb_ge|apply Z.ltb_lt]; cbn; lia. }
  destruct a; try done;
    unfold process_decryption_request, validate_decryption_request, get_key, reject_expired, bind, lift, gets;
    cbn [dq_exporter_secret dq_encrypted_data dq_algorithm dq_key_id dq_associated_data guard];
    rewrite Hfit, Hn; (case_bool_decide; cbn [negb guard rbind]; [|done]); rewrite Hal; cbn [negb guard];
    change (key_cache (advance (advance w))) with (key_cache w); rewrite Hc; cbn [ok_or]; rewrite Hx;
    cbn [ret]; (destruct (length data <? 12)%nat; [done|]); cbn [guard rbind];
    destruct (slice data 0 12); try done; cbn [rbind]; by destruct (slice data 12 (length data)).
Qed.

(** [r] is [data] under a cached key: the requested one if there is one. *)
Definition encrypted (a : EncryptionAlgorithm) (data : bytes) (key_id : option str) (w : World)
    (r : EncryptionResult) (w1 : World) : Prop :=
  exists k nonce, er_key_id r = Some (ek_key_id k) /\ key_cache w1 !! ek_key_id k = Some k /\ cache_ok w1
    /\ (forall id, key_id = Some id -> is_Some (key_cache w !! id) -> ek_key_id k = id)
    /\ length nonce = 12 /\ er_ciphertext r = nonce ++ seal_data a (ek_key_data k) nonce [] data.

Lemma process_encrypt_ok q name w :
  eq_algorithm q = Aes256Gcm \/ eq_algorithm q = ChaCha20Poly1305 -> allowed (eq_algorithm q) name ->
  eq_data q <> [] -> fits (eq_data q) -> cache_ok w -> eq_associated_data q = None ->
  wp (process_encryption_request config q) w (encrypted (eq_algorithm q) (eq_data q) (eq_key_id q) w).
Proof.
  intros Ha Hal Hne Hfit Hc Ea. unfold process_encryption_request. rewrite Ea. wp_run.
  apply (wp_lift _ tt); [by destruct (eq_data q)|]. wp_run.
  apply (wp_lift _ tt).
  { unfold validate_encryption_request. destruct Hal as [-> Hal].
    rewrite (proj2 (Z.ltb_ge _ _)) by exact Hfit. cbn [guard rbind]. by rewrite Hal. }
  wp_run. eapply wp_mono; [apply (get_or_generate_ok _ _ name); [apply Hal|exact Hc]|].
  intros k w1 (Hk & Hc1 & Hid). destruct (Hc1 _ _ Hk) as (Hl & _).
  assert (HS : forall nm, wp (encrypt_with (eq_algorithm q) nm 12 (eq_data q) k None) w1
    (fun r w2 => encrypted (eq_algorithm q) (eq_data q) (eq_key_id q) w (with_exporter (eq_exporter_secret q) r) w2)).
  { intros nm. apply wp_bind, (wp_lift _ tt); [by rewrite Hl|]. wp_run.
    exists k, (random_at (tick w1) 12). split; [done|]. split; [done|]. split; [done|]. split; [done|].
    split; [apply random_length|done]. }
  destruct Ha as [E|E]; rewrite E in HS |- *; wp_run; (eapply wp_mono; [exact (HS _)|]);
    intros r w2 Hr; by wp_run.
Qed.

(** What the engine encrypts with AES-256-GCM or ChaCha20-Poly1305 it
    decrypts again under the key it names, in every later state that still has
    the key, as long as the ciphertext, which is longer than the data, is
    within the size limit; beyond the limit decryption is refused.  Encryption
    uses the requested key if there is one, and keeps the key cache sound. *)
Theorem cipher_roundtrip a name data key_id customer w :
  a = Aes256Gcm \/ a = ChaCha20Poly1305 -> allowed a name -> data <> [] -> fits data -> cache_ok w ->
  exists r w1 kid, encrypt_data_with_key config store_key data a key_id customer w = (Ok r, w1)
    /\ er_key_id r = Some kid /\ cache_ok w1
    /\ (forall id, key_id = Some id -> is_Some (key_cache w !! id) -> kid = id)
    /\ forall w2 customer', key_cache w2 !! kid = key_cache w1 !! kid ->
       decrypt_data config store_key (er_ciphertext r) a kid customer' w2
       = (if decide (fits (er_ciphertext r)) then Ok (mkDecryption data name true)
          else Err EncryptedDataTooLarge, advance (advance w2)).
Proof.
  intros Ha Hal Hne Hfit Hc.
  assert (HE : wp (encrypt_data_with_key config store_key data a key_id customer) w
    (encrypted a data key_id w)).
  { unfold encrypt_data_with_key. wp_run.
    destruct Ha as [-> | ->];
      (eapply wp_mono; [eapply (process_encrypt_ok _ name); cbn; auto|]; intros r w1 Hr; exact Hr). }
  apply wp_eq in HE as (r & w1 & HE & k & nonce & Hk & Hcache & Hc1 & Hid & Hn & Hct).
  exists r, w1, (ek_key_id k). split; [done|]. split; [done|]. split; [done|]. split; [done|].
  intros w2 customer' Hw2. rewrite Hcache in Hw2. destruct (Hc1 _ _ Hcache) as (Hl & Hx & _).
  rewrite (decrypt_allowed a name _ _ _ k) by (done || by destruct Ha as [-> | ->]).
  f_equal. rewrite Hct. case_decide as Hf.
  - rewrite bool_decide_eq_true_2 by done. cbn [negb guard rbind].
    rewrite (proj2 (Nat.ltb_ge _ _)) by (rewrite length_app; lia). cbn [guard rbind].
    rewrite slice_prefix by done. cbn [rbind]. rewrite slice_suffix by (by rewrite ?length_app, Hn). cbn [rbind].
    unfold decrypt_aes256_gcm, decrypt_chacha20_poly1305, decrypt_with. rewrite Hl, Hn.
    destruct Hal as [Hname _].
    destruct Ha as [-> | ->]; cbn [negb Nat.eqb guard rbind default]; rewrite open_seal_data;
      cbn [ok_or rbind]; cbn in Hname; by injection Hname as <-.
  - by rewrite bool_decide_eq_false_2.
Qed.

(** Data encrypted with XChaCha20-Poly1305 or with ML-KEM-768 can never be
    decrypted through the service: the former is cut after a nonce of the
    wrong length, the latter asks for a ciphertext the service does not pass
    on, whatever the data, the key and the state. *)
Theorem undecryptable_ciphers a data kid customer w :
  a = XChaCha20Poly1305 \/ a = Kyber768 ->
  is_ok (decrypt_data config store_key data a kid customer w).1 = false.
Proof.
  intros [-> | ->]; unfold decrypt_data; do 2 (erewrite bind_run; [|reflexivity]).
  - unfold process_decryption_request. do 6 (apply bind_fails; intros ? ? _).
    apply bind_fails. intros nonce wn Hn. apply bind_fails. intros ciphertext wc _.
    unfold lift in *. injection Hn as Hn _. apply slice_length in Hn.
    cbn. unfold decrypt_xchacha20_poly1305, decrypt_with. rewrite Hn.
    by destruct (negb _).
  - unfold quantum_decryption_request, bind, lift. destruct (negb (quantum_enabled config)); done.
Qed.

End CipherLaws.

(** * The theorems on a concrete engine *)

Module CipherExamples.
Import Reference ToyWorld CryptoExamples.

#[export] Instance toy_aead_data : AeadData :=
  { seal_data _ _ _ _ m := m; open_data _ _ _ _ c := Some c }.
#[export] Instance toy_aead_data_laws : AeadDataLaws.
Proof. by intros a k n d m. Qed.

Lemma empty_cache : cache_ok empty_world.
Proof. intros id k Hk. by vm_compute in Hk. Qed.

Lemma cipher_roundtrip_witness : exists r w1 kid o w2,
  encrypt_data_with_key config0 store_key0 #"hunter2" ChaCha20Poly1305 None #"acme" empty_world = (Ok r, w1)
  /\ decrypt_data config0 store_key0 (er_ciphertext r) ChaCha20Poly1305 kid #"acme" w1 = (Ok o, w2)
  /\ dr_plaintext o = #"hunter2".
Proof.
  destruct (cipher_roundtrip config0 store_key0 ChaCha20Poly1305 #"chacha20-poly1305" #"hunter2" None #"acme"
    empty_world) as (r & w1 & kid & He & _ & _ & _ & Hd).
  - by right.
  - split; by vm_compute.
  - discriminate.
  - by vm_compute.
  - apply empty_cache.
  - assert (Hf : fits config0 (er_ciphertext r)).
    { vm_compute in He. injection He as <- <-. by vm_compute. }
    specialize (Hd w1 #"acme" eq_refl). rewrite decide_True in Hd by exact Hf.
    exists r, w1, kid, (mkDecryption #"hunter2" #"chacha20-poly1305" true), (advance (advance w1)).
    split; [exact He|]. split; [exact Hd|]. reflexivity.
Defined.

Lemma undecryptable_ciphers_witness :
  is_ok (encrypt_data_with_key config0 store_key0 #"hunter2" XChaCha20Poly1305 None #"acme" empty_world).1 = true
  /\ forall r w1 kid,
    encrypt_data_with_key config0 store_key0 #"hunter2" XChaCha20Poly1305 None #"acme" empty_world = (Ok r, w1) ->
    is_ok (decrypt_data config0 store_key0 (er_ciphertext r) XChaCha20Poly1305 kid #"acme" w1).1 = false.
Proof.
  split; [by vm_compute|]. intros r w1 kid _. apply undecryptable_ciphers. by left.
Defined.

End CipherExamples.
