(* ===== verification/Monitor.v ===== *)
(** Performance monitoring (crypto_engine/performance_monitor.rs) and the calls
    of the crypto service that are monitored (service.rs): what monitoring
    records, and that it changes nothing else.  The Prometheus registry is a
    parameter. *)

From Stdlib Require Import SpecFloat.
From S2P Require Import Prelude RustStd Externals Reference Transparency World SealedStore Config.
From S2P Require Import CryptoEngine CipherEngine.

(** ** Floating-point numbers *)

(** An [f64] is a binary64 number of IEEE 754, with its rounding. *)
Abbreviation f64 := spec_float.
Definition f64_add : f64 -> f64 -> f64 := SFadd 53 1024.
Definition f64_div : f64 -> f64 -> f64 := SFdiv 53 1024.
(** [as f64] *)
Definition f64_of (n : Z) : f64 := binary_normalize 53 1024 n 0 false.
Definition f64_MAX : f64 := S754_finite false 9007199254740991 971.

(** [f64::min] and [f64::max]: the other number when one is none. *)
Definition f64_min (a b : f64) : f64 :=
  match SFcompare a b with
  | Some Gt => b
  | Some _ => a
  | None => match a with S754_nan => b | _ => a end
  end.
Definition f64_max (a b : f64) : f64 :=
  match SFcompare a b with
  | Some Lt => b
  | Some _ => a
  | None => match a with S754_nan => b | _ => a end
  end.

(** ** The registry *)

(** A collector as it is registered: its name and its labels. *)
Record Collector := mkCollector { collector_name : str; collector_labels : list str }.

Definition operation_count : Collector :=
  mkCollector #"crypto_engine_operations_total" [ #"operation_type"; #"algorithm"; #"result"].
Definition operation_duration : Collector :=
  mkCollector #"crypto_engine_operation_duration_seconds" [ #"operation_type"; #"algorithm"].
Definition active_operations : Collector :=
  mkCollector #"crypto_engine_active_operations" [ #"operation_type"].
Definition error_count : Collector :=
  mkCollector #"crypto_engine_errors_total" [ #"operation_type"; #"error_type"].
Definition memory_usage : Collector := mkCollector #"crypto_engine_memory_usage_bytes" [ #"component"].
Definition cpu_usage : Collector := mkCollector #"crypto_engine_cpu_usage_percent" [ #"component"].

(** Crate [prometheus]: updates by the name of a collector and the values of
    its labels, and the current value of counters and gauges. *)
Class Prometheus := {
  registry : Type;
  counter_inc : str -> list str -> registry -> registry;
  observe : str -> list str -> f64 -> registry -> registry;
  gauge_add : str -> list str -> f64 -> registry -> registry;
  gauge_set : str -> list str -> f64 -> registry -> registry;
  value : str -> list str -> registry -> f64;
}.
(** An update changes the value it names and no other; a histogram has none. *)
Class PrometheusLaws `{Prometheus} : Prop := {
  value_inc n l r : value n l (counter_inc n l r) = f64_add (value n l r) (f64_of 1);
  value_add n l x r : value n l (gauge_add n l x r) = f64_add (value n l r) x;
  value_set n l x r : value n l (gauge_set n l x r) = x;
  value_observe n l x r n' l' : value n' l' (observe n l x r) = value n' l' r;
  value_inc_other n l r n' l' : (n, l) <> (n', l') -> value n' l' (counter_inc n l r) = value n' l' r;
  value_add_other n l x r n' l' : (n, l) <> (n', l') -> value n' l' (gauge_add n l x r) = value n' l' r;
  value_set_other n l x r n' l' : (n, l) <> (n', l') -> value n' l' (gauge_set n l x r) = value n' l' r;
}.

(** ** State *)

Record PerformanceMetrics := mkMetrics {
  op_count : Z;
  total_latency_ms : f64;
  average_latency_ms : f64;
  min_latency_ms : f64;
  max_latency_ms : f64;
}.
(** What [or_insert] inserts *)
Definition no_metrics : PerformanceMetrics :=
  mkMetrics 0 (S754_zero false) (S754_zero false) f64_MAX (S754_zero false).

(** The monitor and the rest of the process *)
Record Monitored `{Prometheus} := mkMonitored {
  process : World;
  global_metrics : registry;
  metrics_cache : gmap str PerformanceMetrics;
}.

Section Monitor.
Context `{Prometheus}.

Definition set_process (w : World) (s : Monitored) : Monitored := mkMonitored _ w (global_metrics s) (metrics_cache s).
Definition set_registry (r : registry) (s : Monitored) : Monitored := mkMonitored _ (process s) r (metrics_cache s).
Definition set_cache (c : gmap str PerformanceMetrics) (s : Monitored) : Monitored :=
  mkMonitored _ (process s) (global_metrics s) c.

(** [PerformanceMonitor::new]: the collectors are shared, the cache is new. *)
Definition monitor_new (s : Monitored) : Monitored := set_cache ∅ s.

Section Calls.
Context {E : Type}.
Abbreviation P := (M Monitored E).

(** [with_label_values] panics when there are more or fewer values than labels. *)
Definition with_label_values (c : Collector) (values : list str)
    (f : str -> list str -> registry -> registry) : P unit :=
  let* _ := lift (if (length values =? length (collector_labels c))%nat then Ok tt else Panic) in
  fun s => (Ok tt, set_registry (f (collector_name c) values (global_metrics s)) s).

(** The count is a [u64]. *)
Definition add_latency (duration_ms : f64) (m : PerformanceMetrics) : PerformanceMetrics :=
  let count := ((op_count m + 1) mod 2^64)%Z in
  let total := f64_add (total_latency_ms m) duration_ms in
  mkMetrics count total (f64_div total (f64_of count)) (f64_min (min_latency_ms m) duration_ms)
    (f64_max (max_latency_ms m) duration_ms).

Definition record_operation (operation_type : str) (duration_ms : f64) : P unit :=
  let* _ := with_label_values operation_duration [operation_type; #"unknown"]
              (fun n l => observe n l (f64_div duration_ms (f64_of 1000))) in
  fun s =>
    let metrics := default no_metrics (metrics_cache s !! operation_type) in
    (Ok tt, set_cache (<[operation_type := add_latency duration_ms metrics]> (metrics_cache s)) s).

Definition record_operation_count (operation_type algorithm result : str) : P unit :=
  with_label_values operation_count [operation_type; algorithm; result] counter_inc.
Definition record_error (operation_type error_type : str) : P unit :=
  with_label_values error_count [operation_type; error_type] counter_inc.
Definition update_active_operations (operation_type : str) (count : Z) : P unit :=
  with_label_values active_operations [operation_type] (fun n l => gauge_add n l (f64_of count)).
Definition update_memory_usage (component : str) (bytes : Z) : P unit :=
  with_label_values memory_usage [component] (fun n l => gauge_set n l (f64_of bytes)).
Definition update_cpu_usage (component : str) (percentage : f64) : P unit :=
  with_label_values cpu_usage [component] (fun n l => gauge_set n l percentage).

(** [report_metrics] logs what has been recorded. *)
Definition report_metrics (s : Monitored) : gmap str PerformanceMetrics :=
  filter (fun kv : str * PerformanceMetrics => (0 < op_count kv.2)%Z) (metrics_cache s).
Definition get_metrics (operation_type : str) (s : Monitored) : option PerformanceMetrics :=
  metrics_cache s !! operation_type.

End Calls.

(** ** The monitored service *)

Definition algorithm_debug (a : EncryptionAlgorithm) : str :=
  match a with
  | Aes256Gcm => #"Aes256Gcm"
  | ChaCha20Poly1305 => #"ChaCha20Poly1305"
  | XChaCha20Poly1305 => #"XChaCha20Poly1305"
  | Kyber768 => #"Kyber768"
  end.

Context `{TextCodecs} `{Hashes} `{Aead} `{AeadData} `{PqCrypto} `{Oracle}.
Context `{!Serde KyberKeyPair} `{!Serde DilithiumKeyPair} `{!Serde KeyRecord}.
Variables (config : CryptoConfig) (store_key : bytes).
(** The text of an error, and the milliseconds a call took *)
Variable error_text : EngineError -> str.
Variable elapsed : f64.

Abbreviation S := (M Monitored EngineError).

(** The end of a call: [result] is what the engine returned. *)
Definition record_outcome {A} (operation algorithm : str) (result : CipherEngine.EngineError + A) : S unit :=
  let* _ := update_active_operations operation (-1) in
  let* _ := record_operation operation elapsed in
  match result with
  | inr _ => record_operation_count operation algorithm #"ok"
  | inl e =>
    let* _ := record_error operation (error_text e) in
    record_operation_count operation algorithm #"error"
  end.

(** A computation of the engine, and its result as a value. *)
Definition observed {A} (m : M World EngineError A) : S (EngineError + A) := fun s =>
  match m (process s) with
  | (Ok a, w) => (Ok (inr a), set_process w s)
  | (Err e, w) => (Ok (inl e), set_process w s)
  | (Panic, w) => (Panic, set_process w s)
  end.
Definition returned {A} (result : EngineError + A) : S A :=
  match result with inr a => ret a | inl e => fail e end.

(** The identifier and the time of the request are drawn before the gauge is
    raised; the order of the two cannot be told. *)
Definition monitored_encrypt (data : bytes) (algorithm : EncryptionAlgorithm) (key_id : option str)
    (customer_id : str) : S EncryptionResult :=
  let* _ := update_active_operations #"encrypt" 1 in
  let* result := observed (encrypt_data_with_key config store_key data algorithm key_id customer_id) in
  let* _ := record_outcome #"encrypt" (algorithm_debug algorithm) result in
  let* _ := update_memory_usage #"encrypt_buffer" (Z.of_nat (length data)) in
  returned result.

Definition monitored_decrypt (encrypted_data : bytes) (algorithm : EncryptionAlgorithm) (key_id customer_id : str)
    : S DecryptionResult :=
  let* _ := update_active_operations #"decrypt" 1 in
  let* _ := update_cpu_usage #"decrypt_thread" (S754_zero false) in
  let* result := observed (decrypt_data config store_key encrypted_data algorithm key_id customer_id) in
  let* _ := record_outcome #"decrypt" (algorithm_debug algorithm) result in
  returned result.

End Monitor.

(** * Properties *)

(** ** The order of numbers *)

Definition f64_le (a b : f64) : Prop := SFleb a b = true.
Definition f64_eq (a b : f64) : Prop := SFeqb a b = true.

Ltac f64_cases :=
  repeat match goal with
  | |- context [Z.compare ?x ?y] => destruct (Z.compare_spec x y)
  | |- context [Pos.compare_cont Eq ?x ?y] => change (Pos.compare_cont Eq x y) with (Pos.compare x y)
  | |- context [Pos.compare ?x ?y] => destruct (Pos.compare_spec x y)
  end; subst; try done; try lia.

Lemma f64_le_trans a b c : f64_le a b -> f64_le b c -> f64_le a c.
Proof.
  unfold f64_le, SFleb, SFcompare. destruct a as [?|[]| |[] ma ea], b as [?|[]| |[] mb eb], c as [?|[]| |[] mc ec];
    cbn; try done; f64_cases.
Qed.
Lemma f64_le_num a b : f64_le a b -> a <> S754_nan /\ b <> S754_nan.
Proof. by destruct a, b. Qed.
Lemma f64_le_refl a : a <> S754_nan -> f64_le a a.
Proof. unfold f64_le, SFleb, SFcompare. destruct a as [?|[]| |[] m e]; cbn; try done; intros _; f64_cases. Qed.

Lemma SFcompare_swap a b : SFcompare b a = CompOpp <$> SFcompare a b.
Proof.
  unfold SFcompare. destruct a as [?|[]| |[] ma ea], b as [?|[]| |[] mb eb]; cbn; try done;
    change (Pos.compare_cont Eq ?x ?y) with (Pos.compare x y); rewrite (Z.compare_antisym ea eb), (Pos.compare_antisym ma mb);
    destruct (Z.compare ea eb); cbn; try done; by destruct (Pos.compare ma mb).
Qed.
Lemma SFcompare_num a b : a <> S754_nan -> b <> S754_nan -> is_Some (SFcompare a b).
Proof. destruct a, b; cbn; intros; try done; by eexists. Qed.

Lemma f64_min_spec a b : a <> S754_nan -> b <> S754_nan ->
  f64_le (f64_min a b) a /\ f64_le (f64_min a b) b /\ (f64_min a b = a \/ f64_min a b = b).
Proof.
  intros Ha Hb. pose proof (f64_le_refl a Ha) as Hra. pose proof (f64_le_refl b Hb) as Hrb.
  destruct (SFcompare_num a b Ha Hb) as [c Hc]. pose proof (SFcompare_swap a b) as Hs. rewrite Hc in Hs.
  unfold f64_min, f64_le, SFleb in *. rewrite Hc. destruct c; rewrite ?Hc, ?Hs; auto.
Qed.
Lemma f64_max_spec a b : a <> S754_nan -> b <> S754_nan ->
  f64_le a (f64_max a b) /\ f64_le b (f64_max a b) /\ (f64_max a b = a \/ f64_max a b = b).
Proof.
  intros Ha Hb. pose proof (f64_le_refl a Ha) as Hra. pose proof (f64_le_refl b Hb) as Hrb.
  destruct (SFcompare_num a b Ha Hb) as [c Hc]. pose proof (SFcompare_swap a b) as Hs. rewrite Hc in Hs.
  unfold f64_max, f64_le, SFleb in *. rewrite Hc. destruct c; rewrite ?Hc, ?Hs; auto.
Qed.
Lemma f64_le_antisym a b : f64_le a b -> f64_le b a -> f64_eq a b.
Proof.
  unfold f64_le, f64_eq, SFleb, SFeqb. rewrite (SFcompare_swap a b). by destruct (SFcompare a b) as [[]|].
Qed.

(** ** What is recorded *)

(** A latency: not negative and finite *)
Definition duration (d : f64) : Prop := f64_le (S754_zero false) d /\ f64_le d f64_MAX.

Record summarises (ds : list f64) (m : PerformanceMetrics) : Prop := {
  sum_count : op_count m = Z.of_nat (length ds);
  sum_total : total_latency_ms m = foldl f64_add (S754_zero false) ds;
  sum_average : average_latency_ms m = f64_div (total_latency_ms m) (f64_of (op_count m));
  sum_bounds : Forall (fun d => f64_le (min_latency_ms m) d /\ f64_le d (max_latency_ms m)) ds;
  sum_min : exists d, d ∈ ds /\ f64_eq (min_latency_ms m) d;
  sum_max : exists d, d ∈ ds /\ f64_eq (max_latency_ms m) d;
}.

Definition summary (ds : list f64) : PerformanceMetrics := foldl (fun m d => add_latency d m) no_metrics ds.

Lemma summary_snoc ds d : summary (ds ++ [d]) = add_latency d (summary ds).
Proof. unfold summary. by rewrite foldl_app. Qed.

Lemma summary_totals ds : (Z.of_nat (length ds) < 2^64)%Z ->
  op_count (summary ds) = Z.of_nat (length ds) /\ total_latency_ms (summary ds) = foldl f64_add (S754_zero false) ds.
Proof.
  induction ds as [|d ds IH] using rev_ind; [done|]. rewrite length_app. cbn [length]. intros Hl.
  rewrite summary_snoc, foldl_app. cbn [add_latency op_count total_latency_ms foldl].
  destruct IH as [-> ->]; [lia|]. split; [|done]. rewrite Z.mod_small; lia.
Qed.
Lemma summary_average ds : ds <> [] ->
  average_latency_ms (summary ds) = f64_div (total_latency_ms (summary ds)) (f64_of (op_count (summary ds))).
Proof. destruct ds as [|d ds _] using rev_ind; [done|]. intros _. by rewrite summary_snoc. Qed.

(** The bounds, with the values they start from *)
Lemma summary_bounds ds : Forall duration ds ->
  let m := summary ds in
  f64_le (min_latency_ms m) f64_MAX /\ f64_le (S754_zero false) (max_latency_ms m)
  /\ (min_latency_ms m = f64_MAX \/ min_latency_ms m ∈ ds) /\ (max_latency_ms m = S754_zero false \/ max_latency_ms m ∈ ds)
  /\ Forall (fun d => f64_le (min_latency_ms m) d /\ f64_le d (max_latency_ms m)) ds.
Proof.
  induction ds as [|d ds IH] using rev_ind; intros Hd.
  { do 2 (split; [done|]). do 2 (split; [by left|]). constructor. }
  apply Forall_app in Hd as [Hds [[H0 HM] _]%Forall_cons].
  destruct (IH Hds) as (Hmin & Hmax & Imin & Imax & HF). rewrite summary_snoc. cbn [add_latency min_latency_ms max_latency_ms].
  destruct (f64_le_num _ _ Hmin) as [Nmin _]. destruct (f64_le_num _ _ Hmax) as [_ Nmax]. destruct (f64_le_num _ _ H0) as [_ Nd].
  destruct (f64_min_spec (min_latency_ms (summary ds)) d Nmin Nd) as (Hm1 & Hm2 & Hm3).
  destruct (f64_max_spec (max_latency_ms (summary ds)) d Nmax Nd) as (Hx1 & Hx2 & Hx3).
  split; [exact (f64_le_trans _ _ _ Hm1 Hmin)|]. split; [exact (f64_le_trans _ _ _ Hmax Hx1)|]. 
  split; [destruct Hm3 as [-> | ->]; rewrite elem_of_app, list_elem_of_singleton; tauto|].
  split; [destruct Hx3 as [-> | ->]; rewrite elem_of_app, list_elem_of_singleton; tauto|].
  apply Forall_app. split; [|by repeat constructor].
  eapply Forall_impl; [exact HF|]. intros x [Hx Hy].
  exact (conj (f64_le_trans _ _ _ Hm1 Hx) (f64_le_trans _ _ _ Hy Hx1)).
Qed.

Lemma f64_eq_refl a : a <> S754_nan -> f64_eq a a.
Proof. intros Ha. apply f64_le_antisym; by apply f64_le_refl. Qed.

Lemma summary_summarises ds :
  ds <> [] -> Forall duration ds -> (Z.of_nat (length ds) < 2^64)%Z -> summarises ds (summary ds).
Proof.
  intros Hne Hd Hl. destruct (summary_totals ds Hl) as [Hc Ht].
  destruct (summary_bounds ds Hd) as (Hmin & Hmax & Imin & Imax & HF).
  destruct (f64_le_num _ _ Hmin) as [Nmin _]. destruct (f64_le_num _ _ Hmax) as [_ Nmax].
  assert (Hhd : exists d, d ∈ ds /\ duration d /\ f64_le (min_latency_ms (summary ds)) d /\ f64_le d (max_latency_ms (summary ds))).
  { destruct ds as [|d ds']; [done|]. exists d. apply Forall_cons in Hd as [? _]. apply Forall_cons in HF as [? _].
    split; [apply list_elem_of_here|]. tauto. }
  destruct Hhd as (d & Hin & [H0 HM] & Hlo & Hhi).
  split; [done|done|by apply summary_average|done| |].
  - destruct Imin as [E|Hi]; [|eexists; split; [exact Hi|by apply f64_eq_refl]]. exists d. split; [done|].
    apply f64_le_antisym; [done|]. by rewrite E.
  - destruct Imax as [E|Hi]; [|eexists; split; [exact Hi|by apply f64_eq_refl]]. exists d. split; [done|].
    apply f64_le_antisym; [by rewrite E|done].
Qed.

Section MonitorLaws.
Context `{PrometheusLaws}.

(** Latencies recorded one after the other *)
Definition record_all (recs : list (str * f64)) (s : Monitored) : Monitored :=
  foldl (fun s (r : str * f64) => (record_operation (E := EngineError) r.1 r.2 s).2) s recs.
Definition latencies (op : str) (recs : list (str * f64)) : list f64 := snd <$> filter (fun r => r.1 = op) recs.

Lemma record_operation_run E op d s :
  record_operation (E := E) op d s
  = (Ok tt, set_cache (<[op := add_latency d (default no_metrics (metrics_cache s !! op))]> (metrics_cache s))
              (set_registry (observe (collector_name operation_duration) [op; #"unknown"]
                 (f64_div d (f64_of 1000)) (global_metrics s)) s)).
Proof. reflexivity. Qed.

Lemma record_all_cache op recs s :
  metrics_cache s = ∅ ->
  metrics_cache (record_all recs s) !! op
  = if decide (latencies op recs = []) then None else Some (summary (latencies op recs)).
Proof.
  intros Hs. induction recs as [|[op' d] recs IH] using rev_ind; [cbn; by rewrite Hs|].
  unfold record_all, latencies in *. rewrite foldl_app, filter_app, fmap_app. cbn [foldl].
  rewrite record_operation_run. cbn [snd fst set_cache metrics_cache].
  destruct (decide (op' = op)) as [-> |Hne].
  - rewrite lookup_insert_eq, filter_cons_True, filter_nil by done. cbn [fmap list_fmap snd].
    rewrite summary_snoc, decide_False, IH by (intros []%app_eq_nil; done). do 2 f_equal.
    case_decide as Hl; [by rewrite Hl|done].
  - rewrite lookup_insert_ne, filter_cons_False, filter_nil by done. cbn [fmap list_fmap]. by rewrite app_nil_r.
Qed.

(** The monitor's summary of an operation is that of the latencies recorded
    for it, whatever else is recorded: their number, sum and average in [f64],
    and their least and greatest. *)
Theorem latencies_summarised op recs s :
  metrics_cache s = ∅ -> Forall (fun r => duration r.2) recs -> (Z.of_nat (length recs) < 2^64)%Z ->
  latencies op recs <> [] ->
  exists m, get_metrics op (record_all recs s) = Some m /\ summarises (latencies op recs) m.
Proof.
  intros Hs Hd Hl Hne. exists (summary (latencies op recs)). split.
  - unfold get_metrics. rewrite record_all_cache by done. by rewrite decide_False.
  - apply summary_summarises; [done| |].
    + unfold latencies. apply Forall_fmap, Forall_forall. intros r [_ Hr]%list_elem_of_filter.
      rewrite Forall_forall in Hd. by apply Hd.
    + unfold latencies. rewrite length_fmap. pose proof (length_filter (fun r => r.1 = op) recs). lia.
Qed.

(** ** Monitored calls *)

Context `{TextCodecs} `{Hashes} `{Aead} `{AeadData} `{PqCrypto} `{Oracle}.
Context `{!Serde KyberKeyPair} `{!Serde DilithiumKeyPair} `{!Serde KeyRecord}.
Variables (config : CryptoConfig) (store_key : bytes) (error_text : EngineError -> str) (elapsed : f64).

Abbreviation encrypt := (monitored_encrypt config store_key error_text elapsed).
Abbreviation decrypt := (monitored_decrypt config store_key error_text elapsed).

Lemma with_labels E c values f (s : Monitored) : length values = length (collector_labels c) ->
  with_label_values (E := E) c values f s
  = (Ok tt, set_registry (f (collector_name c) values (global_metrics s)) s).
Proof. intros Hl. unfold with_label_values, bind, lift. by rewrite Hl, Nat.eqb_refl. Qed.

(** Runs a monitored call, one update after the other. *)
Ltac monitor_run :=
  unfold record_outcome, record_operation, record_operation_count, record_error, update_active_operations,
    update_memory_usage, update_cpu_usage, observed, returned, bind, ret, fail;
  repeat (rewrite with_labels by reflexivity; cbv beta iota zeta).

(** Monitoring changes neither what a call returns nor what it does to the
    rest of the process; in particular no label is missing. *)
Theorem monitoring_transparent data key_id s :
  (forall algorithm key customer, let '(r, s') := encrypt data algorithm key customer s in
     encrypt_data_with_key config store_key data algorithm key customer (process s) = (r, process s'))
  /\ forall algorithm customer, let '(r, s') := decrypt data algorithm key_id customer s in
     decrypt_data config store_key data algorithm key_id customer (process s) = (r, process s').
Proof.
  split; intros algorithm customer; [intros customer'; unfold monitored_encrypt|unfold monitored_decrypt];
    [generalize (encrypt_data_with_key config store_key data algorithm customer customer')
    |generalize (decrypt_data config store_key data algorithm key_id customer)];
    intros m; monitor_run; cbn [process set_registry];
    destruct (m (process s)) as [[a|e|] w]; by monitor_run.
Qed.

(** The value of a collector *)
Abbreviation at_ c labels s := (value (collector_name c) labels (global_metrics s)).
Abbreviation one_more c labels s s' := (at_ c labels s' = f64_add (at_ c labels s) (f64_of 1)).
Abbreviation as_before c labels s s' := (at_ c labels s' = at_ c labels s).

(** Reads a collector through the updates after it. *)
Ltac values :=
  repeat first [rewrite value_observe|rewrite value_inc|rewrite value_add|rewrite value_set
    |rewrite value_inc_other by (by intros [=])|rewrite value_add_other by (by intros [=])
    |rewrite value_set_other by (by intros [=])].

(** Every encryption that returns is counted once, as a success or as an error
    of its algorithm, with its latency; the number of active operations is
    raised and lowered by one. *)
Theorem encryptions_counted data algorithm key customer s r s' :
  encrypt data algorithm key customer s = (r, s') -> r <> Panic ->
  let labels outcome := [ #"encrypt"; algorithm_debug algorithm; outcome] in
  match r with
  | Err e => one_more operation_count (labels #"error") s s' /\ as_before operation_count (labels #"ok") s s'
      /\ one_more error_count [ #"encrypt"; error_text e] s s'
  | _ => one_more operation_count (labels #"ok") s s' /\ as_before operation_count (labels #"error") s s'
      /\ forall text, as_before error_count [ #"encrypt"; text] s s'
  end
  /\ get_metrics #"encrypt" s' = Some (add_latency elapsed (default no_metrics (get_metrics #"encrypt" s)))
  /\ at_ active_operations [ #"encrypt"] s'
     = f64_add (f64_add (at_ active_operations [ #"encrypt"] s) (f64_of 1)) (f64_of (-1)).
Proof.
  unfold monitored_encrypt. generalize (encrypt_data_with_key config store_key data algorithm key customer).
  intros m. monitor_run. cbn [process set_registry].
  destruct (m (process s)) as [[a|e|] w]; monitor_run; intros [= <- <-] Hr; [| |done];
    cbn [global_metrics set_registry set_cache set_process metrics_cache]; unfold get_metrics;
    cbn [global_metrics set_registry set_cache set_process metrics_cache]; rewrite lookup_insert_eq.
  all: split; [|split; [done|by values]]; split; [by values|split; [by values|]].
  - intros text. by values.
  - by values.
Qed.

End MonitorLaws.

Module MonitorExamples.
Import Reference ToyWorld CryptoExamples CipherExamples.

(** Counters and gauges in a table *)
#[export] Instance toy_prometheus : Prometheus := {
  registry := gmap (str * list str) f64;
  counter_inc n l r := <[(n, l) := f64_add (default (S754_zero false) (r !! (n, l))) (f64_of 1)]> r;
  observe _ _ _ r := r;
  gauge_add n l x r := <[(n, l) := f64_add (default (S754_zero false) (r !! (n, l))) x]> r;
  gauge_set n l x r := <[(n, l) := x]> r;
  value n l r := default (S754_zero false) (r !! (n, l));
}.
#[export] Instance toy_prometheus_laws : PrometheusLaws.
Proof.
  split; intros; cbn; first [by rewrite lookup_insert_eq|done|by rewrite lookup_insert_ne].
Qed.

Definition idle0 : Monitored := mkMonitored _ empty_world ∅ ∅.
Definition latencies0 : list (str * f64) :=
  [(#"encrypt", f64_of 3); (#"decrypt", f64_of 9); (#"encrypt", f64_of 5)].

Lemma latencies_summarised_witness : exists m,
  get_metrics #"encrypt" (record_all latencies0 idle0) = Some m /\ summarises [f64_of 3; f64_of 5] m
  /\ average_latency_ms m = f64_of 4.
Proof.
  destruct (latencies_summarised #"encrypt" latencies0 idle0) as (m & Hm & Hs);
    [done|repeat constructor|done|done|]. exists m. split; [exact Hm|]. split; [exact Hs|].
  rewrite (sum_average _ _ Hs), (sum_count _ _ Hs), (sum_total _ _ Hs). vm_compute. reflexivity.
Defined.

(** An encryption that is refused is counted as an error. *)
Abbreviation refused0 :=
  (monitored_encrypt config0 store_key0 (fun _ => #"refused") (f64_of 2) [] Aes256Gcm None #"acme" idle0).
Lemma encryptions_counted_witness : exists s', refused0 = (Err EmptyData, s')
  /\ value #"crypto_engine_operations_total" [ #"encrypt"; #"Aes256Gcm"; #"error"] (global_metrics s') = f64_of 1.
Proof.
  assert (Hr : refused0.1 = Err EmptyData) by (vm_compute; reflexivity).
  destruct refused0 as [r s'] eqn:E. cbn [fst] in Hr. subst r. exists s'. split; [reflexivity|].
  destruct (encryptions_counted config0 store_key0 (fun _ => #"refused") (f64_of 2) [] Aes256Gcm None #"acme"
    idle0 _ _ E ltac:(discriminate)) as [(Hc & _) _].
  etrans; [exact Hc|]. vm_compute. reflexivity.
Defined.

End MonitorExamples.
