(* ===== verification/Broker.v ===== *)
(** The broker's state and caller context (state.rs, mod.rs), the errors of
    its handlers, and the helper functions all handlers share (handlers.rs):
    parsing and authenticating a handle, checking the caller against the
    lineage of a record, and the metadata of transparency events. *)

From S2P Require Import Prelude RustStd Externals Reference Macaroon MacaroonWire Threshold.
From S2P Require Import Transparency World SealedStore Config CryptoEngine.

(** ** Errors *)

(** [ServiceError] of handlers.rs; the causes inside [Crypto] and [Storage]
    are [anyhow] errors in the source. *)
Module ServiceError.
Inductive crypto_cause :=
| Engine (e : CryptoError)
| MacaroonRejected (e : MacaroonError)
| LeaseExpired (at_ : datetime)
| SigningKeyExpired (at_ : datetime)
| NotRenewable
| BadRedeemToken
| FeldmanSplit (e : ThresholdError)
| NoSealedCaveat (caveat_id location : str)
| MissingPredicate
| NoDischargeSecret (location : str).

Inductive storage_cause :=
| Store (e : StoreError)
| InvalidCaveatSecret
| CaveatSecretLength
| StoredCaveatWithoutPredicate.

Inductive t :=
| InvalidBase64
| Serialization
| SignatureInvalid
| Crypto (c : crypto_cause)
| HandleNotFound
| InvalidHandle
| ExpiredHandle
| Storage (c : storage_cause)
| InvalidTtl
| ExporterBindingMismatch
| Database
| Unavailable (what : str)
| RedeemTokenInvalid
| RedeemTokenExpired
| RedeemTokenUsed
| RevokedHandle
| InvalidAttenuation (what : str)
| UnauthenticatedTransport
| AuthenticatedPrincipalRequired
| PrincipalMismatch
| PeerCertMismatch
| AttestationMismatch
| MissingLineage (what : str)
| UnauthorizedDischargePrincipal.
End ServiceError.

(** A handler. *)
Abbreviation H := (M World ServiceError.t) (only parsing).

Definition crypto_err (e : CryptoError) : ServiceError.t := ServiceError.Crypto (ServiceError.Engine e).
Definition storage_err (e : StoreError) : ServiceError.t := ServiceError.Storage (ServiceError.Store e).

(** ** The caller *)

Record BrokerClientContext := mkContext {
  exporter : bytes;
  session_id : option uuid;
  principal_id : option str;
  authenticated_transport : bool;
  peer_cert_sha256 : option bytes;
  attestation_digest : option bytes;
}.

Definition from_tls_exporter (exporter : bytes) (session_id : option uuid)
    (principal_id : option str) (peer_cert_sha256 attestation_digest : option bytes)
    : BrokerClientContext :=
  mkContext exporter session_id (trim_nonempty principal_id) true
    (match peer_cert_sha256 with
     | Some v => if is_empty v then None else Some v
     | None => None
     end)
    attestation_digest.

Definition normalized_context_principal (context : BrokerClientContext) : option str :=
  trim_nonempty (principal_id context).

Definition normalize_optional_string (value : str) : option str :=
  let trimmed := trim value in if is_empty trimmed then None else Some trimmed.

(** [context.principal_id().unwrap_or("unknown")] *)
Definition caller (context : BrokerClientContext) : str := default #"unknown" (principal_id context).

(** ** The broker *)

(** [crypto] is the engine's configuration and its two master keys,
    [sealed_store] the key of the store; the trees, the key tables and the
    logger are in [World]. *)
Record BrokerState := mkBroker {
  crypto_config : CryptoConfig;
  crypto_store_key : bytes;
  crypto_master_key : option bytes;
  sealed_store : bytes;
  default_customer_id : str;
  max_handle_ttl : duration;
  handle_hmac_key : bytes;
  redeem_token_ttl : duration;
  require_attested_discharge_mint : bool;
  allowed_discharge_principal_ids : list str;
}.

(** [BrokerState::new] *)
Definition broker_new (config : CryptoConfig) (engine_store_key : bytes) (engine_master_key : option bytes)
    (store_cipher : bytes) (customer : str) (max_ttl : duration) (hmac_key : bytes) (token_ttl : duration)
    : BrokerState :=
  mkBroker config engine_store_key engine_master_key store_cipher customer max_ttl hmac_key token_ttl false [].

Inductive FlagError := BadFlag.

Definition configure_discharge_policy (state : BrokerState) (require_attested : bool)
    (allowed : list str) : BrokerState :=
  mkBroker (crypto_config state) (crypto_store_key state) (crypto_master_key state)
    (sealed_store state) (default_customer_id state) (max_handle_ttl state)
    (handle_hmac_key state) (redeem_token_ttl state) require_attested
    (List.filter (fun v => negb (is_empty v)) (map trim allowed)).

(** The value of an environment variable, if it is set. *)
Definition env_flag_enabled (value : option str) (default : bool) : result FlagError bool :=
  match value with
  | None => Ok default
  | Some value =>
    let v := to_ascii_lowercase (trim value) in
    if existsb (str_eqb v) [ #"1"; #"true"; #"yes"; #"on"] then Ok true
    else if existsb (str_eqb v) [ #"0"; #"false"; #"no"; #"off"] then Ok false
    else Err BadFlag
  end.

Definition env_csv (value : option str) : list str :=
  match value with
  | Some value => List.filter (fun v => negb (is_empty v)) (map trim (split_on Byte.x2c value))
  | None => []
  end.

Definition hours (n : Z) : duration := (n * 3600 * ns_per_sec)%Z.

Section State.
Context `{TextCodecs} `{Hashes} `{JsonText} `{Oracle}.

(** The key of handles and redeem tokens, from the broker's master key. *)
Definition derive_handle_hmac_key (master_key_bytes : bytes) : bytes :=
  hmac_sha256 master_key_bytes #"secret-broker-broker-handle-hmac-v1".

(** HMAC accepts keys of every length, so [new_from_slice] never fails. *)
Definition compute_redeem_token (state : BrokerState) (handle : uuid) (binding_hash nonce : bytes)
    : bytes :=
  hmac_sha256 (handle_hmac_key state) (handle ++ binding_hash ++ nonce).

Definition macaroon_root_key (state : BrokerState) (handle_id : uuid) : bytes :=
  hmac_sha256 (handle_hmac_key state) (#"macaroon-root-v1:" ++ handle_id).

(** A failed append is only logged. *)
Definition record_transparency (event : TransparencyEvent) : H unit :=
  let* l := gets logger in
  match l with
  | Some l => let* io := log_io in modify (set_logger (Some (record io event l).2))
  | None => ret tt
  end.

(** ** Time to live *)

(** [secs] is a [u64]; the comparison and the duration use [secs as i64]. *)
Definition enforce_ttl (ttl_seconds : option Z) (state : BrokerState) (created_at : datetime)
    : result ServiceError.t (option datetime * option Z) :=
  match ttl_seconds with
  | Some secs =>
    let! _ := guard (secs =? 0)%Z ServiceError.InvalidTtl in
    let max_allowed := num_seconds (max_handle_ttl state) in
    let! _ := guard (max_allowed <? as_i64 secs)%Z ServiceError.InvalidTtl in
    let! d := duration_seconds (as_i64 secs) in
    let! t := add_duration created_at d in
    Ok (Some t, Some secs)
  | None => Ok (None, None)
  end.

(** ** Handles *)

Definition HANDLE_V2_PREFIX : str := #"broker:v2:".

Definition parse_handle_v2 (raw : str) : result ServiceError.t Macaroon :=
  let trimmed := trim raw in
  let! b64 := ok_or (strip_prefix HANDLE_V2_PREFIX trimmed) ServiceError.InvalidHandle in
  map_err (fun _ => ServiceError.InvalidHandle) (deserialize b64).

Definition parse_handle_identifier (state : BrokerState) (raw : str) : result ServiceError.t uuid :=
  let! macaroon := parse_handle_v2 raw in
  let root_key := macaroon_root_key state (identifier macaroon) in
  let! _ := map_err (fun _ => ServiceError.InvalidHandle) (Macaroon.verify_signature macaroon root_key) in
  Ok (identifier macaroon).

(** [format!("{}{}", HANDLE_V2_PREFIX, mac.serialize())] *)
Definition format_handle (m : Macaroon) : str := HANDLE_V2_PREFIX ++ serialize m.

(** ** Transparency metadata *)

Definition append_context_transparency_meta (context : BrokerClientContext)
    (meta : list (str * json)) : list (str * json) :=
  let meta := obj_insert #"authenticated_transport" (JBool (authenticated_transport context)) meta in
  let meta := obj_insert_opt #"authenticated_principal_id" JString
                (normalized_context_principal context) meta in
  let meta := obj_insert_opt #"peer_cert_sha256" (fun v => JString (b64_encode v))
                (peer_cert_sha256 context) meta in
  obj_insert_opt #"attestation_digest" (fun v => JString (b64_encode v))
    (attestation_digest context) meta.

Definition secret_lifecycle_label (lifecycle : SecretLifecycle) : str :=
  match lifecycle with
  | SingleUseUnwrap => #"single_use_unwrap"
  | RenewableLease => #"renewable_lease"
  | ServiceBootstrap => #"service_bootstrap"
  end.

(** [Value::from] of an unsigned integer *)
Definition json_u64 (n : Z) : json := JNumber (PosInt n).

Definition append_record_transparency_meta (r : StoredEnvelopeRecord)
    (meta : list (str * json)) : list (str * json) :=
  let meta := obj_insert #"lifecycle" (JString (secret_lifecycle_label (r_lifecycle r))) meta in
  let meta := obj_insert #"issued_with_authenticated_transport"
                (JBool (r_issued_with_authenticated_transport r)) meta in
  let meta := obj_insert_opt #"issued_by_principal_id" JString (r_issued_by_principal_id r) meta in
  let meta := obj_insert_opt #"issued_by_peer_cert_sha256" JString
                (r_issued_by_peer_cert_sha256 r) meta in
  let meta := obj_insert_opt #"issued_by_attestation_digest" JString
                (r_issued_by_attestation_digest r) meta in
  let meta := obj_insert_opt #"unwrap_principal_id" JString (r_unwrap_principal_id r) meta in
  let date t := JString (to_rfc3339 t) in
  let meta := obj_insert_opt #"expires_at" date (r_expires_at r) meta in
  let meta := obj_insert_opt #"redeem_expires_at" date (r_redeem_expires_at r) meta in
  let meta := obj_insert_opt #"lease_expires_at" date (r_lease_expires_at r) meta in
  let meta := if (0 <? r_lease_renewal_count r)%Z
              then obj_insert #"lease_renewal_count" (json_u64 (r_lease_renewal_count r)) meta
              else meta in
  obj_insert_opt #"secret_metadata" (fun v => v) (e_metadata (r_envelope r)) meta.

(** ** Third-party caveats of a record *)

Definition discharge_key_of (entry : ThirdPartyCaveatKey) : result ServiceError.t DischargeKeyRef :=
  let! decoded := ok_or (b64_decode (tp_secret_b64 entry))
                    (ServiceError.Storage ServiceError.InvalidCaveatSecret) in
  let! _ := guard (negb (length decoded =? 32)%nat)
              (ServiceError.Storage ServiceError.CaveatSecretLength) in
  let! condition := ok_or (tp_condition entry)
                      (ServiceError.Storage ServiceError.StoredCaveatWithoutPredicate) in
  Ok (mkDischargeKeyRef (tp_location entry) (tp_key_id entry) condition decoded).

Definition discharge_keys_for_record (r : StoredEnvelopeRecord)
    : result ServiceError.t (list DischargeKeyRef) :=
  match r_third_party_caveat_keys r with
  | Some entries => collect discharge_key_of entries
  | None => Ok []
  end.

(** ** Who may do what *)

Definition normalize_spiffe_principal (value : str) : option str :=
  let trimmed := trim value in
  if is_empty trimmed || negb (starts_with #"spiffe://" trimmed) then None else Some trimmed.

Definition peer_lineage : str := #"peer certificate lineage on the authenticated broker transport".
Definition attestation_lineage : str := #"attestation digest lineage on the authenticated broker transport".

Definition validate_discharge_mint_requirements (state : BrokerState)
    (context : BrokerClientContext) (location : str) : result ServiceError.t unit :=
  let! _ := guard (negb (authenticated_transport context)) ServiceError.UnauthenticatedTransport in
  let! principal := ok_or (trim_nonempty (principal_id context))
                      ServiceError.AuthenticatedPrincipalRequired in
  let! _ := ok_or (peer_cert_sha256 context) (ServiceError.MissingLineage peer_lineage) in
  let! _ := guard (require_attested_discharge_mint state
                   && match attestation_digest context with None => true | Some _ => false end)
              (ServiceError.MissingLineage attestation_lineage) in
  let! _ := guard (match normalize_spiffe_principal location with
                   | Some location_principal => negb (str_eqb principal location_principal)
                   | None => false
                   end) ServiceError.UnauthorizedDischargePrincipal in
  let allowed := allowed_discharge_principal_ids state in
  guard (negb (is_empty allowed) && negb (existsb (fun a => str_eqb a principal) allowed))
    ServiceError.UnauthorizedDischargePrincipal.

Definition v2_unwrap_principal (context : BrokerClientContext) (lifecycle : SecretLifecycle)
    (requested_principal : option str) : result ServiceError.t (option str) :=
  let requested_principal := trim_nonempty requested_principal in
  let! _ := guard (negb (authenticated_transport context)) ServiceError.UnauthenticatedTransport in
  let! current_principal := ok_or (normalized_context_principal context)
                              ServiceError.AuthenticatedPrincipalRequired in
  match lifecycle with
  | SingleUseUnwrap =>
    let! _ := guard (match requested_principal with
                     | Some requested => negb (str_eqb requested current_principal)
                     | None => false
                     end) ServiceError.PrincipalMismatch in
    Ok (Some current_principal)
  | RenewableLease | ServiceBootstrap =>
    let! _ := ok_or (peer_cert_sha256 context) (ServiceError.MissingLineage peer_lineage) in
    Ok (Some (default current_principal requested_principal))
  end.

(** The end of the identity checks, common to unwrapping and custody: the
    issuer must present its own certificate, and an attested record needs the
    same attestation. *)
Definition check_issuing_peer (r : StoredEnvelopeRecord) (actual_principal issuer : str)
    (actual_peer_cert : bytes) : result ServiceError.t unit :=
  let! expected := ok_or (trim_nonempty (r_issued_by_peer_cert_sha256 r))
                     (ServiceError.MissingLineage #"issuing peer certificate lineage") in
  guard (str_eqb actual_principal issuer && negb (str_eqb (b64_encode actual_peer_cert) expected))
    ServiceError.PeerCertMismatch.

Definition check_attestation (r : StoredEnvelopeRecord) (context : BrokerClientContext)
    : result ServiceError.t unit :=
  match trim_nonempty (r_issued_by_attestation_digest r) with
  | Some expected =>
    let! actual := ok_or (attestation_digest context)
                     (ServiceError.MissingLineage attestation_lineage) in
    guard (negb (str_eqb (b64_encode actual) expected)) ServiceError.AttestationMismatch
  | None => Ok tt
  end.

Definition validate_v2_record_identity_requirements_inner (r : StoredEnvelopeRecord)
    (context : BrokerClientContext) (allow_issuing_principal : bool) : result ServiceError.t unit :=
  let! expected_principal := ok_or (trim_nonempty (r_unwrap_principal_id r))
                               (ServiceError.MissingLineage #"principal binding") in
  let! _ := guard (negb (authenticated_transport context)) ServiceError.UnauthenticatedTransport in
  let! actual_principal := ok_or (trim_nonempty (principal_id context))
                             ServiceError.AuthenticatedPrincipalRequired in
  let! issuer :=
    (if bool_decide (r_lifecycle r = SingleUseUnwrap) then Ok None
     else
       let! _ := guard (negb (r_issued_with_authenticated_transport r))
                   (ServiceError.MissingLineage #"authenticated issuance transport") in
       let! issuer := ok_or (trim_nonempty (r_issued_by_principal_id r))
                        (ServiceError.MissingLineage #"issuing principal lineage") in
       Ok (Some issuer)) in
  let issuer_authorized :=
    match issuer with
    | Some issuer => allow_issuing_principal && str_eqb actual_principal issuer
    | None => false
    end in
  let! _ := guard (negb (str_eqb actual_principal expected_principal) && negb issuer_authorized)
              ServiceError.PrincipalMismatch in
  if bool_decide (r_lifecycle r = SingleUseUnwrap) then Ok tt
  else
    let! actual_peer_cert := ok_or (peer_cert_sha256 context)
                               (ServiceError.MissingLineage peer_lineage) in
    let! issuer := ok_or issuer (ServiceError.MissingLineage #"issuing principal lineage") in
    let! _ := check_issuing_peer r actual_principal issuer actual_peer_cert in
    check_attestation r context.

Definition validate_v2_record_identity_requirements (r : StoredEnvelopeRecord)
    (context : BrokerClientContext) : result ServiceError.t unit :=
  validate_v2_record_identity_requirements_inner r context false.

Definition validate_v2_record_management_requirements (r : StoredEnvelopeRecord)
    (context : BrokerClientContext) : result ServiceError.t unit :=
  validate_v2_record_identity_requirements_inner r context true.

Definition validate_threshold_custody_record_requirements (r : StoredEnvelopeRecord)
    (context : BrokerClientContext) : result ServiceError.t unit :=
  let! _ := guard (negb (authenticated_transport context)) ServiceError.UnauthenticatedTransport in
  let! actual_principal := ok_or (trim_nonempty (principal_id context))
                             ServiceError.AuthenticatedPrincipalRequired in
  let! actual_peer_cert := ok_or (peer_cert_sha256 context)
                             (ServiceError.MissingLineage peer_lineage) in
  let! _ := guard (negb (r_issued_with_authenticated_transport r))
              (ServiceError.MissingLineage #"authenticated issuance transport") in
  let! issuer := ok_or (trim_nonempty (r_issued_by_principal_id r))
                   (ServiceError.MissingLineage #"issuing principal lineage") in
  let! _ := check_issuing_peer r actual_principal issuer actual_peer_cert in
  check_attestation r context.

End State.

(** * Properties *)

Section BrokerLaws.
Context `{TextCodecsLaws} `{HashesLaws}.
Implicit Types (r : StoredEnvelopeRecord) (ctx : BrokerClientContext).

(** ** Recording an event *)

(** Only the transparency log and the clock change. *)
Definition log_only (w w' : World) : Prop :=
  envelopes w' = envelopes w /\ kyber_keys w' = kyber_keys w
  /\ dilithium_keys w' = dilithium_keys w /\ key_pairs w' = key_pairs w
  /\ key_metadata w' = key_metadata w.

Lemma record_transparency_ok `{JsonText} `{Oracle} e w :
  wp (record_transparency e) w (fun _ w' => log_only w w' /\ within 1 w w').
Proof.
  unfold record_transparency. wp_run. destruct (logger w); wp_run;
    repeat split; unfold within; cbn; lia.
Qed.

(** The logger after a call that recorded [e] when [io] came of the append. *)
Definition logged (io : Append) (e : TransparencyEvent) `{JsonText} (l : option TransparencyLogger)
    : option TransparencyLogger := (fun l => (record io e l).2) <$> l.

Lemma record_transparency_logs `{JsonText} `{Oracle} e w :
  wp (record_transparency e) w (fun _ w' =>
    log_only w w' /\ within 1 w w' /\ logger w' = logged (log_io_at (tick w)) e (logger w)).
Proof.
  unfold record_transparency. wp_run. destruct (logger w) as [l|] eqn:E; wp_run;
    (split; [by repeat split|]); (split; [unfold within; cbn; lia|]); cbn; by rewrite ?E.
Qed.

(** ** Handles *)

Lemma trim_handle m : trim (format_handle m) = format_handle m.
Proof.
  apply trim_graphic. unfold format_handle. apply Forall_app. split; [|apply b64_graphic].
  apply (bool_decide_unpack _). vm_compute. exact I.
Qed.

Lemma parse_format m : macaroon_fits m -> parse_handle_v2 (format_handle m) = Ok m.
Proof.
  intros Hm. unfold parse_handle_v2. rewrite trim_handle. unfold format_handle.
  rewrite strip_prefix_app. cbn [ok_or rbind]. by rewrite deserialize_serialize.
Qed.

Lemma length_macaroon_root_key state id : length (macaroon_root_key state id) = 32.
Proof. apply hmac_length. Qed.

Lemma parse_handle_identifier_ok state raw id :
  parse_handle_identifier state raw = Ok id <->
  exists m, parse_handle_v2 raw = Ok m /\ identifier m = id
    /\ Macaroon.verify_signature m (macaroon_root_key state id) = Ok tt.
Proof.
  unfold parse_handle_identifier. split.
  - intros E. monad_inv. destruct a0. eauto.
  - intros (m & Hm & <- & Hs). rewrite Hm. cbn [rbind]. by rewrite Hs.
Qed.

(** Only handles whose macaroon carries the HMAC chain under the root key
    of their own identifier are accepted, and the handle printed for a minted
    macaroon, attenuated or not and with white space around it or not, is
    accepted and names the record it was minted for. *)
Theorem handle_authentic state :
  (forall raw id, parse_handle_identifier state raw = Ok id ->
     exists m, parse_handle_v2 raw = Ok m /\ identifier m = id
       /\ signature m = chain (root_sig (macaroon_root_key state id) id) (caveats m))
  /\ (forall id cs extra raw,
     let m := foldl add_caveat (mint (macaroon_root_key state id) id cs) extra in
     macaroon_fits m -> trim raw = format_handle m ->
     parse_handle_identifier state raw = Ok id).
Proof.
  split.
  - intros raw id (m & Hm & Hid & Hs%verify_signature_ok)%parse_handle_identifier_ok.
    exists m. by rewrite Hid in Hs.
  - intros id cs extra raw m Hf Ht. apply parse_handle_identifier_ok. exists m.
    assert (Hid : identifier m = id) by apply identifier_attenuated.
    split; [|split; [done|]].
    + unfold parse_handle_v2. rewrite Ht, <- (trim_handle m). by apply parse_format.
    + apply verify_attenuated, verify_minted.
Qed.

(** ** Identity *)

(** The certificate and attestation part of the policy. *)
Definition lineage_ok r ctx (principal : str) : Prop :=
  r_issued_with_authenticated_transport r = true
  /\ exists issuer cert expected,
    trim_nonempty (r_issued_by_principal_id r) = Some issuer
    /\ peer_cert_sha256 ctx = Some cert
    /\ trim_nonempty (r_issued_by_peer_cert_sha256 r) = Some expected
    /\ (principal = issuer -> b64_encode cert = expected)
    /\ match trim_nonempty (r_issued_by_attestation_digest r) with
       | Some digest => exists d, attestation_digest ctx = Some d /\ b64_encode d = digest
       | None => True
       end.

(** Who may use a record: the principal it is bound to, or for management of
    a lease or bootstrap secret also its issuer; leases and bootstrap secrets
    need the lineage on top. *)
Definition may_access (manage : bool) r ctx : Prop :=
  authenticated_transport ctx = true
  /\ exists principal bound,
    trim_nonempty (principal_id ctx) = Some principal
    /\ trim_nonempty (r_unwrap_principal_id r) = Some bound
    /\ (principal = bound \/ (manage = true /\ r_lifecycle r <> SingleUseUnwrap
                            /\ trim_nonempty (r_issued_by_principal_id r) = Some principal))
    /\ (r_lifecycle r <> SingleUseUnwrap -> lineage_ok r ctx principal).

Lemma check_attestation_ok r ctx :
  check_attestation r ctx = Ok tt <->
  match trim_nonempty (r_issued_by_attestation_digest r) with
  | Some digest => exists d, attestation_digest ctx = Some d /\ b64_encode d = digest
  | None => True
  end.
Proof.
  unfold check_attestation. destruct (trim_nonempty _) as [digest|]; [|done].
  destruct (attestation_digest ctx) as [d|]; cbn [ok_or rbind]; [|naive_solver].
  rewrite guard_ok, negb_false_iff, str_eqb_eq. naive_solver.
Qed.

Lemma check_issuing_peer_ok r principal issuer cert :
  check_issuing_peer r principal issuer cert = Ok tt <->
  exists expected, trim_nonempty (r_issued_by_peer_cert_sha256 r) = Some expected
    /\ (principal = issuer -> b64_encode cert = expected).
Proof.
  unfold check_issuing_peer. destruct (trim_nonempty _) as [e|]; cbn [ok_or rbind]; [|naive_solver].
  rewrite guard_ok, andb_false_iff, negb_false_iff, str_eqb_eq, str_eqb_neq.
  destruct (decide (principal = issuer)); naive_solver.
Qed.

Lemma identity_iff r ctx manage :
  validate_v2_record_identity_requirements_inner r ctx manage = Ok tt <-> may_access manage r ctx.
Proof.
  unfold validate_v2_record_identity_requirements_inner, may_access, lineage_ok.
  destruct (trim_nonempty (r_unwrap_principal_id r)) as [bound|]; cbn [ok_or rbind]; [|naive_solver].
  destruct (authenticated_transport ctx); cbn [negb guard rbind]; [|naive_solver].
  destruct (trim_nonempty (principal_id ctx)) as [p|]; cbn [ok_or rbind]; [|naive_solver].
  case_bool_decide as L; cbn [rbind].
  - rewrite guard_bind_ok. cbn [negb]. rewrite andb_true_r, negb_false_iff, str_eqb_eq. naive_solver.
  - destruct (r_issued_with_authenticated_transport r); cbn [negb guard rbind];
      [|split; [done|intros (_ & ? & ? & _ & _ & _ & HL); by destruct (HL L)]].
    destruct (trim_nonempty (r_issued_by_principal_id r)) as [issuer|]; cbn [ok_or rbind].
    2: { split; [done|]. intros (_ & ? & ? & _ & _ & _ & HL). destruct (HL L). naive_solver. }
    rewrite guard_bind_ok, andb_false_iff, !negb_false_iff, andb_true_iff, !str_eqb_eq.
    destruct (peer_cert_sha256 ctx) as [cert|]; cbn [ok_or rbind].
    2: { split; [naive_solver|]. intros (_ & ? & ? & _ & _ & _ & HL). destruct (HL L). naive_solver. }
    rewrite rbind_ok. setoid_rewrite check_attestation_ok. split.
    + intros (HP & [] & (expected & He & Hc)%check_issuing_peer_ok & Hat). split; [done|].
      exists p, bound. split; [done|]. split; [done|]. split; [naive_solver|].
      intros _. split; [done|]. by exists issuer, cert, expected.
    + intros (_ & p' & b' & [= <-] & [= <-] & HP & HL).
      destruct (HL L) as (_ & i' & c' & expected & [= <-] & [= <-] & He & Hc & Hat).
      split; [naive_solver|]. exists tt. split; [|done]. apply check_issuing_peer_ok. by exists expected.
Qed.

(** C29: the caller of an unwrap or a renewal is accepted exactly when its
    transport is authenticated and its principal is the one the record is
    bound to, for leases and bootstrap secrets also with the issuing lineage;
    deleting, revoking and rotating such secrets is allowed to their issuer
    too; and whoever may unwrap may manage. *)
Theorem identity_policy r ctx :
  (validate_v2_record_identity_requirements r ctx = Ok tt <-> may_access false r ctx)
  /\ (validate_v2_record_management_requirements r ctx = Ok tt <-> may_access true r ctx)
  /\ (may_access false r ctx -> may_access true r ctx).
Proof.
  split; [apply identity_iff|]. split; [apply identity_iff|]. unfold may_access. naive_solver.
Qed.

Lemma custody_iff r ctx :
  validate_threshold_custody_record_requirements r ctx = Ok tt <->
  authenticated_transport ctx = true
  /\ exists principal, trim_nonempty (principal_id ctx) = Some principal /\ lineage_ok r ctx principal.
Proof.
  unfold validate_threshold_custody_record_requirements, lineage_ok.
  destruct (authenticated_transport ctx); cbn [negb guard rbind]; [|naive_solver].
  destruct (trim_nonempty (principal_id ctx)) as [p|]; cbn [ok_or rbind]; [|naive_solver].
  destruct (peer_cert_sha256 ctx) as [cert|]; cbn [ok_or rbind]; [|naive_solver].
  destruct (r_issued_with_authenticated_transport r); cbn [negb guard rbind]; [|naive_solver].
  destruct (trim_nonempty (r_issued_by_principal_id r)) as [issuer|]; cbn [ok_or rbind]; [|naive_solver].
  rewrite rbind_ok. setoid_rewrite check_attestation_ok. split.
  - intros ([] & (expected & ? & ?)%check_issuing_peer_ok & ?). split; [done|]. exists p.
    split; [done|]. split; [done|]. by exists issuer, cert, expected.
  - intros (_ & p' & [= <-] & _ & i' & c' & expected & [= <-] & [= <-] & ? & ? & ?).
    exists tt. split; [|done]. apply check_issuing_peer_ok. by exists expected.
Qed.

(** Minting a discharge needs an authenticated transport, a principal, a
    peer certificate, attestation when it is required, the principal of the
    location when that is a SPIFFE identity, and a place on the allowlist
    when there is one; nothing else is accepted. *)
Theorem discharge_policy state ctx location :
  validate_discharge_mint_requirements state ctx location = Ok tt <->
  authenticated_transport ctx = true
  /\ is_Some (peer_cert_sha256 ctx)
  /\ (require_attested_discharge_mint state = true -> is_Some (attestation_digest ctx))
  /\ exists principal, trim_nonempty (principal_id ctx) = Some principal
     /\ (starts_with #"spiffe://" (trim location) = true -> principal = trim location)
     /\ (allowed_discharge_principal_ids state = []
         \/ principal ∈ allowed_discharge_principal_ids state).
Proof.
  unfold validate_discharge_mint_requirements, normalize_spiffe_principal.
  destruct (authenticated_transport ctx); cbn [negb guard rbind]; [|naive_solver].
  destruct (trim_nonempty (principal_id ctx)) as [p|]; cbn [ok_or rbind]; [|naive_solver].
  destruct (peer_cert_sha256 ctx) as [c|]; cbn [ok_or rbind]; [|unfold is_Some; naive_solver].
  rewrite guard_bind_ok, guard_bind_ok, guard_ok.
  assert (HA : negb (is_empty (allowed_discharge_principal_ids state)) &&
    negb (existsb (fun a => str_eqb a p) (allowed_discharge_principal_ids state)) = false <->
    allowed_discharge_principal_ids state = [] \/ p ∈ allowed_discharge_principal_ids state).
  { rewrite andb_false_iff, !negb_false_iff, existsb_exists. setoid_rewrite str_eqb_eq.
    setoid_rewrite <- list_elem_of_In. destruct (allowed_discharge_principal_ids state); naive_solver. }
  rewrite HA.
  assert (HS : match (if is_empty (trim location) || negb (starts_with #"spiffe://" (trim location))
      then None else Some (trim location)) with Some l => negb (str_eqb p l) | None => false end = false
    <-> (starts_with #"spiffe://" (trim location) = true -> p = trim location)).
  { destruct (trim location) as [|b l]; [by split|]. cbn [is_empty orb].
    destruct (starts_with _ _); cbn [negb]; [|by split]. rewrite negb_false_iff, str_eqb_eq. naive_solver. }
  rewrite HS. destruct (require_attested_discharge_mint state), (attestation_digest ctx);
    cbn [andb]; unfold is_Some; naive_solver.
Qed.

(** ** Time to live *)

Lemma as_i64_low z : (0 <= z < 2^63)%Z -> as_i64 z = z.
Proof.
  intros Hz. unfold as_i64. rewrite Z.mod_small by lia. by rewrite (proj2 (Z.ltb_lt _ _)) by lia.
Qed.
Lemma as_i64_high z : (2^63 <= z < 2^64)%Z -> as_i64 z = (z - 2^64)%Z.
Proof.
  intros Hz. unfold as_i64. rewrite Z.mod_small by lia. by rewrite (proj2 (Z.ltb_ge _ _)) by lia.
Qed.

(** A requested time to live below 2^63 seconds is refused when it is zero
    or above the maximum, and otherwise gives exactly the creation time plus
    the requested seconds. *)
Theorem ttl_enforced state created secs :
  (0 <= secs < 2^63)%Z -> (num_seconds (max_handle_ttl state) <= (2^63 - 1) / 1000)%Z ->
  rfc3339_range (created + secs * ns_per_sec) ->
  enforce_ttl (Some secs) state created =
    if (1 <=? secs)%Z && (secs <=? num_seconds (max_handle_ttl state))%Z
    then Ok (Some (created + secs * ns_per_sec)%Z, Some secs) else Err ServiceError.InvalidTtl.
Proof.
  intros Hs Hm Hr. unfold enforce_ttl. rewrite as_i64_low by done.
  destruct (Z.leb_spec 1 secs); cbn [andb].
  - rewrite (proj2 (Z.eqb_neq _ _)) by lia. cbn [guard rbind].
    destruct (Z.leb_spec secs (num_seconds (max_handle_ttl state))).
    + rewrite (proj2 (Z.ltb_ge _ _)) by lia. cbn [guard rbind]. unfold duration_seconds.
      rewrite (proj2 (Z.leb_le _ _)) by lia. cbn [rbind]. by rewrite add_duration_ok.
    + by rewrite (proj2 (Z.ltb_lt _ _)) by lia.
  - by rewrite (proj2 (Z.eqb_eq _ _)) by lia.
Qed.

(** The conversion to a signed integer defeats the limit for times to live
    of 2^63 seconds and more: they are never refused, the handler either
    panics or accepts the request with an expiry before its creation. *)
Theorem ttl_wraps state created secs :
  (2^63 <= secs < 2^64)%Z -> (0 <= num_seconds (max_handle_ttl state))%Z ->
  enforce_ttl (Some secs) state created = Panic
  \/ exists t, enforce_ttl (Some secs) state created = Ok (Some t, Some secs) /\ (t < created)%Z.
Proof.
  intros Hs Hm. unfold enforce_ttl. rewrite as_i64_high by done.
  rewrite (proj2 (Z.eqb_neq _ _)) by lia. cbn [guard rbind].
  rewrite (proj2 (Z.ltb_ge _ _)) by lia. cbn [guard rbind].
  unfold duration_seconds. destruct (_ <=? _)%Z; [|by left]. cbn [rbind].
  unfold add_duration. destruct (_ && _); [|by left]. right. eexists. split; [reflexivity|].
  unfold ns_per_sec. lia.
Qed.

End BrokerLaws.

(** * The theorems on concrete inputs *)

Module BrokerExamples.
Import Reference ToyWorld CryptoExamples.

Definition alice : BrokerClientContext :=
  from_tls_exporter (le_bytes 32 77) None (Some #" spiffe://prod/alice ") (Some (le_bytes 32 9)) None.
Definition bob : BrokerClientContext :=
  from_tls_exporter (le_bytes 32 78) None (Some #"spiffe://prod/bob") (Some (le_bytes 32 8)) None.

Definition state0 : BrokerState :=
  mkBroker (from_env (fun _ => None)) store_key0 master0 (le_bytes 32 5) #"default" (hours (24 * 365))
    (le_bytes 32 6) (hours 24) true [].

Definition id0 : uuid := le_bytes 16 42.
Definition mac0 : Macaroon :=
  foldl add_caveat (mint (macaroon_root_key state0 id0) id0 [TenantId #"acme"; MaxUses]) [NodeId #"n1"].

Lemma mac0_fits : macaroon_fits mac0.
Proof. split; [done|]. split; [vm_compute; reflexivity|]. apply (bool_decide_unpack _). vm_compute. exact I. Qed.

Lemma handle_authentic_witness : parse_handle_identifier state0 (format_handle mac0) = Ok id0.
Proof.
  exact (proj2 (handle_authentic state0) id0 [TenantId #"acme"; MaxUses] [NodeId #"n1"]
    (format_handle mac0) mac0_fits (trim_handle mac0)).
Defined.

Lemma ttl_enforced_witness :
  enforce_ttl (Some 31536001%Z) state0 0 = Err ServiceError.InvalidTtl
  /\ enforce_ttl (Some 60%Z) state0 0 = Ok (Some (60 * 10^9)%Z, Some 60%Z).
Proof.
  split; refine (ttl_enforced state0 0 _ _ _ _); try (by vm_compute); by split.
Defined.

Lemma ttl_wraps_witness :
  enforce_ttl (Some (2^64 - 1)%Z) state0 0 = Panic
  \/ exists t, enforce_ttl (Some (2^64 - 1)%Z) state0 0 = Ok (Some t, Some (2^64 - 1)%Z) /\ (t < 0)%Z.
Proof.
  refine (ttl_wraps state0 0 (2^64 - 1) _ _); [by split|by vm_compute].
Defined.

End BrokerExamples.
