(* ===== verification/Issue.v ===== *)
(** Issuing secrets (handlers.rs): sealing and storing a secret
    ([persist_secret_v2_with_lifecycle]), and the handlers that wrap a given
    secret or mint a fresh key, with the redeem token whole or shared among
    custodians. *)

From S2P Require Import Prelude RustStd Externals Reference Macaroon MacaroonWire Threshold.
From S2P Require Import Transparency World SealedStore Config CryptoEngine Broker.

(** ** Requests and results *)

Record WrapV2Request := mkWrapReq {
  w_plaintext : bytes;
  w_customer_id : option str;
  w_metadata : option json;
  w_lifecycle : SecretLifecycle;
  w_ttl_seconds : option Z;
  w_initial_lease_seconds : option Z;
  w_label : option str;
  w_tenant_id : option str;
  w_provider : option str;
  w_circuit_id : option str;
  w_node_id : option str;
  w_unwrap_principal_id : option str;
}.

Record WrapSecretOutcome := mkWrapOut {
  wo_handle : str;
  wo_expires_at : option datetime;
  wo_redeem_token : str;
  wo_redeem_token_expires_at : option datetime;
}.

Record MintV2Request := mkMintReq {
  m_ttl_seconds : option Z;
  m_label : option str;
  m_tenant_id : option str;
  m_provider : option str;
  m_threshold : option Z;
  m_num_shares : option Z;
  m_lifecycle : SecretLifecycle;
  m_initial_lease_seconds : option Z;
  m_custodian_ids : list str;
  m_unwrap_principal_id : option str;
}.

Record MintV2Response := mkMintOut {
  mo_handle : str;
  mo_key : str;
  mo_expires_at : option datetime;
  mo_redeem_token : str;
  mo_redeem_token_expires_at : option datetime;
}.

Record PersistSecretV2Input := mkPersist {
  i_plaintext : bytes;
  i_customer_id : str;
  i_metadata : option json;
  i_created_at : datetime;
  i_expires_at : option datetime;
  i_lifecycle : SecretLifecycle;
  i_initial_lease_seconds : option Z;
  i_unwrap_principal_id : option str;
}.

Record StoredSecretOutcome := mkStored {
  o_handle_id : uuid;
  o_customer_id : str;
  o_expires_at : option datetime;
  o_envelope_key_id : str;
  o_redeem_token : str;
  o_redeem_token_expires_at : option datetime;
}.

(** [if let Some(x) = o { caveats.push(f(x)) }] *)
Definition caveat_opt {A} (f : A -> Caveat) (o : option A) : list Caveat :=
  match o with Some a => [f a] | None => [] end.

(** [o.and_then(normalize_optional_string)] *)
Definition normalized (o : option str) : option str :=
  match o with Some v => normalize_optional_string v | None => None end.

Section Issue.
Context `{TextCodecs} `{Hashes} `{JsonText} `{Aead} `{PqCrypto} `{Oracle} `{P256}.
Context `{!Serde KyberKeyPair} `{!Serde DilithiumKeyPair} `{!Serde KeyRecord}.
Context `{!Serde StoredEnvelopeRecord} `{!Serde EncryptedRecord} `{!Serde SecretEnvelope}.
Context `{!Serde (list Share)}.
(** What [Scalar::random] returns, by step and number of the call. *)
Variable random_scalars : nat -> nat -> scalar.
Variable state : BrokerState.

(** ** Sealing and storing *)

(** The redeem token's binding, its stored hash, and the exporter stored in
    the envelope: only single-use secrets are bound to the TLS session. *)
Definition session_binding (context : BrokerClientContext) (lifecycle : SecretLifecycle)
    : bytes * option str * option str :=
  let binding_hash := sha256 (exporter context) in
  match lifecycle with
  | SingleUseUnwrap =>
    (binding_hash, Some (b64_encode binding_hash), Some (b64_encode (exporter context)))
  | RenewableLease | ServiceBootstrap => ([], None, None)
  end.

(** [input.created_at + Duration::seconds(secs as i64)], when requested *)
Definition initial_lease (created_at : datetime) (secs : option Z)
    : result ServiceError.t (option datetime) :=
  match secs with
  | Some secs =>
    let! d := duration_seconds (as_i64 secs) in
    let! t := add_duration created_at d in
    Ok (Some t)
  | None => Ok None
  end.

Definition persist_secret_v2_with_lifecycle (context : BrokerClientContext)
    (input : PersistSecretV2Input) : H StoredSecretOutcome :=
  let* handle_id := new_uuid in
  let '(binding_vec, redeem_binding, exporter_binding) :=
    session_binding context (i_lifecycle input) in
  let* redeem_nonce := os_random 16 in
  let* redeem_deadline := lift (add_duration (i_created_at input) (redeem_token_ttl state)) in
  let redeem_token_bytes := compute_redeem_token state handle_id binding_vec redeem_nonce in
  let redeem_token := b64_encode redeem_token_bytes in
  let* key_uuid := new_uuid in
  let envelope_key_id := uuid_to_string key_uuid in
  let* encryption := map_err_m crypto_err
    (encrypt_pqc (crypto_config state) (crypto_store_key state) (i_plaintext input) envelope_key_id
       (i_customer_id input)
       (match exporter_binding with Some _ => Some (exporter context) | None => None end)) in
  let envelope := mkEnvelope envelope_key_id (er_algorithm encryption)
    (b64_encode (er_ciphertext encryption)) (b64_encode (er_nonce encryption))
    (i_customer_id input) exporter_binding (i_metadata input) (i_created_at input) in
  let* key_pair := map_err_m crypto_err
    (generate_key_pair (crypto_config state) (crypto_master_key state) #"dilithium5"
       (i_customer_id input)) in
  let envelope_bytes := to_vec envelope in
  let* signature := map_err_m crypto_err
    (sign_data (crypto_master_key state) envelope_bytes (kp_key_id key_pair)) in
  let* lease := lift (initial_lease (i_created_at input) (i_initial_lease_seconds input)) in
  let record := mkRecord envelope (b64_encode signature) (kp_key_id key_pair)
    (b64_encode (kp_public_key key_pair)) (kp_expires_at key_pair) (i_expires_at input) None
    (Some (b64_encode redeem_nonce)) redeem_binding (i_unwrap_principal_id input)
    (authenticated_transport context) (normalized_context_principal context)
    (b64_encode <$> peer_cert_sha256 context) (b64_encode <$> attestation_digest context)
    None (Some redeem_deadline) false None None (i_lifecycle input) lease 0 false None None None None in
  let* _ := map_err_m storage_err (insert_with_id (sealed_store state) handle_id record) in
  ret (mkStored handle_id (i_customer_id input) (i_expires_at input) envelope_key_id redeem_token
         (Some redeem_deadline)).

(** ** Wrapping a secret *)

Definition wrap_caveats (request : WrapV2Request) (expires_at : option datetime) : list Caveat :=
  caveat_opt TenantId (normalized (w_tenant_id request))
  ++ caveat_opt Provider (normalized (w_provider request))
  ++ caveat_opt CircuitId (normalized (w_circuit_id request))
  ++ caveat_opt NodeId (normalized (w_node_id request))
  ++ caveat_opt Expires expires_at
  ++ [Action #"unwrap"; MaxUses].

Definition wrap_meta (context : BrokerClientContext) (request : WrapV2Request) (v2_handle : str)
    (customer_id : str) (effective_ttl : option Z) (unwrap_principal_id : option str)
    : list (str * json) :=
  let meta := obj_insert #"purpose" (JString #"wrap-secret-v2") [] in
  let meta := obj_insert #"handle_version" (json_u64 2) meta in
  let meta := obj_insert #"lifecycle" (JString (secret_lifecycle_label (w_lifecycle request))) meta in
  let meta := obj_insert #"handle_fingerprint" (JString (handle_fingerprint v2_handle)) meta in
  let meta := append_context_transparency_meta context meta in
  let meta := obj_insert_opt #"label" JString (normalized (w_label request)) meta in
  let meta := obj_insert #"customer_id" (JString customer_id) meta in
  let meta := obj_insert_opt #"ttl_seconds" json_u64 effective_ttl meta in
  let meta := obj_insert_opt #"unwrap_principal_id" JString unwrap_principal_id meta in
  obj_insert_opt #"secret_metadata" (fun v => v) (w_metadata request) meta.

Definition wrap_secret_v2 (context : BrokerClientContext) (request : WrapV2Request)
    : H WrapSecretOutcome :=
  let* created_at := utc_now in
  let customer_id := default (default_customer_id state) (normalized (w_customer_id request)) in
  let* (expires_at, effective_ttl) := lift (enforce_ttl (w_ttl_seconds request) state created_at) in
  let* unwrap_principal_id := lift (v2_unwrap_principal context (w_lifecycle request)
                                      (w_unwrap_principal_id request)) in
  let* outcome := persist_secret_v2_with_lifecycle context
    (mkPersist (w_plaintext request) customer_id (w_metadata request) created_at expires_at
       (w_lifecycle request) (w_initial_lease_seconds request) unwrap_principal_id) in
  let handle_id := o_handle_id outcome in
  let root_key := macaroon_root_key state handle_id in
  let mac := mint root_key handle_id (wrap_caveats request (o_expires_at outcome)) in
  let v2_handle := format_handle mac in
  let meta := wrap_meta context request v2_handle (o_customer_id outcome) effective_ttl
                unwrap_principal_id in
  let* now := utc_now in
  let* _ := record_transparency (with_caller
    (ev_wrap now v2_handle (o_envelope_key_id outcome) (o_customer_id outcome) (Some (JObject meta)))
    (caller context)) in
  ret (mkWrapOut v2_handle (o_expires_at outcome) (o_redeem_token outcome)
         (o_redeem_token_expires_at outcome)).

(** ** Minting a key *)

(** [STANDARD.decode] and [try_into::<[u8; 32]>], then [threshold::split];
    shared with the rotation of a secret. *)
Definition split_redeem_token (redeem_token : str) (threshold num_shares : Z) : H SplitResult :=
  let* token_bytes := lift (ok_or (b64_decode redeem_token)
                              (ServiceError.Crypto ServiceError.BadRedeemToken)) in
  let* _ := lift (guard (negb (length token_bytes =? 32)%nat)
                    (ServiceError.Crypto ServiceError.BadRedeemToken)) in
  let* rs := interact random_scalars in
  lift (map_err (fun e => ServiceError.Crypto (ServiceError.FeldmanSplit e))
          (split rs token_bytes threshold num_shares)).

(** [custodian_ids.iter().enumerate()] with [split.shares[i].x] *)
Fixpoint assignments_for (custodian_ids : list str) (dealt : list Share)
    : result ServiceError.t (list ShareAssignment) :=
  match custodian_ids, dealt with
  | [], _ => Ok []
  | cid :: ids, s :: dealt =>
    let! rest := assignments_for ids dealt in Ok (mkAssignment cid (share_x s) false :: rest)
  | _ :: _, [] => Panic
  end.

Definition held_for (dealt : list Share) : list HeldShare :=
  map (fun s => mkHeld (share_x s) (b64_encode (share_y s))) dealt.

(** The redeem token of the response. *)
Definition mint_redeem_token (handle_id : uuid) (redeem_token : str) (threshold num_shares : Z)
    (custodian_mode : bool) (custodian_ids : list str) : H str :=
  if (1 <? threshold)%Z then
    let* dealt := split_redeem_token redeem_token threshold num_shares in
    let* _ := map_err_m storage_err (update_threshold_config (sealed_store state) handle_id threshold
                                       (map b64_encode (commitments dealt))) in
    if custodian_mode then
      let* assignments := lift (assignments_for custodian_ids (shares dealt)) in
      let* _ := map_err_m storage_err (update_share_assignments (sealed_store state) handle_id
                                         assignments (held_for (shares dealt))) in
      ret []
    else ret (to_vec (shares dealt))
  else ret redeem_token.

Definition mint_metadata (label : option str) (ttl : option Z) : list (str * json) :=
  let meta := obj_insert #"purpose" (JString #"aead-key") [] in
  let meta := obj_insert #"handle_version" (json_u64 2) meta in
  let meta := obj_insert_opt #"label" JString label meta in
  obj_insert_opt #"ttl_seconds" json_u64 ttl meta.

Definition mint_transparency (context : BrokerClientContext) (threshold num_shares : Z)
    (label unwrap_principal_id : option str) : list (str * json) :=
  let meta := obj_insert #"purpose" (JString #"aead-key-v2") [] in
  let meta := obj_insert #"handle_version" (json_u64 2) meta in
  let meta := obj_insert #"threshold" (json_u64 threshold) meta in
  let meta := obj_insert #"num_shares" (json_u64 num_shares) meta in
  let meta := append_context_transparency_meta context meta in
  let meta := obj_insert_opt #"label" JString label meta in
  obj_insert_opt #"unwrap_principal_id" JString unwrap_principal_id meta.

Definition mint_caveats (request : MintV2Request) (expires_at : option datetime) : list Caveat :=
  caveat_opt TenantId (m_tenant_id request) ++ caveat_opt Provider (m_provider request)
  ++ caveat_opt Expires expires_at ++ [Action #"unwrap"; MaxUses].

Definition mint_aead_key_v2 (context : BrokerClientContext) (request : MintV2Request)
    : H MintV2Response :=
  let* created_at := utc_now in
  let* (expires_at, ttl_seconds) := lift (enforce_ttl (m_ttl_seconds request) state created_at) in
  let* key_bytes := os_random 32 in
  let key_b64 := b64_encode key_bytes in
  let label := trim_nonempty (m_label request) in
  let threshold := default 1%Z (m_threshold request) in
  let num_shares := default 1%Z (m_num_shares request) in
  let* _ := lift (guard ((threshold <? 1)%Z || (num_shares <? threshold)%Z)
                    ServiceError.InvalidTtl) in
  let* unwrap_principal_id := lift (v2_unwrap_principal context (m_lifecycle request)
                                      (m_unwrap_principal_id request)) in
  let* outcome := persist_secret_v2_with_lifecycle context
    (mkPersist key_bytes (default_customer_id state)
       (Some (JObject (mint_metadata label ttl_seconds))) created_at expires_at
       (m_lifecycle request) (m_initial_lease_seconds request) unwrap_principal_id) in
  let handle_id := o_handle_id outcome in
  let mac := mint (macaroon_root_key state handle_id) handle_id (mint_caveats request expires_at) in
  let v2_handle := format_handle mac in
  let custodian_mode := (1 <? threshold)%Z && negb (is_empty (m_custodian_ids request)) in
  let* _ := lift (guard (custodian_mode
                         && negb (length (m_custodian_ids request) =? Z.to_nat num_shares)%nat)
                    ServiceError.InvalidTtl) in
  let* redeem_token := mint_redeem_token handle_id (o_redeem_token outcome) threshold num_shares
                         custodian_mode (m_custodian_ids request) in
  let* now := utc_now in
  let* _ := record_transparency (with_caller
    (ev_wrap now v2_handle (o_envelope_key_id outcome) (o_customer_id outcome)
       (Some (JObject (mint_transparency context threshold num_shares label unwrap_principal_id))))
    (caller context)) in
  ret (mkMintOut v2_handle key_b64 expires_at redeem_token (o_redeem_token_expires_at outcome)).

End Issue.

(** * Properties *)

Section IssueLaws.
Context `{TextCodecsLaws} `{HashesLaws} `{JsonText} `{AeadLaws} `{PqCryptoLaws} `{OracleLaws}.
Context `{!Serde KyberKeyPair} `{!Serde DilithiumKeyPair} `{!Serde KeyRecord}.
Context `{!Serde StoredEnvelopeRecord} `{!Serde EncryptedRecord} `{!Serde SecretEnvelope}.
Context `{!SerdeLaws KyberKeyPair (fun _ => True)} `{!SerdeLaws KeyRecord (fun _ => True)}.
Context `{!SerdeLaws StoredEnvelopeRecord record_ok} `{!SerdeLaws EncryptedRecord (fun _ => True)}.
Variable state : BrokerState.

Abbreviation config := (crypto_config state).

(** What the crypto engine needs to seal a secret for [customer] within [n]
    steps from [w]: post-quantum encryption and the signature algorithm are
    enabled, the customer has a free key, and the clock stays within the
    rotation interval. *)
Record engine_ready (customer : str) (n : nat) (w : World) : Prop := {
  ready_quantum : quantum_enabled config = true;
  ready_allowed : is_algorithm_allowed config #"dilithium5" = true;
  ready_quota : quota_free config customer w;
  ready_master : is_Some (crypto_master_key state);
  ready_rotation : forall t, tick w <= t <= tick w + n -> rotation_ok config t;
  ready_clock : forall t t', tick w <= t <= tick w + n -> tick w <= t' <= tick w + n ->
    (time_at t' <= time_at t + rotation config)%Z;
}.

(** The signature and the ciphertext of a record, and the plaintext it seals. *)
Record seals (data : bytes) (r : StoredEnvelopeRecord) (w : World) : Prop := {
  seals_signature : exists sg pk,
    b64_decode (r_signature r) = Some sg /\ b64_decode (r_signing_public_key r) = Some pk
    /\ verify_persisted_envelope_signature (envelope_bytes r) sg pk = Ok true;
  seals_envelope : exists er,
    b64_decode (e_ciphertext (r_envelope r)) = Some (er_ciphertext er)
    /\ b64_decode (e_kyber_ciphertext (r_envelope r)) = Some (er_nonce er)
    /\ decryptable (crypto_store_key state) data (e_envelope_key_id (r_envelope r)) er w;
}.

(** What [persist_secret_v2_with_lifecycle] writes for the caller's input. *)
Record issued (ctx : BrokerClientContext) (input : PersistSecretV2Input) (nonce : bytes)
    (r : StoredEnvelopeRecord) : Prop := {
  issued_nonce : r_redeem_nonce r = Some (b64_encode nonce);
  issued_binding : r_redeem_binding r = (session_binding ctx (i_lifecycle input)).1.2;
  issued_exporter : e_exporter_binding (r_envelope r) = (session_binding ctx (i_lifecycle input)).2;
  issued_deadline : r_redeem_expires_at r = Some (i_created_at input + redeem_token_ttl state)%Z;
  issued_unused : r_redeem_used r = false;
  issued_live : r_revoked r = false;
  issued_lifecycle : r_lifecycle r = i_lifecycle input;
  issued_expiry : r_expires_at r = i_expires_at input;
  issued_lease : initial_lease (i_created_at input) (i_initial_lease_seconds input) = Ok (r_lease_expires_at r);
  issued_principal : r_unwrap_principal_id r = i_unwrap_principal_id input;
  issued_transport : r_issued_with_authenticated_transport r = authenticated_transport ctx;
  issued_by : r_issued_by_principal_id r = normalized_context_principal ctx;
  issued_peer : r_issued_by_peer_cert_sha256 r = b64_encode <$> peer_cert_sha256 ctx;
  issued_attestation : r_issued_by_attestation_digest r = b64_encode <$> attestation_digest ctx;
  issued_caveat_keys : r_third_party_caveat_keys r = None;
  issued_threshold : r_threshold r = None;
  issued_no_custody : r_share_assignments r = None /\ r_held_shares r = None;
  issued_customer : e_customer_id (r_envelope r) = i_customer_id input;
}.

(** The metadata of a secret survives its JSON form. *)
Definition metadata_ok (m : option json) : Prop :=
  match m with Some j => j <> JNull /\ json_exact j = true /\ printable j = true | None => True end.

Lemma insert_ok h r w :
  store_inv (sealed_store state) w -> record_ok r ->
  wp (insert_with_id (sealed_store state) h r) w (fun _ w' =>
    records (sealed_store state) w' = <[h := r]> (records (sealed_store state) w)
    /\ store_inv (sealed_store state) w' /\ kyber_keys w' = kyber_keys w
    /\ key_metadata w' = key_metadata w /\ logger w' = logger w /\ within 1 w w').
Proof.
  intros Hi Hr. unfold insert_with_id, seal_record, encrypt_payload, tree_insert. wp_run.
  split; [by apply (records_set _ w _ h r (tick w))|].
  split; [by apply (store_inv_set _ w _ h r (tick w))|].
  repeat split; unfold within; cbn; lia.
Qed.

Lemma persist_ok ctx input w :
  store_inv (sealed_store state) w -> engine_ready (i_customer_id input) 23 w ->
  metadata_ok (i_metadata input) ->
  rfc3339_range (i_created_at input + redeem_token_ttl state) ->
  is_ok (initial_lease (i_created_at input) (i_initial_lease_seconds input)) = true ->
  wp (persist_secret_v2_with_lifecycle state ctx input) w (fun o w' =>
    exists nonce r, issued ctx input nonce r /\ seals (i_plaintext input) r w'
      /\ o = mkStored (o_handle_id o) (i_customer_id input) (i_expires_at input)
               (e_envelope_key_id (r_envelope r))
               (b64_encode (compute_redeem_token state (o_handle_id o)
                  (session_binding ctx (i_lifecycle input)).1.1 nonce))
               (Some (i_created_at input + redeem_token_ttl state)%Z)
      /\ length (o_handle_id o) = 16
      /\ records (sealed_store state) w' = <[o_handle_id o := r]> (records (sealed_store state) w)
      /\ store_inv (sealed_store state) w' /\ logger w' = logger w /\ within 23 w w'
      /\ (exists t, t < tick w' /\ e_envelope_key_id (r_envelope r) = uuid_to_string (uuid_at t))
      /\ exists t, tick w <= t <= tick w + 23 /\ r_signing_key_expires_at r
           = if key_rotation_enabled config then Some (time_at t + rotation config)%Z else None).
Proof.
  intros Hi [Hq Ha Hquota [mk Hmk] Hrot Hclock] Hm Hd Hl.
  destruct (initial_lease _ _) as [lease| |] eqn:HL; [|discriminate Hl..].
  unfold persist_secret_v2_with_lifecycle. wp_run. set (h := uuid_at (tick w)).
  destruct (session_binding ctx (i_lifecycle input)) as [[bv rb] eb] eqn:SB. wp_run.
  eapply wp_lift; [by apply add_duration_ok|]. wp_run.
  set (nonce := random_at _ 16). set (kid := uuid_to_string _).
  eapply wp_mono; [by apply encrypt_pqc_ok|].
  intros er w1 (_ & Hdec & ((F1 & F2) & F3 & F4 & _) & T1). wp_run.
  unfold within in T1. cbn in T1, F1, F2, F3, F4.
  eapply wp_mono.
  { apply (generate_signing_key_ok _ _ _ _ mk); [done| |done|intros; apply Hrot; lia].
    unfold quota_free in *. by rewrite F4. }
  intros kp w2 (Hkey & (G1 & G2 & G3 & G4) & T2 & _ & t & Ht & Hexp). wp_run.
  unfold within in T2. set (env := mkEnvelope _ _ _ _ _ _ _ _).
  eapply wp_mono.
  { apply sign_data_ok; [exact Hkey|]. intros t' Ht'. unfold is_key_expired. rewrite Hexp.
    destruct (key_rotation_enabled config); [|done]. apply Z.ltb_ge, Hclock; lia. }
  intros sg w3 (Hver & (K1 & K2 & K3 & K4) & T3 & _). wp_run. unfold within in T3.
  apply (wp_lift _ lease); [done|]. wp_run.
  eapply wp_mono; [apply insert_ok; [|exact Hm]|].
  { eapply store_inv_same, Hi. congruence. }
  intros _ w4 (I1 & I2 & I3 & I4 & I5 & I6). wp_run. unfold within in I6.
  set (r := mkRecord _ _ _ _ _ _ _ _ _ _ _ _ _ _ _ _ _ _ _ _ _ _ _ _ _ _ _) in *.
  exists nonce, r. cbn [o_handle_id]. repeat match goal with |- _ /\ _ => split end.
  - split; try done; by rewrite SB.
  - split.
    + exists sg, (kp_public_key kp). cbn [r r_signature r_signing_public_key].
      rewrite !b64_roundtrip. by repeat split.
    + exists er. cbn [r r_envelope env e_ciphertext e_kyber_ciphertext e_envelope_key_id].
      rewrite !b64_roundtrip. repeat split. destruct Hdec as (kyp & ss & Hst & Hrest).
      exists kyp, ss. split; [|done]. eapply stored_kyber_same, Hst. congruence.
  - done.
  - apply uuid_length.
  - rewrite I1. f_equal. apply records_same. congruence.
  - done.
  - congruence.
  - unfold within. cbn. lia.
  - exists (S (S (tick w))). split; [lia|done].
  - exists t. split; [cbn in Ht; lia|done].
Qed.

Lemma engine_ready_later customer n k w w' :
  key_metadata w' = key_metadata w -> tick w <= tick w' -> tick w' + k <= tick w + n ->
  engine_ready customer n w -> engine_ready customer k w'.
Proof.
  intros Hk Hlo Hhi [? ? Hq ? Hr Hc]. split; try done.
  - unfold quota_free in *. by rewrite Hk.
  - intros. apply Hr. lia.
  - intros. apply Hc; lia.
Qed.

Lemma seals_same data r w w' :
  kyber_keys w' = kyber_keys w -> seals data r w -> seals data r w'.
Proof.
  intros E [Hs (er & ? & ? & kp & ss & Hst & ?)]. split; [done|]. exists er. repeat split; try done.
  exists kp, ss. split; [|done]. eapply stored_kyber_same, Hst. by rewrite E.
Qed.

(** The handle of the stored secret is the identifier drawn first. *)
Lemma persist_drawn ctx input w o w' :
  persist_secret_v2_with_lifecycle state ctx input w = (Ok o, w') -> o_handle_id o = uuid_at (tick w).
Proof.
  unfold persist_secret_v2_with_lifecycle.
  destruct (session_binding ctx (i_lifecycle input)) as [[bv rb] eb]. intros E.
  apply bind_ok in E as (h & w1 & Hh & E). injection Hh as <- <-. by monad_inv.
Qed.

(** What the response and the state say after a successful wrap. *)
Record wrapped (ctx : BrokerClientContext) (input : PersistSecretV2Input) (cs : list Caveat)
    (o : WrapSecretOutcome) (h : uuid) (r : StoredEnvelopeRecord) (w w' : World) : Prop := {
  wrapped_issued : exists nonce, issued ctx input nonce r
    /\ wo_redeem_token o = b64_encode (compute_redeem_token state h
         (session_binding ctx (i_lifecycle input)).1.1 nonce);
  wrapped_seals : seals (i_plaintext input) r w';
  wrapped_handle : wo_handle o = format_handle (mint (macaroon_root_key state h) h cs);
  wrapped_uuid : length h = 16;
  wrapped_records : records (sealed_store state) w' = <[h := r]> (records (sealed_store state) w);
  wrapped_inv : store_inv (sealed_store state) w';
  wrapped_within : within 26 w w';
  wrapped_key_id : exists t, t < tick w' /\ e_envelope_key_id (r_envelope r) = uuid_to_string (uuid_at t);
  wrapped_key : exists t, tick w <= t <= tick w + 26 /\ r_signing_key_expires_at r
    = if key_rotation_enabled config then Some (time_at t + rotation config)%Z else None;
  wrapped_times : wo_expires_at o = i_expires_at input
    /\ wo_redeem_token_expires_at o = Some (i_created_at input + redeem_token_ttl state)%Z;
  wrapped_drawn : exists t, tick w <= t <= tick w' /\ h = uuid_at t;
}.

Definition wrap_input (request : WrapV2Request) (created_at : datetime) (expires_at : option datetime)
    (principal : option str) : PersistSecretV2Input :=
  mkPersist (w_plaintext request) (default (default_customer_id state) (normalized (w_customer_id request)))
    (w_metadata request) created_at expires_at (w_lifecycle request)
    (w_initial_lease_seconds request) principal.

Lemma wrap_ok ctx request w expires ttl principal :
  let created := time_at (tick w) in
  let input := wrap_input request created expires principal in
  store_inv (sealed_store state) w -> engine_ready (i_customer_id input) 26 w ->
  metadata_ok (w_metadata request) ->
  enforce_ttl (w_ttl_seconds request) state created = Ok (expires, ttl) ->
  v2_unwrap_principal ctx (w_lifecycle request) (w_unwrap_principal_id request) = Ok principal ->
  rfc3339_range (created + redeem_token_ttl state) ->
  is_ok (initial_lease created (w_initial_lease_seconds request)) = true ->
  wp (wrap_secret_v2 state ctx request) w (fun o w' =>
    exists h r, wrapped ctx input (wrap_caveats request expires) o h r w w').
Proof.
  intros created input Hi HR Hm Ht Hp Hd Hl. unfold wrap_secret_v2. wp_run.
  apply (wp_lift _ (expires, ttl)); [done|]. wp_run. apply (wp_lift _ principal); [done|]. wp_run.
  pose proof (persist_ok ctx input (advance w) Hi) as HP.
  ospecialize (HP _ Hm Hd Hl); [eapply engine_ready_later, HR; cbn; lia || done|].
  apply wp_eq in HP as (o & w1 & E1 & nonce & r & Hiss & Hs & Ho & Hlen & Hrec & Hinv & _ & T1
    & (tk & Htk & Hkid) & t & Htt & Hexp).
  apply wp_eq. exists o, w1. split; [exact E1|]. pose proof (persist_drawn _ _ _ _ _ E1) as Hdraw. wp_run.
  eapply wp_mono; [apply record_transparency_ok|].
  intros _ w2 ((L1 & L2 & _) & T2). wp_run. unfold within in T1, T2. cbn in T1, T2, L1, L2, Htt.
  exists (o_handle_id o), r. rewrite Ho. cbn [o_expires_at o_handle_id o_redeem_token]. split.
  - exists nonce. by split.
  - by eapply seals_same, Hs.
  - done.
  - done.
  - rewrite (records_same _ w1 w2) by done. exact Hrec.
  - by eapply store_inv_same, Hinv.
  - unfold within. lia.
  - exists tk. split; [lia|done].
  - exists t. split; [lia|done].
  - done.
  - exists (tick (advance w)). cbn. split; [lia|exact Hdraw].
Qed.

(** Nothing is stored, encrypted or logged. *)
Lemma wrap_refused_early ctx request w e :
  (enforce_ttl (w_ttl_seconds request) state (time_at (tick w)) = Err e \/
   (exists p, enforce_ttl (w_ttl_seconds request) state (time_at (tick w)) = Ok p) /\
   v2_unwrap_principal ctx (w_lifecycle request) (w_unwrap_principal_id request) = Err e) ->
  wrap_secret_v2 state ctx request w = (Err e, advance w).
Proof.
  unfold wrap_secret_v2, utc_now, interact, lift. unfold bind at 1 2 3.
  intros [->|[[[x t] ->] HP]]; [done|]. unfold bind at 1. by rewrite HP.
Qed.

End IssueLaws.
