(* ===== verification/Unwrap.v ===== *)
(** Redeeming a handle (handlers.rs, [unwrap_secret_v2_impl]): the checks on
    the macaroon, the record and the redeem token, decryption, and the
    consumption of single-use tokens. *)

From S2P Require Import Prelude RustStd Externals Reference Macaroon MacaroonWire Threshold.
From S2P Require Import Transparency World SealedStore Config CryptoEngine Broker Issue.

Record UnwrapV2Request := mkUnwrapReq {
  u_handle : str;
  u_redeem_token : str;
  u_tenant_id : option str;
  u_provider : option str;
  u_circuit_id : option str;
  u_node_id : option str;
  u_discharges : list DischargeMacaroon;
}.

(** The plaintext in base64. *)
Record UnwrapResponse := mkUnwrapOut { plaintext : str }.

Section Unwrap.
Context `{TextCodecs} `{Hashes} `{JsonText} `{Aead} `{PqCrypto} `{Oracle} `{P256}.
Context `{!Serde KyberKeyPair} `{!Serde DilithiumKeyPair} `{!Serde KeyRecord}.
Context `{!Serde StoredEnvelopeRecord} `{!Serde EncryptedRecord} `{!Serde SecretEnvelope}.
Context `{!Serde (list Share)}.
Variable state : BrokerState.

(** ** The handle *)

Definition unwrap_verifier (payload : UnwrapV2Request) (now : datetime)
    (keys : list DischargeKeyRef) : CaveatVerifier :=
  mkVerifier (u_tenant_id payload) (u_provider payload) (u_circuit_id payload) (u_node_id payload)
    (Some #"unwrap") 1 now (u_discharges payload) keys.

Definition macaroon_err (e : MacaroonError) : ServiceError.t :=
  match e with
  | SignatureInvalid => ServiceError.InvalidHandle
  | Macaroon.Expired => ServiceError.ExpiredHandle
  | other => ServiceError.Crypto (ServiceError.MacaroonRejected other)
  end.

(** ** The record *)

(** The checks between the macaroon and the redeem token, at time [now]. *)
Definition check_record (context : BrokerClientContext) (r : StoredEnvelopeRecord) (now : datetime)
    : result ServiceError.t unit :=
  let! _ := guard (r_revoked r) ServiceError.RevokedHandle in
  let! _ := guard (is_expired r now) ServiceError.ExpiredHandle in
  let! _ := validate_v2_record_identity_requirements r context in
  let! _ :=
    (if bool_decide (r_lifecycle r = RenewableLease) then
       match r_lease_expires_at r with
       | Some lease_exp => guard (lease_exp <? now)%Z
                             (ServiceError.Crypto (ServiceError.LeaseExpired lease_exp))
       | None => Ok tt
       end
     else Ok tt) in
  let! _ :=
    (match r_signing_key_expires_at r with
     | Some t => guard (t <? now)%Z (ServiceError.Crypto (ServiceError.SigningKeyExpired t))
     | None => Ok tt
     end) in
  let! signature := map_err storage_err (signature_bytes r) in
  let! signing_public_key := ok_or (b64_decode (r_signing_public_key r)) ServiceError.SignatureInvalid in
  let! verified := map_err crypto_err
    (verify_persisted_envelope_signature (envelope_bytes r) signature signing_public_key) in
  guard (negb verified) ServiceError.SignatureInvalid.

(** ** The redeem token *)

(** The binding the token was computed with: the caller's TLS session for a
    record that stores one, nothing for leases and bootstrap secrets. *)
Definition effective_binding (context : BrokerClientContext) (r : StoredEnvelopeRecord)
    : result ServiceError.t bytes :=
  let binding_hash := sha256 (exporter context) in
  let unbound :=
    if bool_decide (r_lifecycle r = SingleUseUnwrap) then Err ServiceError.RedeemTokenInvalid
    else Ok [] in
  match r_redeem_binding r with
  | Some redeem_binding =>
    if is_empty redeem_binding then unbound
    else
      let! _ := guard (negb (str_eqb redeem_binding (b64_encode binding_hash)))
                  ServiceError.RedeemTokenInvalid in
      Ok binding_hash
  | None => unbound
  end.

(** The token the caller presents: shares that reconstruct it, or the token. *)
Definition provided_token (r : StoredEnvelopeRecord) (redeem_token : str)
    : result ServiceError.t bytes :=
  match r_threshold r with
  | Some threshold_val =>
    if (1 <? threshold_val)%Z then
      let! shares := ok_or (from_slice (A := list Share) redeem_token) ServiceError.RedeemTokenInvalid in
      let! stored := ok_or (r_threshold_commitments r) ServiceError.RedeemTokenInvalid in
      let! commitments := collect (fun c => ok_or (b64_decode c) ServiceError.RedeemTokenInvalid) stored in
      map_err (fun _ => ServiceError.RedeemTokenInvalid) (reconstruct shares threshold_val commitments)
    else ok_or (b64_decode redeem_token) ServiceError.RedeemTokenInvalid
  | None => ok_or (b64_decode redeem_token) ServiceError.RedeemTokenInvalid
  end.

(** [record.threshold.unwrap_or(1) > 1] *)
Definition is_threshold (r : StoredEnvelopeRecord) : bool := (1 <? default 1%Z (r_threshold r))%Z.

Definition comparable_token (r : StoredEnvelopeRecord) (expected : bytes) : result ServiceError.t bytes :=
  if is_threshold r then
    let! _ := guard (negb (length expected =? SHARE_LENGTH)%nat) ServiceError.RedeemTokenInvalid in
    Ok (canonical_secret_bytes expected)
  else Ok expected.

Definition is_renewable (r : StoredEnvelopeRecord) : bool := bool_decide (r_lifecycle r = RenewableLease).

Definition check_redeem_token (context : BrokerClientContext) (handle_id : uuid)
    (r : StoredEnvelopeRecord) (redeem_token : str) (now : datetime) : result ServiceError.t unit :=
  let! redeem_nonce_b64 := ok_or (r_redeem_nonce r) ServiceError.RedeemTokenInvalid in
  let! binding := effective_binding context r in
  let! _ := guard (negb (is_renewable r) && r_redeem_used r) ServiceError.RedeemTokenUsed in
  let! redeem_expires_at := ok_or (r_redeem_expires_at r) ServiceError.RedeemTokenInvalid in
  let! _ := guard (redeem_expires_at <? now)%Z ServiceError.RedeemTokenExpired in
  let! redeem_nonce := ok_or (b64_decode redeem_nonce_b64) ServiceError.RedeemTokenInvalid in
  let expected_token := compute_redeem_token state handle_id binding redeem_nonce in
  let! provided := provided_token r redeem_token in
  let! expected := comparable_token r expected_token in
  guard (negb (str_eqb provided expected)) ServiceError.RedeemTokenInvalid.

(** ** Decryption *)

Definition decrypt_record_payload (context : BrokerClientContext) (r : StoredEnvelopeRecord) : H bytes :=
  let* exporter_binding := lift (map_err storage_err (exporter_binding_bytes r)) in
  let* _ := lift (guard (match exporter_binding with
                         | Some binding => negb (str_eqb binding (exporter context))
                         | None => false
                         end) ServiceError.ExporterBindingMismatch) in
  let* ciphertext := lift (map_err storage_err (ciphertext_bytes r)) in
  let* kem_cipher := lift (map_err storage_err (kem_ciphertext_bytes r)) in
  map_err_m crypto_err
    (decrypt_pqc (crypto_config state) (crypto_store_key state) ciphertext kem_cipher
       (e_envelope_key_id (r_envelope r)) (e_customer_id (r_envelope r)) exporter_binding).

Definition mark_redeem_token_used (handle : uuid) : M World StoreError unit :=
  mark_redeem_used (sealed_store state) handle.

Definition unwrap_label (lifecycle : SecretLifecycle) : str :=
  match lifecycle with
  | RenewableLease => #"lease_unwrap"
  | ServiceBootstrap => #"bootstrap_unwrap"
  | SingleUseUnwrap => #"unwrap"
  end.

Definition unwrap_meta (context : BrokerClientContext) (r : StoredEnvelopeRecord) : list (str * json) :=
  let m := obj_insert #"lifecycle" (JString (unwrap_label (r_lifecycle r))) [] in
  let m := append_context_transparency_meta context m in
  let m := obj_insert #"issued_with_authenticated_transport"
             (JBool (r_issued_with_authenticated_transport r)) m in
  let m := obj_insert_opt #"issued_by_principal_id" JString (r_issued_by_principal_id r) m in
  let m := obj_insert_opt #"issued_by_peer_cert_sha256" JString (r_issued_by_peer_cert_sha256 r) m in
  let m := obj_insert_opt #"issued_by_attestation_digest" JString (r_issued_by_attestation_digest r) m in
  let m := obj_insert_opt #"unwrap_principal_id" JString (r_unwrap_principal_id r) m in
  if is_renewable r then obj_insert #"lease_renewal_count" (json_u64 (r_lease_renewal_count r)) m else m.

(** ** The handler, in two parts

    [authorize_unwrap] runs up to the redeem token check; [complete_unwrap]
    decrypts, consumes the token and logs. *)

Definition authorize_unwrap (context : BrokerClientContext) (payload : UnwrapV2Request)
    : H (uuid * StoredEnvelopeRecord) :=
  let* mac := lift (parse_handle_v2 (u_handle payload)) in
  let handle_id := identifier mac in
  let* found := map_err_m storage_err (load (sealed_store state) handle_id) in
  let* r := lift (ok_or found ServiceError.HandleNotFound) in
  let root_key := macaroon_root_key state handle_id in
  let* now := utc_now in
  let* keys := lift (discharge_keys_for_record r) in
  let* _ := lift (map_err macaroon_err (verify mac root_key (unwrap_verifier payload now keys))) in
  let* now := utc_now in
  let* _ := lift (check_record context r now) in
  let* _ := lift (check_redeem_token context handle_id r (u_redeem_token payload) now) in
  ret (handle_id, r).

Definition complete_unwrap (context : BrokerClientContext) (payload : UnwrapV2Request)
    (handle_id : uuid) (r : StoredEnvelopeRecord) : H UnwrapResponse :=
  let* data := decrypt_record_payload context r in
  let* _ := (if is_renewable r then ret tt
             else map_err_m storage_err (mark_redeem_token_used handle_id)) in
  let* now := utc_now in
  let* _ := record_transparency (with_caller
    (ev_unwrap now (u_handle payload) (Some (e_envelope_key_id (r_envelope r)))
       (e_customer_id (r_envelope r)) (Some (JObject (unwrap_meta context r))))
    (caller context)) in
  ret (mkUnwrapOut (b64_encode data)).

Definition unwrap_secret_v2 (context : BrokerClientContext) (payload : UnwrapV2Request)
    : H UnwrapResponse :=
  let* (handle_id, r) := authorize_unwrap context payload in
  complete_unwrap context payload handle_id r.

End Unwrap.

(** * Properties *)

Section UnwrapLaws.
Context `{TextCodecsLaws} `{HashesLaws} `{JsonText} `{AeadLaws} `{PqCryptoLaws} `{OracleLaws} `{P256}.
Context `{!Serde KyberKeyPair} `{!Serde DilithiumKeyPair} `{!Serde KeyRecord}.
Context `{!Serde StoredEnvelopeRecord} `{!Serde EncryptedRecord} `{!Serde SecretEnvelope}.
Context `{!Serde (list Share)}.
Context `{!SerdeLaws KyberKeyPair (fun _ => True)} `{!SerdeLaws KeyRecord (fun _ => True)}.
Context `{!SerdeLaws StoredEnvelopeRecord record_ok} `{!SerdeLaws EncryptedRecord (fun _ => True)}.
Variable state : BrokerState.

Abbreviation cipher := (sealed_store state).

(** Everything the handler requires of the request, the macaroon and the
    record: the macaroon checked at time [t1], the record at time [t2]. *)
Record grants (ctx : BrokerClientContext) (payload : UnwrapV2Request) (m : Macaroon)
    (r : StoredEnvelopeRecord) (t1 t2 : datetime) : Prop := {
  grants_macaroon : exists keys, discharge_keys_for_record r = Ok keys
    /\ verify m (macaroon_root_key state (identifier m)) (unwrap_verifier payload t1 keys) = Ok tt;
  grants_record : check_record ctx r t2 = Ok tt;
  grants_token : check_redeem_token state ctx (identifier m) r (u_redeem_token payload) t2 = Ok tt;
}.

Lemma grants_accessed ctx payload m r a t1 t2 :
  grants ctx payload m (set_last_accessed a r) t1 t2 <-> grants ctx payload m r t1 t2.
Proof. split; intros [? ? ?]; by split. Qed.

Lemma authorize_ok ctx payload m r w :
  store_inv cipher w -> parse_handle_v2 (u_handle payload) = Ok m ->
  records cipher w !! identifier m = Some r ->
  grants ctx payload m r (time_at (tick w + 2)) (time_at (tick w + 3)) ->
  wp (authorize_unwrap state ctx payload) w (fun '(h, r') w' =>
    h = identifier m /\ r' = set_last_accessed (Some (time_at (tick w))) r
    /\ records cipher w' = <[identifier m := r']> (records cipher w)
    /\ store_inv cipher w' /\ store_only w w' /\ tick w' = tick w + 4).
Proof.
  intros Hi Hp Hr [(keys & Hk & Hv) Hc Ht]. unfold authorize_unwrap. wp_run.
  apply (wp_lift _ m); [done|]. wp_run.
  destruct (load_some cipher _ r w Hi Hr) as (w1 & Hl & Hrec & Hinv & Hso & Htick).
  apply wp_eq. do 2 eexists. split; [exact Hl|]. wp_run.
  eapply wp_lift; [reflexivity|]. wp_run. apply (wp_lift _ keys); [exact Hk|]. wp_run.
  apply (wp_lift _ tt); [rewrite Htick, Hv; done|]. wp_run.
  change (tick (advance w1)) with (S (tick w1)). replace (S (tick w1)) with (tick w + 3) by lia.
  apply (wp_lift _ tt); [exact Hc|]. wp_run. apply (wp_lift _ tt); [exact Ht|]. wp_run.
  repeat split; try done; try apply Hso. cbn. lia.
Qed.

Lemma authorize_inv ctx payload w h r' w' :
  store_inv cipher w -> authorize_unwrap state ctx payload w = (Ok (h, r'), w') ->
  exists m r, parse_handle_v2 (u_handle payload) = Ok m /\ h = identifier m
    /\ records cipher w !! h = Some r /\ r' = set_last_accessed (Some (time_at (tick w))) r
    /\ grants ctx payload m r (time_at (tick w + 2)) (time_at (tick w + 3))
    /\ records cipher w' = <[h := r']> (records cipher w)
    /\ store_inv cipher w' /\ store_only w w' /\ tick w' = tick w + 4.
Proof.
  intros Hi E. unfold authorize_unwrap in E.
  apply bind_ok in E as (m & s0 & Hp & E). unfold lift in Hp. injection Hp as Hp <-.
  apply bind_ok in E as (found & w1 & Hl & E). apply map_err_m_ok in Hl.
  destruct (records cipher w !! identifier m) as [r|] eqn:Hr.
  2: { rewrite load_none in Hl by done. injection Hl as <- <-. cbn in E. discriminate E. }
  destruct (load_some cipher _ r w Hi Hr) as (w2 & Hl2 & Hrec & Hinv & Hso & Htick).
  rewrite Hl2 in Hl. injection Hl as <- <-.
  apply bind_ok in E as (r0 & s1 & Hr0 & E). injection Hr0 as <- <-.
  apply bind_ok in E as (n1 & s2 & Hn1 & E). injection Hn1 as <- <-.
  apply bind_ok in E as (keys & s3 & Hk & E). unfold lift in Hk. injection Hk as Hk <-.
  apply bind_ok in E as ([] & s4 & Hv & E). unfold lift in Hv. injection Hv as Hv <-.
  apply map_err_ok in Hv.
  apply bind_ok in E as (n2 & s5 & Hn2 & E). injection Hn2 as <- <-.
  apply bind_ok in E as ([] & s6 & Hc & E). unfold lift in Hc. injection Hc as Hc <-.
  apply bind_ok in E as ([] & s7 & Ht & E). unfold lift in Ht. injection Ht as Ht <-.
  injection E as <- <- <-. cbn [tick advance] in *.
  replace (S (tick w2)) with (tick w + 3) in Hc, Ht by lia. rewrite Htick in Hv.
  exists m, r. repeat split; try done; try apply Hso; try (cbn; lia).
  exists keys. by split.
Qed.

(** The effect of a completed unwrap on the records. *)
Definition consume (r : StoredEnvelopeRecord) : StoredEnvelopeRecord :=
  if is_renewable r then r else set_redeem_used r.

Lemma mark_used_ok h r w :
  store_inv cipher w -> records cipher w !! h = Some r ->
  wp (mark_redeem_token_used state h) w (fun _ w' =>
    records cipher w' = <[h := set_redeem_used r]> (records cipher w)
    /\ store_inv cipher w' /\ store_only w w' /\ tick w' = tick w + 1).
Proof.
  intros Hi Hr. apply wp_eq.
  destruct (update_some cipher h (fun r => ret (set_redeem_used r, tt)) r (set_redeem_used r) tt w w Hi Hr
    eq_refl eq_refl) as (w' & Hw & ? & ? & ? & ?); [exact (records_ok cipher w h r Hi Hr)|].
  exists tt, w'. split; [exact Hw|]. split; [done|]. split; [done|]. split; [done|lia].
Qed.

Lemma decrypt_payload_ok ctx r data w :
  quantum_enabled (crypto_config state) = true -> seals state data r w ->
  match e_exporter_binding (r_envelope r) with
  | Some b => b64_decode b = Some (exporter ctx) | None => True
  end ->
  wp (decrypt_record_payload state ctx r) w (fun d w' => d = data /\ same_data w w' /\ within 2 w w').
Proof.
  intros Hq [_ (er & Hc & Hk & Hd)] He. unfold decrypt_record_payload. wp_run.
  set (eb := match e_exporter_binding (r_envelope r) with Some _ => Some (exporter ctx) | None => None end).
  apply (wp_lift _ eb).
  { unfold exporter_binding_bytes, eb. destruct (e_exporter_binding _); [by rewrite He|done]. }
  wp_run. apply (wp_lift _ tt).
  { unfold eb. destruct (e_exporter_binding _); [by rewrite str_eqb_refl|done]. }
  wp_run. apply (wp_lift _ (er_ciphertext er)); [unfold ciphertext_bytes; by rewrite Hc|].
  wp_run. apply (wp_lift _ (er_nonce er)); [unfold kem_ciphertext_bytes; by rewrite Hk|].
  wp_run. by apply decrypt_pqc_ok.
Qed.

Lemma complete_ok ctx payload h r r0 data w :
  store_inv cipher w -> quantum_enabled (crypto_config state) = true -> seals state data r w ->
  match e_exporter_binding (r_envelope r) with
  | Some b => b64_decode b = Some (exporter ctx) | None => True
  end ->
  records cipher w !! h = Some r0 -> r_lifecycle r0 = r_lifecycle r ->
  wp (complete_unwrap state ctx payload h r) w (fun o w' =>
    o = mkUnwrapOut (b64_encode data)
    /\ records cipher w' = <[h := consume r0]> (records cipher w)
    /\ store_inv cipher w' /\ kyber_keys w' = kyber_keys w /\ within 5 w w').
Proof.
  intros Hi Hq Hs He Hr Hlc. unfold complete_unwrap. wp_run.
  eapply wp_mono; [by apply decrypt_payload_ok|].
  intros d w1 (-> & (F1 & F2 & F3 & F4 & F5 & F6) & T1). unfold within in T1.
  assert (wp (if is_renewable r then ret tt else map_err_m storage_err (mark_redeem_token_used state h)) w1
    (fun _ w2 => records cipher w2 = <[h := consume r0]> (records cipher w) /\ store_inv cipher w2
       /\ kyber_keys w2 = kyber_keys w1 /\ within 1 w1 w2)) as HM.
  { unfold consume, is_renewable. rewrite Hlc. pose proof (records_same cipher w w1 F1) as Hrec.
    destruct (bool_decide _); wp_run.
    - rewrite insert_id by done. repeat split; [done|by eapply store_inv_same|unfold within; lia..].
    - eapply wp_mono; [apply mark_used_ok; [by eapply store_inv_same|by rewrite Hrec]|].
      intros _ w2 (? & ? & (? & _) & ?). rewrite <- Hrec. repeat split; try done; unfold within; lia. }
  wp_run. eapply wp_mono; [exact HM|]. intros _ w2 (R2 & I2 & K2 & T2). unfold within in T2. wp_run.
  eapply wp_mono; [apply record_transparency_ok|].
  intros _ w3 ((L1 & L2 & _) & T3). unfold within in T3. cbn in L1, L2, T3. wp_run.
  split; [done|]. split; [by rewrite (records_same cipher w2 w3)|].
  split; [by eapply store_inv_same|]. split; [congruence|]. unfold within. lia.
Qed.

Lemma decrypt_payload_frame ctx r : frames same_data (decrypt_record_payload state ctx r).
Proof.
  unfold decrypt_record_payload, decrypt_pqc, decrypt_with_mlkem, load_kyber_keypair, load_keypair.
  frame_run.
Qed.

(** Whatever a sealed record decrypts to is the data it seals, and the caller
    has the TLS session the envelope is bound to, if any. *)
Lemma decrypt_payload_inv ctx r r0 data w w0 d w' :
  seals state data r0 w0 -> r_envelope r = r_envelope r0 ->
  kyber_keys w !! e_envelope_key_id (r_envelope r0) = kyber_keys w0 !! e_envelope_key_id (r_envelope r0) ->
  decrypt_record_payload state ctx r w = (Ok d, w') ->
  d = data /\ forall b, e_exporter_binding (r_envelope r0) = Some b -> b64_decode b = Some (exporter ctx).
Proof.
  intros [_ (er & Hc & Hk & kp & ss & Hst & Hss & Hd)] He Hky E. unfold decrypt_record_payload in E.
  apply bind_ok in E as (eb & s0 & Heb & E). unfold lift in Heb. injection Heb as Heb <-.
  apply map_err_ok in Heb. unfold exporter_binding_bytes in Heb. rewrite He in Heb.
  apply bind_ok in E as ([] & s1 & Hg & E). unfold lift in Hg. injection Hg as Hg <-. apply guard_ok in Hg.
  apply bind_ok in E as (ct & s2 & Hct & E). unfold lift in Hct. injection Hct as Hct <-.
  unfold ciphertext_bytes in Hct. rewrite He, Hc in Hct. injection Hct as <-.
  apply bind_ok in E as (kem & s3 & Hkem & E). unfold lift in Hkem. injection Hkem as Hkem <-.
  unfold kem_ciphertext_bytes in Hkem. rewrite He, Hk in Hkem. injection Hkem as <-.
  apply map_err_m_ok in E. rewrite He in E. split.
  - destruct (quantum_enabled (crypto_config state)) eqn:Q.
    2: { unfold decrypt_pqc in E. rewrite Q in E. by monad_inv. }
    pose proof (decrypt_pqc_ok (crypto_config state) (crypto_store_key state) data
      (e_envelope_key_id (r_envelope r0)) (e_customer_id (r_envelope r0)) eb er w Q) as HD.
    unfold wp in HD. rewrite E in HD. apply HD. exists kp, ss. split; [|done]. by eapply stored_kyber_same.
  - intros b Hb. rewrite Hb in Heb. destruct (b64_decode b) as [x|]; [|done].
    injection Heb as <-. apply negb_false_iff, str_eqb_eq in Hg. by rewrite Hg.
Qed.

Lemma complete_inv ctx payload h r r0 w o w' :
  store_inv cipher w -> records cipher w !! h = Some r0 -> r_lifecycle r0 = r_lifecycle r ->
  complete_unwrap state ctx payload h r w = (Ok o, w') ->
  (exists data, o = mkUnwrapOut (b64_encode data)
    /\ (decrypt_record_payload state ctx r w).1 = Ok data)
  /\ records cipher w' = <[h := consume r0]> (records cipher w) /\ store_inv cipher w'.
Proof.
  intros Hi Hr Hlc E. unfold complete_unwrap in E.
  apply bind_ok in E as (data & w1 & Hd & E).
  pose proof (frames_ok _ _ _ _ _ (decrypt_payload_frame ctx r) Hd) as (F1 & _).
  apply bind_ok in E as ([] & w2 & Hm & E).
  assert (records cipher w2 = <[h := consume r0]> (records cipher w) /\ store_inv cipher w2) as [R2 I2].
  { unfold consume, is_renewable in *. rewrite Hlc. pose proof (records_same cipher w w1 F1) as Hrec.
    destruct (bool_decide _).
    - injection Hm as <-. rewrite insert_id, Hrec by done. split; [done|by eapply store_inv_same].
    - apply map_err_m_ok in Hm.
      assert (M : wp (mark_redeem_token_used state h) w1 (fun _ w' =>
        records cipher w' = <[h := set_redeem_used r0]> (records cipher w1) /\ store_inv cipher w'
        /\ store_only w1 w' /\ tick w' = tick w1 + 1))
        by (apply mark_used_ok; [by eapply store_inv_same|by rewrite Hrec]).
      unfold wp in M. rewrite Hm in M. destruct M as (-> & ? & _). by rewrite Hrec. }
  apply bind_ok in E as (n & w3 & Hn & E). injection Hn as <- <-.
  apply bind_ok in E as ([] & w4 & Hl & E). injection E as <- <-.
  assert (envelopes w4 = envelopes w2) as He.
  { match type of Hl with record_transparency ?e _ = _ =>
      pose proof (record_transparency_ok e (advance w2)) as L end.
    unfold wp in L. rewrite Hl in L. by destruct L as [(-> & _) _]. }
  split; [exists data; by rewrite Hd|]. rewrite (records_same cipher w2 w4) by done.
  split; [done|by eapply store_inv_same].
Qed.

(** ** Safety *)

Lemma check_record_ok ctx r now :
  check_record ctx r now = Ok tt ->
  r_revoked r = false /\ is_expired r now = false /\ may_access false r ctx
  /\ (r_lifecycle r = RenewableLease -> forall e, r_lease_expires_at r = Some e -> (now <= e)%Z)
  /\ (forall e, r_signing_key_expires_at r = Some e -> (now <= e)%Z)
  /\ (exists sg pk, b64_decode (r_signature r) = Some sg /\ b64_decode (r_signing_public_key r) = Some pk
        /\ length pk = 1952 /\ mldsa_verify pk (to_vec (r_envelope r)) sg = Some true).
Proof.
  unfold check_record. intros E.
  apply guard_bind_ok in E as [Hr E]. apply guard_bind_ok in E as [Hx E].
  apply rbind_ok in E as ([] & Hid & E). apply identity_iff in Hid.
  apply rbind_ok in E as ([] & Hl & E). apply rbind_ok in E as ([] & Hk & E).
  apply rbind_ok in E as (sg & Hs & E). apply map_err_ok, ok_or_ok in Hs.
  apply rbind_ok in E as (pk & Hpk & E). apply ok_or_ok in Hpk.
  apply rbind_ok in E as (v & Hv & E). apply map_err_ok, guard_bind_ok in Hv as [Hlen Hv]. apply ok_or_ok in Hv.
  apply guard_ok in E. bool_to_prop. subst v.
  split; [done|]. split; [done|]. split; [done|]. split; [|split].
  - intros L e He. rewrite bool_decide_eq_true_2, He in Hl by done. apply guard_ok in Hl. by bool_to_prop.
  - intros e He. rewrite He in Hk. apply guard_ok in Hk. by bool_to_prop.
  - by exists sg, pk.
Qed.

(** A payload bound to a TLS session is only decrypted for that session. *)
Lemma decrypt_payload_session ctx r w data :
  (decrypt_record_payload state ctx r w).1 = Ok data ->
  forall b, e_exporter_binding (r_envelope r) = Some b -> b64_decode b = Some (exporter ctx).
Proof.
  destruct (decrypt_record_payload state ctx r w) as [x w'] eqn:E. intros Hx b Hb. cbn in Hx. subst x.
  unfold decrypt_record_payload in E. apply bind_ok in E as (o & w1 & Ho & E).
  unfold lift in Ho. injection Ho as Ho <-. apply map_err_ok in Ho.
  unfold exporter_binding_bytes in Ho. rewrite Hb in Ho.
  apply rbind_ok in Ho as (d & Hd & Ho). apply ok_or_ok in Hd. injection Ho as <-.
  apply bind_ok in E as ([] & w2 & Hg & _). unfold lift in Hg. injection Hg as Hg _.
  apply guard_ok in Hg. bool_to_prop. by subst d.
Qed.

Lemma effective_binding_ok ctx r b :
  effective_binding ctx r = Ok b ->
  r_lifecycle r = SingleUseUnwrap ->
  b = sha256 (exporter ctx) /\ r_redeem_binding r = Some (b64_encode (sha256 (exporter ctx))).
Proof.
  unfold effective_binding. intros E L. rewrite L in E.
  destruct (r_redeem_binding r) as [rb|]; [|done]. destruct (is_empty rb); [done|].
  apply guard_bind_ok in E as [Hb E]. injection E as <-. bool_to_prop. subst. done.
Qed.

Lemma check_redeem_token_ok ctx h r token now :
  check_redeem_token state ctx h r token now = Ok tt ->
  exists nonce64 nonce binding token_bytes,
    r_redeem_nonce r = Some nonce64 /\ b64_decode nonce64 = Some nonce
    /\ effective_binding ctx r = Ok binding
    /\ provided_token r token = Ok token_bytes
    /\ comparable_token r (compute_redeem_token state h binding nonce) = Ok token_bytes
    /\ (exists e, r_redeem_expires_at r = Some e /\ (now <= e)%Z)
    /\ (r_lifecycle r <> RenewableLease -> r_redeem_used r = false).
Proof.
  unfold check_redeem_token. intros E.
  apply rbind_ok in E as (nonce64 & Hn & E). apply ok_or_ok in Hn.
  apply rbind_ok in E as (binding & Hb & E). apply guard_bind_ok in E as [Hu E].
  apply rbind_ok in E as (e & He & E). apply ok_or_ok in He. apply guard_bind_ok in E as [Hx E].
  apply rbind_ok in E as (nonce & Hd & E). apply ok_or_ok in Hd.
  apply rbind_ok in E as (tb & Hp & E). apply rbind_ok in E as (ex & Hc & E).
  apply guard_ok in E. bool_to_prop. subst.
  exists nonce64, nonce, binding, ex. repeat split; try done; [by exists e|].
  intros L. unfold is_renewable in Hu. by rewrite bool_decide_eq_false_2 in Hu.
Qed.

(** A secret bound to a TLS session is delivered in that session only. *)
Lemma unwrap_session ctx payload m r w o w' :
  store_inv cipher w -> parse_handle_v2 (u_handle payload) = Ok m ->
  records cipher w !! identifier m = Some r -> unwrap_secret_v2 state ctx payload w = (Ok o, w') ->
  forall b, e_exporter_binding (r_envelope r) = Some b -> b64_decode b = Some (exporter ctx).
Proof.
  intros Hi Hp Hr E. unfold unwrap_secret_v2 in E. apply bind_ok in E as ([h r'] & w1 & Ha & E).
  apply authorize_inv in Ha as (m0 & r0 & Hp0 & -> & Hr0 & -> & _ & R1 & I1 & _); [|done].
  rewrite Hp in Hp0. injection Hp0 as <-. rewrite Hr in Hr0. injection Hr0 as <-.
  apply complete_inv with (r0 := set_last_accessed (Some (time_at (tick w))) r) in E as ((data & _ & Hd) & _);
    [|done|by rewrite R1, lookup_insert_eq|done].
  exact (decrypt_payload_session _ _ _ _ Hd).
Qed.

(** A secret that is not a renewable lease was not used, and is afterwards. *)
Lemma unwrap_marks_used ctx payload m r w o w' :
  store_inv cipher w -> parse_handle_v2 (u_handle payload) = Ok m ->
  records cipher w !! identifier m = Some r -> r_lifecycle r <> RenewableLease ->
  unwrap_secret_v2 state ctx payload w = (Ok o, w') ->
  r_redeem_used r = false /\ exists r', records cipher w' !! identifier m = Some r'
    /\ r_redeem_used r' = true /\ r_redeem_nonce r' = None.
Proof.
  intros Hi Hp Hr L E. unfold unwrap_secret_v2 in E. apply bind_ok in E as ([h r'] & w1 & Ha & E).
  apply authorize_inv in Ha as (m0 & r0 & Hp0 & -> & Hr0 & -> & [_ _ Ht] & R1 & I1 & _); [|done].
  rewrite Hp in Hp0. injection Hp0 as <-. rewrite Hr in Hr0. injection Hr0 as <-.
  apply complete_inv with (r0 := set_last_accessed (Some (time_at (tick w))) r) in E as (_ & R2 & _);
    [|done|by rewrite R1, lookup_insert_eq|done].
  apply check_redeem_token_ok in Ht as (n64 & n & b & tb & _ & _ & _ & _ & _ & _ & Hu).
  split; [auto|]. eexists. rewrite R2, lookup_insert_eq. split; [done|].
  unfold consume, is_renewable. cbn [r_lifecycle set_last_accessed]. by rewrite bool_decide_eq_false_2.
Qed.

(** C33: an unwrap that succeeds was entitled to: the handle's macaroon carries
    the HMAC chain of its own root key and all its caveats hold for the
    request; the record exists, is not revoked, and at the time of the call
    neither it nor its lease, signing key or redeem token has expired; the
    envelope carries a valid ML-DSA signature of the key the record names;
    the caller is the principal the record is bound to, on the TLS session the
    payload is bound to where it is; the presented token is the record's HMAC
    token, over the caller's TLS session for single-use secrets; and
    afterwards a secret that is not a renewable lease is marked used. *)
Theorem unwrap_sound ctx payload w o w' :
  let now := time_at (tick w + 3) in
  store_inv cipher w -> unwrap_secret_v2 state ctx payload w = (Ok o, w') ->
  exists m r, parse_handle_v2 (u_handle payload) = Ok m
    /\ records cipher w !! identifier m = Some r
    /\ signature m = chain (root_sig (macaroon_root_key state (identifier m)) (identifier m)) (caveats m)
    /\ (exists keys, discharge_keys_for_record r = Ok keys /\
         forall i, caveat_holds m (macaroon_root_key state (identifier m))
           (unwrap_verifier payload (time_at (tick w + 2)) keys) i)
    /\ r_revoked r = false /\ is_expired r now = false /\ may_access false r ctx
    /\ (r_lifecycle r = RenewableLease -> forall e, r_lease_expires_at r = Some e -> (now <= e)%Z)
    /\ (forall e, r_signing_key_expires_at r = Some e -> (now <= e)%Z)
    /\ (exists sg pk, b64_decode (r_signature r) = Some sg /\ b64_decode (r_signing_public_key r) = Some pk
         /\ length pk = 1952 /\ mldsa_verify pk (to_vec (r_envelope r)) sg = Some true)
    /\ (forall b, e_exporter_binding (r_envelope r) = Some b -> b64_decode b = Some (exporter ctx))
    /\ (exists nonce64 nonce binding token,
         r_redeem_nonce r = Some nonce64 /\ b64_decode nonce64 = Some nonce
         /\ (r_lifecycle r = SingleUseUnwrap -> binding = sha256 (exporter ctx))
         /\ provided_token r (u_redeem_token payload) = Ok token
         /\ comparable_token r (compute_redeem_token state (identifier m) binding nonce) = Ok token)
    /\ (exists e, r_redeem_expires_at r = Some e /\ (now <= e)%Z)
    /\ (r_lifecycle r <> RenewableLease -> r_redeem_used r = false /\
         exists r', records cipher w' !! identifier m = Some r'
           /\ r_redeem_used r' = true /\ r_redeem_nonce r' = None).
Proof.
  intros now Hi E. pose proof E as EU. unfold unwrap_secret_v2 in E. apply bind_ok in E as ([h r'] & w1 & Ha & E).
  apply authorize_inv in Ha as (m & r & Hp & -> & Hr & -> & [(keys & Hk & Hv) Hc Ht] & _); [|done].
  apply verify_iff in Hv as [Hsig Hcav].
  apply check_record_ok in Hc as (? & ? & ? & ? & ? & ?).
  apply check_redeem_token_ok in Ht as (n64 & n & b & tb & ? & ? & Hb & ? & ? & ? & _).
  exists m, r. repeat match goal with |- _ /\ _ => split end; try done.
  - by exists keys.
  - exact (unwrap_session _ _ _ _ _ _ _ Hi Hp Hr EU).
  - exists n64, n, b, tb. repeat split; try done. intros L. by apply effective_binding_ok in Hb as [-> _].
  - intros L. exact (unwrap_marks_used _ _ _ _ _ _ _ Hi Hp Hr L EU).
Qed.

(** A record that is revoked or has no redeem nonce cannot be unwrapped. *)
Definition spent (r : StoredEnvelopeRecord) : Prop := r_revoked r = true \/ r_redeem_nonce r = None.

Lemma spent_later r r' : later r r' -> spent r -> spent r'.
Proof. intros [? ? Hn] [?|?]; [left; auto|right]. destruct Hn; congruence. Qed.

Lemma unwrap_spent ctx payload m r w :
  store_inv cipher w -> parse_handle_v2 (u_handle payload) = Ok m ->
  records cipher w !! identifier m = Some r -> spent r ->
  forall o w', unwrap_secret_v2 state ctx payload w <> (Ok o, w').
Proof.
  intros Hi Hp Hr Hs o w' E. unfold unwrap_secret_v2 in E. apply bind_ok in E as ([h r'] & w1 & Ha & E).
  apply authorize_inv in Ha as (m' & r0 & Hp' & -> & Hr' & _ & [_ Hc Ht] & _); [|done].
  rewrite Hp in Hp'. injection Hp' as <-. rewrite Hr in Hr'. injection Hr' as <-.
  apply check_record_ok in Hc as (? & _). apply check_redeem_token_ok in Ht as (? & ? & ? & ? & ? & _).
  destruct Hs; congruence.
Qed.

(** A secret that is not a renewable lease is delivered at most once:
    after a successful unwrap, no unwrap of the same record succeeds, with any
    handle, token or caller, however the record changes in between (short of
    being replaced or deleted). *)
Theorem unwrap_single_use ctx payload m r w o w1 ops :
  store_inv cipher w -> parse_handle_v2 (u_handle payload) = Ok m ->
  records cipher w !! identifier m = Some r -> r_lifecycle r <> RenewableLease ->
  unwrap_secret_v2 state ctx payload w = (Ok o, w1) ->
  Forall op_ok ops -> Forall (keeps (identifier m)) ops ->
  forall ctx' payload' m' o' w3,
    parse_handle_v2 (u_handle payload') = Ok m' -> identifier m' = identifier m ->
    unwrap_secret_v2 state ctx' payload' (run_ops cipher ops w1) <> (Ok o', w3).
Proof.
  intros Hi Hp Hr L E HF HK ctx' payload' m' o' w3 Hp' Hm'.
  unfold unwrap_secret_v2 in E. apply bind_ok in E as ([h r'] & w2 & Ha & E).
  apply authorize_inv in Ha as (m0 & r0 & Hp0 & -> & Hr0 & -> & _ & R1 & I1 & _); [|done].
  rewrite Hp in Hp0. injection Hp0 as <-. rewrite Hr in Hr0. injection Hr0 as <-.
  apply complete_inv with (r0 := set_last_accessed (Some (time_at (tick w))) r) in E as (_ & R2 & I2);
    [|done|by rewrite R1, lookup_insert_eq|done].
  edestruct (run_ops_later cipher ops w1 (identifier m)) as (r2 & Hr2 & HL & I3); [done..| |].
  { by rewrite R2, lookup_insert_eq. }
  eapply unwrap_spent; [done|exact Hp'|by rewrite Hm'|].
  eapply spent_later; [exact HL|]. right. unfold consume, is_renewable. cbn [r_lifecycle set_last_accessed].
  by rewrite bool_decide_eq_false_2.
Qed.

(** Once a record is revoked, no unwrap of it ever succeeds again. *)
Theorem revoked_never_unwraps h reason w w1 ops :
  store_inv cipher w -> revoke cipher h reason w = (Ok true, w1) ->
  Forall op_ok ops -> Forall (keeps h) ops ->
  forall ctx payload m o w3,
    parse_handle_v2 (u_handle payload) = Ok m -> identifier m = h ->
    unwrap_secret_v2 state ctx payload (run_ops cipher ops w1) <> (Ok o, w3).
Proof.
  intros Hi E HF HK ctx payload m o w3 Hp <-.
  destruct (store_op_refines cipher (OpRevoke (identifier m) reason) w Hi I) as [Hs Hi'].
  unfold run_op, fmap_m, bind in Hs, Hi'. rewrite E in Hs, Hi'. cbn [ret fst snd] in Hs, Hi'.
  unfold spec_op in Hs. cbn [op_handle] in Hs.
  destruct (records cipher w !! identifier m) as [r|] eqn:Hr; [|discriminate Hs].
  cbn [spec_rewrite] in Hs. injection Hs as Hs.
  edestruct (run_ops_later cipher ops w1 (identifier m)) as (r2 & Hr2 & HL & I3); [done..| |].
  { by rewrite <- Hs, lookup_insert_eq. }
  eapply unwrap_spent; [done|exact Hp|done|]. eapply spent_later; [exact HL|]. by left.
Qed.

(** ** Wrapping and unwrapping *)

(** The request presents what the caveats of the wrapped handle ask for. *)
Definition presents (request : WrapV2Request) (payload : UnwrapV2Request) : Prop :=
  (forall v, normalized (w_tenant_id request) = Some v -> u_tenant_id payload = Some v)
  /\ (forall v, normalized (w_provider request) = Some v -> u_provider payload = Some v)
  /\ (forall v, normalized (w_circuit_id request) = Some v -> u_circuit_id payload = Some v)
  /\ (forall v, normalized (w_node_id request) = Some v -> u_node_id payload = Some v).

(** None of the record's deadlines has passed. *)
Definition live (r : StoredEnvelopeRecord) (now : datetime) : Prop :=
  (forall e, r_expires_at r = Some e -> (now <= e)%Z)
  /\ (forall e, r_redeem_expires_at r = Some e -> (now <= e)%Z)
  /\ (forall e, r_signing_key_expires_at r = Some e -> (now <= e)%Z)
  /\ (r_lifecycle r = RenewableLease -> forall e, r_lease_expires_at r = Some e -> (now <= e)%Z).

Lemma check_equal_present name expected actual :
  actual = Some expected -> check_equal name expected actual = Ok tt.
Proof. intros ->. unfold check_equal. by rewrite str_eqb_refl. Qed.

Lemma Forall_caveat_opt {A} (f : A -> Caveat) o (P : Caveat -> Prop) :
  (forall a, o = Some a -> P (f a)) -> Forall P (caveat_opt f o).
Proof. destruct o; cbn; auto. Qed.

Lemma wrap_caveats_hold request payload expires keys now :
  presents request payload -> (forall e, expires = Some e -> rfc3339_range e /\ (now <= e)%Z) ->
  Forall (fun c => encodable c /\ forall sig, check (unwrap_verifier payload now keys) c sig = Ok tt)
    (wrap_caveats request expires).
Proof.
  intros (Ht & Hp & Hc & Hn) He. unfold wrap_caveats. rewrite !Forall_app.
  split; [|split; [|split; [|split; [|split]]]].
  - apply Forall_caveat_opt. intros v Hv. split; [done|]. intros. apply check_equal_present, Ht, Hv.
  - apply Forall_caveat_opt. intros v Hv. split; [done|]. intros. apply check_equal_present, Hp, Hv.
  - apply Forall_caveat_opt. intros v Hv. split; [done|]. intros. apply check_equal_present, Hc, Hv.
  - apply Forall_caveat_opt. intros v Hv. split; [done|]. intros. apply check_equal_present, Hn, Hv.
  - apply Forall_caveat_opt. intros e Hx. destruct (He e Hx). split; [done|]. intros. cbn.
    by rewrite (proj2 (Z.ltb_ge _ _)).
  - repeat constructor.
Qed.

Lemma minted_fits k h cs :
  length h = 16 -> Forall (fun c => fits_u16 (encode c)) cs -> (Z.of_nat (length cs) < 2^16)%Z ->
  macaroon_fits (mint k h cs).
Proof.
  intros Hh HF Hl. split; [done|]. cbn [mint Macaroon.signature caveats].
  split; [apply length_chain, hmac_length|]. rewrite length_map. split; [done|]. by apply Forall_map.
Qed.

Lemma check_record_live ctx r data w now :
  r_revoked r = false -> live r now -> may_access false r ctx -> seals state data r w ->
  check_record ctx r now = Ok tt.
Proof.
  intros Hr (Hx & _ & Hk & Hl) Hm%identity_iff [(sg & pk & Hs & Hp & Hv) _].
  unfold check_record, is_expired. rewrite Hr. cbn [guard rbind].
  replace (match r_expires_at r with Some e => (e <? now)%Z | None => false end) with false.
  2: { destruct (r_expires_at r) as [e|]; [|done]. symmetry. apply Z.ltb_ge. auto. }
  cbn [guard rbind]. unfold validate_v2_record_identity_requirements. rewrite Hm. cbn [rbind].
  assert ((if bool_decide (r_lifecycle r = RenewableLease) then
       match r_lease_expires_at r with
       | Some lease_exp => guard (lease_exp <? now)%Z
                             (ServiceError.Crypto (ServiceError.LeaseExpired lease_exp))
       | None => Ok tt end else Ok tt) = Ok tt) as ->.
  { case_bool_decide as L; [|done]. destruct (r_lease_expires_at r) as [e|]; [|done].
    apply guard_ok, Z.ltb_ge. auto. }
  cbn [rbind].
  assert (match r_signing_key_expires_at r with
     | Some t => guard (t <? now)%Z (ServiceError.Crypto (ServiceError.SigningKeyExpired t))
     | None => Ok tt end = Ok tt) as ->.
  { destruct (r_signing_key_expires_at r) as [e|]; [|done]. apply guard_ok, Z.ltb_ge. auto. }
  cbn [rbind]. unfold signature_bytes. rewrite Hs, Hp. cbn [ok_or map_err rbind]. by rewrite Hv.
Qed.

Lemma effective_binding_issued ctx ctx' input nonce r :
  issued state ctx input nonce r -> (i_lifecycle input = SingleUseUnwrap -> exporter ctx' = exporter ctx) ->
  effective_binding ctx' r = Ok (session_binding ctx (i_lifecycle input)).1.1.
Proof.
  intros HI Hx. unfold effective_binding.
  rewrite (issued_binding _ _ _ _ _ HI), (issued_lifecycle _ _ _ _ _ HI).
  destruct (i_lifecycle input); cbn; [|done..].
  rewrite Hx by done. destruct (is_empty (b64_encode (sha256 (exporter ctx)))) eqn:Hz.
  - exfalso. apply (b64_nonempty (sha256 (exporter ctx))).
    + intros Z. apply (f_equal length) in Z. by rewrite sha256_length in Z.
    + by destruct (b64_encode (sha256 (exporter ctx))).
  - by rewrite str_eqb_refl.
Qed.

Lemma check_token_issued ctx ctx' input nonce r h now :
  issued state ctx input nonce r -> live r now ->
  (i_lifecycle input = SingleUseUnwrap -> exporter ctx' = exporter ctx) ->
  check_redeem_token state ctx' h r
    (b64_encode (compute_redeem_token state h (session_binding ctx (i_lifecycle input)).1.1 nonce)) now
  = Ok tt.
Proof.
  intros HI (_ & Hd & _) Hx.
  pose proof (issued_nonce _ _ _ _ _ HI) as En. pose proof (issued_binding _ _ _ _ _ HI) as Eb.
  pose proof (issued_deadline _ _ _ _ _ HI) as Ed. pose proof (issued_unused _ _ _ _ _ HI) as Eu.
  pose proof (issued_lifecycle _ _ _ _ _ HI) as El. pose proof (issued_threshold _ _ _ _ _ HI) as Et.
  unfold check_redeem_token. rewrite En. cbn [ok_or rbind].
  rewrite (effective_binding_issued ctx ctx' input nonce r) by done. cbn [rbind]. rewrite Eu, andb_false_r, Ed. cbn [guard ok_or rbind].
  rewrite (proj2 (Z.ltb_ge _ _)) by (by apply Hd). cbn [guard rbind].
  rewrite b64_roundtrip. cbn [ok_or rbind]. unfold provided_token, comparable_token, is_threshold.
  rewrite Et, b64_roundtrip. change (1 <? default 1%Z None)%Z with false. cbn [ok_or rbind].
  by rewrite str_eqb_refl.
Qed.

(** The caller that wrapped a secret for itself may unwrap it. *)
Lemma issuer_may_unwrap ctx input nonce r :
  issued state ctx input nonce r ->
  v2_unwrap_principal ctx (i_lifecycle input) None = Ok (i_unwrap_principal_id input) ->
  peer_cert_sha256 ctx <> Some [] -> may_access false r ctx.
Proof.
  intros [? ? ? ? ? ? El ? ? Ep Et Eb Ec Ea ? ? ? ?] V Hne. unfold v2_unwrap_principal in V.
  apply guard_bind_ok in V as [Hauth V]. apply negb_false_iff in Hauth.
  apply rbind_ok in V as (p & Hp & V). apply ok_or_ok in Hp. unfold normalized_context_principal in Hp.
  assert (Hpp : i_unwrap_principal_id input = Some p)
    by (destruct (i_lifecycle input); monad_inv; congruence).
  assert (Htp : trim_nonempty (Some p) = Some p) by (rewrite <- Hp; apply trim_nonempty_idem).
  split; [done|]. exists p, p. rewrite Ep, Hpp. split; [done|]. split; [done|]. split; [by left|].
  intros L. rewrite El in L. split; [congruence|].
  destruct (peer_cert_sha256 ctx) as [c|] eqn:C; [|by destruct (i_lifecycle input); monad_inv].
  exists p, c, (b64_encode c). unfold normalized_context_principal in Eb. rewrite Eb, Hp, Ec. cbn [fmap option_fmap option_map].
  split; [done|]. split; [done|]. split.
  { cbn [trim_nonempty]. rewrite trim_graphic by apply b64_graphic.
    destruct (b64_encode c) eqn:Z; [|done]. exfalso. apply (b64_nonempty c); [congruence|done]. }
  split; [done|]. rewrite Ea. destruct (attestation_digest ctx) as [d|]; [|done].
  cbn [fmap option_fmap option_map trim_nonempty]. rewrite trim_graphic by apply b64_graphic.
  destruct (is_empty _); [done|]. by exists d.
Qed.

(** What a wrapped secret grants to a caller that presents its token. *)
Lemma wrapped_grants ctx ctx' request payload created expires principal o h r w w1 data w2 a t1 t2 :
  let input := wrap_input state request created expires principal in
  wrapped state ctx input (wrap_caveats request expires) o h r w w1 ->
  seals state data r w2 ->
  (forall e, expires = Some e -> rfc3339_range e) ->
  u_redeem_token payload = wo_redeem_token o -> presents request payload ->
  may_access false r ctx' -> (w_lifecycle request = SingleUseUnwrap -> exporter ctx' = exporter ctx) ->
  live r t1 -> live r t2 ->
  grants ctx' payload (mint (macaroon_root_key state h) h (wrap_caveats request expires))
    (set_last_accessed a r) t1 t2.
Proof.
  intros input HW Hs He Htok Hpres Hacc Hexp L1 L2. apply grants_accessed.
  destruct (wrapped_issued _ _ _ _ _ _ _ _ _ HW) as (nonce & HI & Hto).
  pose proof (issued_expiry _ _ _ _ _ HI) as Ex. cbn [i_expires_at input wrap_input] in Ex.
  split.
  - exists []. unfold discharge_keys_for_record. rewrite (issued_caveat_keys _ _ _ _ _ HI).
    split; [done|]. apply verify_minted_ok, wrap_caveats_hold; [done|].
    intros e E. split; [by apply He|]. apply (proj1 L1). by rewrite Ex.
  - eapply check_record_live; [apply (issued_live _ _ _ _ _ HI)|done..].
  - rewrite Htok, Hto. by apply (check_token_issued ctx ctx' input nonce).
Qed.

(** The conditions under which a wrapped secret can be unwrapped in [w2]. *)
Record presentable (ctx ctx' : BrokerClientContext) (request : WrapV2Request) (o : WrapSecretOutcome)
    (h : uuid) (r : StoredEnvelopeRecord) (payload : UnwrapV2Request) (w1 w2 : World) : Prop := {
  pr_inv : store_inv cipher w2;
  pr_record : exists a, records cipher w2 !! h = Some (set_last_accessed a r);
  pr_kyber : kyber_keys w2 = kyber_keys w1;
  pr_handle : u_handle payload = wo_handle o;
  pr_token : u_redeem_token payload = wo_redeem_token o;
  pr_caveats : presents request payload;
  pr_access : may_access false r ctx';
  pr_session : w_lifecycle request = SingleUseUnwrap -> exporter ctx' = exporter ctx;
  pr_live1 : live r (time_at (tick w2 + 2));
  pr_live2 : live r (time_at (tick w2 + 3));
}.

Lemma parse_wrapped ctx input request expires o h r w w1 :
  wrapped state ctx input (wrap_caveats request expires) o h r w w1 ->
  Forall (fun c => fits_u16 (encode c)) (wrap_caveats request expires) ->
  parse_handle_v2 (wo_handle o) = Ok (mint (macaroon_root_key state h) h (wrap_caveats request expires)).
Proof.
  intros HW Hfit. rewrite (wrapped_handle _ _ _ _ _ _ _ _ _ HW).
  apply parse_format, minted_fits; [apply HW|done|].
  unfold wrap_caveats, caveat_opt. rewrite !length_app. repeat case_match; cbn; lia.
Qed.

Lemma authorize_wrapped ctx ctx' request payload created expires principal o h r w w1 w2 :
  let input := wrap_input state request created expires principal in
  wrapped state ctx input (wrap_caveats request expires) o h r w w1 ->
  (forall e, expires = Some e -> rfc3339_range e) ->
  Forall (fun c => fits_u16 (encode c)) (wrap_caveats request expires) ->
  presentable ctx ctx' request o h r payload w1 w2 ->
  wp (authorize_unwrap state ctx' payload) w2 (fun '(h', r') w3 =>
    h' = h /\ (exists a, r' = set_last_accessed a r) /\ records cipher w3 = <[h := r']> (records cipher w2)
    /\ store_inv cipher w3 /\ kyber_keys w3 = kyber_keys w2 /\ tick w3 = tick w2 + 4).
Proof.
  intros input HW He Hfit [Hi2 [a Hr2] Hk2 Hh Htok Hpres Hacc Hexp L1 L2].
  set (m := mint (macaroon_root_key state h) h (wrap_caveats request expires)).
  assert (Hp : parse_handle_v2 (u_handle payload) = Ok m) by (rewrite Hh; by eapply parse_wrapped).
  pose proof (seals_same state _ _ _ _ Hk2 (wrapped_seals _ _ _ _ _ _ _ _ _ HW)) as Hs2.
  eapply wp_mono.
  { apply (authorize_ok ctx' payload m (set_last_accessed a r) w2 Hi2 Hp Hr2).
    eapply (wrapped_grants ctx ctx' request payload created expires principal); done. }
  intros [h' r'] w3 (-> & -> & Hrec & Hinv & (Hky & _) & Ht). cbn [m mint identifier] in *.
  split; [done|]. split; [by eexists|]. by repeat split.
Qed.

Lemma complete_wrapped ctx ctx' request payload created expires principal o h r w w1 w2 a :
  let input := wrap_input state request created expires principal in
  wrapped state ctx input (wrap_caveats request expires) o h r w w1 ->
  quantum_enabled (crypto_config state) = true -> store_inv cipher w2 ->
  (exists r0, records cipher w2 !! h = Some r0 /\ r_lifecycle r0 = w_lifecycle request) ->
  kyber_keys w2 = kyber_keys w1 ->
  (w_lifecycle request = SingleUseUnwrap -> exporter ctx' = exporter ctx) ->
  wp (complete_unwrap state ctx' payload h (set_last_accessed a r)) w2 (fun o' w3 =>
    o' = mkUnwrapOut (b64_encode (w_plaintext request)) /\ store_inv cipher w3
    /\ kyber_keys w3 = kyber_keys w2 /\ within 5 w2 w3
    /\ exists r0, records cipher w2 !! h = Some r0 /\ records cipher w3 !! h = Some (consume r0)).
Proof.
  intros input HW Hq Hi2 (r0 & Hr0 & Hlc) Hk2 Hexp.
  destruct (wrapped_issued _ _ _ _ _ _ _ _ _ HW) as (nonce & HI & _).
  pose proof (seals_same state _ _ _ _ Hk2 (wrapped_seals _ _ _ _ _ _ _ _ _ HW)) as Hs2.
  pose proof (issued_exporter _ _ _ _ _ HI) as Ee. pose proof (issued_lifecycle _ _ _ _ _ HI) as El.
  cbn [input wrap_input i_lifecycle i_plaintext] in Ee, El, Hs2.
  eapply wp_mono.
  { apply (complete_ok ctx' payload h (set_last_accessed a r) r0 (w_plaintext request) w2); try done.
    - destruct Hs2. by split.
    - cbn [r_envelope set_last_accessed]. rewrite Ee. destruct (w_lifecycle request); cbn; [|done..].
      rewrite b64_roundtrip. f_equal. symmetry. by apply Hexp.
    - cbn [r_lifecycle set_last_accessed]. congruence. }
  intros o' w3 (-> & Hrec & Hinv & Hky & Ht). split; [done|]. split; [done|]. split; [done|]. split; [done|].
  exists r0. split; [done|]. by rewrite Hrec, lookup_insert_eq.
Qed.

Lemma unwrap_wrapped ctx ctx' request payload created expires principal o h r w w1 w2 :
  let input := wrap_input state request created expires principal in
  wrapped state ctx input (wrap_caveats request expires) o h r w w1 ->
  quantum_enabled (crypto_config state) = true ->
  (forall e, expires = Some e -> rfc3339_range e) ->
  Forall (fun c => fits_u16 (encode c)) (wrap_caveats request expires) ->
  presentable ctx ctx' request o h r payload w1 w2 ->
  exists w3, unwrap_secret_v2 state ctx' payload w2
             = (Ok (mkUnwrapOut (b64_encode (w_plaintext request))), w3) /\ tick w3 <= tick w2 + 9.
Proof.
  intros input HW Hq He Hfit HP. enough (wp (unwrap_secret_v2 state ctx' payload) w2
    (fun o' w3 => o' = mkUnwrapOut (b64_encode (w_plaintext request)) /\ tick w3 <= tick w2 + 9)) as HU.
  { apply wp_eq in HU as (o' & w3 & HU & -> & Ht). by exists w3. }
  destruct (wrapped_issued _ _ _ _ _ _ _ _ _ HW) as (nonce & HI & _).
  unfold unwrap_secret_v2. wp_run. eapply wp_mono; [by eapply authorize_wrapped|].
  intros [h' r'] w3 (-> & [a ->] & Hrec & Hinv & Hky & Ht3).
  eapply wp_mono; [eapply complete_wrapped; [exact HW|done|done| | |apply HP]|].
  - eexists. rewrite Hrec, lookup_insert_eq. split; [done|]. apply (issued_lifecycle _ _ _ _ _ HI).
  - rewrite Hky. apply HP.
  - intros o' w4 (-> & _ & _ & [_ Ht4] & _). split; [done|lia].
Qed.

(** Wrapping then unwrapping returns the secret.  Wrapping an acceptable
    request succeeds; in every later state that still has the record (read any
    number of times in between) and its key pair, while no deadline has
    passed, a caller that may access the record and presents the handle, the
    token and what the caveats ask for gets exactly the wrapped bytes. *)
Theorem wrap_then_unwrap ctx request w expires ttl principal :
  let created := time_at (tick w) in
  let input := wrap_input state request created expires principal in
  store_inv cipher w -> engine_ready state (i_customer_id input) 26 w ->
  metadata_ok (w_metadata request) ->
  enforce_ttl (w_ttl_seconds request) state created = Ok (expires, ttl) ->
  v2_unwrap_principal ctx (w_lifecycle request) (w_unwrap_principal_id request) = Ok principal ->
  rfc3339_range (created + redeem_token_ttl state) ->
  is_ok (initial_lease created (w_initial_lease_seconds request)) = true ->
  (forall e, expires = Some e -> rfc3339_range e) ->
  Forall (fun c => fits_u16 (encode c)) (wrap_caveats request expires) ->
  exists o w1 h r, wrap_secret_v2 state ctx request w = (Ok o, w1)
    /\ records cipher w1 = <[h := r]> (records cipher w)
    /\ (exists nonce, issued state ctx input nonce r)
    /\ (w_unwrap_principal_id request = None -> peer_cert_sha256 ctx <> Some [] -> may_access false r ctx)
    /\ forall ctx' payload w2, presentable ctx ctx' request o h r payload w1 w2 ->
      exists w3, unwrap_secret_v2 state ctx' payload w2
                 = (Ok (mkUnwrapOut (b64_encode (w_plaintext request))), w3).
Proof.
  intros created input Hi HR Hm Httl Hpr Hd Hl He Hfit.
  pose proof (wrap_ok state ctx request w expires ttl principal Hi HR Hm Httl Hpr Hd Hl) as HW.
  apply wp_eq in HW as (o & w1 & Hwrap & h & r & HW). exists o, w1, h, r.
  destruct (wrapped_issued _ _ _ _ _ _ _ _ _ HW) as (nonce & HI & _).
  split; [done|]. split; [apply HW|]. split; [by exists nonce|]. split.
  { intros Hn Hne. eapply issuer_may_unwrap; [exact HI|by rewrite <- Hn|done]. }
  intros ctx' payload w2 HP. edestruct unwrap_wrapped as (w3 & Hu & _);
    [exact HW|apply HR|done..|by exists w3].
Qed.

(** C34: nothing keeps two calls from redeeming a single-use secret together:
    when both pass the checks before either marks the token used, both return
    the secret. *)
Theorem single_use_race ctx request w expires ttl principal :
  let created := time_at (tick w) in
  let input := wrap_input state request created expires principal in
  store_inv cipher w -> engine_ready state (i_customer_id input) 26 w ->
  metadata_ok (w_metadata request) -> w_lifecycle request = SingleUseUnwrap ->
  enforce_ttl (w_ttl_seconds request) state created = Ok (expires, ttl) ->
  v2_unwrap_principal ctx (w_lifecycle request) (w_unwrap_principal_id request) = Ok principal ->
  rfc3339_range (created + redeem_token_ttl state) ->
  is_ok (initial_lease created (w_initial_lease_seconds request)) = true ->
  (forall e, expires = Some e -> rfc3339_range e) ->
  Forall (fun c => fits_u16 (encode c)) (wrap_caveats request expires) ->
  exists o w1 h r, wrap_secret_v2 state ctx request w = (Ok o, w1)
    /\ records cipher w1 = <[h := r]> (records cipher w)
    /\ (w_unwrap_principal_id request = None -> peer_cert_sha256 ctx <> Some [] -> may_access false r ctx)
    /\ forall payload,
      presentable ctx ctx request o h r payload w1 w1 ->
      live r (time_at (tick w1 + 6)) -> live r (time_at (tick w1 + 7)) ->
      exists a2 w2 a3 w3 w4 w5,
        authorize_unwrap state ctx payload w1 = (Ok a2, w2)
        /\ authorize_unwrap state ctx payload w2 = (Ok a3, w3)
        /\ complete_unwrap state ctx payload a2.1 a2.2 w3
           = (Ok (mkUnwrapOut (b64_encode (w_plaintext request))), w4)
        /\ complete_unwrap state ctx payload a3.1 a3.2 w4
           = (Ok (mkUnwrapOut (b64_encode (w_plaintext request))), w5).
Proof.
  intros created input Hi HR Hm Hlc Httl Hpr Hd Hl He Hfit.
  pose proof (wrap_ok state ctx request w expires ttl principal Hi HR Hm Httl Hpr Hd Hl) as HW.
  apply wp_eq in HW as (o & w1 & Hwrap & h & r & HW). exists o, w1, h, r.
  destruct (wrapped_issued _ _ _ _ _ _ _ _ _ HW) as (nonce & HI & _).
  pose proof (issued_lifecycle _ _ _ _ _ HI : r_lifecycle r = w_lifecycle request) as El.
  split; [done|]. split; [apply HW|]. split.
  { intros Hn Hne. eapply issuer_may_unwrap; [exact HI|by rewrite <- Hn|done]. }
  intros payload HP L6 L7.
  pose proof (authorize_wrapped ctx ctx request payload created expires principal o h r w w1 w1 HW He Hfit HP) as A1.
  apply wp_eq in A1 as ([h2 r2] & w2 & A1 & -> & [a1 ->] & R2 & I2 & K2 & T2).
  assert (HP2 : presentable ctx ctx request o h r payload w1 w2).
  { destruct HP. split; try done.
    - exists a1. by rewrite R2, lookup_insert_eq.
    - rewrite T2. by replace (tick w1 + 4 + 2) with (tick w1 + 6) by lia.
    - rewrite T2. by replace (tick w1 + 4 + 3) with (tick w1 + 7) by lia. }
  pose proof (authorize_wrapped ctx ctx request payload created expires principal o h r w w1 w2 HW He Hfit HP2) as A2.
  apply wp_eq in A2 as ([h3 r3] & w3 & A2 & -> & [a2 ->] & R3 & I3 & K3 & _).
  assert (C1 := complete_wrapped ctx ctx request payload created expires principal o h r w w1 w3 a1 HW).
  ospecialize (C1 _ _ _ _ _); [apply HR|done| |congruence|done|].
  { eexists. rewrite R3, lookup_insert_eq. by split. }
  apply wp_eq in C1 as (o4 & w4 & C1 & -> & I4 & K4 & _ & r0 & Hr0 & Hr4).
  rewrite R3, lookup_insert_eq in Hr0. injection Hr0 as <-.
  assert (C2 := complete_wrapped ctx ctx request payload created expires principal o h r w w1 w4 a2 HW).
  ospecialize (C2 _ _ _ _ _); [apply HR|done| |congruence|done|].
  { eexists. split; [exact Hr4|]. unfold consume. by destruct (is_renewable _). }
  apply wp_eq in C2 as (o5 & w5 & C2 & -> & _).
  exists (h, set_last_accessed a1 r), w2, (h, set_last_accessed a2 r), w3, w4, w5. by repeat split.
Qed.

End UnwrapLaws.

(** * The theorems on concrete inputs *)

Module UnwrapExamples.
Import Reference ToyWorld ToyStore CryptoExamples BrokerExamples Toy257.

#[export] Instance share_codec : Codec Share :=
  iso_codec (fun s => (share_x s, share_y s)) (fun '(x, y) => mkShare x y).
#[export] Instance share_codec_laws : CodecLaws Share.
Proof. apply iso_codec_laws. by intros []. Qed.

Definition req0 : WrapV2Request :=
  mkWrapReq #"hunter2" None (Some (JObject [])) SingleUseUnwrap (Some 3600%Z) None None
    (Some #" acme ") None None None None.
Definition expires0 : option datetime := Some (1700003600 * 10^9)%Z.
Definition principal0 : option str := Some #"spiffe://prod/alice".

Lemma ready0 : engine_ready state0 #"default" 26 empty_world.
Proof.
  split; try reflexivity.
  - by eexists.
  - intros t Ht _. change (rotation _) with (86400 * 10^9)%Z. cbn [tick empty_world] in Ht.
    split; [by vm_compute|]. unfold rfc3339_range, time_at, toy_oracle. lia.
  - intros t t' Ht Ht'. change (rotation _) with (86400 * 10^9)%Z. cbn [tick empty_world] in *.
    unfold time_at, toy_oracle. lia.
Qed.

Lemma inv0 : store_inv (sealed_store state0) empty_world.
Proof. intros h v E. discriminate E. Qed.

Lemma metadata0 : metadata_ok (w_metadata req0).
Proof. by repeat split. Qed.

Lemma expires0_ok e : expires0 = Some e -> rfc3339_range e.
Proof. intros [= <-]. by split. Qed.

Lemma caveats0_fit : Forall (fun c => fits_u16 (encode c)) (wrap_caveats req0 expires0).
Proof. apply (bool_decide_unpack _). vm_compute. exact I. Qed.

Lemma deadline0 : rfc3339_range (time_at (tick empty_world) + redeem_token_ttl state0).
Proof. by split. Qed.

Lemma ttl0 : enforce_ttl (w_ttl_seconds req0) state0 (time_at (tick empty_world))
  = Ok (expires0, Some 3600%Z).
Proof. vm_compute. reflexivity. Qed.
Lemma principal0_ok : v2_unwrap_principal alice (w_lifecycle req0) (w_unwrap_principal_id req0)
  = Ok principal0.
Proof. vm_compute. reflexivity. Qed.
Lemma lease0 : is_ok (initial_lease (time_at (tick empty_world)) (w_initial_lease_seconds req0)) = true.
Proof. reflexivity. Qed.

(** The request that redeems what was wrapped. *)
Definition payload_for (o : WrapSecretOutcome) : UnwrapV2Request :=
  mkUnwrapReq (wo_handle o) (wo_redeem_token o) (Some #"acme") None None None [].

Definition input0 : PersistSecretV2Input :=
  wrap_input state0 req0 (time_at (tick empty_world)) expires0 principal0.

Lemma live0 o h r w1 t :
  wrapped state0 alice input0 (wrap_caveats req0 expires0) o h r empty_world w1 -> t <= 100 ->
  live r (time_at t).
Proof.
  intros HW Ht. destruct (wrapped_issued _ _ _ _ _ _ _ _ _ HW) as (nonce & HI & _).
  destruct (wrapped_key _ _ _ _ _ _ _ _ _ HW) as (t0 & Ht0 & Hk).
  change (if key_rotation_enabled (crypto_config state0) then Some (time_at t0 + rotation (crypto_config state0))%Z
    else None) with (Some (time_at t0 + 86400 * 10^9)%Z) in Hk.
  split; [|split; [|split]].
  - rewrite (issued_expiry _ _ _ _ _ HI). intros e [= <-]. unfold time_at, toy_oracle. lia.
  - rewrite (issued_deadline _ _ _ _ _ HI). intros e [= <-].
    unfold time_at, toy_oracle. change (hours 24) with (86400 * 10^9)%Z. lia.
  - rewrite Hk. intros e [= <-]. unfold time_at, toy_oracle. lia.
  - rewrite (issued_lifecycle _ _ _ _ _ HI). done.
Qed.

(** A secret wrapped by [alice], the state it is stored in, and its unwrap. *)
Lemma session0 : exists o w1 h r w2,
  wrap_secret_v2 state0 alice req0 empty_world = (Ok o, w1)
  /\ store_inv (sealed_store state0) w1
  /\ parse_handle_v2 (u_handle (payload_for o))
     = Ok (mint (macaroon_root_key state0 h) h (wrap_caveats req0 expires0))
  /\ records (sealed_store state0) w1 !! h = Some r /\ r_lifecycle r = SingleUseUnwrap
  /\ presentable state0 alice alice req0 o h r (payload_for o) w1 w1
  /\ (forall t, t <= 100 -> live r (time_at t)) /\ tick w1 <= 26
  /\ ((r_unwrap_principal_id r = principal0 /\ r_third_party_caveat_keys r = None /\ length h = 16)
      /\ tick w2 <= 35)
  /\ unwrap_secret_v2 state0 alice (payload_for o) w1 = (Ok (mkUnwrapOut (b64_encode #"hunter2")), w2).
Proof.
  destruct (proj1 (wp_eq _ _ _) (wrap_ok state0 alice req0 empty_world expires0 (Some 3600%Z) principal0
    inv0 ready0 metadata0 ttl0 principal0_ok deadline0 lease0)) as (o & w1 & Hw & h & r & HW).
  destruct (wrapped_issued _ _ _ _ _ _ _ _ _ HW) as (nonce & HI & _).
  pose proof (wrapped_within _ _ _ _ _ _ _ _ _ HW) as [_ Ht]. cbn [tick empty_world] in Ht.
  assert (Hr : records (sealed_store state0) w1 !! h = Some r)
    by (rewrite (wrapped_records _ _ _ _ _ _ _ _ _ HW); apply lookup_insert_eq).
  assert (HP : presentable state0 alice alice req0 o h r (payload_for o) w1 w1).
  { split.
    - exact (wrapped_inv _ _ _ _ _ _ _ _ _ HW).
    - exists (r_last_accessed r). rewrite Hr. destruct r. reflexivity.
    - reflexivity.
    - reflexivity.
    - reflexivity.
    - split; [|split; [|split]]; intros v Hv; try discriminate Hv. vm_compute in Hv. by injection Hv as <-.
    - exact (issuer_may_unwrap state0 alice input0 nonce r HI principal0_ok ltac:(discriminate)).
    - reflexivity.
    - apply (live0 o h r w1 (tick w1 + 2) HW). lia.
    - apply (live0 o h r w1 (tick w1 + 3) HW). lia. }
  destruct (unwrap_wrapped state0 alice alice req0 (payload_for o) (time_at (tick empty_world)) expires0
    principal0 o h r empty_world w1 w1 HW (ready_quantum _ _ _ _ ready0) expires0_ok caveats0_fit HP) as (w2 & Hu & Ht2).
  exists o, w1, h, r, w2. split; [exact Hw|]. split; [apply HW|].
  split; [exact (parse_wrapped state0 alice input0 req0 expires0 o h r empty_world w1 HW caveats0_fit)|].
  split; [exact Hr|]. split; [exact (issued_lifecycle _ _ _ _ _ HI)|]. split; [exact HP|].
  split; [intros t Htt; exact (live0 o h r w1 t HW Htt)|]. split; [lia|].
  split; [|exact Hu].
  split; [exact (conj (issued_principal _ _ _ _ _ HI) (conj (issued_caveat_keys _ _ _ _ _ HI)
    (wrapped_uuid _ _ _ _ _ _ _ _ _ HW)))|lia].
Qed.

Lemma only_record (h h' : uuid) (r r' : StoredEnvelopeRecord) :
  <[h := r]> (records (sealed_store state0) empty_world) !! h' = Some r' -> h = h' /\ r = r'.
Proof.
  change (records (sealed_store state0) empty_world) with (∅ : gmap bytes StoredEnvelopeRecord).
  intros [[-> ->]|[_ E]]%lookup_insert_Some; [done|]. by rewrite lookup_empty in E.
Qed.

Lemma unwrap_sound_witness : exists w o m r sg pk,
  parse_handle_v2 (u_handle (payload_for o)) = Ok m
  /\ records (sealed_store state0) w !! identifier m = Some r
  /\ is_expired r (time_at (tick w + 3)) = false /\ may_access false r alice
  /\ mldsa_verify pk (to_vec (r_envelope r)) sg = Some true.
Proof.
  destruct session0 as (o & w1 & h & r & w2 & _ & Hi & _ & _ & _ & _ & _ & _ & _ & Hu).
  destruct (unwrap_sound state0 alice (payload_for o) w1 _ w2 Hi Hu)
    as (m & r' & Hp & Hr & _ & _ & _ & Hx & Ha & _ & _ & (sg & pk & _ & _ & _ & Hs) & _).
  exists w1, o, m, r', sg, pk. exact (conj Hp (conj Hr (conj Hx (conj Ha Hs)))).
Defined.

Lemma unwrap_single_use_witness : exists o h w2, forall o' w3,
  unwrap_secret_v2 state0 alice (payload_for o)
    (run_ops (sealed_store state0) [OpLoad h; OpRenew h 5] w2) <> (Ok o', w3).
Proof.
  destruct session0 as (o & w1 & h & r & w2 & _ & Hi & Hp & Hr & Hl & _ & _ & _ & _ & Hu).
  exists o, h, w2. intros o' w3.
  refine (unwrap_single_use state0 alice (payload_for o) _ r w1 _ w2 [OpLoad h; OpRenew h 5] Hi Hp Hr
    _ Hu _ _ alice (payload_for o) _ o' w3 Hp eq_refl); [congruence|repeat constructor..].
Defined.

Lemma revoked_never_unwraps_witness : exists o h w2, forall o' w3,
  unwrap_secret_v2 state0 alice (payload_for o)
    (run_ops (sealed_store state0) [OpLoad h; OpRenew h 5] w2) <> (Ok o', w3).
Proof.
  destruct session0 as (o & w1 & h & r & _ & _ & Hi & Hp & Hr & _).
  destruct (store_op_refines (sealed_store state0) (OpRevoke h None) w1 Hi I) as [Hs _].
  unfold spec_op in Hs. cbn [op_handle] in Hs. rewrite Hr in Hs. cbn [spec_rewrite run_op] in Hs.
  unfold fmap_m, bind in Hs.
  destruct (revoke (sealed_store state0) h None w1) as [[b|e|] w2] eqn:E; try discriminate Hs.
  injection Hs as Hb _. subst b. exists o, h, w2. intros o' w3.
  refine (revoked_never_unwraps state0 h None w1 w2 [OpLoad h; OpRenew h 5] Hi E _ _ alice (payload_for o)
    _ o' w3 Hp eq_refl); repeat constructor.
Defined.

Lemma wrap_then_unwrap_witness : exists o w1 w3,
  wrap_secret_v2 state0 alice req0 empty_world = (Ok o, w1)
  /\ unwrap_secret_v2 state0 alice (payload_for o) w1 = (Ok (mkUnwrapOut (b64_encode #"hunter2")), w3).
Proof.
  destruct (wrap_then_unwrap state0 alice req0 empty_world expires0 (Some 3600%Z) principal0 inv0 ready0
    metadata0 ttl0 principal0_ok deadline0 lease0 expires0_ok caveats0_fit)
    as (o & w1 & h & r & Hw & Hr & _ & Ha & Hu).
  destruct session0 as (o' & w1' & h' & r' & w2 & Hw' & _ & _ & Hr' & _ & HP & _).
  rewrite Hw in Hw'. injection Hw' as <- <-. rewrite Hr in Hr'.
  apply (only_record h h' r r') in Hr' as [<- <-].
  destruct (Hu alice (payload_for o) w1 HP) as [w3 H3].
  exists o, w1, w3. exact (conj Hw H3).
Defined.

Lemma single_use_race_witness : exists o w1 a2 w2 a3 w3 w4 w5,
  wrap_secret_v2 state0 alice req0 empty_world = (Ok o, w1)
  /\ authorize_unwrap state0 alice (payload_for o) w1 = (Ok a2, w2)
  /\ authorize_unwrap state0 alice (payload_for o) w2 = (Ok a3, w3)
  /\ complete_unwrap state0 alice (payload_for o) a2.1 a2.2 w3
     = (Ok (mkUnwrapOut (b64_encode #"hunter2")), w4)
  /\ complete_unwrap state0 alice (payload_for o) a3.1 a3.2 w4
     = (Ok (mkUnwrapOut (b64_encode #"hunter2")), w5).
Proof.
  destruct (single_use_race state0 alice req0 empty_world expires0 (Some 3600%Z) principal0 inv0 ready0
    metadata0 eq_refl ttl0 principal0_ok deadline0 lease0 expires0_ok caveats0_fit)
    as (o & w1 & h & r & Hw & Hr & _ & Hu).
  destruct session0 as (o' & w1' & h' & r' & w2 & Hw' & _ & _ & Hr' & _ & HP & HL & Ht & _).
  rewrite Hw in Hw'. injection Hw' as <- <-. rewrite Hr in Hr'.
  apply (only_record h h' r r') in Hr' as [<- <-].
  destruct (Hu (payload_for o) HP (HL (tick w1 + 6) ltac:(lia)) (HL (tick w1 + 7) ltac:(lia)))
    as (a2 & w2' & a3 & w3 & w4 & w5 & HR).
  exists o, w1, a2, w2', a3, w3, w4, w5. exact (conj Hw HR).
Defined.

End UnwrapExamples.
