(* ===== verification/Delegate.v ===== *)
(** Delegating a handle (handlers.rs): attenuation, including third-party
    caveats whose secrets are kept with the record, and the minting of the
    discharges that satisfy them. *)

From S2P Require Import Prelude RustStd Externals Reference Macaroon MacaroonWire Threshold.
From S2P Require Import Transparency World SealedStore Config CryptoEngine Broker Issue Unwrap.

Record ThirdPartyCaveatRequest := mkThirdParty { tq_location : str; tq_condition : str }.

Record AttenuateV2Request := mkAttenuateReq {
  q_handle : str;
  q_tenant_id : option str;
  q_provider : option str;
  q_circuit_id : option str;
  q_node_id : option str;
  q_action : option str;
  q_max_uses : option Z;
  q_third_party : option ThirdPartyCaveatRequest;
}.

Record AttenuateV2Response := mkAttenuateOut {
  ao_handle : str;
  ao_third_party_caveat_id : option str;
}.

Record MintDischargeRequest := mkDischargeReq {
  d_location : str;
  d_primary_handle : str;
  d_caveat_id : str;
}.

Record MintDischargeResponse := mkDischargeOut { discharge_token : str }.

Definition BROKER_MAX_USES : Z := 1.
Definition DISCHARGE_TOKEN_TTL_SECONDS : Z := (5 * 60)%Z.

(** A caveat to add, with the text the log shows for it. *)
Definition addition {A} (name : str) (show : A -> str) (f : A -> Caveat) (o : option A)
    : list (str * Caveat) :=
  match o with Some a => [(name ++ #"=" ++ show a, f a)] | None => [] end.

Section Delegate.
Context `{TextCodecs} `{Hashes} `{JsonText} `{Aead} `{PqCrypto} `{Oracle} `{P256}.
Context `{!Serde StoredEnvelopeRecord} `{!Serde EncryptedRecord}.
Variable state : BrokerState.

(** The five optional text caveats, in the order of the code. *)
Definition text_additions (payload : AttenuateV2Request) : list (str * Caveat) :=
  addition #"tenant_id" (fun v => v) TenantId (normalized (q_tenant_id payload))
  ++ addition #"provider" (fun v => v) Provider (normalized (q_provider payload))
  ++ addition #"circuit_id" (fun v => v) CircuitId (normalized (q_circuit_id payload))
  ++ addition #"node_id" (fun v => v) NodeId (normalized (q_node_id payload))
  ++ addition #"action" (fun v => v) Action (normalized (q_action payload)).

Definition max_uses_addition (payload : AttenuateV2Request)
    : result ServiceError.t (list (str * Caveat)) :=
  match q_max_uses payload with
  | Some n =>
    let! _ := guard (negb (n =? BROKER_MAX_USES)%Z) (ServiceError.InvalidAttenuation
      #"max_uses currently only supports the live single-use value 1") in
    Ok [(#"max_uses=1", MaxUses)]
  | None => Ok []
  end.

(** A third-party caveat: a fresh key is sealed with the record. *)
Definition third_party_addition (handle_id : uuid) (payload : AttenuateV2Request)
    : H (list (str * Caveat) * option str) :=
  match q_third_party payload with
  | Some tp =>
    let* location := lift (ok_or (normalize_optional_string (tq_location tp))
      (ServiceError.InvalidAttenuation #"third-party location must be non-empty")) in
    let* condition := lift (ok_or (normalize_optional_string (tq_condition tp))
      (ServiceError.InvalidAttenuation #"third-party condition must be non-empty")) in
    let* id := new_uuid in
    let key_id := uuid_to_string id in
    let* secret := os_random 32 in
    let* created_at := utc_now in
    let* _ := map_err_m storage_err (append_third_party_caveat_key (sealed_store state) handle_id
      (mkCaveatKey location key_id (Some condition) (b64_encode secret) created_at)) in
    ret ([(#"third_party:location=" ++ location ++ #" key_id=" ++ key_id,
           ThirdParty location key_id)], Some key_id)
  | None => ret ([], None)
  end.

Definition attenuate_meta (context : BrokerClientContext) (added_caveats : list str)
    : list (str * json) :=
  let m := obj_insert #"caveats_added" (json_u64 (Z.of_nat (length added_caveats))) [] in
  let m := obj_insert #"caveat_types" (JArray (map JString added_caveats)) m in
  append_context_transparency_meta context m.

Definition attenuate_handle_v2 (context : BrokerClientContext) (payload : AttenuateV2Request)
    : H AttenuateV2Response :=
  let* mac := lift (parse_handle_v2 (q_handle payload)) in
  let handle_id := identifier mac in
  let root_key := macaroon_root_key state handle_id in
  let* _ := lift (map_err (fun _ => ServiceError.InvalidHandle)
                    (Macaroon.verify_signature mac root_key)) in
  let* found := map_err_m storage_err (load (sealed_store state) handle_id) in
  let* r := lift (ok_or found ServiceError.HandleNotFound) in
  let* _ := lift (validate_v2_record_identity_requirements r context) in
  let* uses := lift (max_uses_addition payload) in
  let* (third, third_party_caveat_id) := third_party_addition handle_id payload in
  let added := text_additions payload ++ uses ++ third in
  let mac := foldl add_caveat mac (map snd added) in
  let* _ := lift (guard (is_empty added)
                    (ServiceError.InvalidAttenuation #"at least one caveat is required")) in
  let attenuated_handle := format_handle mac in
  let* now := utc_now in
  let* _ := record_transparency (with_parent_handle (with_caller
    (ev_attenuate now (q_handle payload) (e_customer_id (r_envelope r))
       (Some (JObject (attenuate_meta context (map fst added))))) (caller context))
    (q_handle payload)) in
  ret (mkAttenuateOut attenuated_handle third_party_caveat_id).

(** ** Discharges *)

Definition find_caveat_key (location key_id : str) (r : StoredEnvelopeRecord)
    : option ThirdPartyCaveatKey :=
  match r_third_party_caveat_keys r with
  | Some entries =>
    List.find (fun e => str_eqb (tp_location e) location && str_eqb (tp_key_id e) key_id) entries
  | None => None
  end.

Definition discharge_meta (context : BrokerClientContext) (location condition key_id : str)
    (expires : datetime) (primary_handle_id : uuid) : list (str * json) :=
  let m := obj_insert #"type" (JString #"discharge") [] in
  let m := obj_insert #"location" (JString location) m in
  let m := obj_insert #"condition" (JString condition) m in
  let m := obj_insert #"caveat_key_id" (JString key_id) m in
  let m := obj_insert #"discharge_expires_at" (JString (to_rfc3339 expires)) m in
  let m := obj_insert #"primary_handle_id" (JString (uuid_to_string primary_handle_id)) m in
  append_context_transparency_meta context m.

Definition binding_err (e : MacaroonError) : ServiceError.t :=
  ServiceError.Crypto (ServiceError.MacaroonRejected e).

Definition mint_discharge (context : BrokerClientContext) (payload : MintDischargeRequest)
    : H MintDischargeResponse :=
  let location := d_location payload in
  let* _ := lift (validate_discharge_mint_requirements state context location) in
  let requested_caveat_id := trim (d_caveat_id payload) in
  let* _ := lift (guard (is_empty requested_caveat_id)
    (ServiceError.InvalidAttenuation #"mint discharge requires opaque caveat_id")) in
  let primary_handle := trim (d_primary_handle payload) in
  let* _ := lift (guard (is_empty primary_handle) ServiceError.InvalidHandle) in
  let* primary_mac := lift (parse_handle_v2 primary_handle) in
  let primary_handle_id := identifier primary_mac in
  let* found := map_err_m storage_err (load (sealed_store state) primary_handle_id) in
  let* r := lift (ok_or found ServiceError.HandleNotFound) in
  let root_key := macaroon_root_key state primary_handle_id in
  let* _ := lift (map_err (fun _ => ServiceError.InvalidHandle)
                    (Macaroon.verify_signature primary_mac root_key)) in
  let* stored_caveat := lift (ok_or (find_caveat_key location requested_caveat_id r)
    (ServiceError.Crypto (ServiceError.NoSealedCaveat requested_caveat_id location))) in
  let* primary_signature := lift (map_err binding_err
    (third_party_binding_info_by_key_id primary_mac root_key location (tp_key_id stored_caveat))) in
  let* resolved_condition := lift (ok_or (tp_condition stored_caveat)
    (ServiceError.Crypto ServiceError.MissingPredicate)) in
  let kid := tp_key_id stored_caveat in
  let* keys := lift (discharge_keys_for_record r) in
  let* discharge_key := lift (ok_or (List.find (key_matches location kid) keys)
    (ServiceError.Crypto (ServiceError.NoDischargeSecret location))) in
  let* now := utc_now in
  let* d := lift (duration_seconds DISCHARGE_TOKEN_TTL_SECONDS) in
  let* expires := lift (add_duration now d) in
  let discharge := mint_with_expiry location resolved_condition (key discharge_key)
                     primary_signature (Some expires) in
  let* at_ := utc_now in
  let* _ := record_transparency (with_caller
    (ev_wrap at_ (#"discharge:" ++ location) #"discharge-key" (default_customer_id state)
       (Some (JObject (discharge_meta context location resolved_condition kid expires
          primary_handle_id)))) (caller context)) in
  ret (mkDischargeOut (discharge_serialize discharge)).

End Delegate.

(** * Properties *)

Section DelegateLaws.
Context `{TextCodecsLaws} `{HashesLaws} `{JsonText} `{AeadLaws} `{PqCryptoLaws} `{OracleLaws} `{P256}.
Context `{!Serde KyberKeyPair} `{!Serde DilithiumKeyPair} `{!Serde KeyRecord}.
Context `{!Serde StoredEnvelopeRecord} `{!Serde EncryptedRecord} `{!Serde SecretEnvelope}.
Context `{!SerdeLaws StoredEnvelopeRecord record_ok} `{!SerdeLaws EncryptedRecord (fun _ => True)}.
Variable state : BrokerState.

Abbreviation cipher := (sealed_store state).

(** The key entry of a third-party caveat, drawn at step [t]. *)
Definition entry_at (t : nat) (loc cond : str) : ThirdPartyCaveatKey :=
  mkCaveatKey loc (uuid_to_string (uuid_at t)) (Some cond) (b64_encode (random_at (S t) 32)) (time_at (S (S t))).

Lemma third_party_none h payload w :
  q_third_party payload = None -> third_party_addition state h payload w = (Ok ([], None), w).
Proof. intros E. unfold third_party_addition. by rewrite E. Qed.

Lemma third_party_some h payload tp r w :
  store_inv cipher w -> records cipher w !! h = Some r -> q_third_party payload = Some tp ->
  match normalize_optional_string (tq_location tp), normalize_optional_string (tq_condition tp) with
  | Some loc, Some cond =>
    let kid := uuid_to_string (uuid_at (tick w)) in
    exists w', third_party_addition state h payload w
               = (Ok ([(#"third_party:location=" ++ loc ++ #" key_id=" ++ kid, ThirdParty loc kid)], Some kid), w')
      /\ records cipher w' = <[h := add_caveat_key (entry_at (tick w) loc cond) r]> (records cipher w)
      /\ store_inv cipher w' /\ kyber_keys w' = kyber_keys w /\ tick w' = tick w + 4
  | _, _ => is_ok (third_party_addition state h payload w).1 = false
  end.
Proof.
  intros Hi Hr E. unfold third_party_addition. rewrite E.
  destruct (normalize_optional_string (tq_location tp)) as [loc|]; [|done].
  destruct (normalize_optional_string (tq_condition tp)) as [cond|]; [|done].
  set (kid := uuid_to_string (uuid_at (tick w))). set (w3 := advance (advance (advance w))).
  destruct (update_some cipher h (fun r =>
      let entries := default [] (r_third_party_caveat_keys r) in
      let entries := if existsb (fun e => str_eqb (tp_key_id e) kid) entries
                     then entries else entries ++ [entry_at (tick w) loc cond] in
      ret (set_caveat_keys (Some entries) r, tt)) r (add_caveat_key (entry_at (tick w) loc cond) r) tt w3 w3)
    as (w' & Hw & Hrec & Hinv & (K & _) & T); [done|done|done|done|exact (records_ok cipher w h r Hi Hr)|].
  exists w'. split; [|split; [|split; [done|split; [done|rewrite T; cbn; lia]]]].
  - do 5 (erewrite bind_run; [|reflexivity]).
    rewrite (bind_run _ _ w3 tt w'); [done|]. apply map_err_m_ok. exact Hw.
  - rewrite Hrec. by rewrite (records_same cipher w w3).
Qed.

(** What attenuation does to the record: it is read, and a third-party caveat
    adds its key. *)
Definition attenuated_record (payload : AttenuateV2Request) (r r' : StoredEnvelopeRecord) : Prop :=
  exists a, match q_third_party payload with
  | Some _ => exists entry, r' = add_caveat_key entry (set_last_accessed a r)
  | None => r' = set_last_accessed a r
  end.

(** C15: an attenuation that succeeds was asked for by a caller with access and
    an authentic handle, adds at least one caveat, and only narrows: whatever
    the new handle is accepted for, the old one is accepted for as well.  The
    new handle is authentic and names the same record, whose only change is
    the key of a third-party caveat; no other record changes. *)
Theorem attenuate_narrows ctx payload w o w' :
  store_inv cipher w -> attenuate_handle_v2 state ctx payload w = (Ok o, w') ->
  exists m r r' cs,
    parse_handle_v2 (q_handle payload) = Ok m
    /\ records cipher w !! identifier m = Some r /\ may_access false r ctx
    /\ cs <> [] /\ ao_handle o = format_handle (foldl add_caveat m cs)
    /\ identifier (foldl add_caveat m cs) = identifier m
    /\ Macaroon.verify_signature (foldl add_caveat m cs) (macaroon_root_key state (identifier m)) = Ok tt
    /\ (forall v, verify (foldl add_caveat m cs) (macaroon_root_key state (identifier m)) v = Ok tt ->
          verify m (macaroon_root_key state (identifier m)) v = Ok tt)
    /\ attenuated_record payload r r'
    /\ records cipher w' = <[identifier m := r']> (records cipher w) /\ store_inv cipher w'.
Proof.
  intros Hi E. unfold attenuate_handle_v2 in E.
  apply bind_ok in E as (m & s0 & Hp & E). unfold lift in Hp. injection Hp as Hp <-.
  apply bind_ok in E as ([] & s1 & Hs & E). unfold lift in Hs. injection Hs as Hs <-. apply map_err_ok in Hs.
  apply bind_ok in E as (found & w1 & Hl & E). apply map_err_m_ok in Hl.
  apply bind_ok in E as (r1 & s2 & Hf & E). unfold lift in Hf. injection Hf as Hf <-. apply ok_or_ok in Hf.
  subst found. destruct (records cipher w !! identifier m) as [r|] eqn:Hr.
  2: { by rewrite load_none in Hl. }
  destruct (load_some cipher _ r w Hi Hr) as (w2 & Hl2 & R1 & I1 & (K1 & _) & T1).
  rewrite Hl2 in Hl. injection Hl as <- <-.
  apply bind_ok in E as ([] & s3 & Hv & E). unfold lift in Hv. injection Hv as Hv <-. apply identity_iff in Hv.
  apply bind_ok in E as (uses & s4 & Hu & E). unfold lift in Hu. injection Hu as Hu <-.
  apply bind_ok in E as ([third kid] & w3 & Ht & E).
  apply bind_ok in E as ([] & s5 & Hg & E). unfold lift in Hg. injection Hg as Hg <-. apply guard_ok in Hg.
  apply bind_ok in E as (n & s6 & Hn & E). injection Hn as <- <-.
  apply bind_ok in E as ([] & s7 & Hlog & E). injection E as <- <-.
  assert (envelopes s7 = envelopes w3) as He.
  { match type of Hlog with record_transparency ?e _ = _ =>
      pose proof (record_transparency_ok e (advance w3)) as L end.
    unfold wp in L. rewrite Hlog in L. by destruct L as [(-> & _) _]. }
  set (cs := map snd (text_additions payload ++ uses ++ third)) in *.
  assert (exists r', attenuated_record payload r r' /\
    records cipher w3 = <[identifier m := r']> (records cipher w) /\ store_inv cipher w3) as (r' & Ha & R3 & I3).
  { set (a := Some (time_at (tick w))) in *. unfold attenuated_record.
    destruct (q_third_party payload) as [tp|] eqn:Q.
    - pose proof (third_party_some (identifier m) payload tp (set_last_accessed a r) w2 I1
        ltac:(by rewrite R1, lookup_insert_eq) Q) as HTP. rewrite Ht in HTP.
      destruct (normalize_optional_string (tq_location tp)); [|done].
      destruct (normalize_optional_string (tq_condition tp)); [|done].
      destruct HTP as (w4 & E4 & R4 & I4 & _). injection E4 as _ _ ->.
      eexists. split; [exists a; eexists; reflexivity|]. rewrite R4, R1, insert_insert_eq. by split.
    - rewrite third_party_none in Ht by done. injection Ht as _ _ <-. exists (set_last_accessed a r).
      split; [by exists a|]. by split. }
  exists m, r, r', cs. split; [done|]. split; [done|]. split; [exact Hv|]. split.
  { unfold cs. intros Z. apply map_eq_nil in Z. by rewrite Z in Hg. }
  split; [done|]. split; [apply identifier_attenuated|]. split; [by apply verify_attenuated|].
  split; [intros v; by apply verify_narrows|]. split; [done|].
  rewrite (records_same cipher w3 s7) by done. split; [done|by eapply store_inv_same, I3].
Qed.

(** ** Delegation to a third party *)

Lemma find_snoc {A} (f : A -> bool) l x :
  Forall (fun e => f e = false) l -> f x = true -> List.find f (l ++ [x]) = Some x.
Proof. intros HF Hx. induction HF as [|e l He HF IH]; cbn; [by rewrite Hx|by rewrite He]. Qed.

Lemma collect_snoc {E A B} (f : A -> result E B) l ys x y :
  collect f l = Ok ys -> f x = Ok y -> collect f (l ++ [x]) = Ok (ys ++ [y]).
Proof.
  rewrite !collect_ok. intros HF Hx. apply Forall2_app; [done|]. by repeat constructor.
Qed.

(** The handle [m] of record [r] is given on with a third-party caveat. *)
Record delegable (ctx : BrokerClientContext) (handle : str) (m : Macaroon) (r : StoredEnvelopeRecord)
    (loc cond kid : str) (w : World) : Prop := {
  dg_inv : store_inv cipher w;
  dg_handle : parse_handle_v2 handle = Ok m;
  dg_signature : Macaroon.verify_signature m (macaroon_root_key state (identifier m)) = Ok tt;
  dg_record : records cipher w !! identifier m = Some r;
  dg_access : may_access false r ctx;
  dg_kid : kid = uuid_to_string (uuid_at (tick w + 2));
  dg_encodable : encodable (ThirdParty loc kid);
  dg_fits : macaroon_fits (add_caveat m (ThirdParty loc kid));
  dg_parses : Forall parses (caveats m);
  dg_keys : exists keys, discharge_keys_for_record r = Ok keys;
  dg_fresh : Forall (fun e => tp_key_id e <> kid) (default [] (r_third_party_caveat_keys r))
    /\ Forall (fun raw => ~ is_caveat loc kid raw) (caveats m);
  dg_strings : fits_u16 loc /\ fits_u16 cond;
}.

Definition delegated_record (t : nat) (loc cond : str) (a : option datetime) (r : StoredEnvelopeRecord) :=
  add_caveat_key (entry_at t loc cond) (set_last_accessed a r).

Lemma delegated_keys t loc cond a r kid :
  Forall (fun e => tp_key_id e <> kid) (default [] (r_third_party_caveat_keys r)) ->
  kid = uuid_to_string (uuid_at t) ->
  r_third_party_caveat_keys (delegated_record t loc cond a r)
  = Some (default [] (r_third_party_caveat_keys r) ++ [entry_at t loc cond]).
Proof.
  intros HF ->. unfold delegated_record, add_caveat_key. cbn [r_third_party_caveat_keys set_caveat_keys set_last_accessed].
  destruct (existsb _ _) eqn:E; [|done]. apply existsb_exists in E as (e & He & Hk).
  apply str_eqb_eq in Hk. cbn [entry_at tp_key_id] in Hk. rewrite Forall_forall in HF.
  destruct (HF e); [by apply list_elem_of_In|done].
Qed.

(** The key the verifier and the discharge service use. *)
Definition key_ref (t : nat) (loc cond : str) : DischargeKeyRef :=
  mkDischargeKeyRef loc (uuid_to_string (uuid_at t)) cond (random_at (S t) 32).

Lemma delegated_refs t loc cond a r keys kid :
  Forall (fun e => tp_key_id e <> kid) (default [] (r_third_party_caveat_keys r)) ->
  kid = uuid_to_string (uuid_at t) -> discharge_keys_for_record r = Ok keys ->
  discharge_keys_for_record (delegated_record t loc cond a r) = Ok (keys ++ [key_ref t loc cond])
  /\ List.find (key_matches loc kid) (keys ++ [key_ref t loc cond]) = Some (key_ref t loc cond).
Proof.
  intros HF Hkid Hk. assert (collect discharge_key_of (default [] (r_third_party_caveat_keys r)) = Ok keys) as HC.
  { unfold discharge_keys_for_record in Hk. by destruct (r_third_party_caveat_keys r). }
  split.
  - unfold discharge_keys_for_record. erewrite delegated_keys by done. apply collect_snoc; [done|].
    unfold discharge_key_of, entry_at. cbn [tp_secret_b64 tp_condition tp_location tp_key_id].
    rewrite b64_roundtrip. cbn [ok_or rbind]. by rewrite random_length.
  - apply find_snoc; [|unfold key_matches, key_ref; cbn; by rewrite Hkid, !str_eqb_refl].
    apply collect_ok in HC. rewrite Forall_forall in HF. apply Forall_forall. intros kr Hin.
    apply list_elem_of_lookup in Hin as [i Hi]. destruct (Forall2_lookup_r _ _ _ _ _ HC Hi) as (e & He & Hd).
    unfold discharge_key_of in Hd. monad_inv. unfold key_matches. cbn [key_id key_location].
    rewrite (proj2 (str_eqb_neq (tp_key_id e) _)); [apply andb_false_r|]. apply HF. by eapply list_elem_of_lookup_2.
Qed.

Lemma attenuate_third_ok ctx handle m r tp loc cond kid w :
  delegable ctx handle m r loc cond kid w ->
  normalize_optional_string (tq_location tp) = Some loc ->
  normalize_optional_string (tq_condition tp) = Some cond ->
  wp (attenuate_handle_v2 state ctx (mkAttenuateReq handle None None None None None None (Some tp))) w
    (fun o w' => o = mkAttenuateOut (format_handle (add_caveat m (ThirdParty loc kid))) (Some kid)
      /\ records cipher w' = <[identifier m := delegated_record (tick w + 2) loc cond (Some (time_at (tick w))) r]>
           (records cipher w)
      /\ store_inv cipher w').
Proof.
  intros [Hi Hp Hs Hr Hacc Hkid _ _ _ _ _ _] Hloc Hcond. unfold attenuate_handle_v2. cbn [q_handle]. wp_run.
  apply (wp_lift _ m); [done|]. wp_run. apply (wp_lift _ tt); [by rewrite Hs|]. wp_run.
  destruct (load_some cipher _ r w Hi Hr) as (w1 & Hl & R1 & I1 & _ & T1).
  apply wp_eq. do 2 eexists. split; [exact Hl|]. wp_run. eapply wp_lift; [reflexivity|]. wp_run.
  apply (wp_lift _ tt); [by apply identity_iff|]. wp_run. apply (wp_lift _ []); [done|]. wp_run.
  pose proof (third_party_some (identifier m)
    (mkAttenuateReq handle None None None None None None (Some tp)) tp
    (set_last_accessed (Some (time_at (tick w))) r) w1 I1 ltac:(by rewrite R1, lookup_insert_eq) eq_refl) as HT.
  rewrite Hloc, Hcond in HT. destruct HT as (w2 & HT & R2 & I2 & _).
  apply wp_eq. do 2 eexists. split; [exact HT|]. cbn beta iota. wp_run.
  apply (wp_lift _ tt); [done|]. wp_run.
  eapply wp_mono; [apply record_transparency_ok|]. intros _ w3 [(L1 & _) _]. wp_run. cbn in L1.
  rewrite T1, <- Hkid. split; [done|].
  rewrite (records_same cipher w2 w3), R2, R1, insert_insert_eq, T1 by done. split; [done|].
  by eapply store_inv_same, I2.
Qed.

(** The discharge the service at [loc] gets at time [t]. *)
Definition discharge_at (t : nat) (loc cond : str) (secret s : bytes) : DischargeMacaroon :=
  mint_with_expiry loc cond secret s (Some (time_at t + DISCHARGE_TOKEN_TTL_SECONDS * ns_per_sec)%Z).

Lemma trim_uuid u : trim (uuid_to_string u) = uuid_to_string u.
Proof. apply trim_graphic, uuid_graphic. Qed.

Lemma binding_info_last m k loc kid :
  Forall parses (caveats m) -> Forall (fun raw => ~ is_caveat loc kid raw) (caveats m) ->
  encodable (ThirdParty loc kid) -> Macaroon.verify_signature m k = Ok tt ->
  third_party_binding_info_by_key_id (add_caveat m (ThirdParty loc kid)) k loc kid
  = Ok (signature (add_caveat m (ThirdParty loc kid))).
Proof.
  intros HP HN He Hs%verify_signature_ok. apply binding_info_iff. cbn [add_caveat caveats identifier signature].
  assert (parse (encode (ThirdParty loc kid)) = Ok (ThirdParty loc kid)) as Hpe by (by apply parse_encode).
  split.
  - apply Forall_app. split; [done|]. constructor; [|done]. unfold parses. by rewrite Hpe.
  - exists (caveats m), (encode (ThirdParty loc kid)), []. split; [done|]. split; [done|].
    split; [by rewrite chain_app, <- Hs|by rewrite app_nil_r].
Qed.

Lemma mint_discharge_ok ctx ctx' handle m r loc cond kid w a b w2 :
  delegable ctx handle m r loc cond kid w ->
  store_inv cipher w2 ->
  records cipher w2 !! identifier m
    = Some (set_last_accessed b (delegated_record (tick w + 2) loc cond a r)) ->
  validate_discharge_mint_requirements state ctx' loc = Ok tt ->
  rfc3339_range (time_at (tick w2 + 2) + DISCHARGE_TOKEN_TTL_SECONDS * ns_per_sec) ->
  wp (mint_discharge state ctx'
        (mkDischargeReq loc (format_handle (add_caveat m (ThirdParty loc kid))) kid)) w2
    (fun o w' => o = mkDischargeOut (discharge_serialize (discharge_at (tick w2 + 2) loc cond
         (random_at (S (tick w + 2)) 32) (signature (add_caveat m (ThirdParty loc kid)))))).
Proof.
  intros [_ _ Hs _ _ Hkid He Hfit HP [keys Hk] [HFk HFc] _] Hi Hr Hv Ht.
  set (m' := add_caveat m (ThirdParty loc kid)) in *.
  assert (Hs' : Macaroon.verify_signature m' (macaroon_root_key state (identifier m)) = Ok tt)
    by (exact (verify_attenuated m _ [ThirdParty loc kid] Hs)).
  destruct (delegated_refs (tick w + 2) loc cond a r keys kid HFk Hkid Hk) as [Hrefs Hfind].
  unfold mint_discharge. cbn [d_location d_primary_handle d_caveat_id]. wp_run.
  apply (wp_lift _ tt); [done|]. wp_run.
  rewrite (eq_trans (f_equal trim Hkid) (eq_trans (trim_uuid _) (eq_sym Hkid))).
  apply (wp_lift _ tt); [by destruct He as (_ & Hne & _); destruct kid|]. wp_run.
  rewrite trim_handle. apply (wp_lift _ tt); [done|]. wp_run.
  apply (wp_lift _ m'); [by apply parse_format|]. wp_run. change (identifier m') with (identifier m).
  destruct (load_some cipher _ _ w2 Hi Hr) as (w3 & Hl & _ & _ & _ & T3).
  apply wp_eq. do 2 eexists. split; [exact Hl|]. wp_run. eapply wp_lift; [reflexivity|]. wp_run.
  apply (wp_lift _ tt); [by rewrite Hs'|]. wp_run.
  apply (wp_lift _ (entry_at (tick w + 2) loc cond)).
  { apply ok_or_ok. unfold find_caveat_key.
    change (r_third_party_caveat_keys (set_last_accessed (Some (time_at (tick w2)))
      (set_last_accessed b (delegated_record (tick w + 2) loc cond a r))))
      with (r_third_party_caveat_keys (delegated_record (tick w + 2) loc cond a r)).
    erewrite delegated_keys by done. apply find_snoc; [|cbn; by rewrite Hkid, !str_eqb_refl].
    eapply Forall_impl; [exact HFk|]. intros e Hne. cbn. rewrite (proj2 (str_eqb_neq (tp_key_id e) kid)) by done.
    apply andb_false_r. }
  wp_run. cbn [entry_at tp_key_id tp_condition]. rewrite <- Hkid.
  apply (wp_lift _ (signature m')); [by apply map_err_ok, binding_info_last|]. wp_run.
  apply (wp_lift _ cond); [done|]. wp_run.
  apply (wp_lift _ (keys ++ [key_ref (tick w + 2) loc cond])); [exact Hrefs|]. wp_run.
  apply (wp_lift _ (key_ref (tick w + 2) loc cond)); [by rewrite Hfind|]. wp_run.
  apply (wp_lift _ (DISCHARGE_TOKEN_TTL_SECONDS * ns_per_sec)%Z); [done|]. wp_run.
  rewrite T3. eapply wp_lift; [by apply add_duration_ok|]. wp_run.
  eapply wp_mono; [apply record_transparency_ok|]. intros _ w4 _. by wp_run.
Qed.

(** C14: delegation to a third party works end to end: the attenuation succeeds
    and returns the handle with the new caveat and its identifier; the service
    the caveat names, if the policy admits it, gets a discharge for that
    handle; presented with this discharge until its expiry, in whole seconds,
    the new handle is accepted exactly when the old one is, and without any
    discharge it is never accepted. *)
Theorem delegation_flow ctx ctx' handle m r tp loc cond kid w :
  delegable ctx handle m r loc cond kid w ->
  normalize_optional_string (tq_location tp) = Some loc ->
  normalize_optional_string (tq_condition tp) = Some cond ->
  validate_discharge_mint_requirements state ctx' loc = Ok tt ->
  exists o w1 r1 keys,
    attenuate_handle_v2 state ctx (mkAttenuateReq handle None None None None None None (Some tp)) w = (Ok o, w1)
    /\ records cipher w1 = <[identifier m := r1]> (records cipher w)
    /\ ao_third_party_caveat_id o = Some kid
    /\ parse_handle_v2 (ao_handle o) = Ok (add_caveat m (ThirdParty loc kid))
    /\ discharge_keys_for_record r1 = Ok keys
    /\ (forall payload t, u_discharges payload = [] ->
          verify (add_caveat m (ThirdParty loc kid)) (macaroon_root_key state (identifier m))
            (unwrap_verifier payload t keys) <> Ok tt)
    /\ forall w2 b, store_inv cipher w2 -> records cipher w2 !! identifier m = Some (set_last_accessed b r1) ->
      let expiry := (time_at (tick w2 + 2) + DISCHARGE_TOKEN_TTL_SECONDS * ns_per_sec)%Z in
      rfc3339_range expiry ->
      exists out w3 d,
        mint_discharge state ctx' (mkDischargeReq loc (ao_handle o) kid) w2 = (Ok out, w3)
        /\ discharge_deserialize (discharge_token out) = Ok d
        /\ forall payload t, d ∈ u_discharges payload -> (t <= timestamp expiry * ns_per_sec)%Z ->
          verify (add_caveat m (ThirdParty loc kid)) (macaroon_root_key state (identifier m))
            (unwrap_verifier payload t keys) = Ok tt <->
          verify m (macaroon_root_key state (identifier m)) (unwrap_verifier payload t keys) = Ok tt.
Proof.
  intros HD Hloc Hcond Hv.
  pose proof (attenuate_third_ok ctx handle m r tp loc cond kid w HD Hloc Hcond) as HA.
  apply wp_eq in HA as (o & w1 & HA & -> & R1 & _). pose proof HD as HD'.
  destruct HD' as [_ _ Hs _ _ Hkid He Hfit _ [keys Hk] [HFk _] [Fl Fc]].
  destruct (delegated_refs (tick w + 2) loc cond (Some (time_at (tick w))) r keys kid HFk Hkid Hk) as [Hrefs Hfind].
  eexists _, w1, _, _. split; [exact HA|]. split; [exact R1|]. split; [done|].
  split; [by apply parse_format|]. split; [exact Hrefs|]. split.
  { intros payload t Hd. rewrite (verify_add_caveat m _ _ _ Hs He). intros [_ Hc].
    by apply check_undischarged in Hc. }
  intros w2 b Hi2 Hr2 expiry Hx.
  pose proof (mint_discharge_ok ctx ctx' handle m r loc cond kid w _ b w2 HD Hi2 Hr2 Hv Hx) as HM.
  apply wp_eq in HM as (out & w3 & HM & ->). eexists _, w3, _. split; [exact HM|].
  cbn [discharge_token]. split.
  { apply discharge_deserialize_serialize.
    - repeat split; try apply Fl; try apply Fc; apply hmac_length.
    - cbn. intros t [= <-]. exact Hx. }
  intros payload t Hin Ht. rewrite (verify_add_caveat m _ _ _ Hs He).
  split; [by intros [? _]|]. intros Hm. split; [done|].
  eapply check_discharged; [exact Hfind|exact Hin|done..|]. cbn. intros t' [= <-]. exact Ht.
Qed.

End DelegateLaws.

(** * The theorems on concrete inputs *)

Module DelegateExamples.
Import Reference ToyWorld ToyStore CryptoExamples BrokerExamples Toy257 UnwrapExamples.

Definition tp0 : ThirdPartyCaveatRequest := mkThirdParty #" spiffe://prod/bob " #"mfa".
Definition loc0 : str := #"spiffe://prod/bob".

(** [bob]'s service, attested. *)
Definition bob_service : BrokerClientContext :=
  from_tls_exporter (le_bytes 32 78) None (Some loc0) (Some (le_bytes 32 8)) (Some (le_bytes 32 3)).

Lemma length_hex d : length (hex d) = 2 * length d.
Proof.
  induction d as [|b d IH]; [reflexivity|]. change (hex (b :: d)) with (hex_byte b ++ hex d).
  rewrite length_app, IH. cbn [length]. destruct b; cbn [length hex_byte]; lia.
Qed.

(** The identifier of a caveat, whatever step it is drawn at. *)
Lemma kid_length t : length (uuid_to_string (uuid_at t)) = 32.
Proof. change (length (hex (uuid_at t)) = 32). rewrite length_hex, uuid_length. reflexivity. Qed.
Lemma kid_encodable t : encodable (ThirdParty loc0 (uuid_to_string (uuid_at t))).
Proof.
  split; [discriminate|]. split; [intros E; pose proof (kid_length t) as L; rewrite E in L; discriminate L|].
  split; [vm_compute; reflexivity|]. apply graphic_utf8, uuid_graphic.
Qed.
Lemma kid_fits t : fits_u16 (encode (ThirdParty loc0 (uuid_to_string (uuid_at t)))).
Proof.
  split; [|apply encode_utf8; split; [vm_compute; reflexivity|apply graphic_utf8, uuid_graphic]].
  assert (length (b64url_encode (uuid_to_string (uuid_at t))) = 64) as L.
  { change (length (hex (uuid_to_string (uuid_at t))) = 64). rewrite length_hex, kid_length. reflexivity. }
  unfold encode. rewrite !length_app, L. vm_compute. reflexivity.
Qed.

(** The handle [alice] was given can be delegated. *)
Lemma delegable0 : exists o w1 h r,
  let m := mint (macaroon_root_key state0 h) h (wrap_caveats req0 expires0) in
  wrap_secret_v2 state0 alice req0 empty_world = (Ok o, w1) /\ tick w1 <= 26
  /\ store_inv (sealed_store state0) w1
  /\ delegable state0 alice (wo_handle o) m r loc0 #"mfa" (uuid_to_string (uuid_at (tick w1 + 2))) w1.
Proof.
  destruct session0 as (o & w1 & h & r & w2 & Hw & Hi & Hp & Hr & _ & HP & _ & Ht & [(_ & Hck & Hh) _] & _).
  exists o, w1, h, r. split; [exact Hw|]. split; [exact Ht|]. split; [exact Hi|].
  assert (Hcs : wrap_caveats req0 expires0 =
    [TenantId #"acme"; Expires (1700003600 * 10^9); Action #"unwrap"; MaxUses]) by (vm_compute; reflexivity).
  assert (Hpe : Forall (fun c => parse (encode c) = Ok c) (wrap_caveats req0 expires0)).
  { rewrite Hcs. repeat constructor; apply parse_encode; try exact I. }
  split.
  - exact Hi.
  - exact Hp.
  - apply verify_minted.
  - exact Hr.
  - exact (pr_access _ _ _ _ _ _ _ _ _ _ HP).
  - reflexivity.
  - apply kid_encodable.
  - split; [exact Hh|]. split; [apply hmac_length|]. cbn [add_caveat mint caveats]. split.
    + rewrite length_app, length_map, Hcs. reflexivity.
    + apply Forall_app. split; [apply Forall_map; exact caveats0_fit|]. constructor; [apply kid_fits|constructor].
  - cbn [mint caveats]. apply Forall_map. eapply Forall_impl; [exact Hpe|]. intros c E. unfold parses.
    cbn beta. rewrite E. reflexivity.
  - exists []. unfold discharge_keys_for_record. rewrite Hck. reflexivity.
  - split; [rewrite Hck; constructor|]. cbn [mint caveats]. apply Forall_map. rewrite Hcs in *.
    repeat match goal with HF : Forall _ (_ :: _) |- _ => apply Forall_cons in HF as [? HF] end.
    repeat constructor; unfold is_caveat; cbn beta; congruence.
  - split; (split; [vm_compute; reflexivity|vm_compute; reflexivity]).
Qed.

Lemma delegation_flow_witness : exists o w1 h,
  let kid := uuid_to_string (uuid_at (tick w1 + 2)) in
  let m := mint (macaroon_root_key state0 h) h (wrap_caveats req0 expires0) in
  exists out w2 keys,
  wrap_secret_v2 state0 alice req0 empty_world = (Ok o, w1)
  /\ attenuate_handle_v2 state0 alice
       (mkAttenuateReq (wo_handle o) None None None None None None (Some tp0)) w1 = (Ok out, w2)
  /\ forall payload t, u_discharges payload = [] ->
    verify (add_caveat m (ThirdParty loc0 kid)) (macaroon_root_key state0 h) (unwrap_verifier payload t keys) <> Ok tt.
Proof.
  destruct delegable0 as (o & w1 & h & r & Hw & Ht & Hi & HD).
  destruct (delegation_flow state0 alice bob_service (wo_handle o) _ r tp0 loc0 #"mfa" _ w1 HD
    ltac:(vm_compute; reflexivity) ltac:(vm_compute; reflexivity) ltac:(vm_compute; reflexivity))
    as (out & w2 & r1 & keys & HA & _ & _ & _ & _ & Hno & _).
  exists o, w1, h, out, w2, keys. exact (conj Hw (conj HA Hno)).
Defined.

Lemma attenuate_narrows_witness : exists o w1 h out w2 m cs,
  let kid := uuid_to_string (uuid_at (tick w1 + 2)) in
  wrap_secret_v2 state0 alice req0 empty_world = (Ok o, w1)
  /\ attenuate_handle_v2 state0 alice
       (mkAttenuateReq (wo_handle o) None None None None None None (Some tp0)) w1 = (Ok out, w2)
  /\ parse_handle_v2 (wo_handle o) = Ok m /\ identifier m = h /\ cs <> []
  /\ ao_handle out = format_handle (foldl add_caveat m cs).
Proof.
  destruct delegable0 as (o & w1 & h & r & Hw & Ht & Hi & HD).
  destruct (proj1 (wp_eq _ _ _) (attenuate_third_ok state0 alice (wo_handle o) _ r tp0 loc0 #"mfa" _ w1 HD
    ltac:(vm_compute; reflexivity) ltac:(vm_compute; reflexivity))) as (out & w2 & HA & _).
  destruct (attenuate_narrows state0 alice _ w1 out w2 Hi HA) as (m & r0 & r' & cs & Hp & _ & _ & Hne & Ho & _).
  exists o, w1, h, out, w2, m, cs.
  pose proof (dg_handle _ _ _ _ _ _ _ _ _ HD) as Hp2. pose proof Hp as Hp3. cbn [q_handle] in Hp3.
  rewrite Hp2 in Hp3. injection Hp3 as <-.
  exact (conj Hw (conj HA (conj Hp2 (conj eq_refl (conj Hne Ho))))).
Defined.

End DelegateExamples.
