(* ===== verification/Manage.v ===== *)
(** Managing stored secrets (handlers.rs): renewing a lease, revoking,
    rotating and deleting. *)

From S2P Require Import Prelude RustStd Externals Reference Macaroon MacaroonWire Threshold.
From S2P Require Import Transparency World SealedStore Config CryptoEngine Broker Issue Unwrap.

Record RenewLeaseRequest := mkRenewReq { n_handle : str; n_lease_duration_seconds : Z }.
Record RenewLeaseResponse := mkRenewOut { no_lease_expires_at : datetime; no_renewal_count : Z }.

Record RevokeSecretRequest := mkRevokeReq { k_handle : str; k_reason : option str }.
Record RevokeSecretResponse := mkRevokeOut { ko_revoked : bool; ko_revoked_at : option datetime }.

Record RotateSecretRequest := mkRotateReq {
  t_old_handle : str;
  t_new_plaintext : bytes;
  t_customer_id : option str;
  t_metadata : option json;
  t_ttl_seconds : option Z;
  t_rotation_reason : option str;
  t_lifecycle : SecretLifecycle;
  t_threshold : option Z;
  t_num_shares : option Z;
}.

Record RotateSecretResponse := mkRotateOut {
  to_new_handle : str;
  to_created_at : datetime;
  to_expires_at : option datetime;
  to_redeem_token : str;
  to_redeem_token_expires_at : option datetime;
  to_old_revoked : bool;
  to_new_shares : list Share;
}.

Section Manage.
Context `{TextCodecs} `{Hashes} `{JsonText} `{Aead} `{PqCrypto} `{Oracle} `{P256}.
Context `{!Serde KyberKeyPair} `{!Serde DilithiumKeyPair} `{!Serde KeyRecord}.
Context `{!Serde StoredEnvelopeRecord} `{!Serde EncryptedRecord} `{!Serde SecretEnvelope}.
Variable random_scalars : nat -> nat -> scalar.
Variable state : BrokerState.

Abbreviation cipher := (sealed_store state).

(** [store.load(..)?.ok_or(HandleNotFound)?] *)
Definition load_required (handle_id : uuid) : H StoredEnvelopeRecord :=
  let* found := map_err_m storage_err (load cipher handle_id) in
  lift (ok_or found ServiceError.HandleNotFound).

(** ** Deleting *)

Definition delete_secret (context : BrokerClientContext) (handle : str) : H bool :=
  let* handle_id := lift (parse_handle_identifier state handle) in
  let* found := map_err_m storage_err (load cipher handle_id) in
  let* _ := lift (match found with
                  | Some r => validate_v2_record_management_requirements r context
                  | None => Ok tt
                  end) in
  let* removed := map_err_m storage_err (SealedStore.delete handle_id) in
  let* now := utc_now in
  let* _ := record_transparency (with_caller
    (ev_delete now handle removed (Some (JObject (append_context_transparency_meta context []))))
    (caller context)) in
  ret removed.

(** ** Renewing a lease *)

(** The lease ends with the secret at the latest. *)
Definition cap_lease (r : StoredEnvelopeRecord) (new_lease : datetime) : datetime :=
  match r_expires_at r with
  | Some hard_ttl => if (hard_ttl <? new_lease)%Z then hard_ttl else new_lease
  | None => new_lease
  end.

Definition renew_meta (context : BrokerClientContext) (count : Z) (lease : datetime)
    : list (str * json) :=
  let m := obj_insert #"renewal_count" (json_u64 count) [] in
  let m := obj_insert #"lease_expires_at" (JString (to_rfc3339 lease)) m in
  append_context_transparency_meta context m.

Definition renew_lease_handler (context : BrokerClientContext) (payload : RenewLeaseRequest)
    : H RenewLeaseResponse :=
  let secs := n_lease_duration_seconds payload in
  let* _ := lift (guard ((secs =? 0)%Z || (86400 * 30 <? secs)%Z) ServiceError.InvalidTtl) in
  let* handle_id := lift (parse_handle_identifier state (n_handle payload)) in
  let* r := load_required handle_id in
  let* _ := lift (guard (r_revoked r) ServiceError.RevokedHandle) in
  let* _ := lift (guard (bool_decide (r_lifecycle r <> RenewableLease))
                    (ServiceError.Crypto ServiceError.NotRenewable)) in
  let* now := utc_now in
  let* _ := lift (guard (is_expired r now) ServiceError.ExpiredHandle) in
  let* _ := lift (validate_v2_record_identity_requirements r context) in
  let* d := lift (duration_seconds (as_i64 secs)) in
  let* new_lease := lift (add_duration now d) in
  let capped_lease := cap_lease r new_lease in
  let previous_lease_expiry := default now (r_lease_expires_at r) in
  let* updated := map_err_m storage_err (renew_lease cipher handle_id capped_lease) in
  let* at_ := utc_now in
  let* _ := record_transparency (with_caller (with_lease_renewal
    (ev_renew_lease at_ (n_handle payload) (e_customer_id (r_envelope r))
       (Some (JObject (renew_meta context (r_lease_renewal_count updated) capped_lease))))
    (r_lease_renewal_count updated) previous_lease_expiry) (caller context)) in
  ret (mkRenewOut capped_lease (r_lease_renewal_count updated)).

(** ** Revoking *)

Definition revoke_meta (context : BrokerClientContext) (handle : str) (reason : option str)
    (revoked_at : option datetime) (r : StoredEnvelopeRecord) : list (str * json) :=
  let m := obj_insert #"handle_version" (json_u64 2) [] in
  let m := obj_insert #"handle_fingerprint" (JString (handle_fingerprint handle)) m in
  let m := obj_insert_opt #"reason" JString reason m in
  let m := obj_insert_opt #"revoked_at" (fun t => JString (to_rfc3339 t)) revoked_at m in
  let m := append_record_transparency_meta r m in
  append_context_transparency_meta context m.

Definition revoke_secret (context : BrokerClientContext) (payload : RevokeSecretRequest)
    : H RevokeSecretResponse :=
  let* handle_id := lift (parse_handle_identifier state (k_handle payload)) in
  let* r := load_required handle_id in
  let* _ := lift (validate_v2_record_management_requirements r context) in
  let* revoked := map_err_m storage_err (revoke cipher handle_id (k_reason payload)) in
  if revoked : bool then
    let* t := utc_now in
    let* now := utc_now in
    let* _ := record_transparency (with_caller
      (ev_revoke now (k_handle payload) (e_customer_id (r_envelope r))
         (Some (JObject (revoke_meta context (k_handle payload) (k_reason payload) (Some t) r))))
      (caller context)) in
    ret (mkRevokeOut true (Some t))
  else ret (mkRevokeOut false None).

(** ** Rotating *)

(** The redeem token of the new secret, or its shares. *)
Definition rotate_token (handle_id : uuid) (redeem_token : str) (threshold num_shares : Z)
    : H (str * list Share) :=
  if (1 <? threshold)%Z then
    let* dealt := split_redeem_token random_scalars redeem_token threshold num_shares in
    let* _ := map_err_m storage_err (update_threshold_config cipher handle_id threshold
                                       (map b64_encode (commitments dealt))) in
    ret ([], shares dealt)
  else ret (redeem_token, []).

Definition rotate_caveats (expires_at : option datetime) : list Caveat :=
  caveat_opt Expires expires_at ++ [Action #"unwrap"; MaxUses].

Definition rotate_meta (context : BrokerClientContext) (old_revoked : bool) (reason : str)
    : list (str * json) :=
  let m := obj_insert #"old_revoked" (JBool old_revoked) [] in
  let m := obj_insert #"reason" (JString reason) m in
  append_context_transparency_meta context m.

Definition rotate_secret (context : BrokerClientContext) (payload : RotateSecretRequest)
    : H RotateSecretResponse :=
  let* old_handle_id := lift (parse_handle_identifier state (t_old_handle payload)) in
  let* old_record := load_required old_handle_id in
  let* _ := lift (validate_v2_record_management_requirements old_record context) in
  let* created_at := utc_now in
  let customer_id := default (default_customer_id state) (normalized (t_customer_id payload)) in
  let* (expires_at, _) := lift (enforce_ttl (t_ttl_seconds payload) state created_at) in
  let threshold := Z.max (default 1%Z (t_threshold payload)) 1 in
  let num_shares := Z.max (default 1%Z (t_num_shares payload)) threshold in
  let* _ := lift (guard (num_shares <? threshold)%Z ServiceError.InvalidTtl) in
  let* unwrap_principal_id := lift (v2_unwrap_principal context (t_lifecycle payload) None) in
  let* outcome := persist_secret_v2_with_lifecycle state context
    (mkPersist (t_new_plaintext payload) customer_id (t_metadata payload) created_at expires_at
       (t_lifecycle payload) None unwrap_principal_id) in
  let handle_id := o_handle_id outcome in
  let new_handle := format_handle (mint (macaroon_root_key state handle_id) handle_id
                                     (rotate_caveats (o_expires_at outcome))) in
  let* (redeem_token, new_shares) := rotate_token handle_id (o_redeem_token outcome) threshold num_shares in
  let reason := default #"rotated to replacement capability" (t_rotation_reason payload) in
  let* old_revoked := map_err_m storage_err (revoke cipher old_handle_id (Some reason)) in
  let* now := utc_now in
  let* _ := record_transparency (with_parent_handle (with_caller
    (ev_rotate now (t_old_handle payload) new_handle (o_envelope_key_id outcome) (o_customer_id outcome)
       (Some (JObject (rotate_meta context old_revoked reason)))) (caller context))
    (t_old_handle payload)) in
  ret (mkRotateOut new_handle created_at expires_at redeem_token (o_redeem_token_expires_at outcome)
         old_revoked new_shares).

End Manage.

(** * Properties *)

Section ManageLaws.
Context `{TextCodecsLaws} `{HashesLaws} `{JsonText} `{AeadLaws} `{PqCryptoLaws} `{OracleLaws} `{P256}.
Context `{!Serde KyberKeyPair} `{!Serde DilithiumKeyPair} `{!Serde KeyRecord}.
Context `{!Serde StoredEnvelopeRecord} `{!Serde EncryptedRecord} `{!Serde SecretEnvelope}.
Context `{!SerdeLaws StoredEnvelopeRecord record_ok} `{!SerdeLaws EncryptedRecord (fun _ => True)}.
Variable state : BrokerState.

Abbreviation cipher := (sealed_store state).

(** A record that was read: [r] before, [r'] as returned and written back. *)
Definition read_at (h : uuid) (r r' : StoredEnvelopeRecord) (w w' : World) : Prop :=
  records cipher w !! h = Some r /\ r' = set_last_accessed (Some (time_at (tick w))) r
  /\ records cipher w' = <[h := r']> (records cipher w) /\ store_inv cipher w'
  /\ store_only w w' /\ tick w' = tick w + 2.

Lemma load_required_inv h w r' w' :
  store_inv cipher w -> load_required state h w = (Ok r', w') -> exists r, read_at h r r' w w'.
Proof.
  intros Hi E. unfold load_required in E. apply bind_ok in E as (found & w1 & Hl & E).
  apply map_err_m_ok in Hl. destruct (records cipher w !! h) as [r|] eqn:Hr.
  - destruct (load_some cipher h r w Hi Hr) as (w2 & Hl2 & ? & ? & ? & ?).
    rewrite Hl2 in Hl. injection Hl as <- <-. injection E as <- <-. by exists r.
  - rewrite load_none in Hl by done. injection Hl as <- <-. discriminate E.
Qed.

Lemma load_required_ok h r w :
  store_inv cipher w -> records cipher w !! h = Some r ->
  wp (load_required state h) w (fun r' w' => read_at h r r' w w').
Proof.
  intros Hi Hr. destruct (load_some cipher h r w Hi Hr) as (w2 & Hl2 & ? & ? & ? & ?).
  apply wp_eq. do 2 eexists. unfold load_required, map_err_m, bind. rewrite Hl2. by split.
Qed.

Lemma may_access_read manage a r ctx :
  may_access manage (set_last_accessed a r) ctx <-> may_access manage r ctx.
Proof. done. Qed.

Lemma revoke_refused ctx req h r w :
  store_inv cipher w -> parse_handle_identifier state (k_handle req) = Ok h ->
  records cipher w !! h = Some r -> ~ may_access true r ctx ->
  is_ok (revoke_secret state ctx req w).1 = false
  /\ tick (revoke_secret state ctx req w).2 = tick w + 2.
Proof.
  intros Hi Hp Hr Hno. unfold revoke_secret. rewrite Hp. rewrite (bind_run _ _ w h w) by done.
  destruct (proj1 (wp_eq _ _ _) (load_required_ok h r w Hi Hr)) as (r' & w1 & Hl & _ & -> & _ & _ & _ & Ht).
  rewrite (bind_run _ _ w _ w1) by exact Hl. rewrite <- Ht.
  match goal with |- is_ok (bind ?m ?k ?s).1 = _ /\ _ => destruct (bind_stop m k s) as [-> ->]; [|done] end.
  unfold lift. cbn [fst]. destruct (validate_v2_record_management_requirements _ ctx) as [[]|e|] eqn:V; try done.
  destruct Hno. by apply identity_iff in V.
Qed.

(** ** Renewing a lease *)

(** The lease a renewal at [now] for [secs] seconds grants. *)
Definition granted_lease (r : StoredEnvelopeRecord) (now : datetime) (secs : Z) : datetime :=
  cap_lease r (now + secs * ns_per_sec)%Z.

Lemma granted_lease_exact r now secs :
  granted_lease r now secs
  = match r_expires_at r with
    | Some e => Z.min e (now + secs * ns_per_sec)
    | None => now + secs * ns_per_sec
    end%Z.
Proof.
  unfold granted_lease, cap_lease. destruct (r_expires_at r) as [e|]; [|done].
  destruct (Z.ltb_spec e (now + secs * ns_per_sec)); lia.
Qed.

(** Who can renew what, at time [now]. *)
Definition renewable_by (ctx : BrokerClientContext) (r : StoredEnvelopeRecord) (now : datetime) : Prop :=
  r_revoked r = false /\ r_lifecycle r = RenewableLease /\ is_expired r now = false /\ may_access false r ctx.

Definition lease_range (secs : Z) : Prop := (1 <= secs <= 86400 * 30)%Z.

Lemma lease_guard secs : lease_range secs -> (secs =? 0)%Z || (86400 * 30 <? secs)%Z = false.
Proof. unfold lease_range. intros Hs. apply orb_false_iff. split; [apply Z.eqb_neq|apply Z.ltb_ge]; lia. Qed.

Lemma renew_ok ctx payload h r w :
  let now := time_at (tick w + 2) in
  let secs := n_lease_duration_seconds payload in
  store_inv cipher w -> parse_handle_identifier state (n_handle payload) = Ok h ->
  records cipher w !! h = Some r -> lease_range secs -> rfc3339_range (now + secs * ns_per_sec) ->
  renewable_by ctx r now ->
  wp (renew_lease_handler state ctx payload) w (fun o w' =>
    let n := saturating_add_u32 (r_lease_renewal_count r) 1 in
    o = mkRenewOut (granted_lease r now secs) n
    /\ (exists a, records cipher w' = <[h := set_lease (Some (granted_lease r now secs)) n a r]> (records cipher w))
    /\ store_inv cipher w' /\ kyber_keys w' = kyber_keys w /\ within 7 w w').
Proof.
  intros now secs Hi Hp Hr Hs Ht (Hrev & Hlc & Hx & Hacc). unfold renew_lease_handler. fold secs. wp_run.
  apply (wp_lift _ tt); [by rewrite lease_guard|]. wp_run. apply (wp_lift _ h); [done|]. wp_run.
  eapply wp_mono; [by apply load_required_ok|]. intros r' w1 (_ & -> & R1 & I1 & (K1 & _) & T1). wp_run.
  apply (wp_lift _ tt); [cbn; by rewrite Hrev|]. wp_run.
  apply (wp_lift _ tt). { apply guard_ok, bool_decide_eq_false_2. intros Hn. by apply Hn. }
  wp_run. rewrite T1. fold now. apply (wp_lift _ tt); [by apply guard_ok|]. wp_run.
  apply (wp_lift _ tt); [by apply identity_iff|]. wp_run.
  apply (wp_lift _ (secs * ns_per_sec)%Z).
  { unfold duration_seconds, lease_range in *. rewrite as_i64_low by lia.
    change ((2^63 - 1) / 1000)%Z with 9223372036854775%Z. by rewrite (proj2 (Z.leb_le _ _)) by lia. }
  wp_run. eapply wp_lift; [by apply add_duration_ok|]. wp_run.
  set (lease := cap_lease _ _). change lease with (granted_lease r now secs). clear lease.
  set (lease := granted_lease r now secs). set (a := Some (time_at (tick w))) in *.
  set (r2 := set_lease (Some lease) (saturating_add_u32 (r_lease_renewal_count r) 1)
    (Some (time_at (tick (advance w1)))) (set_last_accessed a r)).
  destruct (update_some cipher h (fun r => let* now := utc_now in
      let r := set_lease (Some lease) (saturating_add_u32 (r_lease_renewal_count r) 1) (Some now) r in ret (r, r))
      (set_last_accessed a r) r2 r2 (advance w1) (advance (advance w1)))
    as (w2 & Hw2 & R2 & I2 & (K2 & _) & T2);
    [done|by rewrite (records_same cipher w1 (advance w1)), R1, lookup_insert_eq|done|done
    |exact (records_ok cipher w h r Hi Hr)|].
  apply wp_eq. do 2 eexists. split; [exact Hw2|]. wp_run.
  eapply wp_mono; [apply record_transparency_ok|].
  intros _ w3 ((L1 & L2 & _) & T3). wp_run. unfold within in *. cbn in L1, L2, T2, T3, K2.
  split; [done|]. split.
  { eexists. rewrite (records_same _ w2 w3), R2, (records_same cipher w1 (advance w1)), R1, insert_insert_eq by done.
    reflexivity. }
  split; [by eapply store_inv_same, I2|]. split; [congruence|lia].
Qed.

Lemma renew_inv ctx payload h r w o w' :
  store_inv cipher w -> parse_handle_identifier state (n_handle payload) = Ok h ->
  records cipher w !! h = Some r -> renew_lease_handler state ctx payload w = (Ok o, w') ->
  n_lease_duration_seconds payload <> 0%Z /\ (n_lease_duration_seconds payload <= 86400 * 30)%Z
  /\ renewable_by ctx r (time_at (tick w + 2)).
Proof.
  intros Hi Hp Hr E. unfold renew_lease_handler in E.
  apply bind_ok in E as ([] & s0 & Hg & E). unfold lift in Hg. injection Hg as Hg <-. apply guard_ok in Hg. bool_to_prop.
  apply bind_ok in E as (h0 & s1 & Hh & E). unfold lift in Hh. rewrite Hp in Hh. injection Hh as <- <-.
  apply bind_ok in E as (r' & w1 & Hl & E).
  apply load_required_inv in Hl as (r0 & Hr0 & -> & _ & _ & _ & T1); [|done].
  rewrite Hr in Hr0. injection Hr0 as <-.
  apply bind_ok in E as ([] & s2 & Hrev & E). unfold lift in Hrev. injection Hrev as Hrev <-. apply guard_ok in Hrev.
  apply bind_ok in E as ([] & s3 & Hlc & E). unfold lift in Hlc. injection Hlc as Hlc <-.
  apply guard_ok, bool_decide_eq_false in Hlc.
  apply bind_ok in E as (n & s4 & Hn & E). injection Hn as <- <-.
  apply bind_ok in E as ([] & s5 & Hx & E). unfold lift in Hx. injection Hx as Hx <-. apply guard_ok in Hx.
  apply bind_ok in E as ([] & s6 & Hv & _). unfold lift in Hv. injection Hv as Hv <-. apply identity_iff in Hv.
  rewrite T1 in Hx. split; [done|]. split; [done|]. split; [done|]. split; [by destruct (decide (r_lifecycle r = RenewableLease))|].
  by split.
Qed.

(** C17: a lease is renewed exactly when the request is for one second to thirty
    days and the secret is a live, unrevoked renewable lease that the caller
    may use.  The new lease ends exactly the requested time after now, or with
    the secret itself where that is earlier; the renewal counter grows by one
    and stays at [u32::MAX] when it is there, the caller is told both, and
    apart from the time of the last access nothing else of the record and no
    other record changes. *)
Theorem renew_exact ctx payload h r w :
  let now := time_at (tick w + 2) in
  let secs := n_lease_duration_seconds payload in
  let n := Z.min (2^32 - 1) (r_lease_renewal_count r + 1) in
  let lease := match r_expires_at r with
    | Some e => Z.min e (now + secs * ns_per_sec)
    | None => now + secs * ns_per_sec
    end%Z in
  store_inv cipher w -> parse_handle_identifier state (n_handle payload) = Ok h ->
  records cipher w !! h = Some r -> (0 <= secs)%Z ->
  (lease_range secs -> rfc3339_range (now + secs * ns_per_sec)) ->
  ((exists o w', renew_lease_handler state ctx payload w = (Ok o, w'))
   <-> lease_range secs /\ renewable_by ctx r now)
  /\ forall o w', renew_lease_handler state ctx payload w = (Ok o, w') ->
    o = mkRenewOut lease n
    /\ exists a, records cipher w' = <[h := set_lease (Some lease) n a r]> (records cipher w).
Proof.
  intros now secs n lease Hi Hp Hr H0' Hrange.
  assert (Hinv : forall o w', renew_lease_handler state ctx payload w = (Ok o, w') ->
    lease_range secs /\ renewable_by ctx r now).
  { intros o w' E. destruct (renew_inv ctx payload h r w o w' Hi Hp Hr E) as (Hz & Hm & HR).
    split; [|done]. unfold lease_range. fold secs in Hz, Hm. lia. }
  split.
  - split; [intros (o & w' & E); by eapply Hinv|]. intros [Hs HR].
    pose proof (renew_ok ctx payload h r w Hi Hp Hr Hs (Hrange Hs) HR) as HW.
    apply wp_eq in HW as (o & w' & E & _). by exists o, w'.
  - intros o w' E. destruct (Hinv o w' E) as [Hs HR].
    pose proof (renew_ok ctx payload h r w Hi Hp Hr Hs (Hrange Hs) HR) as HW.
    unfold wp in HW. rewrite E in HW. destruct HW as (-> & (a & Hrec) & _).
    rewrite granted_lease_exact in *. split; [done|]. by exists a.
Qed.

End ManageLaws.
