(* ===== verification/Lease.v ===== *)
(** Leases in use: a renewable lease is not consumed by unwrapping it, and
    renewing it moves the end of the lease.  The other deadlines of the record
    stay where they were: the redeem token (one day after the secret was
    wrapped), the signing key and the secret itself still end its use. *)

From S2P Require Import Prelude RustStd Externals Reference Macaroon MacaroonWire Threshold.
From S2P Require Import Transparency World SealedStore Config CryptoEngine Broker Issue Unwrap Manage.

Section Lease.
Context `{TextCodecsLaws} `{HashesLaws} `{JsonText} `{AeadLaws} `{PqCryptoLaws} `{OracleLaws} `{P256}.
Context `{!Serde KyberKeyPair} `{!Serde DilithiumKeyPair} `{!Serde KeyRecord}.
Context `{!Serde StoredEnvelopeRecord} `{!Serde EncryptedRecord} `{!Serde SecretEnvelope}.
Context `{!Serde (list Share)}.
Context `{!SerdeLaws KyberKeyPair (fun _ => True)} `{!SerdeLaws KeyRecord (fun _ => True)}.
Context `{!SerdeLaws StoredEnvelopeRecord record_ok} `{!SerdeLaws EncryptedRecord (fun _ => True)}.
Variable state : BrokerState.

Abbreviation cipher := (sealed_store state).

(** The record without its lease: what unwrapping asks for besides. *)
Definition lease_free (r : StoredEnvelopeRecord) : StoredEnvelopeRecord :=
  set_lease None (r_lease_renewal_count r) (r_last_accessed r) r.

Lemma check_record_lease ctx r now lease n a :
  check_record ctx (lease_free r) now = Ok tt -> (now <= lease)%Z ->
  check_record ctx (set_lease (Some lease) n a r) now = Ok tt.
Proof.
  intros Hc Hl. unfold check_record in *.
  apply guard_bind_ok in Hc as [Hr Hc]. apply guard_bind_ok in Hc as [Hx Hc].
  apply guard_bind_ok. split; [exact Hr|]. apply guard_bind_ok. split; [exact Hx|].
  apply rbind_ok in Hc as ([] & Hid & Hc). apply rbind_ok. exists tt. split; [exact Hid|].
  apply rbind_ok in Hc as ([] & _ & Hc). apply rbind_ok. exists tt. split; [|exact Hc].
  case_bool_decide; [|done]. cbn. apply guard_ok, Z.ltb_ge, Hl.
Qed.

Lemma check_record_times ctx r now now' :
  check_record ctx r now = Ok tt -> live r now' -> check_record ctx r now' = Ok tt.
Proof.
  intros Hc (Lx & _ & Lk & Ll). unfold check_record in *.
  apply guard_bind_ok in Hc as [Hr Hc]. apply guard_bind_ok in Hc as [_ Hc].
  apply guard_bind_ok. split; [exact Hr|]. apply guard_bind_ok. split.
  { unfold is_expired. destruct (r_expires_at r) as [e|]; [|done]. apply Z.ltb_ge. by apply Lx. }
  apply rbind_ok in Hc as ([] & Hid & Hc). apply rbind_ok. exists tt. split; [exact Hid|].
  apply rbind_ok in Hc as ([] & _ & Hc). apply rbind_ok. exists tt. split.
  { case_bool_decide; [|done]. destruct (r_lease_expires_at r) as [e|]; [|done]. apply guard_ok, Z.ltb_ge. auto. }
  apply rbind_ok in Hc as ([] & _ & Hc). apply rbind_ok. exists tt. split; [|exact Hc].
  destruct (r_signing_key_expires_at r) as [e|]; [|done]. apply guard_ok, Z.ltb_ge. auto.
Qed.

Lemma check_redeem_token_times ctx h r token now now' :
  check_redeem_token state ctx h r token now = Ok tt -> live r now' ->
  check_redeem_token state ctx h r token now' = Ok tt.
Proof.
  intros Ht (_ & Lt & _). unfold check_redeem_token in *.
  apply rbind_ok in Ht as (n64 & Hn & Ht). apply rbind_ok. exists n64. split; [exact Hn|].
  apply rbind_ok in Ht as (b & Hb & Ht). apply rbind_ok. exists b. split; [exact Hb|].
  apply guard_bind_ok in Ht as [Hu Ht]. apply guard_bind_ok. split; [exact Hu|].
  apply rbind_ok in Ht as (e & He & Ht). apply rbind_ok. exists e. split; [exact He|].
  apply guard_bind_ok in Ht as [_ Ht]. apply guard_bind_ok. split; [|exact Ht].
  apply Z.ltb_ge, Lt. by apply ok_or_ok in He.
Qed.

(** The handle's macaroon passes at time [t]: its signature is right and its
    caveats hold for the request. *)
Definition handle_passes (payload : UnwrapV2Request) (m : Macaroon) (r : StoredEnvelopeRecord)
    (t : datetime) : Prop :=
  exists keys, discharge_keys_for_record r = Ok keys
    /\ verify m (macaroon_root_key state (identifier m)) (unwrap_verifier payload t keys) = Ok tt.

(** The checks that pass for the record without its lease pass again for the
    renewed record at any time that is within its deadlines. *)
Lemma grants_lease ctx payload m r t t1 t2 lease n a :
  grants state ctx payload m (lease_free r) t t -> handle_passes payload m r t1 ->
  live (set_lease (Some lease) n a r) t2 ->
  grants state ctx payload m (set_lease (Some lease) n a r) t1 t2.
Proof.
  intros [_ Hc Ht] Hm Hl. split; [exact Hm| |by eapply check_redeem_token_times].
  destruct Hl as (Lx & Lt & Lk & Ll). unfold check_record.
  assert (Hf : check_record ctx (lease_free r) t2 = Ok tt)
    by (eapply check_record_times; [exact Hc|]; repeat split; try done; intros ? ? [=]).
  destruct (decide (r_lifecycle r = RenewableLease)) as [L|L].
  - apply check_record_lease; [exact Hf|by apply Ll].
  - unfold check_record in Hf. cbn [lease_free r_lifecycle set_lease] in *.
    rewrite bool_decide_eq_false_2 in * by done. exact Hf.
Qed.

(** Checks that pass are within the deadlines. *)
Lemma grants_live ctx payload m r t1 t2 : grants state ctx payload m r t1 t2 -> live r t2.
Proof.
  intros [_ Hc Ht]. apply check_record_ok in Hc as (_ & Hx & _ & Hl & Hk & _).
  apply check_redeem_token_ok in Ht as (_ & _ & _ & _ & _ & _ & _ & _ & _ & (e & He & Hle) & _).
  repeat split; try done.
  - intros e' He'. unfold is_expired in Hx. rewrite He' in Hx. by apply Z.ltb_ge.
  - intros e' He'. congruence.
Qed.

Lemma grants_free ctx payload m r t1 t2 :
  grants state ctx payload m r t1 t2 -> grants state ctx payload m (lease_free r) t1 t2.
Proof.
  intros [Hm Hc Ht]. split; [exact Hm| |exact Ht]. unfold check_record in *.
  apply guard_bind_ok in Hc as [Hr Hc]. apply guard_bind_ok in Hc as [Hx Hc].
  apply guard_bind_ok. split; [exact Hr|]. apply guard_bind_ok. split; [exact Hx|].
  apply rbind_ok in Hc as ([] & Hid & Hc). apply rbind_ok. exists tt. split; [exact Hid|].
  apply rbind_ok in Hc as ([] & _ & Hc). apply rbind_ok. exists tt. split; [|exact Hc].
  by case_bool_decide.
Qed.

(** One unwrap of a renewed lease. *)
Lemma unwrap_lease_ok ctx payload m r lease n a data t w :
  store_inv cipher w -> quantum_enabled (crypto_config state) = true ->
  parse_handle_v2 (u_handle payload) = Ok m ->
  records cipher w !! identifier m = Some (set_lease (Some lease) n a r) ->
  r_lifecycle r = RenewableLease -> e_exporter_binding (r_envelope r) = None -> seals state data r w ->
  grants state ctx payload m (lease_free r) t t -> handle_passes payload m r (time_at (tick w + 2)) ->
  live (set_lease (Some lease) n a r) (time_at (tick w + 3)) ->
  wp (unwrap_secret_v2 state ctx payload) w (fun o w' =>
    o = mkUnwrapOut (b64_encode data)
    /\ (exists a', records cipher w' !! identifier m = Some (set_lease (Some lease) n a' r))
    /\ store_inv cipher w' /\ kyber_keys w' = kyber_keys w /\ tick w <= tick w' <= tick w + 9).
Proof.
  intros Hi Hq Hp Hr Hlc He Hs HG Hm Hl. unfold unwrap_secret_v2. wp_run.
  eapply wp_mono.
  { eapply (authorize_ok state ctx payload m _ w Hi Hp Hr). by eapply grants_lease. }
  intros [h r'] w1 (-> & -> & R1 & I1 & (K1 & _) & T1).
  set (r' := set_last_accessed _ _) in *.
  eapply wp_mono.
  { apply (complete_ok state ctx payload (identifier m) r' r' data w1); try done.
    - pose proof (seals_same state _ _ w w1 K1 Hs) as [? ?]. by split.
    - change (e_exporter_binding (r_envelope r')) with (e_exporter_binding (r_envelope r)). by rewrite He.
    - by rewrite R1, lookup_insert_eq. }
  intros o w2 (-> & R2 & I2 & K2 & [T2 T2']). split; [done|]. split.
  - rewrite R2, lookup_insert_eq. unfold consume, is_renewable.
    change (r_lifecycle r') with (r_lifecycle r). rewrite bool_decide_eq_true_2 by done. by eexists.
  - split; [done|]. split; [congruence|lia].
Qed.

(** An unwrap that succeeds is within the deadlines of its record. *)
Lemma unwrap_live ctx payload m r w o w' :
  store_inv cipher w -> parse_handle_v2 (u_handle payload) = Ok m ->
  records cipher w !! identifier m = Some r -> unwrap_secret_v2 state ctx payload w = (Ok o, w') ->
  live r (time_at (tick w + 3)).
Proof.
  intros Hi Hp Hr E. unfold unwrap_secret_v2 in E. apply bind_ok in E as ([h r'] & w1 & Ha & _).
  apply authorize_inv in Ha as (m' & r0 & Hp' & -> & Hr' & _ & HG & _); [|done].
  rewrite Hp in Hp'. injection Hp' as <-. rewrite Hr in Hr'. injection Hr' as <-. by eapply grants_live.
Qed.

Fixpoint unwrap_times (ctx : BrokerClientContext) (payload : UnwrapV2Request) (n : nat)
    : H (list UnwrapResponse) :=
  match n with
  | O => ret []
  | S n =>
    let* o := unwrap_secret_v2 state ctx payload in
    let* os := unwrap_times ctx payload n in
    ret (o :: os)
  end.

Lemma unwrap_times_ok ctx payload m r lease k data t : forall n a w,
  store_inv cipher w -> quantum_enabled (crypto_config state) = true ->
  parse_handle_v2 (u_handle payload) = Ok m ->
  records cipher w !! identifier m = Some (set_lease (Some lease) k a r) ->
  r_lifecycle r = RenewableLease -> e_exporter_binding (r_envelope r) = None -> seals state data r w ->
  grants state ctx payload m (lease_free r) t t ->
  (forall i, i <= 9 * n -> handle_passes payload m r (time_at (tick w + i))
     /\ live (set_lease (Some lease) k a r) (time_at (tick w + i))) ->
  wp (unwrap_times ctx payload n) w (fun os _ => os = replicate n (mkUnwrapOut (b64_encode data))).
Proof.
  induction n as [|n IH]; intros a w Hi Hq Hp Hr Hlc He Hs HG Hl; [done|]. cbn [unwrap_times]. wp_run.
  eapply wp_mono.
  { eapply (unwrap_lease_ok ctx payload m r lease k a data t w); try done; apply Hl; lia. }
  intros o w1 (-> & (a1 & Hr1) & I1 & K1 & T1). wp_run.
  eapply wp_mono.
  { apply (IH a1 w1); try done.
    - by eapply seals_same.
    - intros i ?. replace (tick w1 + i) with (tick w + (tick w1 - tick w + i)) by lia. apply Hl. lia. }
  intros os w2 ->. by wp_run.
Qed.

(** C16: renewing moves the end of the lease, even of one that has already
    ended, and nothing else: the renewal succeeds and the record keeps its
    other deadlines, of the redeem token (one day after the secret was
    wrapped), of the signing key and of the secret.  A caller who passes the
    checks that do not depend on the time gets the secret from an unwrap
    exactly when none of the four deadlines has passed, so that until the
    first of them it can unwrap any number of times and gets the secret every
    time, and after it never, though the lease may still be running. *)
Theorem lease_stays_usable ctx payload req m r data w n :
  let now := time_at (tick w + 2) in
  let secs := n_lease_duration_seconds req in
  let lease := match r_expires_at r with
    | Some e => Z.min e (now + secs * ns_per_sec)
    | None => now + secs * ns_per_sec
    end%Z in
  store_inv cipher w -> quantum_enabled (crypto_config state) = true ->
  parse_handle_v2 (u_handle payload) = Ok m -> n_handle req = u_handle payload ->
  Macaroon.verify_signature m (macaroon_root_key state (identifier m)) = Ok tt ->
  records cipher w !! identifier m = Some r -> seals state data r w ->
  e_exporter_binding (r_envelope r) = None ->
  lease_range secs -> rfc3339_range (now + secs * ns_per_sec) -> renewable_by ctx r now ->
  grants state ctx payload m (lease_free r) (time_at (tick w)) (time_at (tick w)) ->
  exists o w1 r1,
    renew_lease_handler state ctx req w = (Ok o, w1) /\ records cipher w1 !! identifier m = Some r1
    /\ r_lease_expires_at r1 = Some lease /\ r_expires_at r1 = r_expires_at r
    /\ r_redeem_expires_at r1 = r_redeem_expires_at r
    /\ r_signing_key_expires_at r1 = r_signing_key_expires_at r
    /\ (forall a w2, store_inv cipher w2 -> kyber_keys w2 = kyber_keys w1 ->
          records cipher w2 !! identifier m = Some (set_last_accessed a r1) ->
          handle_passes payload m r (time_at (tick w2 + 2)) ->
          (live r1 (time_at (tick w2 + 3)) ->
             exists w3, unwrap_secret_v2 state ctx payload w2 = (Ok (mkUnwrapOut (b64_encode data)), w3))
          /\ (~ live r1 (time_at (tick w2 + 3)) ->
             forall o2 w3, unwrap_secret_v2 state ctx payload w2 <> (Ok o2, w3)))
    /\ ((forall i, i <= 9 * n -> handle_passes payload m r (time_at (tick w1 + i))
            /\ live r1 (time_at (tick w1 + i))) ->
        exists w2, unwrap_times ctx payload n w1 = (Ok (replicate n (mkUnwrapOut (b64_encode data))), w2)).
Proof.
  intros now secs lease Hi Hq Hp Hh Hsig Hr Hs He Hrange Hrfc HR HG.
  assert (Hid : parse_handle_identifier state (n_handle req) = Ok (identifier m)).
  { apply parse_handle_identifier_ok. exists m. rewrite Hh. by split. }
  pose proof (renew_ok state ctx req (identifier m) r w Hi Hid Hr Hrange Hrfc HR) as HW.
  apply wp_eq in HW as (o & w1 & HW & _ & (a & R1) & I1 & K1 & _).
  rewrite granted_lease_exact in R1. fold now secs lease in R1.
  set (k := saturating_add_u32 (r_lease_renewal_count r) 1) in *.
  exists o, w1, (set_lease (Some lease) k a r). rewrite R1, lookup_insert_eq.
  do 6 (split; [done|]). split.
  - intros a2 w2 I2 K2 R2 Hm.
    change (set_last_accessed a2 (set_lease (Some lease) k a r)) with (set_lease (Some lease) k a2 r) in R2.
    split.
    + intros Hl. pose proof (unwrap_lease_ok ctx payload m r lease k a2 data (time_at (tick w)) w2 I2 Hq Hp R2) as HU.
      ospecialize (HU (proj1 (proj2 HR)) He _ HG Hm Hl); [eapply seals_same; [|done]; congruence|].
      apply wp_eq in HU as (o2 & w3 & E & -> & _). by exists w3.
    + intros Hn o2 w3 E. apply Hn. exact (unwrap_live _ _ _ _ _ _ _ I2 Hp R2 E).
  - intros Hl. assert (HT := unwrap_times_ok ctx payload m r lease k data (time_at (tick w)) n a w1 I1 Hq Hp).
    ospecialize (HT _ (proj1 (proj2 HR)) He _ HG Hl); [by rewrite R1, lookup_insert_eq|by eapply seals_same|].
    apply wp_eq in HT as (os & w2 & HT & ->). by exists w2.
Qed.

End Lease.

(** * The theorems on a concrete lease *)

Module LeaseExamples.
Import Reference ToyWorld ToyStore CryptoExamples BrokerExamples Toy257 UnwrapExamples.

(** A lease of ten minutes on a secret that lives for an hour. *)
Definition lease_req : WrapV2Request :=
  mkWrapReq #"hunter2" None (Some (JObject [])) RenewableLease (Some 3600%Z) (Some 600%Z) None
    (Some #" acme ") None None None None.

Definition lease_input : PersistSecretV2Input :=
  wrap_input state0 lease_req (time_at (tick empty_world)) expires0 principal0.

Definition renew_req (o : WrapSecretOutcome) : RenewLeaseRequest := mkRenewReq (wo_handle o) 1200.

Lemma lease_principal_ok : v2_unwrap_principal alice (w_lifecycle lease_req) (w_unwrap_principal_id lease_req)
  = Ok principal0.
Proof. vm_compute. reflexivity. Qed.

Lemma lease_ok : is_ok (initial_lease (time_at (tick empty_world)) (w_initial_lease_seconds lease_req)) = true.
Proof. vm_compute. reflexivity. Qed.

Lemma lease_caveats_fit : Forall (fun c => fits_u16 (encode c)) (wrap_caveats lease_req expires0).
Proof. apply (bool_decide_unpack _). vm_compute. exact I. Qed.

Lemma lease_live o h r w1 t :
  wrapped state0 alice lease_input (wrap_caveats lease_req expires0) o h r empty_world w1 -> t <= 100 ->
  live r (time_at t).
Proof.
  intros HW Ht. destruct (wrapped_issued _ _ _ _ _ _ _ _ _ HW) as (nonce & HI & _).
  destruct (wrapped_key _ _ _ _ _ _ _ _ _ HW) as (t0 & Ht0 & Hk).
  change (if key_rotation_enabled (crypto_config state0) then Some (time_at t0 + rotation (crypto_config state0))%Z
    else None) with (Some (time_at t0 + 86400 * 10^9)%Z) in Hk.
  split; [|split; [|split]].
  - rewrite (issued_expiry _ _ _ _ _ HI). intros e [= <-]. unfold time_at, toy_oracle. lia.
  - rewrite (issued_deadline _ _ _ _ _ HI). intros e [= <-].
    unfold time_at, toy_oracle. change (hours 24) with (86400 * 10^9)%Z. lia.
  - rewrite Hk. intros e [= <-]. unfold time_at, toy_oracle. lia.
  - intros _ e E. pose proof (issued_lease _ _ _ _ _ HI) as L. rewrite E in L.
    change (initial_lease _ _) with (Ok (E:=ServiceError.t) (Some (1700000600 * 10^9)%Z)) in L.
    injection L as <-. unfold time_at, toy_oracle. lia.
Qed.

(** The lease as [alice] obtains it. *)
Lemma lease_session : exists o w1 h r,
  let m := mint (macaroon_root_key state0 h) h (wrap_caveats lease_req expires0) in
  store_inv (sealed_store state0) w1 /\ parse_handle_v2 (wo_handle o) = Ok m
  /\ records (sealed_store state0) w1 !! h = Some r /\ seals state0 #"hunter2" r w1
  /\ e_exporter_binding (r_envelope r) = None /\ r_expires_at r = expires0
  /\ (forall t, t <= 100 -> renewable_by alice r (time_at t))
  /\ (exists e, r_redeem_expires_at r = Some e /\ forall t, t <= 100 -> (time_at t <= e)%Z)
  /\ (forall e, r_signing_key_expires_at r = Some e -> forall t, t <= 100 -> (time_at t <= e)%Z)
  /\ tick w1 <= 26
  /\ (forall t, t <= 100 -> grants state0 alice (payload_for o) m (lease_free r) (time_at t) (time_at t)).
Proof.
  destruct (proj1 (wp_eq _ _ _) (wrap_ok state0 alice lease_req empty_world expires0 (Some 3600%Z) principal0
    inv0 ready0 metadata0 ttl0 lease_principal_ok deadline0 lease_ok)) as (o & w1 & Hw & h & r & HW).
  destruct (wrapped_issued _ _ _ _ _ _ _ _ _ HW) as (nonce & HI & _).
  pose proof (wrapped_within _ _ _ _ _ _ _ _ _ HW) as [_ Ht]. cbn [tick empty_world] in Ht.
  assert (Hr : records (sealed_store state0) w1 !! h = Some r)
    by (rewrite (wrapped_records _ _ _ _ _ _ _ _ _ HW); apply lookup_insert_eq).
  pose proof (issuer_may_unwrap state0 alice lease_input nonce r HI lease_principal_ok ltac:(discriminate)) as Ha.
  pose proof (wrapped_seals _ _ _ _ _ _ _ _ _ HW) as Hs.
  exists o, w1, h, r. split; [exact (wrapped_inv _ _ _ _ _ _ _ _ _ HW)|].
  split; [exact (parse_wrapped state0 alice lease_input lease_req expires0 o h r empty_world w1 HW lease_caveats_fit)|].
  split; [exact Hr|]. split; [exact Hs|]. split; [exact (issued_exporter _ _ _ _ _ HI)|].
  split; [exact (issued_expiry _ _ _ _ _ HI)|].
  split; [|split; [|split; [|split; [lia|]]]].
  - intros t Htt. split; [exact (issued_live _ _ _ _ _ HI)|]. split; [exact (issued_lifecycle _ _ _ _ _ HI)|].
    split; [|exact Ha]. destruct (lease_live o h r w1 t HW Htt) as [Hx _]. unfold is_expired.
    destruct (r_expires_at r) as [e|]; [|reflexivity]. apply Z.ltb_ge, Hx. reflexivity.
  - eexists. split; [exact (issued_deadline _ _ _ _ _ HI)|]. intros t Htt.
    destruct (lease_live o h r w1 t HW Htt) as (_ & Hl & _). apply Hl. exact (issued_deadline _ _ _ _ _ HI).
  - intros e Ee t Htt. destruct (lease_live o h r w1 t HW Htt) as (_ & _ & Hl & _). by apply Hl.
  - intros t Htt. apply grants_free, (grants_accessed _ _ _ _ _ None).
    refine (wrapped_grants state0 alice alice lease_req (payload_for o) (time_at (tick empty_world)) expires0
      principal0 o h r empty_world w1 #"hunter2" w1 None _ _ HW Hs expires0_ok eq_refl _ Ha _ _ _).
    + split; [|split; [|split]]; intros v Hv; try discriminate Hv. vm_compute in Hv. by injection Hv as <-.
    + intros E. discriminate E.
    + exact (lease_live o h r w1 _ HW Htt).
    + exact (lease_live o h r w1 _ HW Htt).
Qed.

Lemma lease_time t : t <= 100 -> rfc3339_range (time_at t + 1200 * ns_per_sec)%Z.
Proof. intros Ht. unfold rfc3339_range, time_at, toy_oracle, ns_per_sec. lia. Qed.

Lemma lease_parse o h :
  let m := mint (macaroon_root_key state0 h) h (wrap_caveats lease_req expires0) in
  parse_handle_v2 (wo_handle o) = Ok m ->
  Macaroon.verify_signature m (macaroon_root_key state0 h) = Ok tt
  /\ parse_handle_identifier state0 (wo_handle o) = Ok h.
Proof.
  intros m Hp. assert (Hv : Macaroon.verify_signature m (macaroon_root_key state0 h) = Ok tt)
    by apply verify_minted.
  split; [exact Hv|]. apply parse_handle_identifier_ok. by exists m.
Qed.

Lemma renew_exact_witness : exists o w1 r n w2,
  renew_lease_handler state0 alice (renew_req o) w1
  = (Ok (mkRenewOut (time_at (tick w1 + 2) + 1200 * ns_per_sec) n), w2)
  /\ n = Z.min (2^32 - 1) (r_lease_renewal_count r + 1).
Proof.
  destruct lease_session as (o & w1 & h & r & Hi & Hp & Hr & _ & _ & Hx & HR & _ & _ & Ht & _).
  destruct (lease_parse o h Hp) as [_ Hid].
  destruct (renew_exact state0 alice (renew_req o) h r w1 Hi Hid Hr) as [HE HX].
  - cbn. lia.
  - intros _. apply lease_time. lia.
  - destruct (proj2 HE) as (out & w2 & E).
    + split; [cbn; unfold lease_range; lia|apply HR; lia].
    + destruct (HX out w2 E) as [Ho _]. rewrite Hx in Ho. cbn [expires0 n_lease_duration_seconds renew_req] in Ho.
      rewrite Z.min_r in Ho by (unfold time_at, toy_oracle, ns_per_sec; lia). subst out.
      exists o, w1, r, (Z.min (2^32 - 1) (r_lease_renewal_count r + 1)), w2. exact (conj E eq_refl).
Defined.

Lemma lease_stays_usable_witness : exists o w1 out w2 w3,
  renew_lease_handler state0 alice (renew_req o) w1 = (Ok out, w2)
  /\ unwrap_times state0 alice (payload_for o) 3 w2
     = (Ok (replicate 3 (mkUnwrapOut (b64_encode #"hunter2"))), w3).
Proof.
  destruct lease_session as (o & w1 & h & r & Hi & Hp & Hr & Hs & He & Hx & HR & (d & Hd & Hdl) & Hk & Ht & HU).
  destruct (lease_parse o h Hp) as [Hv Hid].
  assert (HT : exists out w2, renew_lease_handler state0 alice (renew_req o) w1 = (Ok out, w2) /\ within 7 w1 w2).
  { destruct (proj1 (wp_eq _ _ _) (renew_ok state0 alice (renew_req o) h r w1 Hi Hid Hr
      ltac:(cbn; unfold lease_range; lia) ltac:(apply lease_time; lia) ltac:(apply HR; lia)))
      as (out & w2 & E & _ & _ & _ & _ & T). by exists out, w2. }
  destruct HT as (out' & w2' & E' & [_ T2]).
  destruct (lease_stays_usable state0 alice (payload_for o) (renew_req o) _ r #"hunter2" w1 3 Hi
    (ready_quantum _ _ _ _ ready0) Hp eq_refl Hv Hr Hs He)
    as (out & w2 & r1 & E1 & _ & L1 & X1 & D1 & K1 & _ & HN).
  - cbn. unfold lease_range. lia.
  - apply lease_time. lia.
  - apply HR. lia.
  - apply HU. lia.
  - rewrite E1 in E'. injection E' as <- <-. destruct HN as [w3 E2].
    + intros i ?. assert (Hle : tick w2 + i <= 100) by lia. split; [exact (grants_macaroon _ _ _ _ _ _ _ (HU _ Hle))|].
      rewrite Hx in X1, L1. rewrite Hd in D1. split; [|split; [|split]].
      * intros e Ee. rewrite X1 in Ee. injection Ee as <-. unfold time_at, toy_oracle. lia.
      * intros e Ee. rewrite D1 in Ee. injection Ee as <-. by apply Hdl.
      * intros e Ee. rewrite K1 in Ee. by apply (Hk e).
      * intros _ e Ee. rewrite L1 in Ee. injection Ee as <-. cbn [n_lease_duration_seconds renew_req expires0].
        unfold time_at, toy_oracle, ns_per_sec. lia.
    + by exists o, w1, out, w2, w3.
Defined.

End LeaseExamples.
