(* ===== verification/Rotation.v ===== *)
(** Rotating a secret (handlers.rs, [rotate_secret_impl]) end to end: the
    replacement can be redeemed, with its token or with enough of its shares,
    the old secret is revoked and the rotation is logged. *)

From S2P Require Import Prelude RustStd Externals Reference Macaroon MacaroonWire Threshold.
From S2P Require Import Transparency World SealedStore Config CryptoEngine Broker Issue Unwrap Manage.

Section Rotation.
Context `{TextCodecsLaws} `{HashesLaws} `{JsonText} `{AeadLaws} `{PqCryptoLaws} `{OracleLaws} `{P256Laws}.
Context `{!Serde KyberKeyPair} `{!Serde DilithiumKeyPair} `{!Serde KeyRecord}.
Context `{!Serde StoredEnvelopeRecord} `{!Serde EncryptedRecord} `{!Serde SecretEnvelope}.
Context `{!Serde (list Share)}.
Context `{!SerdeLaws KyberKeyPair (fun _ => True)} `{!SerdeLaws KeyRecord (fun _ => True)}.
Context `{!SerdeLaws StoredEnvelopeRecord record_ok} `{!SerdeLaws EncryptedRecord (fun _ => True)}.
Context `{!SerdeLaws (list Share) (fun _ => True)}.
Variable random_scalars : nat -> nat -> scalar.
Variable state : BrokerState.

Abbreviation cipher := (sealed_store state).

Lemma revoke_some h reason r w :
  store_inv cipher w -> records cipher w !! h = Some r ->
  exists w', revoke cipher h reason w = (Ok true, w')
    /\ records cipher w' = <[h := set_revoked (Some (time_at (tick w))) reason r]> (records cipher w)
    /\ store_inv cipher w' /\ store_only (advance w) w' /\ tick w' = tick w + 2.
Proof.
  intros Hi Hr.
  destruct (update_some cipher h (fun r => let* now := utc_now in ret (set_revoked (Some now) reason r, true))
    r (set_revoked (Some (time_at (tick w))) reason r) true w (advance w))
    as (w' & Hw & Hrec & Hinv & Hso & Ht); [done..|exact (records_ok cipher w h r Hi Hr)|].
  exists w'. split; [|split; [done|split; [done|split; [done|rewrite Ht; cbn; lia]]]].
  destruct (records_some cipher w h r Hi Hr) as (v & Hv & _).
  unfold revoke, update_record in *.
  assert (Hg : tree_get h w = (Ok (Some v), w)) by (unfold tree_get, gets; by rewrite Hv).
  rewrite (bind_run _ _ w (Some v) w) in Hw by exact Hg. by rewrite (bind_run _ _ w (Some v) w) by exact Hg.
Qed.

(** ** Tokens that were shared out *)

(** A fresh record whose redeem token was dealt. *)
Definition dealt_record (k : Z) (d : SplitResult) (r : StoredEnvelopeRecord) : StoredEnvelopeRecord :=
  set_threshold (Some k) (Some (map b64_encode (commitments d))) r.

(** Enough of the dealt shares pass for the token, whoever has custody of them. *)
Lemma check_token_dealt ctx ctx' input nonce r k n rs d h ss now a b c :
  issued state ctx input nonce r ->
  split rs (compute_redeem_token state h (session_binding ctx (i_lifecycle input)).1.1 nonce) k n = Ok d ->
  (1 < k)%Z -> (n <= 255)%Z -> ss ⊆ shares d -> NoDup ss -> (k <= Z.of_nat (length ss))%Z ->
  live r now -> (i_lifecycle input = SingleUseUnwrap -> exporter ctx' = exporter ctx) ->
  check_redeem_token state ctx' h (set_last_accessed a (set_share_custody b c (dealt_record k d r))) (to_vec ss) now
  = Ok tt.
Proof.
  intros HI Hsp Hk Hn Hss ND Hlen (_ & Hdl & _) Hx.
  set (r2 := set_last_accessed a (set_share_custody b c (dealt_record k d r))).
  unfold check_redeem_token. change (r_redeem_nonce r2) with (r_redeem_nonce r).
  rewrite (issued_nonce _ _ _ _ _ HI). cbn [ok_or rbind].
  change (effective_binding ctx' r2) with (effective_binding ctx' r).
  rewrite (effective_binding_issued state ctx ctx' input nonce r) by done. cbn [rbind].
  change (r_redeem_used r2) with (r_redeem_used r). rewrite (issued_unused _ _ _ _ _ HI), andb_false_r.
  change (r_redeem_expires_at r2) with (r_redeem_expires_at r).
  pose proof (issued_deadline _ _ _ _ _ HI) as Ed. rewrite Ed. cbn [guard ok_or rbind].
  rewrite (proj2 (Z.ltb_ge _ _)) by (by apply Hdl). cbn [guard rbind].
  rewrite b64_roundtrip. cbn [ok_or rbind].
  assert (provided_token r2 (to_vec ss) = Ok (canonical_secret_bytes (compute_redeem_token state h
    (session_binding ctx (i_lifecycle input)).1.1 nonce))) as ->.
  { unfold provided_token. cbn [r2 dealt_record r_threshold r_threshold_commitments
      set_last_accessed set_share_custody set_threshold]. rewrite (proj2 (Z.ltb_lt _ _)) by done.
    rewrite (serde_roundtrip ss) by done. cbn [ok_or rbind].
    rewrite (collect_map b64_encode (fun c => c)) by (intros; by rewrite b64_roundtrip).
    rewrite map_id. cbn [rbind]. by erewrite reconstruct_dealt. }
  cbn [rbind]. unfold comparable_token, is_threshold.
  change (default 1%Z (r_threshold r2)) with k. rewrite (proj2 (Z.ltb_lt _ _)) by done.
  set (token := compute_redeem_token _ _ _ _). assert (length token = 32) as -> by apply hmac_length.
  cbn [negb Nat.eqb SHARE_LENGTH guard rbind].
  by rewrite str_eqb_refl.
Qed.

Lemma split_total rs token k n : (1 <= k <= n)%Z -> exists d, split rs token k n = Ok d.
Proof.
  intros Hk. unfold split.
  rewrite (proj2 (Z.ltb_ge _ _)), (proj2 (Z.ltb_ge _ _)), (proj2 (Z.eqb_neq _ _)) by lia. by eexists.
Qed.

(** The record after the token was dealt with threshold [k], or was not. *)
Definition token_record (k : Z) (d : option SplitResult) (r : StoredEnvelopeRecord) : StoredEnvelopeRecord :=
  match d with Some d => dealt_record k d r | None => r end.

(** What becomes of the token: given out whole, or dealt. *)
Definition token_given (token : bytes) (k n : Z) (d : option SplitResult) (t : str) (ss : list Share) : Prop :=
  match d with
  | Some d => (1 < k)%Z /\ t = [] /\ ss = shares d /\ exists rs, split rs token k n = Ok d
  | None => (k <= 1)%Z /\ t = b64_encode token /\ ss = []
  end.

Lemma rotate_token_ok h r token k n w :
  store_inv cipher w -> records cipher w !! h = Some r -> length token = 32 -> (1 <= k <= n)%Z ->
  wp (rotate_token random_scalars state h (b64_encode token) k n) w (fun '(t, ss) w' =>
    exists d, token_given token k n d t ss
      /\ records cipher w' = <[h := token_record k d r]> (records cipher w)
      /\ store_inv cipher w' /\ store_only w w' /\ within 2 w w').
Proof.
  intros Hi Hr Hlen Hk. unfold rotate_token. destruct (Z.ltb_spec 1 k).
  - unfold split_redeem_token. wp_run. apply (wp_lift _ token); [by rewrite b64_roundtrip|].
    wp_run. apply (wp_lift _ tt); [by rewrite Hlen|]. wp_run. apply wp_interact.
    destruct (split_total (random_scalars (tick w)) token k n Hk) as [d Hd].
    apply (wp_lift _ d); [by rewrite Hd|]. wp_run.
    destruct (update_some cipher h
      (fun r => ret (set_threshold (Some k) (Some (map b64_encode (commitments d))) r, tt))
      r (dealt_record k d r) tt (advance w) (advance w)) as (w1 & Hw1 & R1 & I1 & S1 & T1);
      [done|done|done|done|exact (records_ok cipher w h r Hi Hr)|].
    apply wp_eq. exists tt, w1. split; [exact Hw1|]. wp_run. exists (Some d).
    split; [by repeat split; [|exists (random_scalars (tick w))]|].
    split; [by rewrite R1, (records_same cipher w (advance w))|]. split; [done|].
    unfold store_only in *. cbn in S1, T1. split; [done|]. unfold within. lia.
  - wp_run. exists None. split; [done|]. split; [by rewrite insert_id|]. split; [done|].
    split; [done|]. unfold within. lia.
Qed.

(** ** Rotating *)

(** Rotation wraps the new secret without any context. *)
Definition as_wrap (payload : RotateSecretRequest) : WrapV2Request :=
  mkWrapReq (t_new_plaintext payload) (t_customer_id payload) (t_metadata payload) (t_lifecycle payload)
    (t_ttl_seconds payload) None None None None None None None.

(** The threshold and the number of shares in force. *)
Definition rotation_threshold (payload : RotateSecretRequest) : Z := Z.max (default 1%Z (t_threshold payload)) 1.
Definition rotation_shares (payload : RotateSecretRequest) : Z :=
  Z.max (default 1%Z (t_num_shares payload)) (rotation_threshold payload).
Definition rotation_reason (payload : RotateSecretRequest) : str :=
  default #"rotated to replacement capability" (t_rotation_reason payload).

(** The event of a rotation at [now] of the old handle into [new_handle], whose
    record is [r']. *)
Definition rotation_event (ctx : BrokerClientContext) (payload : RotateSecretRequest) (new_handle : str)
    (r' : StoredEnvelopeRecord) (now : datetime) : TransparencyEvent :=
  with_parent_handle (with_caller
    (ev_rotate now (t_old_handle payload) new_handle (e_envelope_key_id (r_envelope r'))
       (default (default_customer_id state) (normalized (t_customer_id payload)))
       (Some (JObject (rotate_meta ctx true (rotation_reason payload))))) (caller ctx))
    (t_old_handle payload).

(** What a rotation of the record [r] of [h] leaves. *)
Record rotated (ctx : BrokerClientContext) (payload : RotateSecretRequest) (h : uuid)
    (r : StoredEnvelopeRecord) (input : PersistSecretV2Input) (o : RotateSecretResponse) (h' : uuid)
    (r' : StoredEnvelopeRecord) (d : option SplitResult) (w w' : World) : Prop := {
  rotated_wrapped : exists wo w0 w1,
    wrapped state ctx input (rotate_caveats (i_expires_at input)) wo h' r' w0 w1
    /\ wo_handle wo = to_new_handle o /\ kyber_keys w' = kyber_keys w1
    /\ exists token, wo_redeem_token wo = b64_encode token
        /\ token_given token (rotation_threshold payload) (rotation_shares payload) d
             (to_redeem_token o) (to_new_shares o);
  rotated_old : to_old_revoked o = true;
  rotated_drawn : h' = uuid_at (tick w + 3);
  rotated_records : h <> h' -> exists a t, records cipher w'
    = <[h := set_revoked (Some t) (Some (rotation_reason payload)) (set_last_accessed a r)]>
        (<[h' := token_record (rotation_threshold payload) d r']> (records cipher w));
  rotated_log : exists t now, logger w'
    = logged (log_io_at t) (rotation_event ctx payload (to_new_handle o) r' now) (logger w);
  rotated_inv : store_inv cipher w';
  rotated_within : within 33 w w';
}.

Lemma rotate_ok ctx payload h r w expires ttl principal :
  let created := time_at (tick w + 2) in
  let input := wrap_input state (as_wrap payload) created expires principal in
  store_inv cipher w -> parse_handle_identifier state (t_old_handle payload) = Ok h ->
  records cipher w !! h = Some r -> may_access true r ctx ->
  enforce_ttl (t_ttl_seconds payload) state created = Ok (expires, ttl) ->
  v2_unwrap_principal ctx (t_lifecycle payload) None = Ok principal ->
  engine_ready state (i_customer_id input) 30 w -> metadata_ok (t_metadata payload) ->
  rfc3339_range (created + redeem_token_ttl state) ->
  wp (rotate_secret random_scalars state ctx payload) w (fun o w' =>
    exists h' r' d, rotated ctx payload h r input o h' r' d w w').
Proof.
  intros created input Hi Hp Hr Hacc Httl Hpr HR Hm Hd. unfold rotate_secret. wp_run.
  apply (wp_lift _ h); [done|]. wp_run.
  eapply wp_mono; [by apply load_required_ok|].
  intros ra w1 (_ & -> & R1 & I1 & (K1 & _ & _ & M1 & G1) & T1). wp_run.
  apply (wp_lift _ tt); [by apply identity_iff|]. wp_run. rewrite T1. fold created.
  apply (wp_lift _ (expires, ttl)); [done|].
  fold (rotation_threshold payload). fold (rotation_shares payload). wp_run.
  apply (wp_lift _ tt); [apply guard_ok, Z.ltb_ge; unfold rotation_shares; lia|]. wp_run.
  apply (wp_lift _ principal); [done|]. wp_run.
  set (a := Some (time_at (tick w))) in *.
  pose proof (persist_ok state ctx input (advance w1) I1) as HP.
  ospecialize (HP _ Hm Hd _); [|done|]. { eapply engine_ready_later, HR; [exact M1|cbn; lia..]. }
  apply wp_eq in HP as (o & w2 & E2 & nonce & r' & Hiss & Hs & Ho & Hlen & Hrec & Hinv & G2 & T2 & (tk & Htk & Hkid)
    & t & Htt & Hexp).
  apply wp_eq. exists o, w2. split; [exact E2|]. pose proof (persist_drawn _ _ _ _ _ _ E2) as Hdraw.
  pose proof (f_equal o_redeem_token Ho) as Et. pose proof (f_equal o_envelope_key_id Ho) as Ek.
  pose proof (f_equal o_expires_at Ho) as Ex. pose proof (f_equal o_customer_id Ho) as Ec.
  pose proof (f_equal o_redeem_token_expires_at Ho) as Ed. clear Ho.
  cbn [o_redeem_token o_envelope_key_id o_expires_at o_customer_id o_redeem_token_expires_at] in *.
  wp_run. rewrite Et, Ek, Ex, Ec, Ed. set (h' := o_handle_id o) in *.
  eapply wp_mono; [apply (rotate_token_ok _ r'); [done|by rewrite Hrec, lookup_insert_eq|apply hmac_length|]|].
  { unfold rotation_shares, rotation_threshold. lia. }
  intros [tok ss] w3 (d & Htok & R3 & I3 & (K3 & _ & _ & _ & G3) & T3). wp_run.
  rewrite Hrec, (records_same cipher w1 (advance w1)), R1, insert_insert_eq in R3 by done.
  assert (exists r0, records cipher w3 !! h = Some r0 /\ (h <> h' -> r0 = set_last_accessed a r)) as (r0 & Hr0 & Eq0).
  { rewrite R3. destruct (decide (h = h')) as [->|]; [rewrite lookup_insert_eq; by eexists|].
    rewrite lookup_insert_ne, lookup_insert_eq by done. by eexists. }
  destruct (revoke_some h (Some (rotation_reason payload)) r0 w3 I3 Hr0)
    as (w4 & Hrev & R4 & I4 & (K4 & _ & _ & _ & G4) & T4).
  apply wp_eq. do 2 eexists. split; [exact Hrev|]. wp_run.
  eapply wp_mono; [apply record_transparency_logs|]. intros _ w5 ((L1 & L2 & _) & T5 & G5). wp_run.
  unfold within in T2, T3, T5. cbn in T2, T3, T4, T5, L1, L2, K3, K4, Htt, Hdraw, G1, G2, G3, G4.
  exists h', r', d. split; cbn [to_new_handle to_redeem_token to_new_shares to_old_revoked].
  - exists (mkWrapOut (format_handle (mint (macaroon_root_key state h') h' (rotate_caveats expires))) expires
      (o_redeem_token o) (Some (created + redeem_token_ttl state)%Z)), (advance w1), w2.
    split; [split|].
    + by exists nonce.
    + done.
    + done.
    + done.
    + exact Hrec.
    + done.
    + unfold within. cbn. lia.
    + by exists tk.
    + exists t. split; [cbn; lia|done].
    + done.
    + exists (tick (advance w1)). cbn. split; [lia|exact Hdraw].
    + cbn. split; [done|]. split; [congruence|]. eexists. split; [exact Et|]. exact Htok.
  - done.
  - rewrite Hdraw. f_equal. lia.
  - intros Hne. exists a, (time_at (tick w3)). rewrite (records_same _ w4 w5), R4, R3, Eq0 by done.
    rewrite (insert_insert_ne _ h h'), insert_insert_eq by done. by apply insert_insert_ne.
  - exists (tick (advance w4)), (time_at (tick w4)). rewrite G5. cbn [logger advance].
    by rewrite G4, G3, G2, G1.
  - by eapply store_inv_same, I4.
  - unfold within. lia.
Qed.

(** What redeems the new secret: the token given out, or enough of its shares. *)
Definition redeems (payload : RotateSecretRequest) (o : RotateSecretResponse) (token : str) : Prop :=
  if (1 <? rotation_threshold payload)%Z
  then exists ss, token = to_vec ss /\ ss ⊆ to_new_shares o /\ NoDup ss
         /\ (rotation_threshold payload <= Z.of_nat (length ss))%Z
  else token = to_redeem_token o.

(** A secret whose token was dealt is unwrapped with enough of the shares. *)
Lemma unwrap_dealt ctx ctx' request payload created expires principal o h r k n rs token d ss a w w1 w2 :
  let input := wrap_input state request created expires principal in
  wrapped state ctx input (wrap_caveats request expires) o h r w w1 ->
  quantum_enabled (crypto_config state) = true -> (forall e, expires = Some e -> rfc3339_range e) ->
  Forall (fun c => fits_u16 (encode c)) (wrap_caveats request expires) ->
  wo_redeem_token o = b64_encode token -> split rs token k n = Ok d ->
  (1 < k)%Z -> (n <= 255)%Z -> ss ⊆ shares d -> NoDup ss -> (k <= Z.of_nat (length ss))%Z ->
  store_inv cipher w2 -> records cipher w2 !! h = Some (set_last_accessed a (dealt_record k d r)) ->
  kyber_keys w2 = kyber_keys w1 -> u_handle payload = wo_handle o -> u_redeem_token payload = to_vec ss ->
  presents request payload -> may_access false r ctx' ->
  (w_lifecycle request = SingleUseUnwrap -> exporter ctx' = exporter ctx) ->
  live r (time_at (tick w2 + 2)) -> live r (time_at (tick w2 + 3)) ->
  exists w3, unwrap_secret_v2 state ctx' payload w2 = (Ok (mkUnwrapOut (b64_encode (w_plaintext request))), w3).
Proof.
  intros input HW Hq He Hfit Htok Hsp Hk Hn Hss ND Hlen I2 R2 K2 Hh Ht Hpres Hacc Hx L1 L2.
  destruct (wrapped_issued _ _ _ _ _ _ _ _ _ HW) as (nonce & HI & Hto).
  rewrite Htok in Hto. apply (f_equal b64_decode) in Hto. rewrite !b64_roundtrip in Hto.
  injection Hto as ->.
  pose proof (seals_same state _ _ _ _ K2 (wrapped_seals _ _ _ _ _ _ _ _ _ HW)) as Hs2.
  set (m := mint (macaroon_root_key state h) h (wrap_caveats request expires)).
  assert (Hp : parse_handle_v2 (u_handle payload) = Ok m) by (rewrite Hh; by eapply parse_wrapped).
  set (whole := mkUnwrapReq (u_handle payload) (wo_redeem_token o) (u_tenant_id payload) (u_provider payload)
    (u_circuit_id payload) (u_node_id payload) (u_discharges payload)).
  destruct (wrapped_grants state ctx ctx' request whole created expires principal o h r w w1
    (w_plaintext request) w2 a _ _ HW Hs2 He eq_refl Hpres Hacc Hx L1 L2) as [GM GR _].
  assert (HU : wp (unwrap_secret_v2 state ctx' payload) w2 (fun out _ =>
    out = mkUnwrapOut (b64_encode (w_plaintext request)))).
  2: { apply wp_eq in HU as (out & w3 & E & ->). by exists w3. }
  unfold unwrap_secret_v2. wp_run. eapply wp_mono.
  { apply (authorize_ok state ctx' payload m _ w2 I2 Hp R2). split; [exact GM|exact GR|].
    rewrite Ht. exact (check_token_dealt ctx ctx' input nonce r k n rs d h ss _ a (r_share_assignments r)
      (r_held_shares r) HI Hsp Hk Hn Hss ND Hlen L2 Hx). }
  intros [h1 r1] w3 (-> & -> & R3 & I3 & (K3 & _) & _). cbn [m mint identifier] in *.
  eapply wp_mono.
  { eapply (complete_ok state ctx' payload h _ _ (w_plaintext request)); [done|done| | |by rewrite R3, lookup_insert_eq|done].
    - pose proof (seals_same state _ _ w2 w3 K3 Hs2) as [? ?]. by split.
    - change (r_envelope (set_last_accessed (Some (time_at (tick w2))) (set_last_accessed a (dealt_record k d r))))
        with (r_envelope r). rewrite (issued_exporter _ _ _ _ _ HI). change (i_lifecycle input) with (w_lifecycle request).
      destruct (w_lifecycle request); cbn; [|done..]. by rewrite b64_roundtrip, Hx. }
  by intros out w4 (-> & _).
Qed.

(** C18: rotation replaces a secret.  The caller that may manage the old one
    gets a handle for a newly drawn identifier; in the store the new record is
    added and the old one revoked with the reason of the request, and nothing
    else changes; exactly one event is recorded, which names the caller and
    both handles; and the new secret, and nothing else, comes out of an unwrap
    with that handle and the token returned, or with any [threshold] of the
    shares returned when a threshold above one was asked for, while the
    record is live. *)
Theorem rotation_flow ctx payload h r w expires ttl principal :
  let created := time_at (tick w + 2) in
  let input := wrap_input state (as_wrap payload) created expires principal in
  store_inv cipher w -> parse_handle_identifier state (t_old_handle payload) = Ok h ->
  records cipher w !! h = Some r -> may_access true r ctx ->
  (rotation_shares payload <= 255)%Z -> uuid_at (tick w + 3) <> h ->
  enforce_ttl (t_ttl_seconds payload) state created = Ok (expires, ttl) ->
  v2_unwrap_principal ctx (t_lifecycle payload) None = Ok principal ->
  engine_ready state (i_customer_id input) 30 w -> metadata_ok (t_metadata payload) ->
  rfc3339_range (created + redeem_token_ttl state) ->
  (forall e, expires = Some e -> rfc3339_range e) ->
  Forall (fun c => fits_u16 (encode c)) (rotate_caveats expires) ->
  let h' := uuid_at (tick w + 3) in
  exists o w1 r' rn nonce, rotate_secret random_scalars state ctx payload w = (Ok o, w1)
    /\ issued state ctx input nonce r' /\ to_old_revoked o = true
    /\ (exists a t, records cipher w1
         = <[h := set_revoked (Some t) (Some (rotation_reason payload)) (set_last_accessed a r)]>
             (<[h' := rn]> (records cipher w)))
    /\ (exists t now, logger w1
         = logged (log_io_at t) (rotation_event ctx payload (to_new_handle o) r' now) (logger w))
    /\ forall ctx' payload' a w2,
      u_handle payload' = to_new_handle o -> redeems payload o (u_redeem_token payload') ->
      store_inv cipher w2 -> records cipher w2 !! h' = Some (set_last_accessed a rn) ->
      kyber_keys w2 = kyber_keys w1 -> may_access false r' ctx' ->
      (t_lifecycle payload = SingleUseUnwrap -> exporter ctx' = exporter ctx) ->
      live r' (time_at (tick w2 + 2)) -> live r' (time_at (tick w2 + 3)) ->
      exists w3, unwrap_secret_v2 state ctx' payload' w2
                 = (Ok (mkUnwrapOut (b64_encode (t_new_plaintext payload))), w3).
Proof.
  intros created input Hi Hp Hr Hacc Hn Hne Httl Hpr HR Hm Hd He Hfit h'.
  pose proof (rotate_ok ctx payload h r w expires ttl principal Hi Hp Hr Hacc Httl Hpr HR Hm Hd) as HW.
  apply wp_eq in HW as (o & w1 & Hrot & h1 & r' & d & [(wo & wa & wb & HW & Hwo & K1 & token & Htok & Hgiv) Hrev -> Hrec Hlog _ _]).
  fold h' in HW, Hrec. destruct (wrapped_issued _ _ _ _ _ _ _ _ _ HW) as (nonce & HI & _).
  exists o, w1, r', (token_record (rotation_threshold payload) d r'), nonce.
  split; [done|]. split; [done|]. split; [done|]. split; [by apply Hrec|]. split; [done|].
  intros ctx' payload' a w2 Ph Pt I2 R2 K2 Ha Hx L1 L2. unfold redeems in Pt.
  destruct d as [d|]; cbn [token_record token_given] in *.
  - destruct Hgiv as (Hk & _ & Hss & rs & Hsp). rewrite (proj2 (Z.ltb_lt _ _)) in Pt by done.
    destruct Pt as (ss & Pt & Psub & ND & Plen). rewrite Hss in Psub.
    eapply (unwrap_dealt ctx ctx' (as_wrap payload) payload' created expires principal wo h' r');
      try done; try congruence. exact (ready_quantum _ _ _ _ HR).
  - destruct Hgiv as (Hk & Ht & _). rewrite (proj2 (Z.ltb_ge _ _)) in Pt by done.
    edestruct (unwrap_wrapped state ctx ctx' (as_wrap payload) payload' created expires principal _ h' r' wa wb w2 HW
      (ready_quantum _ _ _ _ HR) He Hfit) as (w3 & Hu & _); [|by exists w3].
    split; try done; [by exists a|congruence..].
Qed.

End Rotation.

(** * A concrete rotation *)

Module RotationExamples.
Import Reference ToyWorld ToyStore CryptoExamples BrokerExamples Toy257 UnwrapExamples.

Definition no_scalars (t n : nat) : scalar := s1.

(** [alice] rotates the secret she wrapped, after a restart of the broker. *)
Definition rotate_payload (o : WrapSecretOutcome) : RotateSecretRequest :=
  mkRotateReq (wo_handle o) #"hunter3" None (Some (JObject [])) None None SingleUseUnwrap (Some 1%Z) (Some 3%Z).
Definition restarted (w : World) : World := set_key_tables ∅ ∅ w.

Lemma restarted_ready w : tick w <= 26 -> engine_ready state0 #"default" 30 (restarted w).
Proof.
  intros Hw. split; try reflexivity.
  - by eexists.
  - intros t Ht _. change (rotation _) with (86400 * 10^9)%Z. cbn [tick restarted set_key_tables] in Ht.
    split; [by vm_compute|]. unfold rfc3339_range, time_at, toy_oracle. lia.
  - intros t t' Ht Ht'. change (rotation _) with (86400 * 10^9)%Z. cbn [tick restarted set_key_tables] in *.
    unfold time_at, toy_oracle. lia.
Qed.

Lemma rotate_deadline w : tick w <= 26 ->
  rfc3339_range (time_at (tick (restarted w) + 2) + redeem_token_ttl state0).
Proof.
  intros Hw. change (redeem_token_ttl state0) with (86400 * 10^9)%Z. cbn [tick restarted set_key_tables].
  unfold rfc3339_range, time_at, toy_oracle. lia.
Qed.

Lemma toy_uuid_inj t t' : (t < 1000)%nat -> (t' < 1000)%nat -> uuid_at t = uuid_at t' -> t = t'.
Proof.
  intros Ht Ht' E. apply (f_equal of_le_bytes) in E. unfold uuid_at, toy_oracle in E.
  rewrite !of_le_bytes_le_bytes, !Z.mod_small in E by (change (Z.of_nat 16) with 16%Z; lia). lia.
Qed.

(** The secret to rotate. *)
Lemma rotate_session : exists o w h r,
  store_inv (sealed_store state0) (restarted w) /\ tick w <= 26
  /\ parse_handle_identifier state0 (wo_handle o) = Ok h
  /\ records (sealed_store state0) (restarted w) !! h = Some r /\ may_access true r alice
  /\ uuid_at (tick (restarted w) + 3) <> h.
Proof.
  destruct (proj1 (wp_eq _ _ _) (wrap_ok state0 alice req0 empty_world expires0 (Some 3600%Z) principal0
    inv0 ready0 metadata0 ttl0 principal0_ok deadline0 lease0)) as (o & w1 & Hw & h & r & HW).
  destruct (wrapped_issued _ _ _ _ _ _ _ _ _ HW) as (nonce & HI & _).
  pose proof (wrapped_within _ _ _ _ _ _ _ _ _ HW) as [_ Ht]. cbn [tick empty_world] in Ht.
  destruct (wrapped_drawn _ _ _ _ _ _ _ _ _ HW) as (t & Htt & ->). set (h := uuid_at t) in *.
  assert (Hr : records (sealed_store state0) w1 !! h = Some r)
    by (rewrite (wrapped_records _ _ _ _ _ _ _ _ _ HW); apply lookup_insert_eq).
  pose proof (issuer_may_unwrap state0 alice input0 nonce r HI principal0_ok ltac:(discriminate)) as Ha.
  exists o, w1, h, r. split; [by eapply store_inv_same, HW|]. split; [exact Ht|]. split.
  { apply parse_handle_identifier_ok. eexists.
    split; [exact (parse_wrapped state0 alice input0 req0 expires0 o h r empty_world w1 HW caveats0_fit)|].
    split; [reflexivity|apply verify_minted]. }
  split; [by rewrite (records_same _ w1)|]. split.
  - destruct Ha as [Ha (p & b & H1' & H2' & [-> |[? _]] & H4')]; [|discriminate].
    split; [exact Ha|]. exists b, b. auto.
  - cbn [tick restarted set_key_tables]. intros E. apply toy_uuid_inj in E; lia.
Qed.

Lemma rotation_flow_witness : exists payload w o w1 r' now,
  rotate_secret no_scalars state0 alice payload w = (Ok o, w1) /\ to_old_revoked o = true
  /\ logger w1 = logged Appended (rotation_event state0 alice payload (to_new_handle o) r' now) (logger w).
Proof.
  destruct rotate_session as (o & w & h & r & Hi & Ht & Hp & Hr & Ha & Hf).
  destruct (rotation_flow no_scalars state0 alice (rotate_payload o) h r (restarted w) None None principal0)
    as (out & w1 & r' & rn & nonce & E & _ & Hrev & _ & (t & now & Hl) & _).
  - exact Hi.
  - exact Hp.
  - exact Hr.
  - exact Ha.
  - by vm_compute.
  - exact Hf.
  - reflexivity.
  - exact principal0_ok.
  - exact (restarted_ready w Ht).
  - by repeat split.
  - exact (rotate_deadline w Ht).
  - discriminate.
  - apply (bool_decide_unpack _). vm_compute. exact I.
  - exists (rotate_payload o), (restarted w), out, w1, r', now. exact (conj E (conj Hrev Hl)).
Defined.

(** The same run, for the service. *)
Lemma rotation_runs : exists o w out w1,
  rotate_secret no_scalars state0 alice (rotate_payload o) w = (Ok out, w1).
Proof.
  destruct rotate_session as (o & w & h & r & Hi & Ht & Hp & Hr & Ha & _).
  assert (HW := rotate_ok no_scalars state0 alice (rotate_payload o) h r (restarted w) None None principal0
    Hi Hp Hr Ha eq_refl principal0_ok (restarted_ready w Ht) ltac:(by repeat split)
    (rotate_deadline w Ht)).
  apply wp_eq in HW as (out & w1 & E & _). by exists o, (restarted w), out, w1.
Qed.

End RotationExamples.
