(* ===== verification/KeyLocks.v ===== *)
(** The locks of the key manager.  Its tables are behind tokio read-write
    locks, and its operations hold guards across awaits; the other files take
    an operation as one step.  This file gives the operations with their locks
    (key_manager.rs), shows that those that serve requests never deadlock, and
    that generating, signing, verifying and reading a public key, run by
    themselves, are the operations of [CryptoEngine].  The rotation of expired
    keys, which the background task of the key manager runs, is the exception:
    it waits for itself. *)

From S2P Require Import Prelude RustStd Externals Reference Transparency World SealedStore Config.
From S2P Require Import CryptoEngine Broker.

(** ** Processes *)

(** The locks of [KeyManager]. *)
Inductive LockName := KeyPairs | Metadata | MasterKey | Rng.
Inductive Mode := Read | Write.
#[export] Instance lock_eq_dec : EqDecision LockName.
Proof. solve_decision. Defined.
#[export] Instance mode_eq_dec : EqDecision Mode.
Proof. solve_decision. Defined.
Abbreviation guard_ := (LockName * Mode)%type (only parsing).

(** An [async fn] between its awaits: it returns, awaits a lock, drops a guard
    or runs up to the next of these. *)
Inductive Proc (A : Type) : Type :=
| Ret (r : result CryptoError A)
| Acquire (l : LockName) (m : Mode) (k : Proc A)
| Release (l : LockName) (m : Mode) (k : Proc A)
| Atomic {X : Type} (m : M World CryptoError X) (k : result CryptoError X -> Proc A).
Arguments Ret {A} _.
Arguments Acquire {A} _ _ _.
Arguments Release {A} _ _ _.
Arguments Atomic {A X} _ _.

Fixpoint then_ {A B} (p : Proc A) (k : result CryptoError A -> Proc B) : Proc B :=
  match p with
  | Ret r => k r
  | Acquire l m q => Acquire l m (then_ q k)
  | Release l m q => Release l m (then_ q k)
  | Atomic m q => Atomic m (fun r => then_ (q r) k)
  end.

(** The [?] operator. *)
Definition on_ok {A B} (k : A -> Proc B) (r : result CryptoError A) : Proc B :=
  match r with Ok a => k a | Err e => Ret (Err e) | Panic => Ret Panic end.
Definition pbind {A B} (p : Proc A) (k : A -> Proc B) : Proc B := then_ p (on_ok k).
Definition atomic {A} (m : M World CryptoError A) : Proc A := Atomic m Ret.
(** A guard that lives until [p] is left, however it is left. *)
Definition guarded {A} (l : LockName) (m : Mode) (p : Proc A) : Proc A :=
  Acquire l m (then_ p (fun r => Release l m (Ret r))).

Notation "'let~' x := p 'in' k" := (pbind p (fun x => k))
  (at level 10, x binder, p at level 200, k at level 200) : broker_scope.

(** ** Operations *)

Section KeyOperations.
Context `{TextCodecs} `{Aead} `{PqCrypto} `{Oracle}.
Variable config : CryptoConfig.
Variable master_key : option bytes.
(** The order in which a [HashMap] is iterated. *)
Variable hash_order : forall {V : Type}, list (str * V) -> list (str * V).

Definition encrypt_private_key_locked (private_key : bytes) : Proc bytes :=
  guarded MasterKey Read (
    let~ mk := atomic (lift (ok_or master_key MasterKeyMissing)) in
    guarded Rng Write (
      let~ nonce := atomic (os_random 12) in
      Ret (Ok (nonce ++ chacha_seal mk nonce private_key)))).

Definition decrypt_private_key_locked (encrypted_key : bytes) : Proc bytes :=
  let~ _ := atomic (lift (guard (length encrypted_key <? 12)%nat InvalidSize)) in
  guarded MasterKey Read (
    let~ mk := atomic (lift (ok_or master_key MasterKeyMissing)) in
    let~ nonce := atomic (lift (slice encrypted_key 0 12)) in
    let~ ciphertext := atomic (lift (slice encrypted_key 12 (length encrypted_key))) in
    Ret (ok_or (chacha_open mk nonce ciphertext) AeadFailure)).

Definition key_material (algorithm : str) : M World CryptoError (bytes * bytes) :=
  if str_eqb algorithm #"kyber768" then generate_kyber_keys
  else if str_eqb algorithm #"dilithium5" then generate_dilithium_keys
  else if str_eqb algorithm #"kyber-dilithium" then generate_hybrid_pq_keys
  else fail (UnsupportedAlgorithm algorithm).

Definition generate_key_pair_locked (algorithm customer_id : str) : Proc KeyPair :=
  let~ _ := atomic (lift (validate_post_quantum_algorithm config algorithm)) in
  let~ _ := guarded Metadata Read (atomic (check_key_limits config customer_id)) in
  let~ material := atomic (key_material algorithm) in
  let~ id := atomic new_uuid in
  let key_id := #"keypair_" ++ uuid_to_string id in
  let~ encrypted_private_key := encrypt_private_key_locked material.2 in
  let~ created_at := atomic utc_now in
  let~ expires_at := atomic (calculate_expiry config) in
  let key_pair := mkKeyPair key_id material.1 encrypted_private_key algorithm created_at expires_at
    (<[ #"generator" := #"software"]> {[ #"customer_id" := customer_id]}) in
  let metadata := mkKeyMetadata key_id algorithm (get_key_size config algorithm) created_at expires_at
    customer_id 0 None Active ∅ in
  guarded KeyPairs Write (guarded Metadata Write (
    let~ _ := atomic (modify (fun w => set_key_tables (<[key_id := key_pair]> (key_pairs w))
                                       (<[key_id := metadata]> (key_metadata w)) w)) in
    Ret (Ok key_pair))).

Definition update_key_usage_locked (key_id : str) : Proc unit :=
  guarded Metadata Write (atomic (update_key_usage key_id)).

Definition get_public_key_locked (key_id : str) : Proc bytes :=
  guarded KeyPairs Read (
    let~ found := atomic (gets (fun w => key_pairs w !! key_id)) in
    match found with
    | Some kp => let~ _ := update_key_usage_locked key_id in Ret (Ok (kp_public_key kp))
    | None => Ret (Err (KeyNotFound key_id))
    end).

Definition get_key_creation_info (key_id : str) : Proc (option (datetime * gmap str str)) :=
  guarded KeyPairs Read (
    let~ found := atomic (gets (fun w => key_pairs w !! key_id)) in
    Ret (Ok ((fun kp => (kp_created_at kp, kp_metadata kp)) <$> found))).

Definition get_keys_by_customer (customer_id : str) : Proc (list str) :=
  guarded KeyPairs Read (
    let~ pairs := atomic (gets (fun w => hash_order (map_to_list (key_pairs w)))) in
    Ret (Ok (List.map fst (List.filter (fun kv =>
      match kp_metadata kv.2 !! #"customer_id" with Some c => str_eqb c customer_id | None => false end)
      pairs)))).

Definition sign_data_locked (data : bytes) (key_id : str) : Proc bytes :=
  guarded KeyPairs Read (
    let~ found := atomic (gets (fun w => key_pairs w !! key_id)) in
    match found with
    | None => Ret (Err (KeyNotFound key_id))
    | Some kp =>
      let~ _ := atomic (check_expired key_id kp) in
      let~ private_key := decrypt_private_key_locked (kp_private_key kp) in
      let~ signature := atomic (lift (
        if str_eqb (kp_algorithm kp) #"dilithium5" then sign_dilithium5 data private_key
        else if str_eqb (kp_algorithm kp) #"kyber-dilithium" then sign_hybrid_pq data private_key
        else if is_classical (kp_algorithm kp) then Err (ClassicalAlgorithm (kp_algorithm kp))
        else Err (UnsupportedAlgorithm (kp_algorithm kp)))) in
      let~ _ := update_key_usage_locked key_id in
      Ret (Ok signature)
    end).

Definition verify_signature_locked (data signature : bytes) (key_id : str) : Proc bool :=
  guarded KeyPairs Read (
    let~ found := atomic (gets (fun w => key_pairs w !! key_id)) in
    match found with
    | None => Ret (Err (KeyNotFound key_id))
    | Some kp =>
      let~ _ := atomic (check_expired key_id kp) in
      let~ valid := atomic (lift (
        if str_eqb (kp_algorithm kp) #"dilithium5"
        then verify_dilithium5_with_public_key data signature (kp_public_key kp)
        else if str_eqb (kp_algorithm kp) #"kyber-dilithium"
        then verify_hybrid_pq data signature (kp_public_key kp)
        else if is_classical (kp_algorithm kp) then Err (ClassicalAlgorithm (kp_algorithm kp))
        else Err (UnsupportedAlgorithm (kp_algorithm kp)))) in
      let~ _ := (if valid : bool then update_key_usage_locked key_id else Ret (Ok tt)) in
      Ret (Ok valid)
    end).

(** The counts are only logged. *)
Definition key_manager_health_check : Proc unit :=
  let~ _ := guarded KeyPairs Read (atomic (gets (fun w => size (key_pairs w)))) in
  let~ _ := guarded Metadata Read (atomic (gets (fun w => size (key_metadata w)))) in
  Ret (Ok tt).

Definition mark_rotated (m : KeyMetadata) : KeyMetadata :=
  mkKeyMetadata (km_key_id m) (km_algorithm m) (km_key_size_bits m) (km_created_at m) (km_expires_at m)
    (km_customer_id m) (km_usage_count m) (km_last_used_at m) Rotated (km_metadata m).
Definition note_rotated_from (key_id : str) (m : KeyMetadata) : KeyMetadata :=
  mkKeyMetadata (km_key_id m) (km_algorithm m) (km_key_size_bits m) (km_created_at m) (km_expires_at m)
    (km_customer_id m) (km_usage_count m) (km_last_used_at m) (km_status m)
    (<[ #"rotated_from" := key_id]> (km_metadata m)).

(** [get_mut(&new_key_pair.key_id).unwrap()] *)
Definition record_rotation (key_id new_id : str) : M World CryptoError unit := fun w =>
  let km := alter mark_rotated key_id (key_metadata w) in
  match km !! new_id with
  | None => (Panic, set_key_tables (key_pairs w) km w)
  | Some m => (Ok tt, set_key_tables (key_pairs w) (<[new_id := note_rotated_from key_id m]> km) w)
  end.

(** Both read guards live until the function returns. *)
Definition rotate_key (key_id : str) : Proc unit :=
  guarded KeyPairs Read (guarded Metadata Read (
    let~ found := atomic (gets (fun w => (key_pairs w !! key_id, key_metadata w !! key_id))) in
    match found with
    | (Some key_pair, Some metadata) =>
      let~ new_key_pair := generate_key_pair_locked (kp_algorithm key_pair) (km_customer_id metadata) in
      guarded Metadata Write (atomic (record_rotation key_id (kp_key_id new_key_pair)))
    | _ => Ret (Ok tt)
    end)).

Definition key_overdue (now : datetime) (m : KeyMetadata) : bool :=
  bool_decide (km_status m = Active)
  && match km_expires_at m with Some expiry => (expiry <? now)%Z | None => false end.
Definition overdue_keys (now : datetime) (w : World) : list str :=
  List.map fst (List.filter (fun kv => key_overdue now kv.2) (hash_order (map_to_list (key_metadata w)))).

(** Errors are logged and the loop goes on. *)
Fixpoint rotate_keys (ids : list str) : Proc unit :=
  match ids with
  | [] => Ret (Ok tt)
  | key_id :: ids => then_ (rotate_key key_id)
                       (fun r => match r with Panic => Ret Panic | _ => rotate_keys ids end)
  end.

Definition rotate_expired_keys : Proc unit :=
  let~ now := atomic utc_now in
  let~ expired_keys := guarded Metadata Read (atomic (gets (overdue_keys now))) in
  rotate_keys expired_keys.

End KeyOperations.

(** ** Running tasks *)

(** A task with the guards it holds, the latest first. *)
Record Task (A : Type) := mkTask { held : list (LockName * Mode); proc : Proc A }.
Arguments mkTask {A} _ _.
Arguments held {A} _.
Arguments proc {A} _.

Record Runtime (A : Type) := mkRuntime { world : World; tasks : gmap nat (Task A) }.
Arguments mkRuntime {A} _ _.
Arguments world {A} _.
Arguments tasks {A} _.

Definition waits {A} (s : Runtime A) (t : nat) (l : LockName) (m : Mode) : Prop :=
  exists gs k, tasks s !! t = Some (mkTask gs (Acquire l m k)).
(** No guard of the lock is held, or none of a mode. *)
Definition unheld {A} (s : Runtime A) (bad : LockName * Mode -> Prop) : Prop :=
  map_Forall (fun _ tk => Forall (fun g => ~ bad g) (held tk)) (tasks s).

(** [tokio::sync::RwLock]: which waiting tasks may get a lock.  A writer
    excludes every other guard; a lock nobody holds goes to one of those that
    wait for it; a reader gets it if there is no writer and none waits. *)
Class RwLocks (A : Type) := grants : Runtime A -> nat -> LockName -> Mode -> Prop.
Class RwLocksLaws (A : Type) `{RwLocks A} : Prop := {
  write_excludes s t l : grants s t l Write -> unheld s (fun g => g.1 = l);
  free_granted s t l m : waits s t l m -> unheld s (fun g => g.1 = l) ->
    exists t' m', waits s t' l m' /\ grants s t' l m';
  read_granted s t l : waits s t l Read -> unheld s (fun g => g = (l, Write)) ->
    (forall t', ~ waits s t' l Write) -> grants s t l Read;
}.

Definition set_task {A} (t : nat) (tk : Task A) (s : Runtime A) : Runtime A :=
  mkRuntime (world s) (<[t := tk]> (tasks s)).
Fixpoint drop_guard (g : LockName * Mode) (gs : list (LockName * Mode)) : list (LockName * Mode) :=
  match gs with
  | [] => []
  | g' :: gs => if decide (g = g') then gs else g' :: drop_guard g gs
  end.

Section Tasks.
Context {A : Type} `{RwLocks A}.

Inductive work : Runtime A -> Runtime A -> Prop :=
| work_acquire s t gs l m k :
  tasks s !! t = Some (mkTask gs (Acquire l m k)) -> grants s t l m ->
  work s (set_task t (mkTask ((l, m) :: gs) k) s)
| work_release s t gs l m k :
  tasks s !! t = Some (mkTask gs (Release l m k)) ->
  work s (set_task t (mkTask (drop_guard (l, m) gs) k) s)
| work_atomic s t gs X (m : M World CryptoError X) k r w :
  tasks s !! t = Some (mkTask gs (Atomic m k)) -> m (world s) = (r, w) ->
  work s (mkRuntime w (<[t := mkTask gs (k r)]> (tasks s))).

(** Requests arrive at any time. *)
Variable operation : Proc A -> Prop.
Inductive turn : Runtime A -> Runtime A -> Prop :=
| turn_work s s' : work s s' -> turn s s'
| turn_spawn s t p : tasks s !! t = None -> operation p -> turn s (set_task t (mkTask [] p) s).

(** *** Lock order *)

Definition rank (l : LockName) : nat :=
  match l with KeyPairs => 0 | Metadata => 1 | MasterKey => 2 | Rng => 3 end.

(** A step changes a table only under its write guard. *)
Definition table_safe {X} (gs : list (LockName * Mode)) (m : M World CryptoError X) : Prop :=
  ((KeyPairs, Write) ∉ gs -> forall w, key_pairs (m w).2 = key_pairs w)
  /\ ((Metadata, Write) ∉ gs -> forall w, key_metadata (m w).2 = key_metadata w).

(** Locks are taken in order and dropped in the reverse order, until [base] is
    what is held. *)
Fixpoint disciplined {B} (base gs : list (LockName * Mode)) (p : Proc B) : Prop :=
  match p with
  | Ret _ => gs = base
  | Acquire l m k => Forall (fun g => rank g.1 < rank l) gs /\ disciplined base ((l, m) :: gs) k
  | Release l m k => match gs with g :: gs' => g = (l, m) /\ disciplined base gs' k | [] => False end
  | Atomic m k => table_safe gs m /\ forall r, disciplined base gs (k r)
  end.

Definition orderly (s : Runtime A) : Prop :=
  map_Forall (fun _ tk => disciplined [] (held tk) (proc tk)) (tasks s).

Lemma drop_guard_head g gs : drop_guard g (g :: gs) = gs.
Proof. cbn. by rewrite decide_True. Qed.

Lemma orderly_step s s' :
  (forall p, operation p -> disciplined [] [] p) -> turn s s' -> orderly s -> orderly s'.
Proof.
  intros Hop Hs Ho. assert (Ht := fun t tk => Ho t tk).
  destruct Hs as [s s' Hw|s t p _ Hp]; [destruct Hw as [s t gs l m k E _|s t gs l m k E|s t gs X m k r w E _]|];
    apply map_Forall_insert_2; try done; try (specialize (Ht t _ E); cbn in Ht |- *).
  - apply Ht.
  - destruct gs as [|g gs]; [done|]. destruct Ht as [-> Ht]. by rewrite drop_guard_head.
  - apply Ht.
  - by apply Hop.
Qed.

Definition returned {B} (p : Proc B) : bool := match p with Ret _ => true | _ => false end.
Definition finished (s : Runtime A) : Prop := map_Forall (fun _ tk => returned (proc tk) = true) (tasks s).

Context `{!RwLocksLaws A}.

Lemma waiting_progress s t l m :
  waits s t l m -> unheld s (fun g => g.1 = l) -> exists s', work s s'.
Proof.
  intros Hw Hf. destruct (free_granted s t l m Hw Hf) as (t' & m' & (gs & k & E) & Hg).
  eexists. by eapply work_acquire.
Qed.

Lemma unheld_dec (s : Runtime A) l : {unheld s (fun g => g.1 = l)} + {~ unheld s (fun g => g.1 = l)}.
Proof. apply (decide (unheld s (fun g => g.1 = l))). Qed.

Lemma held_inv (s : Runtime A) l :
  ~ unheld s (fun g => g.1 = l) -> exists t tk m, tasks s !! t = Some tk /\ (l, m) ∈ held tk.
Proof.
  intros Hn. apply map_not_Forall in Hn as (t & tk & E & Hn); [|apply _].
  apply not_Forall_Exists, Exists_exists in Hn as ([l' m] & Hin & Hl); [|apply _].
  apply dec_stable in Hl. cbn in Hl. subst. eauto.
Qed.

(** Whoever holds the lock of the highest rank can go on, or someone who waits
    for a free lock can. *)
Lemma holder_progress s t tk l m :
  orderly s -> tasks s !! t = Some tk -> (l, m) ∈ held tk -> exists s', work s s'.
Proof.
  intros Ho. remember (4 - rank l) as n eqn:Hn. revert t tk l m Hn.
  induction n as [n IH] using lt_wf_ind. intros t [gs p] l m -> E Hin. pose proof (Ho t _ E) as Hd.
  cbn in Hd, Hin. destruct p as [r|l' m' k|l' m' k|X c k]; cbn in Hd.
  - subst. by apply elem_of_nil in Hin.
  - destruct Hd as [Hr _]. rewrite Forall_forall in Hr. specialize (Hr _ Hin). cbn in Hr.
    destruct (unheld_dec s l') as [Hf|Hf].
    + eapply waiting_progress; [|exact Hf]. by exists gs, k.
    + apply held_inv in Hf as (t' & tk' & m'' & E' & Hin'). eapply (IH (4 - rank l')); [|done..].
      destruct l, l'; cbn in *; lia.
  - eexists. by eapply work_release.
  - destruct (c (world s)) as [r w] eqn:Ec. eexists. by eapply work_atomic.
Qed.

Lemma orderly_progress s : orderly s -> finished s \/ exists s', work s s'.
Proof.
  intros Ho. destruct (decide (map_Forall (fun _ tk => held tk = []) (tasks s))) as [Hall|Hsome].
  - destruct (decide (finished s)) as [Hf|Hf]; [by left|right].
    apply map_not_Forall in Hf as (t & [gs p] & E & Hp); [|apply _].
    cbn in Hp. destruct p as [r|l m k|l m k|X c k]; [done|..].
    + eapply waiting_progress; [by exists gs, k|]. intros t' tk' E'. by rewrite (Hall _ _ E').
    + eexists. by eapply work_release.
    + destruct (c (world s)) as [r w] eqn:Ec. eexists. by eapply work_atomic.
  - right. apply map_not_Forall in Hsome as (t & tk & E & Hne); [|apply _].
    destruct (held tk) as [|[l m] gs] eqn:Eh; [done|]. eapply (holder_progress s t tk l m); [done..|].
    rewrite Eh. by left.
Qed.

(** *** Termination *)

(** What is left of a process. *)
Definition rest {B} (q p : Proc B) : Prop :=
  match p with
  | Ret _ => False
  | Acquire _ _ k | Release _ _ k => q = k
  | Atomic _ k => exists r, q = k r
  end.

Lemma rest_wf {B} (p : Proc B) : Acc rest p.
Proof.
  induction p as [r|l m k IH|l m k IH|X c k IH]; constructor; cbn; intros q Hq; [done|by subst..|].
  destruct Hq as [r ->]. apply IH.
Qed.

(** One task of a pool goes on. *)
Definition pool_step (p' p : gmap nat (Task A)) : Prop :=
  exists t tk tk', p !! t = Some tk /\ rest (proc tk') (proc tk) /\ p' = <[t := tk']> p.

Lemma pool_insert_acc t p :
  Acc pool_step p -> p !! t = None -> forall tk, Acc rest (proc tk) -> Acc pool_step (<[t := tk]> p).
Proof.
  intros Hp. induction Hp as [p _ IHp]. intros Hn tk Hq. remember (proc tk) as q eqn:Eq. revert tk Eq.
  induction Hq as [q Hq IHq]. intros tk ->. constructor. intros p' (j & tj & tj' & E & Hr & ->).
  destruct (decide (j = t)) as [->|Hne].
  - rewrite lookup_insert_eq in E. injection E as <-. rewrite insert_insert_eq. by eapply IHq.
  - rewrite lookup_insert_ne in E by done. rewrite insert_insert_ne by done.
    apply IHp; [by exists j, tj, tj'|by rewrite lookup_insert_ne by done|by constructor].
Qed.

Lemma pool_acc p : Acc pool_step p.
Proof.
  induction p as [|t tk p Hn IH] using map_ind.
  - constructor. intros p' (t & tk & tk' & E & _). by rewrite lookup_empty in E.
  - apply pool_insert_acc; [done..|apply rest_wf].
Qed.

Lemma work_pool s s' : work s s' -> pool_step (tasks s') (tasks s).
Proof.
  intros [s0 t gs l m k E _|s0 t gs l m k E|s0 t gs X m k r w E _];
    eexists t, _, _; (split; [exact E|]); (split; [|reflexivity]); cbn; eauto.
Qed.

Lemma work_terminates s : Acc (fun s' s => work s s') s.
Proof.
  remember (tasks s) as p eqn:Ep. revert s Ep. induction (pool_acc p) as [p _ IH].
  intros s ->. constructor. intros s' Hw. by eapply IH; [apply work_pool|].
Qed.

End Tasks.

(** ** Discipline of the operations *)

Section Discipline.
Context `{TextCodecs} `{Aead} `{PqCrypto} `{Oracle}.
Variable config : CryptoConfig.
Variable master_key : option bytes.
Variable hash_order : forall {V : Type}, list (str * V) -> list (str * V).

Lemma disciplined_then {A B} (p : Proc A) (k : result CryptoError A -> Proc B) base gs out :
  disciplined base gs p -> (forall r, disciplined out base (k r)) -> disciplined out gs (then_ p k).
Proof.
  intros Hp Hk. revert gs Hp. induction p as [r|l m q IH|l m q IH|X m q IH]; cbn; intros gs Hp.
  - by subst.
  - destruct Hp as [Hr Hp]. auto.
  - destruct gs as [|g gs]; [done|]. destruct Hp as [-> Hp]. auto.
  - destruct Hp as [Hs Hp]. auto.
Qed.

Lemma disciplined_bind {A B} (p : Proc A) (k : A -> Proc B) gs :
  disciplined gs gs p -> (forall a, disciplined gs gs (k a)) -> disciplined gs gs (pbind p k).
Proof. intros Hp Hk. apply (disciplined_then _ _ gs); [done|]. intros [a|e|]; cbn; auto. Qed.

Lemma disciplined_guarded {A} l m (p : Proc A) gs :
  Forall (fun g => rank g.1 < rank l) gs -> disciplined ((l, m) :: gs) ((l, m) :: gs) p ->
  disciplined gs gs (guarded l m p).
Proof. intros Hr Hp. cbn. split; [done|]. by apply (disciplined_then _ _ ((l, m) :: gs)). Qed.

Lemma disciplined_atomic {A} (m : M World CryptoError A) gs :
  table_safe gs m -> disciplined gs gs (atomic m).
Proof. done. Qed.

Lemma same_data_safe {A} (m : M World CryptoError A) gs : frames same_data m -> table_safe gs m.
Proof. intros Hm. split; intros _ w; apply (Hm w). Qed.

Lemma update_key_usage_safe key_id gs :
  (Metadata, Write) ∈ gs -> table_safe gs (update_key_usage key_id).
Proof.
  intros Hg. split; [intros _ w|done]. unfold update_key_usage, bind, gets.
  by destruct (key_metadata w !! key_id).
Qed.

Lemma modify_safe f gs :
  (KeyPairs, Write) ∈ gs -> (Metadata, Write) ∈ gs -> table_safe gs (modify f).
Proof. done. Qed.

Lemma key_material_frame algorithm : frames same_data (key_material algorithm).
Proof.
  unfold key_material. repeat case_if; auto using generate_kyber_frame, generate_dilithium_frame, generate_hybrid_frame.
  frame_run.
Qed.

Lemma check_expired_frame key_id kp : frames same_data (check_expired key_id kp).
Proof. unfold check_expired. frame_run. Qed.

Lemma check_key_limits_frame customer_id : frames same_data (check_key_limits config customer_id).
Proof. unfold check_key_limits. frame_run. Qed.

Ltac discipline_step :=
  lazymatch goal with
  | |- forall _, _ => intros ?
  | |- disciplined _ _ (pbind _ _) => apply disciplined_bind
  | |- disciplined _ _ (guarded _ _ _) => apply disciplined_guarded; [repeat constructor; cbn; lia|]
  | |- disciplined _ _ (atomic _) => apply disciplined_atomic
  | |- disciplined _ _ (Ret _) => reflexivity
  | |- disciplined _ _ (match ?x with _ => _ end) => destruct x
  | |- table_safe _ (update_key_usage _) => apply update_key_usage_safe; set_solver
  | |- table_safe _ (modify _) => apply modify_safe; set_solver
  | |- table_safe _ _ =>
    apply same_data_safe; first [apply key_material_frame|apply check_expired_frame|apply check_key_limits_frame
      |apply calculate_expiry_frame|frame_run]
  end.
Ltac discipline := repeat discipline_step.

Lemma generate_disciplined algorithm customer_id :
  disciplined [] [] (generate_key_pair_locked config master_key algorithm customer_id).
Proof. unfold generate_key_pair_locked, encrypt_private_key_locked. discipline. Qed.
Lemma sign_disciplined data key_id : disciplined [] [] (sign_data_locked master_key data key_id).
Proof. unfold sign_data_locked, decrypt_private_key_locked, update_key_usage_locked. discipline. Qed.
Lemma verify_disciplined data signature key_id :
  disciplined [] [] (verify_signature_locked data signature key_id).
Proof. unfold verify_signature_locked, update_key_usage_locked. discipline. Qed.
Lemma public_key_disciplined key_id : disciplined [] [] (get_public_key_locked key_id).
Proof. unfold get_public_key_locked, update_key_usage_locked. discipline. Qed.
Lemma creation_info_disciplined key_id : disciplined [] [] (get_key_creation_info key_id).
Proof. unfold get_key_creation_info. discipline. Qed.
Lemma keys_by_customer_disciplined customer_id :
  disciplined [] [] (get_keys_by_customer (@hash_order) customer_id).
Proof. unfold get_keys_by_customer. discipline. Qed.
Lemma health_check_disciplined : disciplined [] [] key_manager_health_check.
Proof. unfold key_manager_health_check. discipline. Qed.

(** *** What callers run *)

Inductive Answer :=
| APair (key_pair : KeyPair) | ABytes (b : bytes) | ABool (b : bool) | AUnit (u : unit)
| AInfo (info : option (datetime * gmap str str)) | AKeys (ids : list str).

Definition answer {A} (f : A -> Answer) (p : Proc A) : Proc Answer := let~ a := p in Ret (Ok (f a)).

(** The operations of the key manager that serve requests: all but the rotation
    of expired keys, which its background task runs and which is not among them
    because it deadlocks when it finds a key to rotate ([rotation_deadlocks]). *)
Inductive operation : Proc Answer -> Prop :=
| op_generate algorithm customer_id :
  operation (answer APair (generate_key_pair_locked config master_key algorithm customer_id))
| op_sign data key_id : operation (answer ABytes (sign_data_locked master_key data key_id))
| op_verify data signature key_id : operation (answer ABool (verify_signature_locked data signature key_id))
| op_public_key key_id : operation (answer ABytes (get_public_key_locked key_id))
| op_creation_info key_id : operation (answer AInfo (get_key_creation_info key_id))
| op_keys_by_customer customer_id : operation (answer AKeys (get_keys_by_customer (@hash_order) customer_id))
| op_health_check : operation (answer AUnit key_manager_health_check).

Lemma answer_disciplined {A} (f : A -> Answer) p : disciplined [] [] p -> disciplined [] [] (answer f p).
Proof. intros Hp. by apply disciplined_bind. Qed.

Lemma operation_disciplined p : operation p -> disciplined [] [] p.
Proof.
  intros []; apply answer_disciplined; auto using generate_disciplined, sign_disciplined,
    verify_disciplined, public_key_disciplined, creation_info_disciplined,
    keys_by_customer_disciplined, health_check_disciplined.
Qed.

Definition idle (w : World) : Runtime Answer := mkRuntime w ∅.

Context `{RwLocksLaws Answer}.

Lemma operations_orderly w s : rtc (turn operation) (idle w) s -> orderly s.
Proof.
  intros Hr. assert (Ho : orderly (idle w)) by apply map_Forall_empty. revert Ho.
  generalize dependent (idle w). intros s0 Hr. induction Hr as [|s0 s1 s2 Hs _ IH]; [done|].
  intros Ho. apply IH. by eapply orderly_step; [exact operation_disciplined|..].
Qed.

Lemma orderly_work s s' : rtc work s s' -> orderly s -> orderly s'.
Proof.
  intros Hr. induction Hr as [|s0 s1 s2 Hw _ IH]; [done|]. intros Ho. apply IH. revert Ho.
  eapply (orderly_step operation); [exact operation_disciplined|by constructor].
Qed.

Lemma orderly_completes (s : Runtime Answer) : orderly s -> exists s', rtc work s s' /\ finished s'.
Proof.
  induction (work_terminates s) as [s _ IH]. intros Ho.
  destruct (orderly_progress s Ho) as [Hf|[s1 Hw]]; [by exists s|].
  destruct (IH s1 Hw) as (s2 & Hs & Hf); [by eapply orderly_work, Ho; apply rtc_once|].
  exists s2. split; [by eapply rtc_l|done].
Qed.

(** C12: the locks of the key manager cannot deadlock under the operations that
    serve requests (generating a key, signing, verifying, reading keys and the
    health check), whatever requests arrive in whatever order, however the locks
    are handed out and however the tasks are scheduled.  As long as a task has
    not returned, some task can go on; and once no more requests arrive, every
    schedule ends, and ends with all of them answered.  This holds while the
    background task does not rotate an expired key: that rotation is not among
    the operations here, and with it the statement is false, see
    [rotation_deadlocks]. *)
Theorem key_operations_complete w s :
  rtc (turn operation) (idle w) s ->
  (finished s \/ exists s', work s s')
  /\ Acc (fun s' s => work s s') s
  /\ forall s', rtc work s s' -> exists s'', rtc work s' s'' /\ finished s''.
Proof.
  intros Hr. apply operations_orderly in Hr. split; [by apply orderly_progress|].
  split; [apply work_terminates|]. intros s' Hs. by eapply orderly_completes, orderly_work, Hr.
Qed.

(** *** Alone, an operation is what the other files take it to be *)

(** The process without its locks. *)
Fixpoint erase {A} (p : Proc A) : M World CryptoError A :=
  match p with
  | Ret r => lift r
  | Acquire _ _ k | Release _ _ k => erase k
  | Atomic m k => fun w => let '(r, w') := m w in erase (k r) w'
  end.

Lemma erase_then {A B} (p : Proc A) (k : result CryptoError A -> Proc B) w :
  erase (then_ p k) w = let '(r, w') := erase p w in erase (k r) w'.
Proof.
  revert w. induction p as [r|l m q IH|l m q IH|X m q IH]; cbn; intros w; [done|done|done|].
  destruct (m w) as [r w']. apply IH.
Qed.

Lemma erase_bind {A B} (p : Proc A) (k : A -> Proc B) m (f : A -> M World CryptoError B) w :
  (forall w, erase p w = m w) -> (forall a w, erase (k a) w = f a w) -> erase (pbind p k) w = bind m f w.
Proof.
  intros Hm Hf. unfold pbind. rewrite erase_then, Hm. unfold bind. destruct (m w) as [[a|e|] w']; cbn; auto.
Qed.
Lemma erase_guarded {A} l m (p : Proc A) w : erase (guarded l m p) w = erase p w.
Proof. cbn. rewrite erase_then. by destruct (erase p w). Qed.
Lemma erase_atomic {A} (m : M World CryptoError A) w : erase (atomic m) w = m w.
Proof. cbn. by destruct (m w). Qed.

Ltac erase_step :=
  lazymatch goal with
  | |- erase (guarded _ _ _) _ = _ => rewrite erase_guarded
  | |- erase (pbind _ _) _ = bind _ _ _ => apply erase_bind; intros
  | |- erase (atomic _) _ = _ => apply erase_atomic
  | |- erase (Ret _) _ = _ => reflexivity
  | |- erase (match ?x with _ => _ end) _ = _ => destruct x
  end.

Lemma encrypt_private_key_erase k w :
  erase (encrypt_private_key_locked master_key k) w = encrypt_private_key master_key k w.
Proof. unfold encrypt_private_key_locked, encrypt_private_key. repeat erase_step. Qed.

Lemma decrypt_private_key_erase k w :
  erase (decrypt_private_key_locked master_key k) w = lift (decrypt_private_key master_key k) w.
Proof.
  unfold decrypt_private_key_locked, decrypt_private_key, lift. cbn.
  repeat lazymatch goal with
  | |- erase (then_ (on_ok _ ?r) _) _ = _ => destruct r; cbn
  | |- erase (on_ok _ ?r) _ = _ => destruct r; cbn
  | |- _ => reflexivity
  end.
Qed.

Lemma update_key_usage_erase key_id w : erase (update_key_usage_locked key_id) w = update_key_usage key_id w.
Proof. unfold update_key_usage_locked. repeat erase_step. Qed.

Lemma generate_erase algorithm customer_id w :
  erase (generate_key_pair_locked config master_key algorithm customer_id) w
  = generate_key_pair config master_key algorithm customer_id w.
Proof.
  unfold generate_key_pair_locked, generate_key_pair.
  repeat first [erase_step|apply encrypt_private_key_erase
    |match goal with a : (bytes * bytes)%type |- _ => destruct a; cbn [fst snd] end].
Qed.

Lemma sign_erase data key_id w :
  erase (sign_data_locked master_key data key_id) w = sign_data master_key data key_id w.
Proof.
  unfold sign_data_locked, sign_data.
  repeat first [erase_step|apply decrypt_private_key_erase|apply update_key_usage_erase].
Qed.

Lemma verify_erase data signature key_id w :
  erase (verify_signature_locked data signature key_id) w = CryptoEngine.verify_signature data signature key_id w.
Proof.
  unfold verify_signature_locked, CryptoEngine.verify_signature.
  repeat first [erase_step|apply update_key_usage_erase].
Qed.

Lemma public_key_erase key_id w : erase (get_public_key_locked key_id) w = get_public_key key_id w.
Proof.
  unfold get_public_key_locked, get_public_key. repeat first [erase_step|apply update_key_usage_erase].
Qed.

(** The operation of [CryptoEngine] a locked one stands for. *)
Inductive sequential : Proc Answer -> M World CryptoError Answer -> Prop :=
| seq_generate algorithm customer_id :
  sequential (answer APair (generate_key_pair_locked config master_key algorithm customer_id))
    (let* a := generate_key_pair config master_key algorithm customer_id in ret (APair a))
| seq_sign data key_id :
  sequential (answer ABytes (sign_data_locked master_key data key_id))
    (let* a := sign_data master_key data key_id in ret (ABytes a))
| seq_verify data signature key_id :
  sequential (answer ABool (verify_signature_locked data signature key_id))
    (let* a := CryptoEngine.verify_signature data signature key_id in ret (ABool a))
| seq_public_key key_id :
  sequential (answer ABytes (get_public_key_locked key_id))
    (let* a := get_public_key key_id in ret (ABytes a)).

Lemma sequential_erase p m w : sequential p m -> erase p w = m w.
Proof.
  intros []; apply erase_bind; intros; auto using generate_erase, sign_erase, verify_erase, public_key_erase.
Qed.

Lemma sequential_disciplined p m : sequential p m -> disciplined [] [] p.
Proof.
  intros []; apply answer_disciplined; auto using generate_disciplined, sign_disciplined,
    verify_disciplined, public_key_disciplined.
Qed.

Definition alone (t : nat) (w : World) (tk : Task Answer) : Runtime Answer := mkRuntime w {[t := tk]}.

(** A task that runs alone keeps what it is going to compute. *)
Lemma alone_work t w tk s :
  work (alone t w tk) s ->
  exists w' tk', s = alone t w' tk' /\ erase (proc tk') w' = erase (proc tk) w.
Proof.
  intros Hw. remember (alone t w tk) as s0 eqn:E0.
  destruct Hw as [s0 t' gs l m k E _|s0 t' gs l m k E|s0 t' gs X m k r w' E Em]; subst s0; cbn in E;
    apply lookup_singleton_Some in E as [<- ->]; unfold set_task, alone; cbn; rewrite insert_singleton_eq;
    eexists _, _; (split; [reflexivity|]); cbn; [done..|]. cbn in Em. by rewrite Em.
Qed.

Lemma alone_run t w tk s :
  rtc work (alone t w tk) s ->
  exists w' tk', s = alone t w' tk' /\ erase (proc tk') w' = erase (proc tk) w.
Proof.
  intros Hr. remember (alone t w tk) as s0 eqn:E0. revert w tk E0.
  induction Hr as [|s0 s1 s2 Hw _ IH]; intros w tk ->; [by eexists _, _|].
  apply alone_work in Hw as (w1 & tk1 & -> & E1). destruct (IH w1 tk1 eq_refl) as (w2 & tk2 & -> & E2).
  eexists _, _. split; [done|congruence].
Qed.

(** The key manager implements the atomic operations that the rest of the
    development takes it to have, for generating, signing, verifying and
    reading a public key: run by itself, an operation with its locks
    always comes to an end, and every way it can run ends with no lock held
    and the result and state of the sequential operation. *)
Theorem locked_operations_refine p m t w :
  sequential p m ->
  (exists s, rtc work (alone t w (mkTask [] p)) s /\ finished s)
  /\ forall s, rtc work (alone t w (mkTask [] p)) s -> finished s ->
       s = alone t (m w).2 (mkTask [] (Ret (m w).1)).
Proof.
  intros Hp.
  assert (Ho : orderly (alone t w (mkTask [] p))).
  { intros t' tk E. cbn in E. apply lookup_singleton_Some in E as [<- <-]. by eapply sequential_disciplined. }
  split; [by apply orderly_completes|].
  intros s Hr Hf. pose proof (orderly_work _ _ Hr Ho) as Hs.
  apply alone_run in Hr as (w' & tk & -> & E). specialize (Hf t tk (lookup_singleton_eq _ _)).
  specialize (Hs t tk (lookup_singleton_eq _ _)).
  destruct tk as [gs [r| | |]]; try done. cbn in E, Hs. subst gs.
  rewrite (sequential_erase p m w Hp) in E. unfold lift in E. by rewrite <- E.
Qed.

(** ** Rotation waits for itself *)

Definition compatible (l : LockName) (m : Mode) (gs : list (LockName * Mode)) : bool :=
  match m with
  | Write => forallb (fun g => negb (bool_decide (g.1 = l))) gs
  | Read => forallb (fun g => negb (bool_decide (g = (l, Write)))) gs
  end.

(** Run a task that is alone as far as it gets. *)
Fixpoint run_alone {A} (gs : list (LockName * Mode)) (p : Proc A) (w : World) : World * Task A :=
  match p with
  | Ret _ => (w, mkTask gs p)
  | Acquire l m k => if compatible l m gs then run_alone ((l, m) :: gs) k w else (w, mkTask gs p)
  | Release l m k => run_alone (drop_guard (l, m) gs) k w
  | Atomic m k => let '(r, w') := m w in run_alone gs (k r) w'
  end.

Lemma forallb_unheld gs (bad : LockName * Mode -> Prop) `{!forall g, Decision (bad g)} t w (k : Proc Answer) :
  forallb (fun g => negb (bool_decide (bad g))) gs = true -> unheld (alone t w (mkTask gs k)) bad.
Proof.
  intros Hg t' tk E. cbn in E. apply lookup_singleton_Some in E as [_ <-]. cbn.
  apply Forall_forall. intros g Hin. rewrite forallb_forall in Hg.
  specialize (Hg g (proj1 (list_elem_of_In _ _) Hin)). by destruct (bool_decide_reflect (bad g)).
Qed.

Lemma alone_waits t w gs l m k t' l' m' :
  waits (alone t w (mkTask gs (Acquire l m k))) t' l' m' -> t' = t /\ l' = l /\ m' = m.
Proof.
  intros (gs' & k' & E). cbn in E. apply lookup_singleton_Some in E as [<- E]. by injection E as <- <- <-.
Qed.

Lemma compatible_granted t w gs l m k :
  compatible l m gs = true -> grants (alone t w (mkTask gs (Acquire l m k))) t l m.
Proof.
  set (s := alone t w _). intros Hc. assert (Hw : waits s t l m) by (exists gs, k; apply lookup_singleton_eq).
  destruct m; cbn in Hc.
  - apply read_granted; [done|exact (forallb_unheld gs (fun g => g = (l, Write)) t w _ Hc)|]. intros t' Ht. by apply alone_waits in Ht as (_ & _ & ?).
  - assert (Hu : unheld s (fun g => g.1 = l)) by exact (forallb_unheld gs (fun g => g.1 = l) t w _ Hc).
    destruct (free_granted s t l Write Hw Hu) as (t' & m' & Ht & Hg).
    by apply alone_waits in Ht as (-> & _ & ->).
Qed.

Lemma alone_set t w w' (tk tk' : Task Answer) :
  alone t w' tk' = mkRuntime w' (<[t := tk']> (tasks (alone t w tk))).
Proof. unfold alone. cbn. by rewrite insert_singleton_eq. Qed.

Lemma run_alone_work t gs (p : Proc Answer) w :
  rtc work (alone t w (mkTask gs p)) (alone t (run_alone gs p w).1 (run_alone gs p w).2).
Proof.
  revert gs w. induction p as [r|l m k IH|l m k IH|X m k IH]; intros gs w; cbn [run_alone].
  - done.
  - destruct (compatible l m gs) eqn:Hc; [|done]. eapply rtc_l, IH.
    rewrite (alone_set t w w (mkTask gs (Acquire l m k)) (mkTask ((l, m) :: gs) k)).
    apply (work_acquire (alone t w (mkTask gs (Acquire l m k))) t gs l m k); [apply lookup_singleton_eq|by apply compatible_granted].
  - eapply rtc_l, IH. rewrite (alone_set t w w (mkTask gs (Release l m k)) (mkTask (drop_guard (l, m) gs) k)).
    apply (work_release (alone t w (mkTask gs (Release l m k))) t gs l m k), lookup_singleton_eq.
  - destruct (m w) as [r w'] eqn:Em. eapply rtc_l, IH.
    rewrite (alone_set t w w' (mkTask gs (Atomic m k)) (mkTask gs (k r))).
    by apply (work_atomic (alone t w (mkTask gs (Atomic m k))) t gs X m k r w'); [apply lookup_singleton_eq|].
Qed.

Lemma run_alone_then {A B} (p : Proc A) (k : result CryptoError A -> Proc B) gs w :
  run_alone gs (then_ p k) w =
  let '(w', tk) := run_alone gs p w in
  match proc tk with Ret r => run_alone (held tk) (k r) w' | q => (w', mkTask (held tk) (then_ q k)) end.
Proof.
  revert gs w. induction p as [r|l m q IH|l m q IH|X m q IH]; intros gs w; cbn.
  - done.
  - destruct (compatible l m gs); [apply IH|done].
  - apply IH.
  - destruct (m w). apply IH.
Qed.

Lemma run_atomic {A B} (m : M World CryptoError A) (k : A -> Proc B) gs w a w' :
  m w = (Ok a, w') -> run_alone gs (pbind (atomic m) k) w = run_alone gs (k a) w'.
Proof. intros E. cbn. by rewrite E. Qed.

Lemma run_last {A} (m : M World CryptoError A) gs w r w' :
  m w = (r, w') -> run_alone gs (atomic m) w = (w', mkTask gs (Ret r)).
Proof. intros E. cbn. by rewrite E. Qed.

Lemma run_guarded_last {A} l md (p : Proc A) gs w r w' :
  compatible l md gs = true -> run_alone ((l, md) :: gs) p w = (w', mkTask ((l, md) :: gs) (Ret r)) ->
  run_alone gs (guarded l md p) w = (w', mkTask gs (Ret r)).
Proof.
  intros Hc Hp. cbn [guarded run_alone]. rewrite Hc, run_alone_then, Hp. cbn [proc held run_alone].
  by rewrite drop_guard_head.
Qed.

Lemma run_guarded {A B} l md (p : Proc A) (k : A -> Proc B) gs w a w' :
  compatible l md gs = true -> run_alone ((l, md) :: gs) p w = (w', mkTask ((l, md) :: gs) (Ret (Ok a))) ->
  run_alone gs (pbind (guarded l md p) k) w = run_alone gs (k a) w'.
Proof.
  intros Hc Hp. unfold pbind. by rewrite run_alone_then, (run_guarded_last _ _ _ _ _ (Ok a) w').
Qed.

(** Where a task stands that waits to write [KeyPairs]. *)
Definition wants_write {A} (gs : list (LockName * Mode)) (r : World * Task A) (w : World) : Prop :=
  exists w' k, r = (w', mkTask gs (Acquire KeyPairs Write k)) /\ key_pairs w' = key_pairs w.

Lemma wants_write_then {A B} (p : Proc A) (k : result CryptoError A -> Proc B) gs gs' w w0 :
  wants_write gs (run_alone gs' p w) w0 -> wants_write gs (run_alone gs' (then_ p k) w) w0.
Proof. intros (w' & q & E & Hk). rewrite run_alone_then, E. cbn. by eexists _, _. Qed.

Lemma wants_write_guarded {A} l m (p : Proc A) gs gs' w w0 :
  compatible l m gs' = true -> wants_write gs (run_alone ((l, m) :: gs') p w) w0 ->
  wants_write gs (run_alone gs' (guarded l m p) w) w0.
Proof. intros Hc Hp. cbn [guarded run_alone]. rewrite Hc. by apply wants_write_then. Qed.

Lemma generate_wants_write algorithm customer_id w kp w' gs :
  compatible Metadata Read gs = true -> compatible MasterKey Read gs = true ->
  compatible Rng Write gs = true -> compatible KeyPairs Write gs = false ->
  generate_key_pair config master_key algorithm customer_id w = (Ok kp, w') ->
  wants_write gs (run_alone gs (generate_key_pair_locked config master_key algorithm customer_id) w) w.
Proof.
  intros C1 C2 C3 C4 G. unfold generate_key_pair in G. apply bind_ok in G as (u & w1 & Hv & G).
  injection Hv as Hv <-. apply bind_ok in G as (u' & w1 & Hl & G). apply bind_ok in G as (mat & w2 & Hm & G).
  pose proof (frames_ok same_data _ _ _ _ (check_key_limits_frame _) Hl) as S1.
  pose proof (frames_ok same_data _ _ _ _ (key_material_frame _) Hm) as S2.
  destruct mat as [public private]. apply bind_ok in G as (id & w3 & Hi & G).
  apply bind_ok in G as (enc & w4 & He & G). unfold encrypt_private_key in He.
  apply bind_ok in He as (mk & w5 & Hmk & He). injection Hmk as Hmk <-.
  apply bind_ok in He as (nonce & w5 & Hn & He). injection He as <- <-.
  apply bind_ok in G as (created & w6 & Hc & G). apply bind_ok in G as (expires & w7 & Hx & G).
  pose proof (frames_ok same_data _ _ _ _ (calculate_expiry_frame config) Hx) as S3.
  unfold generate_key_pair_locked. rewrite (run_atomic _ _ _ _ u w) by by unfold lift; rewrite Hv.
  rewrite (run_guarded _ _ _ _ _ _ u' w1); [|done|by apply run_last].
  rewrite (run_atomic _ _ _ _ (public, private) w2) by done. rewrite (run_atomic _ _ _ _ id w3) by done.
  unfold encrypt_private_key_locked.
  rewrite (run_guarded _ _ _ _ _ _ (nonce ++ chacha_seal mk nonce private) w5); [|done|].
  2: { rewrite (run_atomic _ _ _ _ mk w3) by (unfold lift; by rewrite Hmk).
       apply run_guarded_last; [done|]. by rewrite (run_atomic _ _ _ _ nonce w5). }
  rewrite (run_atomic _ _ _ _ created w6) by done. rewrite (run_atomic _ _ _ _ expires w7) by done.
  cbn [guarded run_alone]. rewrite C4. eexists _, _. split; [done|].
  unfold new_uuid, os_random, utc_now, interact in *. injection Hi as _ <-. injection Hn as _ <-.
  injection Hc as _ <-. destruct S1 as (_&_&_&S1&_). destruct S2 as (_&_&_&S2&_).
  destruct S3 as (_&_&_&S3&_). cbn in *. congruence.
Qed.

(** The guards [rotate_key] holds when it asks for a new key. *)
Definition rotation_guards : list (LockName * Mode) := [(Metadata, Read); (KeyPairs, Read)].

Lemma rotate_key_wants_write key_id kp m w kp' w' :
  key_pairs w !! key_id = Some kp -> key_metadata w !! key_id = Some m ->
  generate_key_pair config master_key (kp_algorithm kp) (km_customer_id m) w = (Ok kp', w') ->
  wants_write rotation_guards (run_alone [] (rotate_key config master_key key_id) w) w.
Proof.
  intros Hk Hm G. unfold rotate_key. do 2 (apply wants_write_guarded; [done|]).
  rewrite (run_atomic _ _ _ _ (Some kp, Some m) w) by (unfold gets; by rewrite Hk, Hm).
  apply wants_write_then. by eapply generate_wants_write.
Qed.

(** A task that waits to write a table it holds a guard of. *)
Definition self_blocked (s : Runtime Answer) (t : nat) : Prop :=
  exists gs k, tasks s !! t = Some (mkTask gs (Acquire KeyPairs Write k)) /\ (KeyPairs, Read) ∈ gs.

Lemma held_refuses s t tk t' :
  tasks s !! t = Some tk -> (KeyPairs, Read) ∈ held tk -> grants s t' KeyPairs Write -> False.
Proof.
  intros E Hin Hg. apply write_excludes in Hg. specialize (Hg t tk E). cbn in Hg.
  rewrite Forall_forall in Hg. by apply (Hg (KeyPairs, Read)).
Qed.

(** Success is only reached through writing [KeyPairs]. *)
Fixpoint needs_write {A} (p : Proc A) : Prop :=
  match p with
  | Ret (Ok _) => False
  | Ret _ => True
  | Acquire KeyPairs Write _ => True
  | Acquire _ _ k | Release _ _ k => needs_write k
  | Atomic _ k => forall r, needs_write (k r)
  end.

Lemma needs_write_then {A B} (p : Proc A) (k : result CryptoError A -> Proc B) :
  (forall r, needs_write (k r)) -> needs_write (then_ p k).
Proof.
  intros Hk. induction p as [r|l m q IH|l m q IH|X m q IH]; cbn; auto. by destruct l, m.
Qed.
Lemma needs_write_bind {A B} (p : Proc A) (k : A -> Proc B) :
  (forall a, needs_write (k a)) -> needs_write (pbind p k).
Proof. intros Hk. apply needs_write_then. by intros [a|e|]; cbn. Qed.
Lemma needs_write_answer {A} (f : A -> Answer) p : needs_write p -> needs_write (answer f p).
Proof.
  unfold answer, pbind. induction p as [r|l m q IH|l m q IH|X m q IH]; cbn; auto.
  - by destruct r.
  - by destruct l, m.
Qed.
Lemma generate_needs_write algorithm customer_id :
  needs_write (generate_key_pair_locked config master_key algorithm customer_id).
Proof. unfold generate_key_pair_locked. by repeat (apply needs_write_bind; intros ?). Qed.

(** What stays as it is while task [t] blocks itself: the others respect the
    locks and none of them has the lock [t] waits for. *)
Definition stalled (t : nat) (s : Runtime Answer) : Prop :=
  self_blocked s t
  /\ forall t' tk, t' <> t -> tasks s !! t' = Some tk ->
       disciplined [] (held tk) (proc tk) /\ (KeyPairs, Write) ∉ held tk.

(** Another task goes on. *)
Lemma stalled_put t s w j tk tk' :
  stalled t s -> tasks s !! j = Some tk -> j <> t ->
  (disciplined [] (held tk') (proc tk') /\ (KeyPairs, Write) ∉ held tk') ->
  (needs_write (proc tk) -> needs_write (proc tk')) -> key_pairs w = key_pairs (world s) ->
  stalled t (mkRuntime w (<[j := tk']> (tasks s))) /\ key_pairs w = key_pairs (world s)
  /\ forall t' tk0, tasks s !! t' = Some tk0 -> needs_write (proc tk0) ->
       exists tk1, <[j := tk']> (tasks s) !! t' = Some tk1 /\ needs_write (proc tk1).
Proof.
  intros [(gs0 & k0 & E0 & Hin) Ho] E Hj Hd Hn Hk. split; [split|split; [done|]].
  - exists gs0, k0. cbn. by rewrite lookup_insert_ne by done.
  - intros t' tk1 Ht E1. cbn in E1. apply lookup_insert_Some in E1 as [[<- <-]|[_ E1]]; [done|by eapply Ho].
  - intros t' tk0 Et Hw. destruct (decide (j = t')) as [<-|Hne].
    + rewrite lookup_insert_eq. exists tk'. split; [done|]. apply Hn. congruence.
    + rewrite lookup_insert_ne by done. eauto.
Qed.

Lemma stalled_step t s s' :
  turn operation s s' -> stalled t s ->
  stalled t s' /\ key_pairs (world s') = key_pairs (world s)
  /\ forall t' tk, tasks s !! t' = Some tk -> needs_write (proc tk) ->
       exists tk', tasks s' !! t' = Some tk' /\ needs_write (proc tk').
Proof.
  intros Hs Hst. pose proof Hst as [(gs0 & k0 & E0 & Hin) Ho].
  assert (Hother : forall j gs p, tasks s !! j = Some (mkTask gs p) ->
    (forall k, p <> Acquire KeyPairs Write k) -> j <> t).
  { intros j gs p E Hp ->. rewrite E0 in E. injection E as _ <-. by apply (Hp k0). }
  destruct Hs as [s s' Hw|s j p E Hp].
  - destruct Hw as [s j gs l m k E Hg|s j gs l m k E|s j gs X m k r w E Em].
    + assert (Hlm : (l, m) <> (KeyPairs, Write)).
      { intros [= -> ->]. by eapply (held_refuses s t _ j E0). }
      assert (Hj : j <> t) by (eapply Hother; [exact E|]; intros k' [= -> -> _]; done).
      destruct (Ho j _ Hj E) as [Hd Hh]. apply (stalled_put t s (world s) j _ _ Hst E Hj); [|cbn|done].
      * split; [apply Hd|]. cbn in *. set_solver.
      * by destruct l, m.
    + assert (Hj : j <> t) by (eapply Hother; [exact E|done]).
      destruct (Ho j _ Hj E) as [Hd Hh]. apply (stalled_put t s (world s) j _ _ Hst E Hj); [|done|done].
      cbn in *. destruct gs as [|g gs]; [done|]. destruct Hd as [-> Hd]. rewrite drop_guard_head. set_solver.
    + assert (Hj : j <> t) by (eapply Hother; [exact E|done]).
      destruct (Ho j _ Hj E) as [[Hs Hd] Hh]. apply (stalled_put t s w j _ _ Hst E Hj); [cbn; by split|cbn; auto|].
      cbn in *. destruct Hs as [Hs _]. specialize (Hs Hh (world s)). by rewrite Em in Hs.
  - assert (Hj : j <> t) by (intros ->; by rewrite E0 in E). split; [split|split; [done|]].
    + exists gs0, k0. cbn. by rewrite lookup_insert_ne by done.
    + intros t' tk1 Ht E1. cbn in E1. apply lookup_insert_Some in E1 as [[<- <-]|[_ E1]]; [|by eapply Ho].
      split; [by apply operation_disciplined|]. cbn. apply not_elem_of_nil.
    + intros t' tk0 Et Hw. exists tk0. cbn. split; [|done]. rewrite lookup_insert_ne; [done|]. intros <-. congruence.
Qed.

Lemma stalled_run t s s' :
  rtc (turn operation) s s' -> stalled t s ->
  stalled t s' /\ key_pairs (world s') = key_pairs (world s)
  /\ forall t' tk, tasks s !! t' = Some tk -> needs_write (proc tk) ->
       exists tk', tasks s' !! t' = Some tk' /\ needs_write (proc tk').
Proof.
  intros Hr. induction Hr as [s|s s1 s2 Hs _ IH]; intros Hst; [by eauto|].
  destruct (stalled_step t s s1 Hs Hst) as (H1' & K1 & N1). destruct (IH H1') as (H2' & K2 & N2).
  split; [done|]. split; [congruence|]. intros t' tk E Hn. destruct (N1 t' tk E Hn) as (tk1 & E1 & Hn1). eauto.
Qed.

Hypothesis hash_order_perm : forall V (l : list (str * V)), hash_order l ≡ₚ l.

Lemma rotation_wants_write w :
  overdue_keys (@hash_order) (time_at (tick w)) w <> [] ->
  (forall key_id m, key_metadata w !! key_id = Some m -> key_overdue (time_at (tick w)) m = true ->
     exists kp kp' w', key_pairs w !! key_id = Some kp
       /\ generate_key_pair config master_key (kp_algorithm kp) (km_customer_id m) (advance w) = (Ok kp', w')) ->
  wants_write rotation_guards
    (run_alone [] (answer AUnit (rotate_expired_keys config master_key (@hash_order))) w) w.
Proof.
  intros Hne Hg. apply wants_write_then. unfold rotate_expired_keys.
  rewrite (run_atomic _ _ _ _ (time_at (tick w)) (advance w)) by done.
  rewrite (run_guarded _ _ _ _ _ _ (overdue_keys (@hash_order) (time_at (tick w)) w) (advance w)).
  2: done.
  2: { by apply run_last. }
  destruct (overdue_keys _ _ w) as [|key_id ids] eqn:Eo; [done|]. cbn [rotate_keys].
  assert (Hin : In key_id (overdue_keys (@hash_order) (time_at (tick w)) w)) by (rewrite Eo; by left).
  unfold overdue_keys in Hin. apply in_map_iff in Hin as ([k m] & Ek & Hin). cbn in Ek. subst k.
  apply filter_In in Hin as [Hin Ho]. apply list_elem_of_In in Hin. rewrite hash_order_perm in Hin.
  apply elem_of_map_to_list in Hin. destruct (Hg key_id m Hin Ho) as (kp & kp' & w' & Hk & G).
  apply wants_write_then. by eapply (rotate_key_wants_write key_id kp m (advance w)).
Qed.

(** C36: the rotation of expired keys stops the key manager for good.  When the
    background task finds an expired key it could replace, it can run into a
    state from which, whatever happens later, it never returns, no key is ever
    added, and no request for a new key, which every new secret needs, is ever
    answered with one. *)
Theorem rotation_deadlocks t w :
  overdue_keys (@hash_order) (time_at (tick w)) w <> [] ->
  (forall key_id m, key_metadata w !! key_id = Some m -> key_overdue (time_at (tick w)) m = true ->
     exists kp kp' w', key_pairs w !! key_id = Some kp
       /\ generate_key_pair config master_key (kp_algorithm kp) (km_customer_id m) (advance w) = (Ok kp', w')) ->
  exists s,
    rtc work (alone t w (mkTask [] (answer AUnit (rotate_expired_keys config master_key (@hash_order))))) s
    /\ forall s', rtc (turn operation) s s' ->
       key_pairs (world s') = key_pairs w
       /\ (exists tk, tasks s' !! t = Some tk /\ returned (proc tk) = false)
       /\ forall t' algorithm customer_id s'' tk,
            tasks s' !! t' = Some (mkTask []
              (answer APair (generate_key_pair_locked config master_key algorithm customer_id))) ->
            rtc (turn operation) s' s'' -> tasks s'' !! t' = Some tk -> forall a, proc tk <> Ret (Ok a).
Proof.
  intros Hne Hg. destruct (rotation_wants_write w Hne Hg) as (w' & k & E & Hk).
  eexists. split; [apply run_alone_work|]. rewrite E. cbn [fst snd]. intros s' Hr.
  assert (Hst : stalled t (alone t w' (mkTask rotation_guards (Acquire KeyPairs Write k)))).
  { split; [exists rotation_guards, k; split; [apply lookup_singleton_eq|set_solver]|].
    intros t' tk Ht Et. cbn in Et. by apply lookup_singleton_Some in Et as [<- _]. }
  destruct (stalled_run t _ _ Hr Hst) as (Hs' & Hk' & _). split; [cbn in Hk'; congruence|]. split.
  - destruct Hs' as [(gs & k' & Et & _) _]. by eexists.
  - intros t' algorithm customer_id s'' tk Et Hr' Et' a Ea.
    destruct (stalled_run t _ _ Hr' Hs') as (_ & _ & Hn).
    destruct (Hn t' _ Et) as (tk' & Et'' & Hw); [apply needs_write_answer, generate_needs_write|].
    rewrite Et' in Et''. injection Et'' as <-. by rewrite Ea in Hw.
Qed.

End Discipline.

(** * The theorems on concrete runs *)

Module KeyLockExamples.
Import Reference ToyWorld CryptoExamples.

(** Locks that are handed out as soon as the guards allow it. *)
#[export] Instance eager_locks A : RwLocks A := fun s _ l m =>
  match m with Write => unheld s (fun g => g.1 = l) | Read => unheld s (fun g => g = (l, Write)) end.
#[export] Instance eager_locks_laws A : RwLocksLaws A.
Proof.
  split; [done| |done]. intros s t l m Hw Hu. exists t, m. split; [done|]. destruct m; [|done].
  intros t' tk E. eapply Forall_impl; [exact (Hu t' tk E)|]. by intros g Hg ->.
Qed.

Definition in_order {V : Type} (l : list (str * V)) : list (str * V) := l.
Definition config1 : CryptoConfig := from_env (fun _ => None).
Definition new_key : Proc Answer :=
  answer APair (generate_key_pair_locked config1 master0 #"dilithium5" #"acme").

Lemma key_operations_complete_witness : exists s,
  rtc work (set_task 0 (mkTask [] new_key) (idle empty_world)) s /\ finished s.
Proof.
  destruct (key_operations_complete config1 master0 (@in_order) empty_world
    (set_task 0 (mkTask [] new_key) (idle empty_world))) as (_ & _ & Hc).
  - apply rtc_once, turn_spawn; [reflexivity|apply op_generate].
  - exact (Hc _ (rtc_refl _ _)).
Defined.

Lemma locked_operations_refine_witness : exists s,
  rtc work (alone 0 empty_world (mkTask [] (answer ABytes (get_public_key_locked #"k")))) s
  /\ s = alone 0 empty_world (mkTask [] (Ret (Err (KeyNotFound #"k")))).
Proof.
  destruct (locked_operations_refine config1 master0 (@in_order) _ _ 0 empty_world
    (seq_public_key config1 master0 #"k")) as ((s & Hr & Hf) & Hall).
  exists s. split; [exact Hr|exact (Hall s Hr Hf)].
Defined.

(** A key that expired in 1970. *)
Definition old_pair : KeyPair := mkKeyPair #"k" [] [] #"dilithium5" 0 (Some 0%Z) ∅.
Definition old_metadata : KeyMetadata :=
  mkKeyMetadata #"k" #"dilithium5" 256 0 (Some 0%Z) #"acme" 0 None Active ∅.
Definition old_world : World := set_key_tables {[ #"k" := old_pair]} {[ #"k" := old_metadata]} empty_world.

Lemma old_key_replaceable : exists kp w,
  generate_key_pair config1 master0 #"dilithium5" #"acme" (advance old_world) = (Ok kp, w).
Proof.
  assert (HR : forall t, tick (advance old_world) <= t <= tick (advance old_world) + 5 -> rotation_ok config1 t).
  { intros t Ht _. change (rotation config1) with (86400 * 10^9)%Z.
    cbn [tick empty_world advance old_world set_key_tables] in Ht.
    split; [by vm_compute|]. unfold rfc3339_range, time_at, toy_oracle. lia. }
  assert (HQ : quota_free config1 #"acme" (advance old_world)) by (unfold quota_free; vm_compute; reflexivity).
  pose proof (generate_signing_key_ok config1 master0 #"acme" (advance old_world) (le_bytes 32 4)
    eq_refl HQ eq_refl HR) as HG.
  destruct (proj1 (wp_eq _ _ _) HG) as (kp & w & E & _). exists kp, w. exact E.
Qed.

Lemma rotation_deadlocks_witness : exists s,
  rtc work (alone 0 old_world (mkTask [] (answer AUnit (rotate_expired_keys config1 master0 (@in_order))))) s
  /\ forall s', rtc (turn (operation config1 master0 (@in_order))) s s' -> key_pairs (world s') = key_pairs old_world.
Proof.
  destruct (rotation_deadlocks config1 master0 (@in_order) (fun _ _ => Permutation_refl _) 0 old_world)
    as (s & Hr & Hs).
  - vm_compute. discriminate.
  - intros key_id m Hm _. cbn [key_metadata old_world set_key_tables] in Hm. apply lookup_singleton_Some in Hm as [<- <-]. exists old_pair.
    destruct old_key_replaceable as (kp & w & E). exists kp, w. split; [reflexivity|exact E].
  - exists s. split; [exact Hr|]. intros s' Hs'. exact (proj1 (Hs s' Hs')).
Defined.

End KeyLockExamples.
