(* ===== verification/Postgres.v ===== *)
(** Postgres credentials (postgres.rs and the handler that issues them): the
    configuration, the SQL statements and their quoting, lease times, user
    names, the transaction that creates a role, and the removal of expired
    roles.  The database server, URLs and random passwords are parameters.

    The lexer that says what a statement means is that of a server with
    [standard_conforming_strings] on, as is the default.  It takes bytes as they
    are: that the server truncates identifiers after 63 bytes and refuses NUL
    bytes and empty identifiers is not modelled. *)

From S2P Require Import Prelude RustStd Externals Reference Transparency World SealedStore Config.
From S2P Require Import CryptoEngine Broker.

(** ** Interfaces *)

(** Crate [url]. *)
Class Urls := {
  url : Type;
  url_parse : str -> option url;
  url_path : url -> str;
  set_username : str -> url -> option url;
  set_password : str -> url -> option url;
  append_pair : str -> str -> url -> url;
  url_text : url -> str;
}.

(** Crate [rand]: characters of [Alphanumeric] drawn from [OsRng]. *)
Class Passwords := alphanumeric_at : nat -> nat -> str.

(** A Postgres server behind [sqlx]: [None] where a call fails. *)
Class PgServer := {
  db : Type;
  tx : Type;
  tx_begin : db -> option tx;
  tx_exec : str -> tx -> bool * tx;
  tx_commit : tx -> db -> bool * db;
  db_exec : str -> db -> bool * db;
}.

(** ** Text *)

Definition ascii_alphanumeric (b : byte) : bool :=
  in_range 0x30 0x39 b || in_range 0x41 0x5a b || in_range 0x61 0x7a b.

Definition dquote : byte := Byte.x22.
Definition squote : byte := Byte.x27.

(** [input.replace(q, "qq")] between quotes *)
Definition double (q : byte) (input : str) : str :=
  flat_map (fun c => if decide (c = q) then [q; q] else [c]) input.
Definition quoted (q : byte) (input : str) : str := [q] ++ double q input ++ [q].
Definition quote_identifier (input : str) : str := quoted dquote input.
Definition quote_literal (input : str) : str := quoted squote input.

Fixpoint trim_slashes (s : str) : str :=
  match s with c :: s' => if decide (c = Byte.x2f) then trim_slashes s' else s | [] => [] end.

Definition sanitize_identifier (audience : str) : option str :=
  let sanitized := List.filter (fun c => ascii_alphanumeric c || bool_decide (c ∈ #"_-")) audience in
  if is_empty sanitized then None else Some (to_ascii_lowercase sanitized).

Definition sanitize_application_name (input : str) : option str :=
  let trimmed := trim input in
  if is_empty trimmed then None
  else
    let sanitized := List.filter (fun c => ascii_alphanumeric c || bool_decide (c ∈ #" -_./")) trimmed in
    if is_empty sanitized then None
    else Some (if (63 <? length sanitized)%nat then take 63 sanitized else sanitized).

(** [filter_map] of trimmed, non-empty pieces *)
Definition trimmed_items (items : list str) : list str := omap (fun item => trim_nonempty (Some item)) items.

Definition parse_comma_separated (input : option str) : list str :=
  match input with Some raw => trimmed_items (split_on Byte.x2c raw) | None => [] end.

(** One [key=value] entry of a semicolon-separated list. *)
Definition key_value (entry : str) : option (str * str) :=
  let trimmed := trim entry in
  if is_empty trimmed then None else split_once #"=" trimmed.

Definition parse_key_value_map (input : option str) : gmap str str :=
  match input with
  | Some raw =>
    foldl (fun m entry =>
      match key_value entry with
      | Some (key, value) =>
        if is_empty (trim key) || is_empty (trim value) then m else <[trim key := trim value]> m
      | None => m
      end) ∅ (split_on Byte.x3b raw)
  | None => ∅
  end.

Definition parse_key_value_list_map (input : option str) : gmap str (list str) :=
  match input with
  | Some raw =>
    foldl (fun m entry =>
      match key_value entry with
      | Some (key, values) =>
        let roles := trimmed_items (split_on Byte.x2c values) in
        if is_empty (trim key) || is_empty roles then m else <[trim key := roles]> m
      | None => m
      end) ∅ (split_on Byte.x3b raw)
  | None => ∅
  end.

(** ** Configuration *)

Inductive PgError :=
| CaUnreadable (path : str) | BadUrl | ConnectFailed
| ExporterRequired | TtlZero | TtlUnderflow | SqlFailed | BadUsername | BadPassword.

Record BrokerDatabaseConfig := mkPgConfig {
  admin_url : str;
  pool_max_connections : Z;
  cfg_default_roles : list str;
  cfg_audience_urls : gmap str str;
  cfg_audience_roles : gmap str (list str);
  cfg_ca_certificate_pem : option str;
  cfg_server_cert_fingerprint : option str;
  default_ttl_seconds : Z;
  max_ttl_seconds : Z;
  cleanup_interval_seconds : Z;
}.

(** [num_seconds() as u64] *)
Definition seconds_u64 (d : duration) : Z := (num_seconds d mod 2^64)%Z.

Section PgConfig.
Variable env : str -> option str.
(** [fs::read_to_string] *)
Variable read_file : str -> option str.

(** [.parse().ok().filter(|v| *v > 0)] *)
Definition env_positive (name : str) (limit : Z) : option Z :=
  raw ← env name; n ← parse_unsigned limit raw; if (0 <? n)%Z then Some n else None.

Definition pg_ca_certificate : result PgError (option str) :=
  match env #"SECRET_BROKER_POSTGRES_CA_CERT", env #"SECRET_BROKER_POSTGRES_CA_CERT_PATH" with
  | Some inline, path =>
    if negb (is_empty (trim inline)) then Ok (Some inline)
    else match path with
         | Some path => if is_empty (trim path) then Ok None
                        else let! pem := ok_or (read_file path) (CaUnreadable path) in Ok (Some pem)
         | None => Ok None
         end
  | None, Some path => if is_empty (trim path) then Ok None
                       else let! pem := ok_or (read_file path) (CaUnreadable path) in Ok (Some pem)
  | None, None => Ok None
  end.

Definition pg_config_from_env (max_handle_ttl : duration) : result PgError (option BrokerDatabaseConfig) :=
  match env #"SECRET_BROKER_POSTGRES_ADMIN_URL" with
  | Some admin =>
    if is_empty (trim admin) then Ok None
    else
      let! ca := pg_ca_certificate in
      let limit := seconds_u64 max_handle_ttl in
      let configured := default limit (env_positive #"SECRET_BROKER_POSTGRES_MAX_TTL_SECS" (2^64 - 1)) in
      Ok (Some (mkPgConfig admin
        (default 5%Z (env_positive #"SECRET_BROKER_POSTGRES_POOL_MAX" (2^32 - 1)))
        (parse_comma_separated (env #"SECRET_BROKER_POSTGRES_DEFAULT_ROLES"))
        (parse_key_value_map (env #"SECRET_BROKER_POSTGRES_AUDIENCE_URLS"))
        (parse_key_value_list_map (env #"SECRET_BROKER_POSTGRES_AUDIENCE_ROLES"))
        ca (trim_nonempty (env #"SECRET_BROKER_POSTGRES_SERVER_FINGERPRINT"))
        (default 900%Z (env_positive #"SECRET_BROKER_POSTGRES_DEFAULT_TTL_SECS" (2^64 - 1)))
        (Z.min configured limit)
        (default 300%Z (env_positive #"SECRET_BROKER_POSTGRES_CLEANUP_INTERVAL_SECS" (2^64 - 1)))))
  | None => Ok None
  end.
End PgConfig.

Section Postgres.
Context `{TextCodecs} `{Oracle} `{Urls} `{Passwords} `{PgServer}.
(** The order in which a [HashSet] or [HashMap] is iterated. *)
Variable hash_order : list str -> list str.

Record PostgresLeaseManager := mkManager {
  base_url : url;
  default_roles : list str;
  audience_urls : gmap str url;
  audience_roles : gmap str (list str);
  ca_certificate_pem : option str;
  server_cert_fingerprint : option str;
  default_ttl : duration;
  max_ttl : duration;
}.

(** The broker's process, the leases it remembers and the database. *)
Record PgWorld := mkPgWorld { broker_world : World; issued_leases : gmap str datetime; database : db }.

Abbreviation P := (M PgWorld PgError).
Definition on_world {A} (m : M World PgError A) : P A :=
  zoom broker_world (fun w p => mkPgWorld w (issued_leases p) (database p)) m.

(** Connecting is a parameter of start-up: it succeeded. *)
Definition manager_new (config : BrokerDatabaseConfig) : result PgError PostgresLeaseManager :=
  let! base := ok_or (url_parse (admin_url config)) BadUrl in
  let! urls := collect (fun kv => let! u := ok_or (url_parse kv.2) BadUrl in Ok (kv.1, u))
                 (map_to_list (cfg_audience_urls config)) in
  let! default_ttl := duration_seconds (as_i64 (default_ttl_seconds config)) in
  let! max_ttl := duration_seconds (as_i64 (max_ttl_seconds config)) in
  Ok (mkManager base (cfg_default_roles config) (list_to_map urls) (cfg_audience_roles config)
        (cfg_ca_certificate_pem config) (cfg_server_cert_fingerprint config) default_ttl max_ttl).

Variable manager : PostgresLeaseManager.

(** ** Issuing *)

Definition compute_ttl (requested_ttl : option Z) : result PgError duration :=
  let requested := default (seconds_u64 (default_ttl manager)) requested_ttl in
  let! _ := guard (requested =? 0)%Z TtlZero in
  let ttl := Z.min requested (seconds_u64 (max_ttl manager)) in
  let! _ := guard (ttl =? 0)%Z TtlUnderflow in
  duration_seconds (as_i64 ttl).

Definition username_for (audience : str) (random : bytes) : str :=
  let sanitized := default #"lease" (sanitize_identifier audience) in
  let random := hex_encode random in
  let username := sanitized ++ #"_" ++ take 16 random in
  if (63 <? length username)%nat
  then take (length sanitized - (length username - 63)) sanitized ++ #"_" ++ take 16 random
  else username.

Definition database_name_from_url (u : url) : option str :=
  let path := trim_slashes (url_path u) in if is_empty path then None else Some path.

Definition LEASE_USAGE_SCHEMAS : list str := [ #"gateway_secrets"; #"gateway_data"; #"database_extensions"].
Definition LEASE_RW_SCHEMAS : list str := [ #"gateway_secrets"; #"gateway_data"].

Definition runtime_schema_grant_statements (username : str) : list str :=
  let lease_role := quote_identifier username in
  map (fun schema => #"GRANT USAGE ON SCHEMA " ++ quote_identifier schema ++ #" TO " ++ lease_role)
    LEASE_USAGE_SCHEMAS
  ++ flat_map (fun schema =>
       [ #"GRANT SELECT, INSERT, UPDATE, DELETE ON ALL TABLES IN SCHEMA " ++ quote_identifier schema
           ++ #" TO " ++ lease_role;
         #"GRANT USAGE, SELECT, UPDATE ON ALL SEQUENCES IN SCHEMA " ++ quote_identifier schema
           ++ #" TO " ++ lease_role]) LEASE_RW_SCHEMAS.

Record RoleProvisioning := mkProvisioning {
  p_username : str;
  p_password : str;
  p_valid_until : datetime;
  p_target_url : url;
  p_audience : str;
  p_scopes : list str;
  p_application_name : option str;
}.

Definition create_sql (r : RoleProvisioning) : str :=
  #"CREATE ROLE " ++ quote_identifier (p_username r) ++ #" WITH LOGIN PASSWORD "
  ++ quote_literal (p_password r) ++ #" VALID UNTIL " ++ quote_literal (to_rfc3339 (p_valid_until r)).
Definition connect_sql (r : RoleProvisioning) (db_name : str) : str :=
  #"GRANT CONNECT ON DATABASE " ++ quote_identifier db_name ++ #" TO " ++ quote_identifier (p_username r).
Definition role_sql (r : RoleProvisioning) (role : str) : str :=
  #"GRANT " ++ quote_identifier role ++ #" TO " ++ quote_identifier (p_username r).
Definition application_sql (r : RoleProvisioning) (name : str) : str :=
  #"ALTER ROLE " ++ quote_identifier (p_username r) ++ #" SET application_name = " ++ quote_literal name.

(** The set of roles: the defaults, those of the audience and the scopes. *)
Definition roles_of (r : RoleProvisioning) : list str :=
  hash_order (remove_dups (default_roles manager
    ++ default [] (audience_roles manager !! p_audience r) ++ p_scopes r)).

Definition execute (sql : str) : M tx PgError unit := fun t =>
  let '(ok, t') := tx_exec sql t in (if ok then Ok tt else Err SqlFailed, t').
Fixpoint execute_all (sqls : list str) : M tx PgError unit :=
  match sqls with
  | [] => ret tt
  | sql :: sqls => let* _ := execute sql in execute_all sqls
  end.
(** [if let Err(err) = ... { warn!(...) }] *)
Fixpoint try_all (sqls : list str) : M tx PgError unit :=
  match sqls with
  | [] => ret tt
  | sql :: sqls => fun t => try_all sqls (tx_exec sql t).2
  end.

Definition provision (r : RoleProvisioning) : M tx PgError unit :=
  let* _ := execute (create_sql r) in
  let* _ := match database_name_from_url (p_target_url r) with
            | Some db_name => execute (connect_sql r db_name)
            | None => ret tt
            end in
  let* _ := execute_all (runtime_schema_grant_statements (p_username r)) in
  let* _ := try_all (map (role_sql r) (roles_of r)) in
  match p_application_name r ≫= sanitize_application_name with
  | Some app_name => execute (application_sql r app_name)
  | None => ret tt
  end.

(** A transaction that is dropped is rolled back. *)
Definition in_transaction (body : M tx PgError unit) : P unit := fun p =>
  match tx_begin (database p) with
  | None => (Err SqlFailed, p)
  | Some t =>
    match body t with
    | (Ok _, t') =>
      let '(ok, d) := tx_commit t' (database p) in
      (if ok then Ok tt else Err SqlFailed, mkPgWorld (broker_world p) (issued_leases p) d)
    | (Err e, _) => (Err e, p)
    | (Panic, _) => (Panic, p)
    end
  end.

Definition create_role (r : RoleProvisioning) : P unit := in_transaction (provision r).

Record IssuedCredential := mkCredential {
  database_url : str;
  username : str;
  password : str;
  cred_expires_at : datetime;
  cred_ca_certificate_pem : option str;
  cred_server_cert_fingerprint : option str;
}.

Definition all_zero (b : bytes) : bool := forallb (fun x => (u8 x =? 0)%Z) b.

Definition issue_credentials (audience : str) (scopes : list str) (requested_ttl : option Z)
    (exporter_binding : bytes) (application_name : option str) : P IssuedCredential :=
  let* _ := lift (guard (all_zero exporter_binding) ExporterRequired) in
  let* ttl := lift (compute_ttl requested_ttl) in
  let* now := on_world utc_now in
  let* expires_at := lift (add_duration now ttl) in
  let target_url := default (base_url manager) (audience_urls manager !! audience) in
  let* random := on_world (os_random 8) in
  let username := username_for audience random in
  let* password := on_world (interact (fun t => alphanumeric_at t 48)) in
  let* _ := create_role (mkProvisioning username password expires_at target_url audience scopes
                           application_name) in
  let* lease_url := lift (ok_or (set_username username target_url) BadUsername) in
  let* lease_url := lift (ok_or (set_password password lease_url) BadPassword) in
  let lease_url := match application_name ≫= sanitize_application_name with
                   | Some app_name => append_pair #"application_name" app_name lease_url
                   | None => lease_url
                   end in
  let* _ := (fun p => (Ok tt, mkPgWorld (broker_world p) (<[username := expires_at]> (issued_leases p))
                                (database p))) in
  ret (mkCredential (url_text lease_url) username password expires_at
         (ca_certificate_pem manager) (server_cert_fingerprint manager)).

(** ** Removing expired roles *)

Definition drop_sql (user : str) : str := #"DROP ROLE IF EXISTS " ++ quote_identifier user.

(** [*expiry + Duration::seconds(60) < now] *)
Definition lapsed (now : datetime) (expiry : datetime) : result PgError bool :=
  let! t := add_duration expiry (60 * ns_per_sec)%Z in Ok (t <? now)%Z.
Fixpoint lapsed_users (now : datetime) (leases : list (str * datetime)) : result PgError (list str) :=
  match leases with
  | [] => Ok []
  | (user, expiry) :: leases =>
    let! b := lapsed now expiry in
    let! users := lapsed_users now leases in
    Ok (if b : bool then user :: users else users)
  end.

(** Failures are logged. *)
Definition drop_roles (users : list str) (d : db) : db :=
  foldl (fun d user => (db_exec (drop_sql user) d).2) d users.

Definition cleanup_expired_leases : P unit :=
  let* now := on_world utc_now in
  let* lapsed := (fun p => (lapsed_users now (map_to_list (issued_leases p)), p)) in
  let expired_users := hash_order lapsed in
  if is_empty expired_users then ret tt
  else
    fun p => (Ok tt, mkPgWorld (broker_world p)
                       (foldl (fun m user => base.delete user m) (issued_leases p) expired_users)
                       (drop_roles expired_users (database p))).

(** ** The handler *)

Record PostgresCredentialParams := mkPgParams {
  pc_audience : str;
  pc_scope : list str;
  pc_ttl_seconds : option Z;
  pc_application_name : option str;
}.

Record PostgresCredentialOutcome := mkPgOutcome {
  po_database_url : str;
  po_username : str;
  po_password : str;
  po_expires_at : option datetime;
  po_ca_certificate_pem : option str;
  po_server_cert_fingerprint : option str;
}.

(** [scopes.sort(); scopes.dedup()] *)
Fixpoint insert_scope (scope : str) (scopes : list str) : list str :=
  match scopes with
  | [] => [scope]
  | s :: rest =>
    if decide (scope = s) then scopes
    else if str_ltb scope s then scope :: scopes
    else s :: insert_scope scope rest
  end.
Definition normalized_scopes (scope : list str) : list str := foldr insert_scope [] (trimmed_items scope).

End Postgres.

(** [issue_postgres_credentials_impl] *)
Definition issue_postgres_credentials `{TextCodecs} `{Oracle} `{Urls} `{Passwords} `{PgServer}
    (hash_order : list str -> list str) (manager : option PostgresLeaseManager)
    (context : BrokerClientContext) (params : PostgresCredentialParams)
    : M PgWorld ServiceError.t PostgresCredentialOutcome :=
  let* _ := lift (guard (negb (authenticated_transport context)) ServiceError.UnauthenticatedTransport) in
  let* _ := lift (ok_or (trim_nonempty (principal_id context)) ServiceError.AuthenticatedPrincipalRequired) in
  let* _ := lift (ok_or (peer_cert_sha256 context) (ServiceError.MissingLineage peer_lineage)) in
  let* manager := lift (ok_or manager (ServiceError.Unavailable #"postgres credential issuance disabled")) in
  let audience := trim (pc_audience params) in
  let* _ := lift (guard (is_empty audience) ServiceError.InvalidHandle) in
  let* _ := lift (guard (all_zero (exporter context)) ServiceError.ExporterBindingMismatch) in
  let* lease := map_err_m (fun _ => ServiceError.Database)
    (issue_credentials hash_order manager audience (normalized_scopes (pc_scope params))
       (pc_ttl_seconds params) (exporter context) (pc_application_name params)) in
  ret (mkPgOutcome (database_url lease) (username lease) (password lease) (Some (cred_expires_at lease))
         (cred_ca_certificate_pem lease) (cred_server_cert_fingerprint lease)).

(** * Properties *)

(** ** Quoting

    How SQL reads quotes: a doubled quote inside a quoted token stands for
    one, a single one ends it. *)

Inductive piece := Keyword (text : str) | Identifier (name : str) | Literal (value : str).

Inductive mode := Outside (kw : str) | Inside (q : byte) (acc : str) | Closing (q : byte) (acc : str).

Definition is_quote (c : byte) : bool := bool_decide (c = dquote) || bool_decide (c = squote).
Definition token (q : byte) (acc : str) : piece := if decide (q = dquote) then Identifier acc else Literal acc.
Definition emit (kw : str) : list piece := if is_empty kw then [] else [Keyword kw].

Fixpoint lex (m : mode) (s : str) : option (list piece) :=
  match s with
  | [] =>
    match m with
    | Outside kw => Some (emit kw)
    | Inside _ _ => None
    | Closing q acc => Some [token q acc]
    end
  | c :: s =>
    match m with
    | Outside kw => if is_quote c then (app (emit kw)) <$> lex (Inside c []) s else lex (Outside (kw ++ [c])) s
    | Inside q acc => if decide (c = q) then lex (Closing q acc) s else lex (Inside q (acc ++ [c])) s
    | Closing q acc =>
      if decide (c = q) then lex (Inside q (acc ++ [q])) s
      else if is_quote c then (cons (token q acc)) <$> lex (Inside c []) s
      else (cons (token q acc)) <$> lex (Outside [c]) s
    end
  end.

Definition plain_text (kw : str) : bool := forallb (fun c => negb (is_quote c)) kw.

Lemma lex_keyword kw acc rest : plain_text kw = true -> lex (Outside acc) (kw ++ rest) = lex (Outside (acc ++ kw)) rest.
Proof.
  revert acc. induction kw as [|c kw IH]; intros acc; [by rewrite app_nil_r|]. cbn. intros Hp.
  apply andb_prop in Hp as [Hc Hp]. rewrite (negb_true_iff (is_quote c)) in Hc. rewrite Hc, IH by done.
  by rewrite <- app_assoc.
Qed.

Lemma lex_double q s acc rest : lex (Inside q acc) (double q s ++ q :: rest) = lex (Closing q (acc ++ s)) rest.
Proof.
  revert acc. induction s as [|c s IH]; intros acc; cbn.
  - by rewrite decide_True, app_nil_r by done.
  - destruct (decide (c = q)) as [->|Hne]; cbn.
    + rewrite !decide_True by done. by rewrite IH, <- app_assoc.
    + rewrite decide_False by done. by rewrite IH, <- app_assoc.
Qed.

Lemma is_quote_identifier : is_quote dquote = true. Proof. done. Qed.
Lemma is_quote_literal : is_quote squote = true. Proof. done. Qed.

(** A quoted token followed by a keyword or by the end. *)
Lemma lex_quoted q kw s rest :
  is_quote q = true -> match rest with c :: _ => is_quote c = false | [] => True end ->
  lex (Outside kw) (quoted q s ++ rest)
  = (app (emit kw)) <$> ((cons (token q s)) <$> match rest with [] => Some [] | _ => lex (Outside []) rest end).
Proof.
  intros Hq Hr. unfold quoted. rewrite <- !app_assoc. cbn. rewrite Hq. f_equal.
  rewrite lex_double. cbn. destruct rest as [|c rest]; [done|]. cbn. rewrite decide_False by (intros ->; congruence).
  by rewrite Hr.
Qed.

Lemma lex_then q kw s kw2 rest :
  is_quote q = true -> plain_text kw = true -> kw <> [] -> plain_text kw2 = true -> kw2 <> [] ->
  lex (Outside []) (kw ++ quoted q s ++ kw2 ++ rest)
  = (fun l => Keyword kw :: token q s :: l) <$> lex (Outside []) (kw2 ++ rest).
Proof.
  intros Hq Hk Hne Hk2 Hne2. destruct kw2 as [|c kw2]; [done|]. cbn in Hk2. apply andb_prop in Hk2 as [Hc _].
  apply negb_true_iff in Hc. rewrite lex_keyword, lex_quoted by done. rewrite <- option_fmap_compose.
  destruct kw; [done|]. cbn. rewrite Hc. by destruct (lex _ _).
Qed.

Lemma lex_end q kw s :
  is_quote q = true -> plain_text kw = true -> kw <> [] ->
  lex (Outside []) (kw ++ quoted q s) = Some [Keyword kw; token q s].
Proof.
  intros Hq Hk Hne. rewrite <- (app_nil_r (quoted q s)), lex_keyword, lex_quoted by done. by destruct kw.
Qed.

Section PostgresLaws.
Context `{TextCodecs} `{Oracle} `{Urls} `{Passwords} `{PgServer}.

(** C37: no name, password or role can change the meaning of a statement: read
    by SQL's rules, every statement the broker sends is the intended one with
    the given values in their places, whatever bytes they consist of. *)
Theorem sql_injection_free (r : RoleProvisioning) (role name : str) :
  lex (Outside []) (create_sql r) = Some [Keyword #"CREATE ROLE "; Identifier (p_username r);
    Keyword #" WITH LOGIN PASSWORD "; Literal (p_password r);
    Keyword #" VALID UNTIL "; Literal (to_rfc3339 (p_valid_until r))]
  /\ lex (Outside []) (connect_sql r name) = Some [Keyword #"GRANT CONNECT ON DATABASE "; Identifier name;
       Keyword #" TO "; Identifier (p_username r)]
  /\ lex (Outside []) (role_sql r role) = Some [Keyword #"GRANT "; Identifier role;
       Keyword #" TO "; Identifier (p_username r)]
  /\ lex (Outside []) (application_sql r name) = Some [Keyword #"ALTER ROLE "; Identifier (p_username r);
       Keyword #" SET application_name = "; Literal name]
  /\ lex (Outside []) (drop_sql name) = Some [Keyword #"DROP ROLE IF EXISTS "; Identifier name]
  /\ Forall (fun sql => exists kw schema,
       lex (Outside []) sql = Some [Keyword kw; Identifier schema; Keyword #" TO "; Identifier (p_username r)])
       (runtime_schema_grant_statements (p_username r)).
Proof.
  unfold create_sql, connect_sql, role_sql, application_sql, drop_sql, quote_identifier, quote_literal.
  rewrite !lex_then, !lex_end by done. do 5 (split; [done|]).
  unfold runtime_schema_grant_statements, quote_identifier. cbn [map flat_map app LEASE_USAGE_SCHEMAS LEASE_RW_SCHEMAS].
  repeat constructor; eexists _, _; rewrite lex_then, lex_end by done; reflexivity.
Qed.

(** ** User names *)

Context `{!HexLaws}.

(** Lower-case letters, digits, underscores and hyphens. *)
Definition username_char (b : byte) : bool :=
  in_range 0x30 0x39 b || in_range 0x61 0x7a b || bool_decide (b ∈ #"_-").

Lemma ascii_lower_char c :
  ascii_alphanumeric c || bool_decide (c ∈ #"_-") = true -> username_char (ascii_lower c) = true.
Proof. destruct c; vm_compute; congruence. Qed.

Lemma sanitized_chars audience s :
  sanitize_identifier audience = Some s -> Forall (fun b => username_char b = true) s /\ s <> [].
Proof.
  unfold sanitize_identifier. set (f := List.filter _ _). destruct f as [|c l] eqn:Ef; [done|]. cbn [is_empty].
  intros [= <-]. split; [|done]. apply Forall_forall. intros b Hb. change (b ∈ ascii_lower <$> (c :: l)) in Hb.
  apply list_elem_of_fmap in Hb as (x & -> & Hx). apply ascii_lower_char.
  assert (Hin : In x f) by (rewrite Ef; by apply list_elem_of_In). by apply filter_In in Hin as [_ ?].
Qed.

Lemma sanitized_default audience :
  Forall (fun b => username_char b = true) (default #"lease" (sanitize_identifier audience)).
Proof.
  destruct (sanitize_identifier audience) as [s|] eqn:E; [by apply sanitized_chars in E as [? _]|].
  apply (bool_decide_unpack _). by vm_compute.
Qed.

Lemma hex_username_char d : Forall (fun b => username_char b = true) (hex_encode d).
Proof.
  eapply Forall_impl; [apply hex_lower|]. intros b. cbn. destruct b; vm_compute; congruence.
Qed.

Lemma take_16_hex d : length d = 8 -> take 16 (hex_encode d) = hex_encode d.
Proof. intros Hd. apply take_ge. rewrite hex_length. lia. Qed.

(** The user name of a lease fits Postgres' limit of 63 bytes, so it is
    never cut and the role that is granted, altered and dropped is the one
    created; it has only lower-case letters, digits, hyphens and underscores;
    and names drawn with different random bytes differ, whatever the
    audiences. *)
Theorem lease_usernames audience audience' random random' :
  length random = 8 -> length random' = 8 ->
  length (username_for audience random) <= 63
  /\ Forall (fun b => username_char b = true) (username_for audience random)
  /\ (username_for audience random = username_for audience' random' -> random = random').
Proof.
  intros Hr Hr'.
  assert (Hsplit : forall aud rnd, length rnd = 8 -> exists head,
    username_for aud rnd = head ++ hex_encode rnd /\ length head <= 47
    /\ Forall (fun b => username_char b = true) head).
  { intros aud rnd Hl. unfold username_for. rewrite take_16_hex by done. set (z := default _ _).
    pose proof (sanitized_default aud) as Hz. fold z in Hz.
    assert (H_ : Forall (fun b => username_char b = true) #"_") by (apply (bool_decide_unpack _); by vm_compute).
    rewrite !length_app, hex_length, Hl. change (length #"_") with 1.
    destruct (63 <? length z + (1 + 2 * 8))%nat eqn:E; rewrite app_assoc.
    - apply Nat.ltb_lt in E. eexists. split; [reflexivity|]. rewrite length_app, length_take.
      change (length #"_") with 1. split; [lia|]. apply Forall_app. split; [by apply Forall_take|done].
    - apply Nat.ltb_ge in E. eexists. split; [reflexivity|]. rewrite length_app.
      change (length #"_") with 1. split; [lia|]. by apply Forall_app. }
  destruct (Hsplit audience random Hr) as (h & -> & Hh & Hc).
  destruct (Hsplit audience' random' Hr') as (h' & -> & _ & _).
  split; [rewrite length_app, hex_length; lia|]. split; [apply Forall_app; split; [done|apply hex_username_char]|].
  intros E. apply app_inj_2 in E as [_ E]; [by apply hex_injective|]. rewrite !hex_length. lia.
Qed.

(** ** Lease times *)

Lemma as_i64_small z : (0 <= z < 2^63)%Z -> as_i64 z = z.
Proof. intros Hz. unfold as_i64. rewrite Z.mod_small by lia. by rewrite (proj2 (Z.ltb_lt _ _)) by lia. Qed.

Lemma duration_seconds_ok {E} s d : @duration_seconds E s = Ok d -> d = (s * ns_per_sec)%Z.
Proof. unfold duration_seconds. case_if; [|done]. by intros [= <-]. Qed.

Lemma seconds_u64_div d :
  (0 <= d < 2^63 * ns_per_sec)%Z ->
  seconds_u64 d = (d / ns_per_sec)%Z /\ (0 <= d / ns_per_sec < 2^63)%Z.
Proof.
  intros Hd. unfold seconds_u64, num_seconds. rewrite Z.quot_div_nonneg by (unfold ns_per_sec; lia).
  assert (0 <= d / ns_per_sec < 2^63)%Z.
  { split; [apply Z.div_pos; unfold ns_per_sec; lia|]. apply Z.div_lt_upper_bound; unfold ns_per_sec in *; lia. }
  split; [|done]. apply Z.mod_small. lia.
Qed.

Lemma config_max_ttl env read_file max_handle_ttl config :
  (0 <= max_handle_ttl < 2^63 * ns_per_sec)%Z ->
  pg_config_from_env env read_file max_handle_ttl = Ok (Some config) ->
  (0 <= max_ttl_seconds config <= max_handle_ttl / ns_per_sec)%Z.
Proof.
  intros Hmax Hc. destruct (seconds_u64_div _ Hmax) as [Hlim Hb].
  unfold pg_config_from_env in Hc. destruct (env _) as [admin|]; [|done]. case_if; [done|].
  destruct (pg_ca_certificate _ _); [|done..]. cbn [rbind] in Hc. injection Hc as <-. cbn [max_ttl_seconds].
  rewrite Hlim. split; [|lia]. apply Z.min_glb; [|lia]. unfold env_positive.
  destruct (env #"SECRET_BROKER_POSTGRES_MAX_TTL_SECS") as [raw|]; cbn; [|lia].
  destruct (parse_unsigned _ raw) as [n|]; cbn; [|lia]. destruct (0 <? n)%Z eqn:En; cbn; lia.
Qed.

Lemma manager_max_ttl config manager :
  (0 <= max_ttl_seconds config < 2^63)%Z -> manager_new config = Ok manager ->
  seconds_u64 (max_ttl manager) = max_ttl_seconds config.
Proof.
  intros Hb Hm. unfold manager_new in Hm. destruct (ok_or _ _); [|done..]. cbn [rbind] in Hm.
  destruct (collect _ _); [|done..]. cbn [rbind] in Hm.
  destruct (duration_seconds (as_i64 (default_ttl_seconds config))) eqn:?; [|done..].
  cbn [rbind] in Hm. destruct (duration_seconds (as_i64 (max_ttl_seconds config))) as [d| |] eqn:E; [|done..].
  injection Hm as <-. cbn [max_ttl]. apply duration_seconds_ok in E. rewrite as_i64_small in E by lia. subst d.
  unfold seconds_u64, num_seconds. rewrite Z.quot_mul by (unfold ns_per_sec; lia). apply Z.mod_small. lia.
Qed.

(** C38: a lease lasts at least a second and never longer than the broker's
    limit for handles, whatever the environment configures and whatever the
    caller asks for, as long as that limit is not negative; a request for no
    time at all is refused. *)
Theorem lease_time_bounded env read_file max_handle_ttl config manager requested :
  (0 <= max_handle_ttl < 2^63 * ns_per_sec)%Z ->
  pg_config_from_env env read_file max_handle_ttl = Ok (Some config) ->
  manager_new config = Ok manager -> (forall n, requested = Some n -> (0 <= n)%Z) ->
  (requested = Some 0%Z -> compute_ttl manager requested = Err TtlZero)
  /\ forall d, compute_ttl manager requested = Ok d -> (ns_per_sec <= d <= max_handle_ttl)%Z.
Proof.
  intros Hmax Hc Hm Hreq. destruct (seconds_u64_div _ Hmax) as [_ Hb].
  pose proof (config_max_ttl _ _ _ _ Hmax Hc) as Hmt.
  pose proof (manager_max_ttl config manager ltac:(lia) Hm) as Hs.
  split; [by intros ->|]. intros d Hd. unfold compute_ttl in Hd. rewrite Hs in Hd.
  set (req := default _ requested) in *.
  assert (Hr0 : (0 <= req)%Z).
  { unfold req. destruct requested as [n|]; [by apply Hreq|]. cbn. unfold seconds_u64. apply Z.mod_pos_bound. lia. }
  apply guard_bind_ok in Hd as [H1' Hd]. apply guard_bind_ok in Hd as [H2' Hd].
  apply Z.eqb_neq in H1', H2'. apply duration_seconds_ok in Hd. rewrite as_i64_small in Hd by lia. subst d.
  pose proof (Z.mul_div_le max_handle_ttl ns_per_sec). unfold ns_per_sec in *. split; nia.
Qed.

(** ** The transaction *)

(** What Postgres documents: after an error a transaction accepts no further
    statement, committing it then rolls it back and reports success, and a
    statement that fails changes nothing. *)
Class PgServerLaws := {
  aborted : tx -> Prop;
  exec_fails sql t t' : tx_exec sql t = (false, t') -> aborted t';
  exec_aborted sql t : aborted t -> (tx_exec sql t).1 = false;
  commit_aborted t d : aborted t -> tx_commit t d = (true, d);
  failed_unchanged sql d d' : db_exec sql d = (false, d') -> d' = d;
}.
Context `{!PgServerLaws}.
Variable hash_order : list str -> list str.
Hypothesis hash_order_perm : forall l, hash_order l ≡ₚ l.

Lemma aborted_exec sql t : aborted t -> aborted (tx_exec sql t).2.
Proof.
  intros Ha. pose proof (exec_aborted sql t Ha) as E. destruct (tx_exec sql t) as [ok t'] eqn:Et. cbn in E. subst ok.
  by eapply exec_fails.
Qed.

Lemma try_all_aborts sqls t :
  aborted t \/ Exists (fun sql => forall t, (tx_exec sql t).1 = false) sqls ->
  exists t', try_all sqls t = (Ok tt, t') /\ aborted t'.
Proof.
  revert t. induction sqls as [|sql sqls IH]; intros t Ha; cbn.
  - destruct Ha as [Ha|Ha]; [by exists t|by apply Exists_nil in Ha].
  - apply IH. destruct Ha as [Ha|Ha]; [left; by apply aborted_exec|].
    apply Exists_cons in Ha as [Ha|Ha]; [left|by right].
    specialize (Ha t). destruct (tx_exec sql t) as [ok t'] eqn:E. cbn in *. subst ok. by eapply exec_fails.
Qed.

Lemma provision_aborts manager r scope t t' :
  scope ∈ p_scopes r -> (forall t, (tx_exec (role_sql r scope) t).1 = false) -> p_application_name r = None ->
  provision hash_order manager r t = (Ok tt, t') -> aborted t'.
Proof.
  intros Hin Hfail Happ E. unfold provision in E. rewrite Happ in E.
  do 3 (apply bind_ok in E as (? & ? & _ & E)). apply bind_ok in E as (u & t2 & Htry & E). injection E as <-.
  match goal with Htry : try_all _ ?t1 = _ |- _ => destruct (try_all_aborts (map (role_sql r) (roles_of hash_order manager r)) t1)
    as (t3 & E3 & Ha) end.
  - right. apply Exists_exists. exists (role_sql r scope). split; [|done]. apply list_elem_of_fmap_2.
    unfold roles_of. rewrite hash_order_perm, elem_of_remove_dups. set_solver.
  - congruence.
Qed.

Lemma on_world_same {A} (m : M World PgError A) p r p' :
  on_world m p = (r, p') -> database p' = database p /\ issued_leases p' = issued_leases p.
Proof. unfold on_world, zoom. destruct (m _). by intros [= _ <-]. Qed.

(** A role that cannot be granted makes the broker hand out credentials
    for a role that does not exist.  When a requested scope names such a role
    and no application name is given, whenever issuing succeeds it gives a
    user name, a password and a remembered lease while the database is left as
    it was: the failed grant aborts the transaction, and its error is only
    logged. *)
Theorem phantom_credentials manager audience scopes scope requested exporter_binding p cred p' :
  scope ∈ scopes -> (forall r t, (tx_exec (role_sql r scope) t).1 = false) ->
  issue_credentials hash_order manager audience scopes requested exporter_binding None p = (Ok cred, p') ->
  database p' = database p /\ issued_leases p' !! username cred = Some (cred_expires_at cred).
Proof.
  intros Hin Hfail E. unfold issue_credentials in E. do 2 (apply bind_ok in E as (? & ? & [= _ <-] & E)).
  apply bind_ok in E as (now & p1 & W1 & E). apply bind_ok in E as (expires & ? & [= _ <-] & E).
  apply bind_ok in E as (random & p2 & W2 & E). apply bind_ok in E as (pw & p3 & W3 & E).
  apply on_world_same in W1 as [D1 _], W2 as [D2 _], W3 as [D3 _].
  apply bind_ok in E as (u & p4 & Hc & E). do 2 (apply bind_ok in E as (? & ? & [= _ <-] & E)).
  apply bind_ok in E as (? & ? & [= _ <-] & E). injection E as <- <-. cbn.
  split; [|by rewrite lookup_insert_eq].
  unfold create_role, in_transaction in Hc. destruct (tx_begin (database p3)) as [t|]; [|done].
  destruct (provision _ _ _ t) as [[[]|e|] t'] eqn:Ep; [|done..].
  rewrite commit_aborted in Hc by (eapply (provision_aborts manager _ scope); [|apply Hfail| |exact Ep]; done).
  injection Hc as _ <-. cbn. congruence.
Qed.

(** ** Cleanup *)

Lemma lapsed_users_spec now leases users :
  lapsed_users now leases = Ok users ->
  users = map fst (List.filter (fun kv => (kv.2 + 60 * ns_per_sec <? now)%Z) leases).
Proof.
  revert users. induction leases as [|[user expiry] leases IH]; intros users; cbn; [by intros [= <-]|].
  unfold lapsed, add_duration. case_if; [|done]. cbn [rbind].
  destruct (lapsed_users now leases) as [us| |]; [|done..]. cbn [rbind]. intros [= <-].
  rewrite (IH us eq_refl). by case_if.
Qed.

Lemma foldl_delete (users : list str) (m : gmap str datetime) k :
  foldl (fun m user => base.delete user m) m users !! k = if decide (k ∈ users) then None else m !! k.
Proof.
  revert m. induction users as [|u users IH]; intros m; cbn.
  - by rewrite decide_False by apply not_elem_of_nil.
  - rewrite IH. destruct (decide (k ∈ users)); [by rewrite decide_True by by right|].
    destruct (decide (k = u)) as [->|Hne].
    + rewrite decide_True by by left. by rewrite lookup_delete_eq.
    + rewrite decide_False by (rewrite elem_of_cons; naive_solver). by rewrite lookup_delete_ne by done.
Qed.

Lemma drop_roles_refused users d :
  (forall user d, (db_exec (drop_sql user) d).1 = false) -> drop_roles users d = d.
Proof.
  intros Hf. unfold drop_roles. revert d. induction users as [|u users IH]; intros d; cbn; [done|].
  specialize (Hf u d). destruct (db_exec (drop_sql u) d) as [ok d'] eqn:E. cbn in *. subst ok.
  rewrite (failed_unchanged _ _ _ E). apply IH.
Qed.

(** Cleaning up forgets exactly the leases that ended more than a minute
    ago, and it forgets them whether or not their roles could be dropped: with
    a server that refuses to drop a role, as Postgres does for roles that hold
    privileges, the roles stay in the database and no later cleanup tries
    again. *)
Theorem cleanup_forgets p p' :
  cleanup_expired_leases hash_order p = (Ok tt, p') ->
  (forall user, issued_leases p' !! user =
     match issued_leases p !! user with
     | Some expiry => if (expiry + 60 * ns_per_sec <? time_at (tick (broker_world p)))%Z then None else Some expiry
     | None => None
     end)
  /\ ((forall user d, (db_exec (drop_sql user) d).1 = false) -> database p' = database p).
Proof.
  intros E. unfold cleanup_expired_leases in E. apply bind_ok in E as (now & p1 & W & E).
  pose proof (on_world_same _ _ _ _ W) as [D1 L1]. injection W as <- <-.
  apply bind_ok in E as (us & ? & Hu & E). injection Hu as Hu <-. apply lapsed_users_spec in Hu. cbn in D1, L1, Hu.
  set (users := hash_order us) in *.
  assert (Hk : forall user, user ∈ users <-> exists e, issued_leases p !! user = Some e
             /\ (e + 60 * ns_per_sec <? time_at (tick (broker_world p)))%Z = true).
  { intros user. unfold users. rewrite hash_order_perm, Hu, list_elem_of_In, in_map_iff. split.
    - intros ([k e] & <- & Hf). apply filter_In in Hf as [Hf He]. exists e.
      by rewrite <- elem_of_map_to_list, list_elem_of_In.
    - intros (e & He & Ht). exists (user, e). split; [done|]. apply filter_In. split; [|done].
      by rewrite <- list_elem_of_In, elem_of_map_to_list. }
  assert (Hl : forall user, foldl (fun m user => base.delete user m) (issued_leases p) users !! user =
     match issued_leases p !! user with
     | Some expiry => if (expiry + 60 * ns_per_sec <? time_at (tick (broker_world p)))%Z then None else Some expiry
     | None => None
     end).
  { intros user. rewrite foldl_delete. destruct (decide (user ∈ users)) as [Hin|Hin].
    - apply Hk in Hin as (e & -> & ->). done.
    - destruct (issued_leases p !! user) as [e|] eqn:Ee; [|done]. destruct (e + _ <? _)%Z eqn:Et; [|done].
      destruct Hin. apply Hk. by exists e. }
  destruct (is_empty users) eqn:He.
  - injection E as <-. cbn. split; [|done]. intros user. rewrite <- Hl. by destruct users.
  - injection E as <-. cbn. split; [exact Hl|]. apply drop_roles_refused.
Qed.

End PostgresLaws.

(** * The theorems on a concrete server *)

Module PostgresExamples.
Import Reference ToyWorld.

#[export] Instance toy_urls : Urls := {
  url := str; url_parse u := Some u; url_path u := u; set_username _ u := Some u;
  set_password _ u := Some u; append_pair _ _ u := u; url_text u := u }.
#[export] Instance toy_passwords : Passwords := fun t n => hex (le_bytes (n / 2) (Z.of_nat t)).

(** A server that has no role "ghost" and drops no role. *)
Definition ghost_grant : str := #"GRANT " ++ quote_identifier #"ghost".
#[export] Instance toy_server : PgServer := {
  db := list str;
  tx := option (list str);
  tx_begin d := Some (Some d);
  tx_exec sql t :=
    match t with
    | Some l => if starts_with ghost_grant sql then (false, None) else (true, Some (sql :: l))
    | None => (false, None)
    end;
  tx_commit t d := (true, default d t);
  db_exec _ d := (false, d) }.
#[export] Instance toy_server_laws : PgServerLaws.
Proof.
  refine {| aborted t := t = None |}.
  - intros sql [l|] t'; cbn; [|by intros [= <-]]. case_if; [by intros [= <-]|done].
  - by intros sql t ->.
  - by intros t d ->.
  - by intros sql d d' [= <-].
Qed.
Definition in_order (l : list str) : list str := l.
Definition pg_env (name : str) : option str :=
  if str_eqb name #"SECRET_BROKER_POSTGRES_ADMIN_URL" then Some #"postgres://db/app" else None.
Definition manager0 : PostgresLeaseManager :=
  mkManager #"app" [] ∅ ∅ None None (900 * 10^9)%Z (3600 * 10^9)%Z.
Definition pg_world0 : PgWorld := mkPgWorld empty_world ∅ [].

Lemma lease_usernames_witness :
  length (username_for #"Billing Service" (le_bytes 8 7)) <= 63.
Proof.
  exact (proj1 (lease_usernames #"Billing Service" [] (le_bytes 8 7) (le_bytes 8 7) eq_refl eq_refl)).
Defined.

Lemma lease_time_bounded_witness : exists config manager d,
  pg_config_from_env pg_env (fun _ => None) (3600 * 10^9)%Z = Ok (Some config)
  /\ manager_new config = Ok manager /\ compute_ttl manager (Some 1000000%Z) = Ok d
  /\ (ns_per_sec <= d <= 3600 * 10^9)%Z.
Proof.
  eexists _, _, _. split; [reflexivity|]. split; [reflexivity|]. split; [reflexivity|].
  eapply (lease_time_bounded pg_env (fun _ => None) (3600 * 10^9) _ _ (Some 1000000%Z)).
  - unfold ns_per_sec. lia.
  - reflexivity.
  - reflexivity.
  - intros n [= <-]. lia.
  - reflexivity.
Defined.

Lemma phantom_credentials_witness : exists cred p,
  issue_credentials in_order manager0 #"app" [ #"ghost"] None [Byte.x01] None pg_world0 = (Ok cred, p)
  /\ database p = [] /\ issued_leases p !! username cred = Some (cred_expires_at cred).
Proof.
  eexists _, _. split; [vm_compute; reflexivity|].
  eapply (phantom_credentials in_order (fun l => Permutation_refl l) manager0 #"app" [ #"ghost"] #"ghost" None
    [Byte.x01] pg_world0).
  - by left.
  - by intros r [l|].
  - vm_compute. reflexivity.
Defined.

Definition stale : PgWorld := mkPgWorld empty_world {[ #"app_1" := 0%Z]} [ #"app_1"].

Lemma cleanup_forgets_witness : exists p,
  cleanup_expired_leases in_order stale = (Ok tt, p) /\ issued_leases p !! #"app_1" = None /\ database p = [ #"app_1"].
Proof.
  assert (E : cleanup_expired_leases in_order stale
              = (Ok tt, mkPgWorld (advance empty_world) ∅ [ #"app_1"])) by (vm_compute; reflexivity).
  destruct (cleanup_forgets in_order (fun l => Permutation_refl l) stale _ E) as [Hl Hd].
  eexists. split; [exact E|]. split; [reflexivity|]. apply Hd. reflexivity.
Defined.

End PostgresExamples.
