(* ===== verification/Custody.v ===== *)
(** Threshold custody (handlers.rs): custodians claim the shares the broker
    holds for them, acknowledge shares, and combine shares to unwrap. *)

From S2P Require Import Prelude RustStd Externals Reference Macaroon MacaroonWire Threshold.
From S2P Require Import Transparency World SealedStore Config CryptoEngine Broker Issue Unwrap.

(** These handlers return [anyhow] errors. *)
Inductive CustodyError :=
| HandleRequired
| CustodianRequired
| PrincipalRequired
| NotTheCustodian (custodian actual : str)
| ShareIndexRange
| BadHandle (e : ServiceError.t)
| LoadFailed (e : StoreError)
| IdentityFailed (e : ServiceError.t)
| ClaimFailed (e : StoreError)
| ShareIndexMismatch (x : byte) (index : Z)
| SharesRequired
| SealedHandleNotFound
| CustodianCount (custodians shares : nat)
| CustodiansNotDistinct (unique shares : nat)
| EmptyCustodian
| NoAssignments
| NoHeld
| TooFewShares (threshold : Z) (got : nat)
| NotAssigned (custodian : str)
| NotClaimed (custodian : str)
| ShareRepeated (index : byte)
| WrongShareIndex (custodian : str) (expected got : byte)
| HeldShareMissing (index : byte)
| HeldShareEncoding
| ShareDataMismatch (custodian : str)
| UnwrapFailed (e : ServiceError.t)
| PlaintextEncoding.

Abbreviation HC := (M World CustodyError) (only parsing).

Record ClaimShareRequest := mkClaimReq { cl_handle : str; cl_custodian_id : str }.
Record ClaimShareResponse := mkClaimOut {
  co_x : byte;
  co_y : bytes;
  co_commitments : list bytes;
  co_previously_claimed : bool;
}.

Record DistributeShareRequest := mkDistributeReq {
  ds_handle : str;
  ds_share_index : Z;
  ds_share : Share;
  ds_custodian_id : str;
}.
Record DistributeShareResponse := mkDistributeOut { accepted : bool; ack_token : str }.

Record CombineSharesRequest := mkCombineReq {
  cb_handle : str;
  cb_shares : list Share;
  cb_tenant_id : option str;
  cb_provider : option str;
  cb_custodian_ids : list str;
}.
Record CombineSharesResponse := mkCombineOut { cb_plaintext : bytes }.

Section Custody.
Context `{TextCodecs} `{Hashes} `{JsonText} `{Aead} `{PqCrypto} `{Oracle} `{P256}.
Context `{!Serde KyberKeyPair} `{!Serde DilithiumKeyPair} `{!Serde KeyRecord}.
Context `{!Serde StoredEnvelopeRecord} `{!Serde EncryptedRecord} `{!Serde SecretEnvelope}.
Context `{!Serde (list Share)}.
Variable state : BrokerState.

Abbreviation cipher := (sealed_store state).

(** The caller must be the custodian it names. *)
Definition custodian_caller (context : BrokerClientContext) (handle custodian_id : str)
    : result CustodyError unit :=
  let! _ := guard (is_empty handle) HandleRequired in
  let! _ := guard (is_empty custodian_id) CustodianRequired in
  let! actual_principal := ok_or (trim_nonempty (principal_id context)) PrincipalRequired in
  guard (negb (str_eqb actual_principal custodian_id)) (NotTheCustodian custodian_id actual_principal).

(** Load the record, if there is one, and check the caller's lineage. *)
Definition custody_lineage (context : BrokerClientContext) (handle_id : uuid) : HC unit :=
  let* found := map_err_m LoadFailed (load cipher handle_id) in
  lift (match found with
        | Some r => map_err IdentityFailed (validate_threshold_custody_record_requirements r context)
        | None => Ok tt
        end).

(** An event is recorded; the handler's error type does not matter. *)
Definition log_event (event : TransparencyEvent) : HC unit :=
  map_err_m UnwrapFailed (record_transparency event).

Definition claim_meta (context : BrokerClientContext) (custodian_id : str) (c : ClaimResult)
    : list (str * json) :=
  let m := obj_insert #"type" (JString #"claim_share") [] in
  let m := obj_insert #"custodian_id" (JString custodian_id) m in
  let m := obj_insert #"share_index" (json_u64 (u8 (c_x c))) m in
  let m := obj_insert #"previously_claimed" (JBool (c_previously_claimed c)) m in
  append_context_transparency_meta context m.

Definition claim_share (context : BrokerClientContext) (req : ClaimShareRequest)
    : HC ClaimShareResponse :=
  let* _ := lift (custodian_caller context (cl_handle req) (cl_custodian_id req)) in
  let* handle_id := lift (map_err BadHandle (parse_handle_identifier state (cl_handle req))) in
  let* _ := custody_lineage context handle_id in
  let* result := map_err_m ClaimFailed (claim_custodian_share cipher handle_id (cl_custodian_id req)) in
  let* now := utc_now in
  let* _ := log_event (with_caller
    (ev_wrap now (cl_handle req) #"threshold-share-claim" (cl_custodian_id req)
       (Some (JObject (claim_meta context (cl_custodian_id req) result)))) (caller context)) in
  ret (mkClaimOut (c_x result) (c_y result) (c_commitments result) (c_previously_claimed result)).

Definition share_ack (req : DistributeShareRequest) : str :=
  b64_encode (hmac_sha256 (handle_hmac_key state)
    (#"share-ack-v1:" ++ ds_handle req ++ #":" ++ ds_custodian_id req ++ #":"
     ++ le_bytes 4 (ds_share_index req) ++ #":" ++ share_y (ds_share req))).

Definition distribute_meta (context : BrokerClientContext) (req : DistributeShareRequest)
    : list (str * json) :=
  let m := obj_insert #"type" (JString #"distribute_share") [] in
  let m := obj_insert #"share_index" (json_u64 (ds_share_index req)) m in
  let m := obj_insert #"custodian_id" (JString (ds_custodian_id req)) m in
  append_context_transparency_meta context m.

Definition distribute_share (context : BrokerClientContext) (req : DistributeShareRequest)
    : HC DistributeShareResponse :=
  let* _ := lift (custodian_caller context (ds_handle req) (ds_custodian_id req)) in
  let* _ := lift (guard ((ds_share_index req =? 0)%Z || (255 <? ds_share_index req)%Z)
                    ShareIndexRange) in
  let* handle_id := lift (map_err BadHandle (parse_handle_identifier state (ds_handle req))) in
  let* _ := custody_lineage context handle_id in
  let* _ := lift (guard (negb (bool_decide (share_x (ds_share req) = to_u8 (ds_share_index req))))
                    (ShareIndexMismatch (share_x (ds_share req)) (ds_share_index req))) in
  let ack := share_ack req in
  let* now := utc_now in
  let* _ := log_event (with_caller
    (ev_wrap now (ds_handle req) #"threshold-share" (ds_custodian_id req)
       (Some (JObject (distribute_meta context req)))) (caller context)) in
  ret (mkDistributeOut true ack).

(** ** Combining shares *)

(** One custodian's share, given the indices seen before. *)
Definition check_custodian_share (assignments : list ShareAssignment) (held : list HeldShare)
    (seen : list byte) (custodian_id : str) (share : Share) : result CustodyError (list byte) :=
  let! assignment := ok_or (find_assignment custodian_id assignments) (NotAssigned custodian_id) in
  let index := a_share_index assignment in
  let! _ := guard (negb (a_claimed assignment)) (NotClaimed custodian_id) in
  let! _ := guard (bool_decide (index ∈ seen)) (ShareRepeated index) in
  let! _ := guard (negb (bool_decide (share_x share = index)))
              (WrongShareIndex custodian_id index (share_x share)) in
  let! held_share := ok_or (find_held index held) (HeldShareMissing index) in
  let! expected_y := ok_or (b64_decode (h_y_b64 held_share)) HeldShareEncoding in
  let! _ := guard (negb (str_eqb (share_y share) expected_y)) (ShareDataMismatch custodian_id) in
  Ok (index :: seen).

(** The loop over custodians and shares; every share that passes is kept. *)
Fixpoint check_custodian_shares (assignments : list ShareAssignment) (held : list HeldShare)
    (seen : list byte) (pairs : list (str * Share)) : result CustodyError (list Share) :=
  match pairs with
  | [] => Ok []
  | (custodian_id, share) :: pairs =>
    let! seen := check_custodian_share assignments held seen custodian_id share in
    let! rest := check_custodian_shares assignments held seen pairs in
    Ok (share :: rest)
  end.

Definition validate_combine_shares_custody (r : StoredEnvelopeRecord) (req : CombineSharesRequest)
    : result CustodyError (list Share) :=
  let n := length (cb_shares req) in
  let ids := cb_custodian_ids req in
  let! _ := guard (negb (length ids =? n)%nat) (CustodianCount (length ids) n) in
  let unique := length (remove_dups ids) in
  let! _ := guard (negb (unique =? n)%nat) (CustodiansNotDistinct unique n) in
  let! _ := guard (existsb (fun id => is_empty (trim id)) ids) EmptyCustodian in
  let! assignments := ok_or (r_share_assignments r) NoAssignments in
  let! held := ok_or (r_held_shares r) NoHeld in
  let! _ := (match r_threshold r with
             | Some threshold => guard (Z.of_nat n <? threshold)%Z (TooFewShares threshold n)
             | None => Ok tt
             end) in
  check_custodian_shares assignments held [] (zip ids (cb_shares req)).

Definition combine_meta (context : BrokerClientContext) (r : StoredEnvelopeRecord)
    (req : CombineSharesRequest) (validated : list Share) : list (str * json) :=
  let m := obj_insert #"custodians" (JArray (map JString (cb_custodian_ids req))) [] in
  let m := obj_insert #"share_indices" (JArray (map (fun s => json_u64 (u8 (share_x s))) validated)) m in
  let m := obj_insert #"share_count" (json_u64 (Z.of_nat (length validated))) m in
  let m := obj_insert_opt #"threshold" json_u64 (r_threshold r) m in
  append_context_transparency_meta context m.

Definition combine_shares (context : BrokerClientContext) (req : CombineSharesRequest)
    : HC CombineSharesResponse :=
  let* _ := lift (guard (is_empty (cb_handle req)) HandleRequired) in
  let* _ := lift (guard (is_empty (cb_shares req)) SharesRequired) in
  let* handle_id := lift (map_err BadHandle (parse_handle_identifier state (cb_handle req))) in
  let* found := map_err_m LoadFailed (load cipher handle_id) in
  let* r := lift (ok_or found SealedHandleNotFound) in
  let* validated_shares := lift (validate_combine_shares_custody r req) in
  let redeem_token := to_vec validated_shares in
  let* result := map_err_m UnwrapFailed (unwrap_secret_v2 state context
    (mkUnwrapReq (cb_handle req) redeem_token (cb_tenant_id req) (cb_provider req) None None [])) in
  let* plaintext_bytes := lift (ok_or (b64_decode (plaintext result)) PlaintextEncoding) in
  let* now := utc_now in
  let* _ := log_event (with_caller
    (ev_unwrap now (cb_handle req) None #"threshold-recovery"
       (Some (JObject (combine_meta context r req validated_shares)))) (caller context)) in
  ret (mkCombineOut plaintext_bytes).

End Custody.

(** * Properties *)

Lemma length_remove_dups_le (l : list str) : length (remove_dups l) <= length l.
Proof. induction l as [|x l IH]; cbn; [done|]. case_decide; cbn; lia. Qed.

Lemma remove_dups_length (l : list str) : length (remove_dups l) = length l <-> NoDup l.
Proof.
  induction l as [|x l IH]; [by split; [constructor|]|]. cbn. rewrite NoDup_cons.
  pose proof (length_remove_dups_le l). case_decide; cbn.
  - split; [lia|]. by intros [? _].
  - rewrite <- IH. split; [intros ?; split; [done|lia]|]. intros [_ ?]. lia.
Qed.

Section CustodyLaws.
Context `{TextCodecsLaws} `{HashesLaws} `{JsonText} `{AeadLaws} `{PqCryptoLaws} `{OracleLaws} `{P256}.
Context `{!Serde KyberKeyPair} `{!Serde DilithiumKeyPair} `{!Serde KeyRecord}.
Context `{!Serde StoredEnvelopeRecord} `{!Serde EncryptedRecord} `{!Serde SecretEnvelope}.
Context `{!Serde (list Share)}.
Context `{!SerdeLaws StoredEnvelopeRecord record_ok} `{!SerdeLaws EncryptedRecord (fun _ => True)}.
Variable state : BrokerState.

Abbreviation cipher := (sealed_store state).

(** The custodian was assigned this share, has claimed it, and the share is
    the one the broker holds. *)
Definition custodian_holds (assignments : list ShareAssignment) (held : list HeldShare)
    (custodian_id : str) (share : Share) : Prop :=
  exists a hs, find_assignment custodian_id assignments = Some a /\ a_claimed a = true
    /\ share_x share = a_share_index a /\ find_held (share_x share) held = Some hs
    /\ b64_decode (h_y_b64 hs) = Some (share_y share).

Lemma check_custodian_share_ok assignments held seen cid share seen' :
  check_custodian_share assignments held seen cid share = Ok seen' <->
  custodian_holds assignments held cid share /\ ~ (share_x share ∈ seen) /\ seen' = share_x share :: seen.
Proof.
  unfold check_custodian_share, custodian_holds.
  destruct (find_assignment cid assignments) as [a|]; cbn [ok_or rbind]; [|naive_solver].
  rewrite !guard_bind_ok, negb_false_iff, bool_decide_eq_false, negb_false_iff, bool_decide_eq_true.
  destruct (find_held (a_share_index a) held) as [hs|] eqn:Eh; cbn [ok_or rbind].
  2: { split; [naive_solver|]. intros [(a' & hs & [= <-] & _ & Hx & Hf & _) _]. congruence. }
  destruct (b64_decode (h_y_b64 hs)) as [y|] eqn:Ey; cbn [ok_or rbind].
  2: { split; [naive_solver|]. intros [(a' & hs' & [= <-] & _ & Hx & Hf & Hy) _]. congruence. }
  rewrite guard_bind_ok, negb_false_iff, str_eqb_eq. split.
  - intros (Hc & Hs & Hx & Hy & [= <-]). rewrite Hx. split; [|by split].
    exists a, hs. rewrite Hy. by repeat split.
  - intros [(a' & hs' & [= <-] & Hc & Hx & Hf & Hy) [Hs ->]]. rewrite Hx in *. repeat split; try done. congruence.
Qed.

Lemma check_custodian_shares_ok assignments held seen pairs out :
  check_custodian_shares assignments held seen pairs = Ok out <->
  out = map snd pairs /\ Forall (fun p => custodian_holds assignments held p.1 p.2) pairs
  /\ NoDup (map (fun p => share_x p.2) pairs)
  /\ Forall (fun p => share_x p.2 ∉ seen) pairs.
Proof.
  revert seen out. induction pairs as [|[cid share] pairs IH]; intros seen out; cbn [check_custodian_shares map].
  - split; [intros [= <-]; repeat constructor|by intros [-> _]].
  - rewrite rbind_ok. setoid_rewrite check_custodian_share_ok. setoid_rewrite rbind_ok. setoid_rewrite IH.
    rewrite !Forall_cons, NoDup_cons. cbn [fst snd]. split.
    + intros (seen' & (Hh & Hs & ->) & rest & (-> & HF & HN & HS) & [= <-]).
      split; [done|]. split; [done|]. split; [|split; [done|]].
      * split; [|done]. rewrite list_elem_of_fmap. intros (p & Hx & Hp).
        rewrite Forall_forall in HS. apply (HS p Hp). rewrite <- Hx. constructor.
      * eapply Forall_impl; [exact HS|]. intros p Hp. cbn in Hp. by apply not_elem_of_cons in Hp as [_ ?].
    + intros (-> & [Hh HF] & [Hnew HN] & [Hs HS]). exists (share_x share :: seen).
      split; [done|]. exists (map snd pairs). split; [|done]. split; [done|]. split; [done|]. split; [done|].
      rewrite Forall_forall in HS |- *. intros p Hp. apply not_elem_of_cons. split; [|by apply HS].
      intros Hx. apply Hnew. rewrite list_elem_of_fmap. by exists p.
Qed.

(** The declared policy for combining shares. *)
Definition combine_policy (r : StoredEnvelopeRecord) (ids : list str) (shares : list Share) : Prop :=
  exists assignments held,
    r_share_assignments r = Some assignments /\ r_held_shares r = Some held
    /\ Forall2 (custodian_holds assignments held) ids shares
    /\ NoDup ids /\ NoDup (map share_x shares)
    /\ Forall (fun id => trim id <> []) ids
    /\ (forall k, r_threshold r = Some k -> (k <= Z.of_nat (length shares))%Z).

Lemma Forall_zip {A B} (P : A -> B -> Prop) l k :
  length l = length k -> Forall (fun p => P p.1 p.2) (zip l k) <-> Forall2 P l k.
Proof.
  revert k. induction l as [|a l IH]; intros [|b k] Hl; try done.
  cbn [zip zip_with]. rewrite Forall_cons, Forall2_cons. injection Hl as Hl. by rewrite (IH k Hl).
Qed.

(** C19: the checks on the shares and custodians presented for a recovery
    accept exactly the policy: as many distinct, non-blank custodians as
    shares, each assigned its share, having claimed it and presenting the
    bytes the broker holds, no share twice, and at least the threshold; and
    what is passed on are exactly the presented shares. *)
Theorem combine_checks_policy r req out :
  validate_combine_shares_custody r req = Ok out <->
  out = cb_shares req /\ combine_policy r (cb_custodian_ids req) (cb_shares req).
Proof.
  unfold validate_combine_shares_custody, combine_policy.
  set (ids := cb_custodian_ids req). set (sh := cb_shares req).
  rewrite !guard_bind_ok, !negb_false_iff, !Nat.eqb_eq.
  assert (HB : existsb (fun id => is_empty (trim id)) ids = false <-> Forall (fun id => trim id <> []) ids).
  { rewrite <- not_true_iff_false, existsb_exists, Forall_forall. setoid_rewrite list_elem_of_In.
    split.
    - intros Hn id Hid Ht. apply Hn. exists id. by rewrite Ht.
    - intros Hn (id & Hid & Ht). apply (Hn id Hid). by destruct (trim id). }
  rewrite HB. destruct (r_share_assignments r) as [asg|]; cbn [ok_or rbind]; [|naive_solver].
  destruct (r_held_shares r) as [held|]; cbn [ok_or rbind]; [|naive_solver].
  rewrite rbind_ok. setoid_rewrite check_custodian_shares_ok. split.
  - intros (Hl & Hu & Hb & [] & Hk & -> & HF & HN & _). assert (map snd (zip ids sh) = sh) as Hz by (apply snd_zip; lia).
    split; [done|]. exists asg, held. split; [done|]. split; [done|].
    split; [by apply Forall_zip|]. split; [by apply remove_dups_length; lia|].
    split; [by rewrite <- Hz, map_map|]. split; [done|]. intros k Hk'. rewrite Hk' in Hk.
    apply guard_ok in Hk. by bool_to_prop.
  - intros (-> & a & h & [= <-] & [= <-] & HF & HNi & HNx & Hb & Hk).
    pose proof (Forall2_length _ _ _ HF) as Hl. assert (map snd (zip ids sh) = sh) as Hz by (apply snd_zip; lia).
    split; [done|]. split; [rewrite <- Hl; by apply remove_dups_length|]. split; [done|]. exists tt. split.
    + destruct (r_threshold r) as [k|]; [|done]. apply guard_ok, Z.ltb_ge. by apply Hk.
    + split; [done|]. split; [by apply Forall_zip|]. split; [by rewrite <- map_map, Hz|].
      apply Forall_true. intros. apply not_elem_of_nil.
Qed.

End CustodyLaws.
