(* ===== verification/Evolution.v ===== *)
(** How the stored secrets evolve: a relation between the states before and
    after a piece of broker code, which every store operation, the crypto
    engine and the issuing of secrets respect.  It says that the store stays
    readable, that handles are never reused, that records only move forward
    in their life cycle and that the key of an envelope is never replaced. *)

From S2P Require Import Prelude RustStd Externals Reference Macaroon MacaroonWire Threshold.
From S2P Require Import Transparency World SealedStore Config CryptoEngine Broker Issue.

(** Version 4 UUIDs do not repeat, nor do their printed forms, in the first
    [horizon] interactions of the process with its environment. *)
Class FreshUuids `{TextCodecs} `{Oracle} (horizon : nat) : Prop :=
  uuid_fresh t t' : t < horizon -> t' < horizon ->
    uuid_to_string (uuid_at t) = uuid_to_string (uuid_at t') -> t = t'.

Section Evolution.
Context `{TextCodecsLaws} `{HashesLaws} `{JsonText} `{AeadLaws} `{PqCryptoLaws} `{OracleLaws}.
Context `{!Serde KyberKeyPair} `{!Serde DilithiumKeyPair} `{!Serde KeyRecord}.
Context `{!Serde StoredEnvelopeRecord} `{!Serde EncryptedRecord} `{!Serde SecretEnvelope}.
Context `{!SerdeLaws StoredEnvelopeRecord record_ok} `{!SerdeLaws EncryptedRecord (fun _ => True)}.
Context (horizon : nat) `{!FreshUuids horizon}.
Variable state : BrokerState.

Abbreviation cipher := (sealed_store state).

(** The store is readable and holds only handles that were handed out. *)
Record sys_inv (w : World) : Prop := {
  inv_store : store_inv cipher w;
  inv_issued : forall h v, envelopes w !! h = Some v -> exists t, t < tick w /\ uuid_at t = h;
}.

(** What happened to the handles and envelope keys of the first [n] steps. *)
Record old_kept (n : nat) (w w' : World) : Prop := {
  kept_keys t : t < n ->
    kyber_keys w' !! uuid_to_string (uuid_at t) = kyber_keys w !! uuid_to_string (uuid_at t);
  kept_records t r' : t < n -> records cipher w' !! uuid_at t = Some r' ->
    exists r, records cipher w !! uuid_at t = Some r /\ later r r';
}.

Lemma old_kept_refl n w : old_kept n w w.
Proof. split; [done|]. intros t r _ Hr. exists r. split; [done|apply later_refl]. Qed.
Lemma old_kept_trans n w1 w2 w3 : old_kept n w1 w2 -> old_kept n w2 w3 -> old_kept n w1 w3.
Proof.
  intros [K1 R1] [K2 R2]. split.
  - intros t Ht. by rewrite K2, K1.
  - intros t r3 Ht Hr3. destruct (R2 t r3 Ht Hr3) as (r2 & Hr2 & L2).
    destruct (R1 t r2 Ht Hr2) as (r1 & Hr1 & L1). exists r1. split; [done|by eapply later_trans].
Qed.
Lemma old_kept_less n k w w' : n <= k -> old_kept k w w' -> old_kept n w w'.
Proof. intros Hk [K R]. split; intros; [apply K|eapply R]; eauto; lia. Qed.

(** Nothing happened to them. *)
Record old_same (n : nat) (w w' : World) : Prop := {
  same_keys t : t < n ->
    kyber_keys w' !! uuid_to_string (uuid_at t) = kyber_keys w !! uuid_to_string (uuid_at t);
  same_records t : t < n -> records cipher w' !! uuid_at t = records cipher w !! uuid_at t;
}.

Lemma old_same_refl n w : old_same n w w.
Proof. done. Qed.
Lemma old_same_trans n w1 w2 w3 : old_same n w1 w2 -> old_same n w2 w3 -> old_same n w1 w3.
Proof. intros [K1 R1] [K2 R2]. split; intros t Ht; [by rewrite K2, K1|by rewrite R2, R1]. Qed.
Lemma old_same_less n k w w' : n <= k -> old_same k w w' -> old_same n w w'.
Proof. intros Hk [K R]. split; intros; [apply K|apply R]; lia. Qed.
Lemma old_same_kept n w w' : old_same n w w' -> old_kept n w w'.
Proof.
  intros [K R]. split; [done|]. intros t r' Ht. rewrite R by done. intros Hr.
  exists r'. split; [done|apply later_refl].
Qed.

(** Code that runs after step [m] and may create the handle and the envelope
    key of the steps from [n] on. *)
Definition preserves_from (n m : nat) (w w' : World) : Prop :=
  tick w <= tick w' /\
  (m <= tick w -> tick w' <= horizon -> sys_inv w -> sys_inv w' /\ old_same n w w').

(** Code that at most creates records. *)
Definition preserves (w w' : World) : Prop :=
  tick w <= tick w' /\
  (tick w' <= horizon -> sys_inv w -> sys_inv w' /\ old_same (tick w) w w').

(** Any code of the broker. *)
Definition evolves (w w' : World) : Prop :=
  tick w <= tick w' /\
  (tick w' <= horizon -> sys_inv w -> sys_inv w' /\ old_kept (tick w) w w').

#[export] Instance preserves_from_preorder n m : PreOrder (preserves_from n m).
Proof.
  split.
  - intros w. split; [done|]. intros _ _ Hi. split; [done|apply old_same_refl].
  - intros w1 w2 w3 [T1 S1] [T2 S2]. split; [lia|]. intros Hm Hh Hi.
    destruct S1 as [I2 K1]; [lia..|done|]. destruct S2 as [I3 K2]; [lia..|done|].
    split; [done|by eapply old_same_trans].
Qed.
#[export] Instance preserves_preorder : PreOrder preserves.
Proof.
  split.
  - intros w. split; [done|]. intros _ Hi. split; [done|apply old_same_refl].
  - intros w1 w2 w3 [T1 S1] [T2 S2]. split; [lia|]. intros Hh Hi.
    destruct S1 as [I2 K1]; [lia|done|]. destruct S2 as [I3 K2]; [lia|done|].
    split; [done|]. eapply old_same_trans; [done|]. by eapply old_same_less, K2.
Qed.
#[export] Instance evolves_preorder : PreOrder evolves.
Proof.
  split.
  - intros w. split; [done|]. intros _ Hi. split; [done|apply old_kept_refl].
  - intros w1 w2 w3 [T1 S1] [T2 S2]. split; [lia|]. intros Hh Hi.
    destruct S1 as [I2 K1]; [lia|done|]. destruct S2 as [I3 K2]; [lia|done|].
    split; [done|]. eapply old_kept_trans; [done|]. by eapply old_kept_less, K2.
Qed.

Lemma preserves_evolves w w' : preserves w w' -> evolves w w'.
Proof.
  intros [T S]. split; [done|]. intros Hh Hi. destruct (S Hh Hi). split; [done|by apply old_same_kept].
Qed.

Lemma frames_mono {S E A} (R R' : S -> S -> Prop) (m : M S E A) :
  (forall s s', R s s' -> R' s s') -> frames R m -> frames R' m.
Proof. intros HR Hm s. apply HR, Hm. Qed.

(** ** Code that leaves the store alone *)

(** Of the trees, only the entry of [key] among the envelope keys changes. *)
Definition quiet_but (key : option str) (w w' : World) : Prop :=
  tick w <= tick w' /\ envelopes w' = envelopes w
  /\ forall k, Some k <> key -> kyber_keys w' !! k = kyber_keys w !! k.

#[export] Instance quiet_but_preorder key : PreOrder (quiet_but key).
Proof.
  split; [done|]. intros w1 w2 w3 (T1 & E1 & K1) (T2 & E2 & K2).
  split; [lia|]. split; [congruence|]. intros k Hk. by rewrite K2, K1.
Qed.

Lemma quiet_interact {E A} key (f : nat -> A) : frames (E := E) (quiet_but key) (interact f).
Proof. intros w. split; [cbn; lia|done]. Qed.
Lemma quiet_tables {E} key kp km :
  frames (E := E) (quiet_but key) (modify (fun w => set_key_tables (kp w) (km w) w)).
Proof. intros w. done. Qed.
Lemma quiet_logger {E} key l : frames (E := E) (quiet_but key) (modify (set_logger l)).
Proof. intros w. done. Qed.
Lemma quiet_dilithium {E} key f :
  frames (E := E) (quiet_but key) (modify (fun w => set_dilithium_keys (f w) w)).
Proof. intros w. done. Qed.
Lemma quiet_kyber {E} key v :
  frames (E := E) (quiet_but (Some key)) (modify (fun w => set_kyber_keys (<[key := v]> (kyber_keys w)) w)).
Proof. intros w. split; [done|]. split; [done|]. intros k Hk. cbn. by rewrite lookup_insert_ne by congruence. Qed.

Ltac quiet_step :=
  first
  [ apply quiet_interact | apply quiet_tables | apply quiet_logger | apply quiet_dilithium
  | apply quiet_kyber | frame_step ].
Ltac quiet_run := repeat quiet_step.

Lemma quiet_encrypt_pqc config key data key_id customer exporter :
  frames (quiet_but (Some key_id)) (encrypt_pqc config key data key_id customer exporter).
Proof.
  unfold encrypt_pqc, encrypt_with_mlkem, generate_mlkem_keypair, generate_mldsa_keypair,
    store_kyber_keypair, store_dilithium_keypair, store_keypair, ks_encrypt,
    perform_mlkem_encapsulation, hybrid_encrypt_with_shared_secret. cbn [ky_key_id default].
  quiet_run.
Qed.

Lemma quiet_update_key_usage id : frames (quiet_but None) (update_key_usage id).
Proof. unfold update_key_usage. quiet_run. Qed.

Lemma quiet_generate_key_pair config mk algorithm customer :
  frames (quiet_but None) (generate_key_pair config mk algorithm customer).
Proof.
  unfold generate_key_pair, check_key_limits, generate_hybrid_pq_keys, generate_kyber_keys,
    generate_dilithium_keys, encrypt_private_key, calculate_expiry. quiet_run.
Qed.

Lemma quiet_sign_data mk data id : frames (quiet_but None) (sign_data mk data id).
Proof. unfold sign_data, check_expired. quiet_run; apply quiet_update_key_usage. Qed.

Lemma quiet_record_transparency e : frames (quiet_but None) (record_transparency e).
Proof. unfold record_transparency, log_io. quiet_run. Qed.

Lemma quiet_preserves_from key n m w w' :
  (m <= horizon -> forall t, t < n -> Some (uuid_to_string (uuid_at t)) <> key) ->
  quiet_but key w w' -> preserves_from n m w w'.
Proof.
  intros Hk (T & E & K). split; [done|]. intros Hm Hh [Hs Hi]. split.
  - split; [by eapply store_inv_same|]. intros h v. rewrite E. intros Hv.
    destruct (Hi h v Hv) as (t & Ht & <-). exists t. split; [lia|done].
  - split; [intros t Ht; apply K, Hk; [lia|done]|]. intros t _. by rewrite (records_same cipher w w' E).
Qed.

Lemma quiet_preserves w w' : quiet_but None w w' -> preserves w w'.
Proof.
  intros Hq. pose proof (quiet_preserves_from None (tick w) (tick w) w w' ltac:(done) Hq) as [T S].
  split; [done|]. intros Hh Hi. by apply S.
Qed.

(** Work of the crypto engine for other purposes: no key filed under a UUID
    changes. *)
Definition engine_only (w w' : World) : Prop :=
  tick w <= tick w' /\ envelopes w' = envelopes w
  /\ forall u : uuid, kyber_keys w' !! uuid_to_string u = kyber_keys w !! uuid_to_string u.

#[export] Instance engine_only_preorder : PreOrder engine_only.
Proof.
  split; [done|]. intros w1 w2 w3 (T1 & E1 & K1) (T2 & E2 & K2).
  split; [lia|]. split; [congruence|]. intros u. by rewrite K2, K1.
Qed.

Lemma engine_evolves w w' : engine_only w w' -> evolves w w'.
Proof.
  intros (T & E & K). split; [done|]. intros Hh [Hs Hi]. split.
  - split; [by eapply store_inv_same|]. intros h v. rewrite E. intros Hv.
    destruct (Hi h v Hv) as (t & Ht & <-). exists t. split; [lia|done].
  - apply old_same_kept. split; [intros t _; apply K|]. intros t _. by rewrite (records_same cipher w w' E).
Qed.

Lemma quiet_engine w w' : quiet_but None w w' -> engine_only w w'.
Proof. intros (T & E & K). split; [done|]. split; [done|]. intros u. by apply K. Qed.

(** ** Store operations *)

(** Store operations move the clock on and leave the envelope keys alone. *)
Definition store_step (w w' : World) : Prop := tick w <= tick w' /\ kyber_keys w' = kyber_keys w.

#[export] Instance store_step_preorder : PreOrder store_step.
Proof.
  split; [intros w; split; [lia|done]|]. intros ? ? ? [? ?] [? ?]. split; [lia|congruence].
Qed.

Lemma step_interact {E A} (f : nat -> A) : frames (E := E) store_step (interact f).
Proof. intros w. split; [cbn; lia|done]. Qed.
Lemma step_envelopes {E} f : frames (E := E) store_step (modify (fun w => set_envelopes (f w) w)).
Proof. intros w. done. Qed.

Lemma step_run_op op : frames store_step (run_op cipher op).
Proof.
  destruct op; cbn [run_op]; unfold fmap_m, insert_with_id, load, SealedStore.delete,
    update_threshold_config, append_third_party_caveat_key, update_share_assignments,
    claim_custodian_share, mark_redeem_used, renew_lease, revoke, update_record, rewrite_record,
    seal_record, encrypt_payload, tree_get, tree_insert;
    repeat first [apply step_interact | apply step_envelopes | frame_step].
Qed.

Lemma spec_op_old op now t h r' :
  (forall h' x, op <> OpInsert h' x) -> (spec_op op now t).2 !! h = Some r' ->
  exists r, t !! h = Some r /\ later r r'.
Proof.
  intros Hni Hr. destruct (t !! h) as [r|] eqn:E.
  - assert (keeps h op \/ op = OpDelete h) as [Hk| ->].
    { destruct op as [h' ?|?|h'|? ? ?|? ?|? ? ?|? ?|?|? ?|? ?]; cbn [keeps]; auto; [by edestruct Hni|].
      destruct (decide (h' = h)) as [->|]; auto. }
    + destruct (spec_op_later h op now t r Hk E) as (r1 & Hr1 & L).
      rewrite Hr in Hr1. injection Hr1 as ->. by exists r.
    + exfalso. unfold spec_op in Hr. cbn [op_handle] in Hr. rewrite E in Hr. cbn [snd] in Hr.
      by rewrite lookup_delete_eq in Hr.
  - exfalso. unfold spec_op in Hr.
    assert (forall r1 (x : result StoreError StoreReply), (x, <[op_handle op := r1]> t).2 !! h = Some r' ->
      is_Some (t !! op_handle op) -> False) as Hins.
    { intros r1 x Hx [y Hy]. cbn [snd] in Hx. destruct (decide (op_handle op = h)) as [<-|?]; [congruence|].
      rewrite lookup_insert_ne, E in Hx by done. discriminate Hx. }
    destruct op; cbn [op_handle] in *; try (by edestruct Hni);
      destruct (t !! _) eqn:Et; cbn [snd] in Hr; try congruence;
      try (apply lookup_delete_Some in Hr as [_ Hr]; congruence);
      destruct (spec_rewrite _ _ _) as [[r1 a]|e|]; cbn [snd] in Hr; try congruence;
      exact (Hins r1 (Ok a) Hr ltac:(by eexists)).
Qed.

Lemma evolves_run_op op w :
  (forall h x, op <> OpInsert h x) -> evolves w (run_op cipher op w).2.
Proof.
  intros Hni. destruct (step_run_op op w) as [Ht Hk]. split; [done|]. intros _ [Hs Hi].
  assert (op_ok op) as Ho by (destruct op; cbn; try done; by edestruct Hni).
  destruct (store_op_refines cipher op w Hs Ho) as [Hspec Hs'].
  apply (f_equal snd) in Hspec. cbn [snd] in Hspec.
  assert (Hold : forall h r', records cipher (run_op cipher op w).2 !! h = Some r' ->
    exists r, records cipher w !! h = Some r /\ later r r').
  { intros h r'. rewrite <- Hspec. by apply spec_op_old. }
  split; split; try done.
  - intros h v Hv. destruct (Hs' h v Hv) as (r' & Hr' & _).
    destruct (Hold h r') as (r & Hr & _); [by rewrite (records_lookup cipher _ h v Hv), Hr'|].
    destruct (records_some cipher w h r Hs Hr) as (v0 & Hv0 & _).
    destruct (Hi h v0 Hv0) as (t & ? & ?). exists t. split; [lia|done].
  - intros t _. by rewrite Hk.
  - intros t r' _. apply Hold.
Qed.

(** The operations the handlers call. *)
Lemma evolves_op {A} (g : A -> StoreReply) op m :
  (forall h x, op <> OpInsert h x) -> run_op cipher op = fmap_m g m -> frames evolves m.
Proof.
  intros Hni Heq w. pose proof (evolves_run_op op w Hni) as Hw. rewrite Heq in Hw.
  unfold fmap_m, bind in Hw. by destruct (m w) as [[a|e|] w'].
Qed.

Lemma evolves_load h : frames evolves (load cipher h).
Proof. by apply (evolves_op RMaybe (OpLoad h)). Qed.
Lemma evolves_delete h : frames evolves (SealedStore.delete h).
Proof. by apply (evolves_op RBool (OpDelete h)). Qed.
Lemma evolves_threshold h k cs : frames evolves (update_threshold_config cipher h k cs).
Proof. by apply (evolves_op (fun _ => RUnit) (OpThreshold h k cs)). Qed.
Lemma evolves_caveat_key h e : frames evolves (append_third_party_caveat_key cipher h e).
Proof. by apply (evolves_op (fun _ => RUnit) (OpCaveatKey h e)). Qed.
Lemma evolves_assign h a hs : frames evolves (update_share_assignments cipher h a hs).
Proof. by apply (evolves_op (fun _ => RUnit) (OpAssign h a hs)). Qed.
Lemma evolves_claim h cid : frames evolves (claim_custodian_share cipher h cid).
Proof. by apply (evolves_op RClaim (OpClaim h cid)). Qed.
Lemma evolves_mark_used h : frames evolves (mark_redeem_used cipher h).
Proof. by apply (evolves_op (fun _ => RUnit) (OpMarkUsed h)). Qed.
Lemma evolves_renew h lease : frames evolves (renew_lease cipher h lease).
Proof. by apply (evolves_op RRecord (OpRenew h lease)). Qed.
Lemma evolves_revoke h reason : frames evolves (revoke cipher h reason).
Proof. by apply (evolves_op RBool (OpRevoke h reason)). Qed.

Lemma evolves_interact {E A} (f : nat -> A) : frames (E := E) evolves (interact f).
Proof. intros w. apply preserves_evolves, quiet_preserves. split; [cbn; lia|done]. Qed.
Lemma evolves_record e : frames evolves (record_transparency e).
Proof.
  eapply frames_mono, quiet_record_transparency. intros w w' Hq. by apply preserves_evolves, quiet_preserves.
Qed.

(** ** Issuing *)

Lemma preserves_interact {E A} (f : nat -> A) : frames (E := E) preserves (interact f).
Proof. intros w. apply quiet_preserves. split; [cbn; lia|done]. Qed.
Lemma preserves_advances n w : preserves w (Nat.iter n advance w).
Proof.
  induction n as [|n IH]; [reflexivity|]. etransitivity; [exact IH|].
  apply (preserves_interact (E := unit) (fun t => t)).
Qed.

Lemma fresh_at t t' : t < horizon -> t' < horizon -> t <> t' -> uuid_at t <> uuid_at t'.
Proof. intros Ht Ht' Hne E. apply Hne, uuid_fresh; [done..|by rewrite E]. Qed.

(** The handle of step [t], not one of the first [n], gets its record. *)
Lemma preserves_insert n m t r :
  n <= t < m -> record_ok r -> frames (preserves_from n m) (insert_with_id cipher (uuid_at t) r).
Proof.
  intros Ht Hr w. destruct (step_run_op (OpInsert (uuid_at t) r) w) as [Hw Hk].
  assert ((insert_with_id cipher (uuid_at t) r w).2 = (run_op cipher (OpInsert (uuid_at t) r) w).2) as ->
    by (cbn [run_op]; unfold fmap_m, bind; by destruct (insert_with_id _ _ _ _) as [[]]).
  split; [done|]. intros Hm Hh [Hs Hi].
  destruct (store_op_refines cipher (OpInsert (uuid_at t) r) w Hs Hr) as [Hspec Hs'].
  apply (f_equal snd) in Hspec. unfold spec_op in Hspec. cbn [op_handle snd] in Hspec.
  set (w' := (run_op cipher (OpInsert (uuid_at t) r) w).2) in *.
  split; split; try done.
  - intros h v Hv. destruct (decide (uuid_at t = h)) as [<-|Hne]; [exists t; split; [lia|done]|].
    destruct (Hs' h v Hv) as (r' & Hr' & _).
    pose proof (records_lookup cipher w' h v Hv) as Hrec. rewrite <- Hspec, lookup_insert_ne, Hr' in Hrec by done.
    destruct (records_some cipher w h r' Hs Hrec) as (v0 & Hv0 & _).
    destruct (Hi h v0 Hv0) as (t0 & ? & ?). exists t0. split; [lia|done].
  - intros t0 Ht0. by rewrite <- Hspec, lookup_insert_ne by (apply fresh_at; lia).
Qed.

Lemma preserves_steps w w1 w' :
  preserves w w1 -> preserves_from (tick w) (tick w1) w1 w' -> preserves w w'.
Proof.
  intros [T1 S1] [T2 S2]. split; [lia|]. intros Hh Hi. destruct S1 as [I1 K1]; [lia|done|].
  destruct S2 as [I2 K2]; [lia..|done|]. split; [done|by eapply old_same_trans].
Qed.

(** Follow code after the steps that drew the handle and the envelope key. *)
Ltac from_step :=
  first
  [ frame_step
  | lazymatch goal with
    | |- frames (preserves_from _ _) (generate_key_pair _ _ _ _) =>
      eapply frames_mono, quiet_generate_key_pair; intros ? ?; by apply quiet_preserves_from
    | |- frames (preserves_from _ _) (sign_data _ _ _) =>
      eapply frames_mono, quiet_sign_data; intros ? ?; by apply quiet_preserves_from
    | |- frames (preserves_from _ _) (insert_with_id _ _ _) => apply preserves_insert; [lia|done]
    end ].

Lemma preserves_persist ctx input :
  metadata_ok (i_metadata input) -> frames preserves (persist_secret_v2_with_lifecycle state ctx input).
Proof.
  intros Hm w. unfold persist_secret_v2_with_lifecycle.
  destruct (session_binding ctx (i_lifecycle input)) as [[bv rb] eb].
  unfold new_uuid at 1, os_random at 1. unfold bind at 1 2, interact at 1 2. cbn [tick advance].
  unfold bind at 1, lift at 1.
  destruct (add_duration _ _) as [deadline|e|]; [|exact (preserves_advances 2 w)..].
  unfold new_uuid at 1. unfold bind at 1, interact at 1. cbn [tick advance].
  eapply preserves_steps; [exact (preserves_advances 3 w)|]. cbn [Nat.iter nat_rect tick advance].
  match goal with |- preserves_from ?n ?m ?w1 (?prog ?w1).2 =>
    enough (frames (preserves_from n m) prog) as Hf by apply Hf end.
  apply frames_bind; [typeclasses eauto| |intros er].
  - apply frames_map_err. eapply frames_mono, quiet_encrypt_pqc. intros ? ?. apply quiet_preserves_from.
    intros Hh t Ht [= E]. apply uuid_fresh in E; lia.
  - repeat from_step.
Qed.

Definition tick_le (w w' : World) : Prop := tick w <= tick w'.
#[export] Instance tick_le_preorder : PreOrder tick_le.
Proof. unfold tick_le. split; [intros ?; lia|intros ? ? ?; lia]. Qed.
Lemma tick_interact {E A} (f : nat -> A) : frames (E := E) tick_le (interact f).
Proof. intros w. cbn. unfold tick_le. cbn. lia. Qed.
Lemma tick_quiet {E A} key (m : M World E A) : frames (quiet_but key) m -> frames tick_le m.
Proof. apply frames_mono. by intros w w' [? _]. Qed.
Lemma tick_insert h r : frames tick_le (insert_with_id cipher h r).
Proof. intros w. unfold tick_le. cbn. lia. Qed.
Ltac tick_engine :=
  lazymatch goal with
  | |- frames _ (encrypt_pqc _ _ _ _ _ _) => eapply tick_quiet, quiet_encrypt_pqc
  | |- frames _ (generate_key_pair _ _ _ _) => eapply tick_quiet, quiet_generate_key_pair
  | |- frames _ (sign_data _ _ _) => eapply tick_quiet, quiet_sign_data
  | |- frames _ (insert_with_id _ _ _) => apply tick_insert
  end.

(** The handle of the stored secret is the one drawn first. *)
Lemma persist_handle ctx input w o w' :
  persist_secret_v2_with_lifecycle state ctx input w = (Ok o, w') ->
  o_handle_id o = uuid_at (tick w) /\ tick w < tick w'.
Proof.
  intros E. split; [by eapply persist_drawn|]. unfold persist_secret_v2_with_lifecycle in E.
  destruct (session_binding ctx (i_lifecycle input)) as [[bv rb] eb].
  apply bind_ok in E as (h & w1 & Hh & E). injection Hh as <- <-.
  match type of E with ?m (advance w) = _ => assert (frames tick_le m) as Hf end.
  { repeat first [apply tick_interact | frame_step | tick_engine]. }
  pose proof (Hf (advance w)) as Ht. rewrite E in Ht. unfold tick_le in Ht. cbn [snd tick advance] in Ht.
  lia.
Qed.

Lemma evolves_persist ctx input :
  metadata_ok (i_metadata input) -> frames evolves (persist_secret_v2_with_lifecycle state ctx input).
Proof. intros Hm. eapply frames_mono, preserves_persist; [apply preserves_evolves|done]. Qed.

End Evolution.

(** Follow the code of a handler. *)
Ltac evolve_step :=
  first
  [ frame_step
  | apply evolves_interact | apply evolves_record; assumption
  | lazymatch goal with
    | |- frames _ (load _ _) => by apply evolves_load
    | |- frames _ (SealedStore.delete _) => by apply evolves_delete
    | |- frames _ (update_threshold_config _ _ _ _) => by apply evolves_threshold
    | |- frames _ (append_third_party_caveat_key _ _ _) => by apply evolves_caveat_key
    | |- frames _ (update_share_assignments _ _ _ _) => by apply evolves_assign
    | |- frames _ (claim_custodian_share _ _ _) => by apply evolves_claim
    | |- frames _ (mark_redeem_used _ _) => by apply evolves_mark_used
    | |- frames _ (renew_lease _ _ _) => by apply evolves_renew
    | |- frames _ (revoke _ _ _) => by apply evolves_revoke
    | |- frames _ (record_transparency _) => by apply evolves_record
    end ].
Ltac evolve_run := repeat evolve_step.
