(* ===== verification/System.v ===== *)
(** The broker as a transition system: every handler is a step on the state
    of the process, whether it succeeds or not, and the properties here hold
    along every sequence of steps. *)

From S2P Require Import Prelude RustStd Externals Reference Macaroon MacaroonWire Threshold.
From S2P Require Import Transparency World SealedStore Config CryptoEngine Broker Issue Unwrap.
From S2P Require Import Delegate Manage Custody Evolution.

(** The calls the broker serves. *)
Inductive Event :=
| EWrap (ctx : BrokerClientContext) (req : WrapV2Request)
| EMint (ctx : BrokerClientContext) (req : MintV2Request)
| EUnwrap (ctx : BrokerClientContext) (req : UnwrapV2Request)
| EAttenuate (ctx : BrokerClientContext) (req : AttenuateV2Request)
| EDischarge (ctx : BrokerClientContext) (req : MintDischargeRequest)
| ERenew (ctx : BrokerClientContext) (req : RenewLeaseRequest)
| ERevoke (ctx : BrokerClientContext) (req : RevokeSecretRequest)
| ERotate (ctx : BrokerClientContext) (req : RotateSecretRequest)
| EDelete (ctx : BrokerClientContext) (handle : str)
| EClaim (ctx : BrokerClientContext) (req : ClaimShareRequest)
| EDistribute (ctx : BrokerClientContext) (req : DistributeShareRequest)
| ECombine (ctx : BrokerClientContext) (req : CombineSharesRequest).

(** The metadata a call stores with a new secret survives its JSON form. *)
Definition event_ok (e : Event) : Prop :=
  match e with
  | EWrap _ req => metadata_ok (w_metadata req)
  | EMint _ req =>
    metadata_ok (Some (JObject (mint_metadata (trim_nonempty (m_label req)) (m_ttl_seconds req))))
  | ERotate _ req => metadata_ok (t_metadata req)
  | _ => True
  end.

Section System.
Context `{TextCodecsLaws} `{HashesLaws} `{JsonText} `{AeadLaws} `{PqCryptoLaws} `{OracleLaws} `{P256}.
Context `{!Serde KyberKeyPair} `{!Serde DilithiumKeyPair} `{!Serde KeyRecord}.
Context `{!Serde StoredEnvelopeRecord} `{!Serde EncryptedRecord} `{!Serde SecretEnvelope}.
Context `{!Serde (list Share)}.
Context `{!SerdeLaws KyberKeyPair (fun _ => True)} `{!SerdeLaws KeyRecord (fun _ => True)}.
Context `{!SerdeLaws StoredEnvelopeRecord record_ok} `{!SerdeLaws EncryptedRecord (fun _ => True)}.
Context (horizon : nat) `{!FreshUuids horizon}.
Variable random_scalars : nat -> nat -> scalar.
Variable state : BrokerState.

Abbreviation cipher := (sealed_store state).
Abbreviation evolves := (evolves horizon state).

(** The state a call leaves, whatever its result. *)
Definition serve (e : Event) (w : World) : World :=
  match e with
  | EWrap ctx req => (wrap_secret_v2 state ctx req w).2
  | EMint ctx req => (mint_aead_key_v2 random_scalars state ctx req w).2
  | EUnwrap ctx req => (unwrap_secret_v2 state ctx req w).2
  | EAttenuate ctx req => (attenuate_handle_v2 state ctx req w).2
  | EDischarge ctx req => (mint_discharge state ctx req w).2
  | ERenew ctx req => (renew_lease_handler state ctx req w).2
  | ERevoke ctx req => (revoke_secret state ctx req w).2
  | ERotate ctx req => (rotate_secret random_scalars state ctx req w).2
  | EDelete ctx handle => (delete_secret state ctx handle w).2
  | EClaim ctx req => (claim_share state ctx req w).2
  | EDistribute ctx req => (distribute_share state ctx req w).2
  | ECombine ctx req => (combine_shares state ctx req w).2
  end.

(** One call, started and finished before the next; or work of the process
    that leaves the sealed records and the envelope keys alone: the passing of
    time, key generation, signing, ciphers. *)
Inductive step : World -> World -> Prop :=
| step_serve e w : event_ok e -> step w (serve e w)
| step_engine w w' : engine_only w w' -> step w w'.

(** ** Every handler respects the evolution of the records *)

Lemma evolves_unwrap ctx req : frames evolves (unwrap_secret_v2 state ctx req).
Proof.
  unfold unwrap_secret_v2, authorize_unwrap, complete_unwrap, mark_redeem_token_used,
    decrypt_record_payload, decrypt_pqc, decrypt_with_mlkem, load_kyber_keypair, load_keypair.
  evolve_run.
Qed.

Lemma evolves_mint ctx req :
  event_ok (EMint ctx req) -> frames evolves (mint_aead_key_v2 random_scalars state ctx req).
Proof.
  intros He. unfold mint_aead_key_v2, mint_redeem_token, split_redeem_token.
  apply frames_bind; [typeclasses eauto|apply evolves_interact|intros created].
  apply frames_bind_lift; [typeclasses eauto|intros [expires ttl] Ht].
  assert (ttl = m_ttl_seconds req) as -> by (unfold enforce_ttl in Ht; destruct (m_ttl_seconds req); by monad_inv).
  evolve_run. by apply evolves_persist.
Qed.

Lemma evolves_serve e w : event_ok e -> evolves w (serve e w).
Proof.
  intros He. destruct e as [ctx req|ctx req|ctx req|ctx req|ctx req|ctx req|ctx req|ctx req|ctx h|ctx req|ctx req|ctx req]; cbn [serve event_ok] in *;
    match goal with |- evolves w (?m w).2 => enough (frames evolves m) as Hf by apply Hf end.
  - unfold wrap_secret_v2. evolve_run. by apply evolves_persist.
  - by apply evolves_mint.
  - apply evolves_unwrap.
  - unfold attenuate_handle_v2, third_party_addition. evolve_run.
  - unfold mint_discharge. evolve_run.
  - unfold renew_lease_handler, load_required. evolve_run.
  - unfold revoke_secret, load_required. evolve_run.
  - unfold rotate_secret, load_required, rotate_token, split_redeem_token. evolve_run. by apply evolves_persist.
  - unfold delete_secret. evolve_run.
  - unfold claim_share, custody_lineage, log_event. evolve_run.
  - unfold distribute_share, custody_lineage, log_event. evolve_run.
  - unfold combine_shares, log_event. evolve_run. apply evolves_unwrap.
Qed.

(** ** Sequences of calls *)

Lemma evolves_rtc w w' : rtc step w w' -> evolves w w'.
Proof.
  induction 1 as [|w1 w2 w3 [e w1' He|w1' w2' Hq] _ IH]; [reflexivity|..].
  - etransitivity; [by apply evolves_serve|exact IH].
  - etransitivity; [by apply engine_evolves|exact IH].
Qed.

(** A state of the process started on an empty store. *)
Definition reachable (w : World) : Prop := exists w0, envelopes w0 = ∅ /\ rtc step w0 w.

Lemma reachable_inv w : reachable w -> tick w <= horizon -> sys_inv state w.
Proof.
  intros (w0 & He & Hr) Hh. apply evolves_rtc in Hr as [_ Hr]. apply Hr; [done|].
  split; intros h v; rewrite He, lookup_empty; done.
Qed.

Lemma reachable_rtc w w' : reachable w -> rtc step w w' -> reachable w'.
Proof. intros (w0 & He & Hr) Hr'. exists w0. split; [done|by transitivity w]. Qed.

Lemma reachable_old w h r :
  reachable w -> tick w <= horizon -> records cipher w !! h = Some r ->
  exists t, t < tick w /\ uuid_at t = h.
Proof.
  intros Hr Hh Hrec. destruct (reachable_inv w Hr Hh) as [Hs Hi].
  destruct (records_some cipher w h r Hs Hrec) as (v & Hv & _). by apply (Hi h v).
Qed.

(** C5: however the calls to the broker follow each other, every stored secret
    stays readable, and a record only moves forward in its life cycle:
    revocation and redemption are permanent, and the sealed envelope, its key,
    the expiry, the bound principal and the kind of secret never change.  A
    record is either such a continuation or new, under a handle drawn since;
    a handle drawn earlier that has no record, because it was deleted or never
    had one, does not get one again; and the keys of the envelopes stay.  The
    calls are those of the handlers and of the engine that leave the keys of
    envelopes alone ([step]). *)
Theorem records_only_advance w1 w2 :
  reachable w1 -> rtc step w1 w2 -> tick w2 <= horizon ->
  store_inv cipher w2
  /\ (forall h r2, records cipher w2 !! h = Some r2 ->
       (exists r1, records cipher w1 !! h = Some r1 /\ later r1 r2)
       \/ (records cipher w1 !! h = None /\ exists t, tick w1 <= t < tick w2 /\ uuid_at t = h))
  /\ (forall t, t < tick w1 -> records cipher w1 !! uuid_at t = None -> records cipher w2 !! uuid_at t = None)
  /\ (forall t, t < tick w1 ->
       kyber_keys w2 !! uuid_to_string (uuid_at t) = kyber_keys w1 !! uuid_to_string (uuid_at t)).
Proof.
  intros Hr Hs Hh. pose proof (evolves_rtc w1 w2 Hs) as [Ht Hev].
  destruct Hev as [[I1 I2] [K1 K2]]; [done|apply reachable_inv; [done|lia]|].
  split; [done|]. split; [|split; [|done]].
  - intros h r2 Hr2.
    destruct (reachable_old w2 h r2) as (t & Hlt & <-); [by eapply reachable_rtc|done..|].
    destruct (decide (t < tick w1)) as [Hold|Hnew]; [by left; apply K2|]. right.
    split; [|exists t; split; [lia|done]].
    destruct (records cipher w1 !! uuid_at t) as [r1|] eqn:E; [|done].
    destruct (reachable_old w1 _ r1 Hr ltac:(lia) E) as (t' & Hlt' & E').
    apply (f_equal uuid_to_string), uuid_fresh in E'; lia.
  - intros t Hlt Hnone. destruct (records cipher w2 !! uuid_at t) as [r2|] eqn:E; [|done].
    destruct (K2 t r2 Hlt E) as (r1 & Hr1 & _). congruence.
Qed.

(** ** The end of a secret *)

(** There is no record of [h] that could be unwrapped. *)
Definition dead (h : uuid) (w : World) : Prop := forall r, records cipher w !! h = Some r -> spent r.

Lemma dead_evolves t w w' :
  evolves w w' -> sys_inv state w -> tick w' <= horizon -> t < tick w ->
  dead (uuid_at t) w -> dead (uuid_at t) w'.
Proof.
  intros [_ Hev] Hi Hh Ht Hd r' Hr'. destruct (Hev Hh Hi) as [_ [_ K]].
  destruct (K t r' Ht Hr') as (r & Hr & L). eapply spent_later; [exact L|by apply Hd].
Qed.

Lemma dead_same h w w' : envelopes w' = envelopes w -> dead h w -> dead h w'.
Proof. intros E Hd r. rewrite (records_same cipher w w' E). apply Hd. Qed.

Lemma unwrap_not_dead ctx req m w o w' :
  store_inv cipher w -> parse_handle_v2 (u_handle req) = Ok m ->
  unwrap_secret_v2 state ctx req w = (Ok o, w') ->
  (exists r, records cipher w !! identifier m = Some r) /\ ~ dead (identifier m) w.
Proof.
  intros Hi Hp E. assert (exists r, records cipher w !! identifier m = Some r) as [r Hr].
  { unfold unwrap_secret_v2 in E. apply bind_ok in E as ([h r'] & w1 & Ha & _).
    apply authorize_inv in Ha as (m' & r & Hp' & -> & Hr & _); [|done].
    rewrite Hp in Hp'. injection Hp' as <-. by exists r. }
  split; [by exists r|]. intros Hd. eapply unwrap_spent; [done|exact Hp|exact Hr|by apply Hd|exact E].
Qed.

Lemma unwrap_ends ctx req m r w o w' :
  store_inv cipher w -> parse_handle_v2 (u_handle req) = Ok m ->
  records cipher w !! identifier m = Some r -> r_lifecycle r <> RenewableLease ->
  unwrap_secret_v2 state ctx req w = (Ok o, w') -> dead (identifier m) w'.
Proof.
  intros Hi Hp Hr L E. unfold unwrap_secret_v2 in E. apply bind_ok in E as ([h r'] & w1 & Ha & E).
  apply authorize_inv in Ha as (m0 & r0 & Hp0 & -> & Hr0 & -> & _ & R1 & I1 & _); [|done].
  rewrite Hp in Hp0. injection Hp0 as <-. rewrite Hr in Hr0. injection Hr0 as <-.
  apply complete_inv with (r0 := set_last_accessed (Some (time_at (tick w))) r) in E as (_ & R2 & _);
    [|done|by rewrite R1, lookup_insert_eq|done].
  intros r2. rewrite R2, lookup_insert_eq. intros [= <-]. right.
  unfold consume, is_renewable. cbn [r_lifecycle set_last_accessed]. by rewrite bool_decide_eq_false_2.
Qed.

Lemma revoke_dead h reason w b w' :
  store_inv cipher w -> revoke cipher h reason w = (Ok b, w') -> dead h w'.
Proof.
  intros Hi E. destruct (store_op_refines cipher (OpRevoke h reason) w Hi I) as [Hs _].
  unfold run_op, fmap_m, bind in Hs. rewrite E in Hs. cbn [ret fst snd] in Hs.
  unfold spec_op in Hs. cbn [op_handle] in Hs. intros r.
  destruct (records cipher w !! h) as [r0|] eqn:Hr.
  - cbn [spec_rewrite] in Hs. injection Hs as _ <-. rewrite lookup_insert_eq. intros [= <-]. by left.
  - injection Hs as _ <-. by rewrite Hr.
Qed.

Lemma delete_dead h w w' b :
  store_inv cipher w -> SealedStore.delete h w = (Ok b, w') ->
  dead h w' /\ (b = true -> exists r, records cipher w !! h = Some r).
Proof.
  intros Hi E. destruct (store_op_refines cipher (OpDelete h) w Hi I) as [Hs _].
  unfold run_op, fmap_m, bind in Hs. rewrite E in Hs. cbn [ret fst snd] in Hs.
  unfold spec_op in Hs. cbn [op_handle] in Hs. unfold dead.
  destruct (records cipher w !! h) as [r0|] eqn:Hr; injection Hs as Hb <-.
  - split; [|by eexists]. intros r. by rewrite lookup_delete_eq.
  - split; [by intros r; rewrite Hr|]. intros ->. discriminate Hb.
Qed.

Lemma log_envelopes e w a w' : record_transparency e w = (Ok a, w') -> envelopes w' = envelopes w.
Proof. intros E. by apply (frames_ok _ _ _ _ _ (quiet_record_transparency e)) in E as (_ & ? & _). Qed.

(** The caller may manage the record of [h], which is dead afterwards. *)
Definition ended_by (ctx : BrokerClientContext) (h : uuid) (w w' : World) : Prop :=
  (exists r, records cipher w !! h = Some r /\ may_access true r ctx) /\ dead h w'.

Lemma revoke_ends ctx req h w o w' :
  store_inv cipher w -> parse_handle_identifier state (k_handle req) = Ok h ->
  revoke_secret state ctx req w = (Ok o, w') -> ended_by ctx h w w'.
Proof.
  intros Hi Hp E. unfold revoke_secret in E. rewrite Hp in E.
  apply bind_ok in E as (h0 & w0 & Hh & E). injection Hh as <- <-.
  apply bind_ok in E as (r' & w1 & Hl & E).
  apply load_required_inv in Hl as (r & Hr & -> & _ & I1 & _); [|done].
  apply bind_ok in E as ([] & w2 & Hv & E). unfold lift in Hv. injection Hv as Hv <-.
  apply bind_ok in E as (b & w3 & Hrev & E). apply map_err_m_ok in Hrev.
  split; [exists r; split; [done|by apply identity_iff in Hv]|].
  apply revoke_dead in Hrev; [|done]. destruct b.
  - apply bind_ok in E as (t & w4 & Ht & E). injection Ht as <- <-.
    apply bind_ok in E as (t' & w5 & Ht' & E). injection Ht' as <- <-.
    apply bind_ok in E as ([] & w6 & Hlog & E). injection E as _ <-.
    apply log_envelopes in Hlog. eapply dead_same; [exact Hlog|]. exact Hrev.
  - injection E as _ <-. exact Hrev.
Qed.

Lemma delete_ends ctx handle h w w' :
  store_inv cipher w -> parse_handle_identifier state handle = Ok h ->
  delete_secret state ctx handle w = (Ok true, w') -> ended_by ctx h w w'.
Proof.
  intros Hi Hp E. unfold delete_secret in E. rewrite Hp in E.
  apply bind_ok in E as (h0 & w0 & Hh & E). injection Hh as <- <-.
  apply bind_ok in E as (found & w1 & Hl & E). apply map_err_m_ok in Hl.
  apply bind_ok in E as ([] & w2 & Hv & E). unfold lift in Hv. injection Hv as Hv <-.
  apply bind_ok in E as (b & w3 & Hdel & E). apply map_err_m_ok in Hdel.
  apply bind_ok in E as (t & w4 & Ht & E). injection Ht as <- <-.
  apply bind_ok in E as ([] & w5 & Hlog & E). injection E as -> <-. apply log_envelopes in Hlog.
  destruct (records cipher w !! h) as [r|] eqn:Hr.
  - destruct (load_some cipher h r w Hi Hr) as (w6 & Hl2 & Hrec & I1 & _).
    rewrite Hl2 in Hl. injection Hl as <- <-. apply identity_iff in Hv. split; [by exists r|].
    apply delete_dead in Hdel as [Hd _]; [|done]. eapply dead_same; [exact Hlog|exact Hd].
  - rewrite load_none in Hl by done. injection Hl as <- <-.
    apply delete_dead in Hdel as [_ Hx]; [|by eapply store_inv_same].
    destruct (Hx eq_refl) as [r Hr']. rewrite (records_same cipher w (advance w)) in Hr' by done. congruence.
Qed.

Lemma rotate_ends ctx req h w o w' :
  sys_inv state w -> tick w' <= horizon -> metadata_ok (t_metadata req) ->
  parse_handle_identifier state (t_old_handle req) = Ok h ->
  rotate_secret random_scalars state ctx req w = (Ok o, w') -> ended_by ctx h w w'.
Proof.
  intros Hi Hh Hm Hp E. unfold rotate_secret in E. rewrite Hp in E.
  apply bind_ok in E as (h0 & w0 & Hh0 & E). injection Hh0 as <- <-.
  apply bind_ok in E as (r' & w1 & Hl & E).
  assert (evolves w w1) as V1 by (eapply frames_ok, Hl; unfold load_required; evolve_run).
  apply load_required_inv in Hl as (r & Hr & -> & _); [|apply Hi].
  apply bind_ok in E as ([] & w2 & Hv & E). unfold lift in Hv. injection Hv as Hv <-.
  split; [exists r; split; [done|by apply identity_iff in Hv]|].
  apply bind_ok in E as (created & w3 & Hn & E).
  assert (evolves w1 w3) as V2 by (eapply frames_ok, Hn; apply evolves_interact).
  apply bind_ok in E as ([expires ttl] & w4 & Ht & E). injection Ht as _ <-.
  apply bind_ok in E as ([] & w5 & Hg & E). injection Hg as _ <-.
  apply bind_ok in E as (principal & w6 & Hpr & E). injection Hpr as _ <-.
  apply bind_ok in E as (out & w7 & Hper & E).
  assert (evolves w3 w7) as V3 by (eapply frames_ok, Hper; by apply evolves_persist).
  apply bind_ok in E as ([token shares'] & w8 & Htok & E).
  assert (evolves w7 w8) as V4
    by (eapply frames_ok, Htok; unfold rotate_token, split_redeem_token; evolve_run).
  apply bind_ok in E as (b & w9 & Hrev & E).
  assert (evolves w8 w9) as V5 by (eapply frames_ok, Hrev; evolve_run). apply map_err_m_ok in Hrev.
  apply bind_ok in E as (t & w10 & Hn2 & E). injection Hn2 as <- <-.
  apply bind_ok in E as ([] & w11 & Hlog & E). injection E as _ <-.
  assert (evolves (advance w9) w11) as V6 by (eapply frames_ok, Hlog; evolve_run).
  apply log_envelopes in Hlog. eapply dead_same; [exact Hlog|].
  apply revoke_dead in Hrev; [exact Hrev|].
  assert (evolves w w8) as V by (etransitivity; [exact V1|etransitivity; [exact V2|by etransitivity]]).
  destruct V5 as [T5 _], V6 as [T6 _]. cbn [tick advance] in T6.
  destruct V as [_ V]. apply V; [lia|done].
Qed.

Lemma combine_unwraps ctx req h w o w' :
  combine_shares state ctx req w = (Ok o, w') -> parse_handle_identifier state (cb_handle req) = Ok h ->
  exists w1 payload m out w2,
    evolves w w1 /\ (forall r, records cipher w !! h = Some r -> store_inv cipher w ->
      exists r1, records cipher w1 !! h = Some r1 /\ r_lifecycle r1 = r_lifecycle r)
    /\ parse_handle_v2 (u_handle payload) = Ok m /\ identifier m = h
    /\ unwrap_secret_v2 state ctx payload w1 = (Ok out, w2) /\ envelopes w' = envelopes w2
    /\ tick w2 <= tick w'.
Proof.
  intros E Hp. unfold combine_shares in E. rewrite Hp in E.
  apply bind_ok in E as ([] & s0 & Hg0 & E). injection Hg0 as _ <-.
  apply bind_ok in E as ([] & s1 & Hg1 & E). injection Hg1 as _ <-.
  apply bind_ok in E as (h0 & s2 & Hh & E). injection Hh as <- <-.
  apply bind_ok in E as (found & w1 & Hl & E). apply map_err_m_ok in Hl.
  apply bind_ok in E as (r & s3 & Hr & E). injection Hr as Hr <-.
  apply bind_ok in E as (validated & s4 & Hval & E). injection Hval as _ <-.
  apply bind_ok in E as (out & w2 & Hu & E). apply map_err_m_ok in Hu.
  apply bind_ok in E as (pt & s5 & Hpt & E). injection Hpt as _ <-.
  apply bind_ok in E as (t & s6 & Ht & E). injection Ht as <- <-.
  apply bind_ok in E as ([] & s7 & Hlog & E). injection E as _ <-.
  unfold log_event in Hlog. apply map_err_m_ok in Hlog.
  pose proof (frames_ok _ _ _ _ _ (quiet_record_transparency _) Hlog) as (T & He & _).
  apply parse_handle_identifier_ok in Hp as (m & Hm & Hid & _).
  match type of Hu with unwrap_secret_v2 _ _ ?p _ = _ => exists w1, p, m, out, w2 end.
  split; [eapply frames_ok, Hl; evolve_run|].
  split; [|split; [exact Hm|split; [done|split; [exact Hu|split; [exact He|cbn in T; lia]]]]].
  intros r0 Hr0 Hi. destruct (load_some cipher h r0 w Hi Hr0) as (w3 & Hl2 & Hrec & _).
  rewrite Hl2 in Hl. injection Hl as <- <-. eexists. by rewrite Hrec, lookup_insert_eq.
Qed.

(** Calls after which a secret is gone: it was delivered and is not a lease,
    or it was revoked, rotated or deleted. *)
Inductive ends (h : uuid) (w w' : World) : Prop :=
| ends_unwrap ctx req m r o :
  parse_handle_v2 (u_handle req) = Ok m -> identifier m = h ->
  records cipher w !! h = Some r -> r_lifecycle r <> RenewableLease ->
  unwrap_secret_v2 state ctx req w = (Ok o, w') -> ends h w w'
| ends_combine ctx req r o :
  parse_handle_identifier state (cb_handle req) = Ok h ->
  records cipher w !! h = Some r -> r_lifecycle r <> RenewableLease ->
  combine_shares state ctx req w = (Ok o, w') -> ends h w w'
| ends_revoke ctx req o :
  parse_handle_identifier state (k_handle req) = Ok h ->
  revoke_secret state ctx req w = (Ok o, w') -> ends h w w'
| ends_rotate ctx req o :
  metadata_ok (t_metadata req) -> parse_handle_identifier state (t_old_handle req) = Ok h ->
  rotate_secret random_scalars state ctx req w = (Ok o, w') -> ends h w w'
| ends_delete ctx handle :
  parse_handle_identifier state handle = Ok h ->
  delete_secret state ctx handle w = (Ok true, w') -> ends h w w'.

Lemma ends_step h w w' : ends h w w' -> step w w'.
Proof.
  intros [ctx req m r o _ _ _ _ E|ctx req r o _ _ _ E|ctx req o _ E|ctx req o Hm _ E|ctx handle _ E].
  - replace w' with (serve (EUnwrap ctx req) w) by (cbn [serve]; by rewrite E). by constructor.
  - replace w' with (serve (ECombine ctx req) w) by (cbn [serve]; by rewrite E). by constructor.
  - replace w' with (serve (ERevoke ctx req) w) by (cbn [serve]; by rewrite E). by constructor.
  - replace w' with (serve (ERotate ctx req) w) by (cbn [serve]; by rewrite E). by constructor.
  - replace w' with (serve (EDelete ctx handle) w) by (cbn [serve]; by rewrite E). by constructor.
Qed.

Lemma ends_dead h w w' :
  sys_inv state w -> tick w' <= horizon -> ends h w w' ->
  (exists r, records cipher w !! h = Some r) /\ dead h w'.
Proof.
  intros Hi Hh [ctx req m r o Hp <- Hr L E|ctx req r o Hp Hr L E|ctx req o Hp E|ctx req o Hm Hp E|ctx handle Hp E].
  - split; [by exists r|]. eapply unwrap_ends; [apply Hi|done..].
  - split; [by exists r|].
    destruct (combine_unwraps ctx req h w o w' E Hp)
      as (w1 & payload & m & out & w2 & V & HR & Hm & Hid & Hu & He & Ht).
    destruct (HR r Hr (inv_store _ _ Hi)) as (r1 & Hr1 & L1). subst h.
    eapply dead_same; [exact He|]. eapply unwrap_ends; [|exact Hm|exact Hr1|congruence|exact Hu].
    destruct V as [_ V]. apply V; [|done].
    apply (frames_ok _ _ _ _ _ (evolves_unwrap ctx payload)) in Hu as [T _]. lia.
  - edestruct revoke_ends as [(r & Hr & _) Hd]; [apply Hi|done..|]. split; [by exists r|done].
  - edestruct rotate_ends as [(r & Hr & _) Hd]; [done..|]. split; [by exists r|done].
  - edestruct delete_ends as [(r & Hr & _) Hd]; [apply Hi|done..|]. split; [by exists r|done].
Qed.

(** A dead secret is not delivered, by either call. *)
Lemma dead_not_delivered t w :
  sys_inv state w -> t < tick w -> dead (uuid_at t) w ->
  (forall ctx req m o w', parse_handle_v2 (u_handle req) = Ok m -> identifier m = uuid_at t ->
     unwrap_secret_v2 state ctx req w <> (Ok o, w'))
  /\ (forall ctx req o w', parse_handle_identifier state (cb_handle req) = Ok (uuid_at t) -> tick w' <= horizon ->
     combine_shares state ctx req w <> (Ok o, w')).
Proof.
  intros Hi Ht Hd. split.
  - intros ctx req m o w' Hp Hid E. rewrite <- Hid in Hd.
    edestruct unwrap_not_dead as [_ Hnd]; [apply Hi|exact Hp|exact E|]. by apply Hnd.
  - intros ctx req o w' Hp Hh E.
    destruct (combine_unwraps ctx req _ w o w' E Hp)
      as (w4 & payload & m & out & w5 & V & _ & Hm & Hid & Hu & _ & Ht5).
    assert (tick w4 <= horizon) as Hh4.
    { apply (frames_ok _ _ _ _ _ (evolves_unwrap ctx payload)) in Hu as [T _]. lia. }
    edestruct unwrap_not_dead as [_ Hnd]; [apply V; [exact Hh4|exact Hi]|exact Hm|exact Hu|].
    apply Hnd. rewrite Hid. by eapply dead_evolves.
Qed.

(** C1: a secret that was delivered and is not a renewable lease, or that was
    revoked, rotated or deleted, is never delivered again: no unwrap and no
    combination of shares for its handle succeeds, by any caller, with any
    token, after any sequence of calls. *)
Theorem ended_forever h w w1 w2 :
  reachable w -> ends h w w1 -> rtc step w1 w2 -> tick w2 <= horizon ->
  (forall ctx req m o w3, parse_handle_v2 (u_handle req) = Ok m -> identifier m = h ->
     unwrap_secret_v2 state ctx req w2 <> (Ok o, w3))
  /\ (forall ctx req o w3, parse_handle_identifier state (cb_handle req) = Ok h -> tick w3 <= horizon ->
     combine_shares state ctx req w2 <> (Ok o, w3)).
Proof.
  intros Hr He Hs Hh. pose proof (evolves_rtc w1 w2 Hs) as V12.
  assert (evolves w w1) as V01 by (apply evolves_rtc, rtc_once; by eapply ends_step).
  assert (tick w1 <= horizon) as Hh1 by (destruct V12; lia).
  assert (tick w <= horizon) as Hh0 by (destruct V01; lia).
  pose proof (reachable_inv w Hr Hh0) as Hi.
  destruct (ends_dead h w w1 Hi Hh1 He) as [[r Hrec] Hd].
  destruct (reachable_old w h r Hr Hh0 Hrec) as (t & Ht & <-).
  assert (sys_inv state w1) as Hi1 by (by apply V01).
  assert (t < tick w1) as Ht1 by (destruct V01; lia).
  assert (dead (uuid_at t) w2) as Hd2 by (by eapply dead_evolves).
  apply (dead_not_delivered t); [by apply V12| |done..]. destruct V12; lia.
Qed.

(** ** What is delivered, and to whom *)

Lemma unwrap_delivers ctx payload m r0 data w0 w o w' :
  store_inv cipher w -> parse_handle_v2 (u_handle payload) = Ok m ->
  unwrap_secret_v2 state ctx payload w = (Ok o, w') -> seals state data r0 w0 ->
  (forall r, records cipher w !! identifier m = Some r -> later r0 r) ->
  kyber_keys w !! e_envelope_key_id (r_envelope r0) = kyber_keys w0 !! e_envelope_key_id (r_envelope r0) ->
  o = mkUnwrapOut (b64_encode data)
  /\ authenticated_transport ctx = true
  /\ trim_nonempty (principal_id ctx) = trim_nonempty (r_unwrap_principal_id r0)
  /\ (forall b, e_exporter_binding (r_envelope r0) = Some b -> b64_decode b = Some (exporter ctx)).
Proof.
  intros Hi Hp E Hs HL Hk. unfold unwrap_secret_v2 in E. apply bind_ok in E as ([h r'] & w1 & Ha & E).
  apply authorize_inv in Ha as (m0 & r & Hp0 & -> & Hr & -> & [_ Hc _] & R1 & I1 & (K1 & _) & _); [|done].
  rewrite Hp in Hp0. injection Hp0 as <-. specialize (HL r Hr).
  apply complete_inv with (r0 := set_last_accessed (Some (time_at (tick w))) r) in E
    as ((d & -> & Hd) & _); [|done|by rewrite R1, lookup_insert_eq|done].
  apply pair_fst in Hd. eapply (decrypt_payload_inv state) in Hd as [-> Hx]; [|exact Hs| |by rewrite K1].
  2: { apply (later_envelope _ _ HL). }
  apply check_record_ok in Hc as (_ & _ & (Hauth & p & bound & Hpid & Hb & [->|[? _]] & _) & _); [|done].
  rewrite (later_principal _ _ HL) in Hb. split; [done|]. split; [done|]. split; [congruence|done].
Qed.

(** C4: what is delivered is what was wrapped, and only to whom it was wrapped
    for: after wrapping a secret and any sequence of calls, every unwrap of
    its handle that succeeds returns exactly the wrapped bytes, over an
    authenticated transport, to the principal fixed at wrapping, and for
    single-use secrets within the TLS session that wrapped it. *)
Theorem delivered_intact ctx request w expires ttl principal :
  let created := time_at (tick w) in
  let input := wrap_input state request created expires principal in
  reachable w -> tick w <= horizon -> engine_ready state (i_customer_id input) 26 w ->
  metadata_ok (w_metadata request) ->
  enforce_ttl (w_ttl_seconds request) state created = Ok (expires, ttl) ->
  v2_unwrap_principal ctx (w_lifecycle request) (w_unwrap_principal_id request) = Ok principal ->
  rfc3339_range (created + redeem_token_ttl state) ->
  is_ok (initial_lease created (w_initial_lease_seconds request)) = true ->
  exists o w1 h r, wrap_secret_v2 state ctx request w = (Ok o, w1)
    /\ records cipher w1 = <[h := r]> (records cipher w)
    /\ wo_handle o = format_handle (mint (macaroon_root_key state h) h (wrap_caveats request expires))
    /\ forall w2 ctx' payload m out w3,
      rtc step w1 w2 -> tick w2 <= horizon ->
      parse_handle_v2 (u_handle payload) = Ok m -> identifier m = h ->
      unwrap_secret_v2 state ctx' payload w2 = (Ok out, w3) ->
      out = mkUnwrapOut (b64_encode (w_plaintext request))
      /\ authenticated_transport ctx' = true
      /\ trim_nonempty (principal_id ctx') = trim_nonempty principal
      /\ (w_lifecycle request = SingleUseUnwrap -> exporter ctx' = exporter ctx).
Proof.
  intros created input Hr Hh HR Hm Httl Hpr Hd Hl.
  pose proof (reachable_inv w Hr Hh) as Hi.
  pose proof (wrap_ok state ctx request w expires ttl principal (inv_store _ _ Hi) HR Hm Httl Hpr Hd Hl) as HW.
  apply wp_eq in HW as (o & w1 & Hwrap & h & r & HW).
  destruct (wrapped_issued _ _ _ _ _ _ _ _ _ HW) as (nonce & HI & _).
  exists o, w1, h, r. split; [done|]. split; [apply HW|]. split; [apply HW|].
  intros w2 ctx' payload m out w3 Hs Hh2 Hp <- E.
  assert (rtc step w w1) as Hs1.
  { apply rtc_once. replace w1 with (serve (EWrap ctx request) w) by (cbn [serve]; by rewrite Hwrap).
    by constructor. }
  pose proof (evolves_rtc w1 w2 Hs) as [T2 V2].
  assert (reachable w1) as Hr1 by (by eapply reachable_rtc).
  destruct (V2 Hh2) as [I2 [K2 R2]]; [apply reachable_inv; [done|lia]|].
  assert (records cipher w1 !! identifier m = Some r) as Hrec
    by (rewrite (wrapped_records _ _ _ _ _ _ _ _ _ HW); apply lookup_insert_eq).
  destruct (reachable_old w1 _ r Hr1 ltac:(lia) Hrec) as (t & Ht & Hid).
  destruct (wrapped_key_id _ _ _ _ _ _ _ _ _ HW) as (tk & Htk & Hkid).
  destruct (unwrap_delivers ctx' payload m r (w_plaintext request) w1 w2 out w3 (inv_store _ _ I2) Hp E)
    as (-> & Hauth & Hpp & Hx).
  - apply (wrapped_seals _ _ _ _ _ _ _ _ _ HW).
  - intros r2 Hr2. rewrite <- Hid in Hr2, Hrec. destruct (R2 t r2 Ht Hr2) as (r1 & Hr1' & L). congruence.
  - rewrite Hkid. by apply K2.
  - split; [done|]. split; [done|]. split; [by rewrite Hpp, (issued_principal _ _ _ _ _ HI)|].
    intros L. specialize (Hx (b64_encode (exporter ctx))). rewrite b64_roundtrip in Hx.
    rewrite (issued_exporter _ _ _ _ _ HI) in Hx. cbn [input wrap_input i_lifecycle] in Hx. rewrite L in Hx.
    specialize (Hx eq_refl). by injection Hx.
Qed.

End System.

(** * The theorems on concrete inputs *)

Module SystemExamples.
Import Reference ToyWorld ToyStore CryptoExamples BrokerExamples Toy257 UnwrapExamples.

#[export] Instance toy_fresh : FreshUuids 1000.
Proof.
  intros t t' Ht Ht' E. change (hex_encode (uuid_at t) = hex_encode (uuid_at t')) in E. apply hex_inj in E.
  apply (f_equal of_le_bytes) in E. unfold uuid_at, toy_oracle in E. rewrite !of_le_bytes_le_bytes in E.
  change (256 ^ Z.of_nat 16)%Z with (2^128)%Z in E. rewrite !Z.mod_small in E by lia. lia.
Qed.

Definition scalars0 (t n : nat) : scalar := s1.

Lemma reachable0 : reachable scalars0 state0 empty_world.
Proof. exists empty_world. split; [reflexivity|apply rtc_refl]. Qed.

Lemma wrap_step o w1 :
  wrap_secret_v2 state0 alice req0 empty_world = (Ok o, w1) -> step scalars0 state0 empty_world w1.
Proof.
  intros E. replace w1 with (serve scalars0 state0 (EWrap alice req0) empty_world)
    by (unfold serve; rewrite E; reflexivity).
  constructor. exact metadata0.
Qed.

Lemma reachable1 o w1 :
  wrap_secret_v2 state0 alice req0 empty_world = (Ok o, w1) -> reachable scalars0 state0 w1.
Proof. intros E. exists empty_world. split; [reflexivity|]. exact (rtc_once _ _ (wrap_step o w1 E)). Qed.

(** The secret is wrapped and then unwrapped: its record is the same secret,
    used. *)
Lemma records_only_advance_witness : exists w1 w2 h r r2,
  records (sealed_store state0) w1 !! h = Some r /\ r_redeem_used r = false
  /\ records (sealed_store state0) w2 !! h = Some r2 /\ r_redeem_used r2 = true
  /\ later r r2.
Proof.
  destruct session0 as (o & w1 & h & r & w2 & Hw & Hi & Hp & Hr & Hl & _ & _ & Ht & [_ Ht2] & Hu).
  assert (Hs : step scalars0 state0 w1 w2).
  { replace w2 with (serve scalars0 state0 (EUnwrap alice (payload_for o)) w1)
      by (unfold serve; rewrite Hu; reflexivity).
    constructor. exact I. }
  destruct (unwrap_marks_used state0 alice (payload_for o) _ r w1 _ w2 Hi Hp Hr ltac:(congruence) Hu)
    as (Hun & r2 & Hr2 & Hus & _).
  destruct (records_only_advance 1000 scalars0 state0 w1 w2 (reachable1 o w1 Hw) (rtc_once _ _ Hs) ltac:(lia))
    as (_ & HR & _).
  destruct (HR h r2 Hr2) as [(r1 & Hr1 & L)|[Hn _]]; [|congruence].
  assert (r1 = r) as -> by congruence.
  exists w1, w2, h, r, r2. exact (conj Hr (conj Hun (conj Hr2 (conj Hus L)))).
Defined.

Lemma ended_forever_witness : exists o w2, forall o' w3,
  unwrap_secret_v2 state0 alice (payload_for o) w2 <> (Ok o', w3).
Proof.
  destruct session0 as (o & w1 & h & r & w2 & Hw & Hi & Hp & Hr & Hl & _ & _ & _ & [_ Ht2] & Hu).
  exists o, w2. intros o' w3.
  refine (proj1 (ended_forever 1000 scalars0 state0 h w1 w2 w2 (reachable1 o w1 Hw) _ (rtc_refl _ _) _)
    alice (payload_for o) _ o' w3 Hp eq_refl); [|lia].
  refine (ends_unwrap scalars0 state0 h w1 w2 alice (payload_for o) _ r _ Hp eq_refl Hr _ Hu). congruence.
Defined.

Lemma delivered_intact_witness : exists o w1 w2,
  wrap_secret_v2 state0 alice req0 empty_world = (Ok o, w1)
  /\ unwrap_secret_v2 state0 alice (payload_for o) w1 = (Ok (mkUnwrapOut (b64_encode #"hunter2")), w2)
  /\ trim_nonempty (principal_id alice) = trim_nonempty principal0.
Proof.
  destruct (delivered_intact 1000 scalars0 state0 alice req0 empty_world expires0 (Some 3600%Z) principal0
    reachable0 ltac:(cbn; lia) ready0 metadata0 ttl0 principal0_ok deadline0 lease0)
    as (o & w1 & h & r & Hw & Hr & _ & HD).
  destruct session0 as (o' & w1' & h' & r' & w2 & Hw' & _ & Hp & Hr' & _ & _ & _ & Ht1 & _ & Hu).
  rewrite Hw in Hw'. injection Hw' as <- <-. rewrite Hr in Hr'.
  apply (only_record h h' r r') in Hr' as [<- <-]. exists o, w1, w2.
  destruct (HD w1 alice (payload_for o) _ _ w2 (rtc_refl _ _) ltac:(lia) Hp eq_refl Hu) as (_ & _ & Hpp & _).
  exact (conj Hw (conj Hu Hpp)).
Defined.

End SystemExamples.
