(* ===== verification/Access.v ===== *)
(** Who can change a record: calls by a caller that may neither use nor manage
    a secret leave its record as it is, but for the time of the last access
    and the claims of its custodians. *)

From S2P Require Import Prelude RustStd Externals Reference Macaroon MacaroonWire Threshold.
From S2P Require Import Transparency World SealedStore Config CryptoEngine Broker Issue Unwrap.
From S2P Require Import Delegate Manage Custody Evolution System.

(** A share assignment of custodian [a_custodian_id a] after calls by the
    principals [P]: the same custodian and share, and only marked as claimed,
    if at all, when the custodian is one of the callers. *)
Definition assignment_after (P : str -> Prop) (a a' : ShareAssignment) : Prop :=
  a_custodian_id a' = a_custodian_id a /\ a_share_index a' = a_share_index a
  /\ (a_claimed a' = a_claimed a \/ (a_claimed a' = true /\ P (a_custodian_id a))).

(** Only the time of the last access and the claims made by custodians among
    the principals [P] differ. *)
Definition touched (P : str -> Prop) (r r' : StoredEnvelopeRecord) : Prop :=
  exists a b, r' = set_last_accessed a (set_share_custody b (r_held_shares r) r)
    /\ option_Forall2 (Forall2 (assignment_after P)) (r_share_assignments r) b.

Lemma assignment_after_refl P a : assignment_after P a a.
Proof. repeat split. by left. Qed.
Lemma assignment_after_trans P a b c : assignment_after P a b -> assignment_after P b c -> assignment_after P a c.
Proof. intros (E1 & E2 & E3) (F1 & F2 & F3). repeat split; [congruence..|]. rewrite E1 in F3. naive_solver congruence. Qed.

Lemma assignments_refl P l : Forall2 (assignment_after P) l l.
Proof. induction l; constructor; [apply assignment_after_refl|done]. Qed.
Lemma assignments_trans P l1 l2 l3 :
  Forall2 (assignment_after P) l1 l2 -> Forall2 (assignment_after P) l2 l3 -> Forall2 (assignment_after P) l1 l3.
Proof.
  intros E. revert l3. induction E as [|a b l l' Hab E IH]; intros l3 F; inversion F; subst; constructor;
    [by eapply assignment_after_trans|by apply IH].
Qed.

Lemma claims_refl P l : option_Forall2 (Forall2 (assignment_after P)) l l.
Proof. destruct l; constructor. apply assignments_refl. Qed.
Lemma claims_trans P l1 l2 l3 : option_Forall2 (Forall2 (assignment_after P)) l1 l2 ->
  option_Forall2 (Forall2 (assignment_after P)) l2 l3 -> option_Forall2 (Forall2 (assignment_after P)) l1 l3.
Proof.
  intros E F. destruct E as [x y E|]; inversion F; subst; constructor. by eapply assignments_trans.
Qed.

Lemma touched_refl P r : touched P r r.
Proof. exists (r_last_accessed r), (r_share_assignments r). split; [by destruct r|apply claims_refl]. Qed.
Lemma touched_trans P r1 r2 r3 : touched P r1 r2 -> touched P r2 r3 -> touched P r1 r3.
Proof. intros (a & b & -> & E) (a' & b' & -> & E'). exists a', b'. split; [done|]. by eapply claims_trans. Qed.
Lemma touched_read P a r : touched P r (set_last_accessed a r).
Proof. exists a, (r_share_assignments r). split; [by destruct r|apply claims_refl]. Qed.

Lemma mark_claimed_after (P : str -> Prop) cid l : P cid -> Forall2 (assignment_after P) l (mark_claimed cid l).
Proof.
  intros HP. induction l as [|x l IH]; cbn [mark_claimed]; [constructor|].
  destruct (str_eqb (a_custodian_id x) cid) eqn:E; constructor;
    try done; [|apply assignments_refl|apply assignment_after_refl].
  bool_to_prop. repeat split. right. split; [done|congruence].
Qed.

Section Access.
Context `{TextCodecsLaws} `{HashesLaws} `{JsonText} `{AeadLaws} `{PqCryptoLaws} `{OracleLaws} `{P256}.
Context `{!Serde KyberKeyPair} `{!Serde DilithiumKeyPair} `{!Serde KeyRecord}.
Context `{!Serde StoredEnvelopeRecord} `{!Serde EncryptedRecord} `{!Serde SecretEnvelope}.
Context `{!Serde (list Share)}.
Context `{!SerdeLaws KyberKeyPair (fun _ => True)} `{!SerdeLaws KeyRecord (fun _ => True)}.
Context `{!SerdeLaws StoredEnvelopeRecord record_ok} `{!SerdeLaws EncryptedRecord (fun _ => True)}.
Context (horizon : nat) `{!FreshUuids horizon}.
Variable random_scalars : nat -> nat -> scalar.
Variable state : BrokerState.

Abbreviation cipher := (sealed_store state).
Abbreviation evolves := (evolves horizon state).
Abbreviation preserves := (preserves horizon state).
Abbreviation serve := (serve random_scalars state).

(** The principals the callers act as. *)
Section Callers.
Variable P : str -> Prop.

Lemma touched_access manage r r' ctx : touched P r r' -> may_access manage r' ctx <-> may_access manage r ctx.
Proof. by intros (a & b & -> & _). Qed.

(** The record of step [t]'s handle is at most touched. *)
Definition spares (t : nat) (w w' : World) : Prop :=
  tick w <= tick w' /\
  (t < tick w -> tick w' <= horizon -> sys_inv state w -> sys_inv state w' /\
     forall r, records cipher w !! uuid_at t = Some r ->
       exists r', records cipher w' !! uuid_at t = Some r' /\ touched P r r').

#[export] Instance spares_preorder t : PreOrder (spares t).
Proof.
  split.
  - intros w. split; [done|]. intros _ _ Hi. split; [done|]. intros r Hr. exists r. split; [done|apply touched_refl].
  - intros w1 w2 w3 [T1 S1] [T2 S2]. split; [lia|]. intros Ht Hh Hi.
    destruct S1 as [I2 R1]; [lia..|done|]. destruct S2 as [I3 R2]; [lia..|done|]. split; [done|].
    intros r Hr. destruct (R1 r Hr) as (r1 & Hr1 & C1). destruct (R2 r1 Hr1) as (r2 & Hr2 & C2).
    exists r2. split; [done|by eapply touched_trans].
Qed.

Lemma preserves_spares t w w' : preserves w w' -> spares t w w'.
Proof.
  intros [T S]. split; [done|]. intros Ht Hh Hi. destruct (S Hh Hi) as [I [_ R]]. split; [done|].
  intros r Hr. exists r. rewrite R by done. split; [done|apply touched_refl].
Qed.

(** Operations on other records, reads, and claims by the callers. *)
Definition harmless (h : uuid) (op : StoreOp) : Prop :=
  match op with
  | OpInsert _ _ => False
  | OpLoad _ => True
  | OpClaim _ cid => P cid
  | _ => op_handle op <> h
  end.

Lemma spec_op_harmless h op now m r :
  harmless h op -> m !! h = Some r ->
  exists r', (spec_op op now m).2 !! h = Some r' /\ touched P r r'.
Proof.
  intros Hs Hr.
  assert (exists r', m !! h = Some r' /\ touched P r r') as Hsame by (exists r; split; [done|apply touched_refl]).
  destruct op as [h' x|h'|h'|h' k cs|h' e|h' a hs|h' cid|h'|h' lease|h' reason]; try done; unfold spec_op;
    cbn [op_handle harmless] in *; destruct (m !! h') as [r0|] eqn:E; try done; cbn [spec_rewrite snd];
    try (by rewrite ?lookup_insert_ne, ?lookup_delete_ne by done).
  - destruct (decide (h' = h)) as [->|]; [|by rewrite lookup_insert_ne].
    rewrite Hr in E. injection E as <-. rewrite lookup_insert_eq. eexists. split; [done|apply touched_read].
  - destruct (claim_step cid r0) as [[r1 c]|e|] eqn:C; cbn [rbind snd]; [|done..].
    destruct (decide (h' = h)) as [->|]; [|by rewrite lookup_insert_ne].
    rewrite Hr in E. injection E as <-. rewrite lookup_insert_eq. eexists. split; [done|].
    unfold claim_step in C. monad_inv. exists (r_last_accessed r). eexists. split.
    + match goal with E : r_held_shares r = Some _ |- _ => rewrite E end. by destruct r.
    + match goal with E : r_share_assignments r = Some _ |- _ => rewrite E end. constructor. by apply mark_claimed_after.
Qed.

Lemma spares_op {A} t (g : A -> StoreReply) op m :
  harmless (uuid_at t) op -> run_op cipher op = fmap_m g m -> frames (spares t) m.
Proof.
  intros Hs Heq w. assert (forall h x, op <> OpInsert h x) as Hni by (intros h x ->; done).
  assert ((run_op cipher op w).2 = (m w).2) as Ew.
  { rewrite Heq. unfold fmap_m, bind. by destruct (m w) as [[a|e|] w']. }
  pose proof (evolves_run_op horizon state op w Hni) as [T V]. rewrite Ew in T, V. split; [done|].
  intros Ht Hh Hi. destruct (V Hh Hi) as [I _]. split; [done|]. intros r Hr.
  destruct (store_op_refines cipher op w (inv_store _ _ Hi)) as [Hspec _];
    [destruct op; try done; by edestruct Hni|].
  apply (f_equal snd) in Hspec. cbn [snd] in Hspec. rewrite <- Ew, <- Hspec.
  by apply spec_op_harmless.
Qed.

Lemma spares_interact {E A} t (f : nat -> A) : frames (E := E) (spares t) (interact f).
Proof. eapply frames_mono, preserves_interact; [|done..]. apply preserves_spares. Qed.
Lemma spares_record t e : frames (spares t) (record_transparency e).
Proof.
  eapply frames_mono, quiet_record_transparency. intros w w' Hq. by apply preserves_spares, quiet_preserves.
Qed.

Ltac spare_op :=
  lazymatch goal with
  | |- frames _ (load _ ?h) => by apply (spares_op _ RMaybe (OpLoad h))
  | |- frames _ (claim_custodian_share _ ?h ?c) => by apply (spares_op _ RClaim (OpClaim h c))
  | |- frames _ (SealedStore.delete ?h) => by apply (spares_op _ RBool (OpDelete h))
  | |- frames _ (update_threshold_config _ ?h ?k ?cs) =>
    by apply (spares_op _ (fun _ => RUnit) (OpThreshold h k cs))
  | |- frames _ (append_third_party_caveat_key _ ?h ?e) =>
    by apply (spares_op _ (fun _ => RUnit) (OpCaveatKey h e))
  | |- frames _ (update_share_assignments _ ?h ?a ?hs) =>
    by apply (spares_op _ (fun _ => RUnit) (OpAssign h a hs))
  | |- frames _ (mark_redeem_used _ ?h) => by apply (spares_op _ (fun _ => RUnit) (OpMarkUsed h))
  | |- frames _ (renew_lease _ ?h ?l) => by apply (spares_op _ RRecord (OpRenew h l))
  | |- frames _ (revoke _ ?h ?r) => by apply (spares_op _ RBool (OpRevoke h r))
  | |- frames _ (record_transparency _) => apply spares_record
  end.
(** Code that continues with a fresh handle. *)
Lemma spares_persist_then {A} t ctx input (k : StoredSecretOutcome -> H A) :
  metadata_ok (i_metadata input) -> (forall o, frames evolves (k o)) ->
  (forall o, o_handle_id o <> uuid_at t -> frames (spares t) (k o)) ->
  frames (spares t) (bind (persist_secret_v2_with_lifecycle state ctx input) k).
Proof.
  intros Hm Hev Hk w. pose proof (preserves_persist horizon state ctx input Hm w) as P1. unfold bind.
  destruct (persist_secret_v2_with_lifecycle state ctx input w) as [[o|e|] w1] eqn:E;
    cbn [snd] in P1; [|by apply preserves_spares..].
  destruct (Hev o w1) as [T2 _]. destruct P1 as [T1 V1]. split; [lia|]. intros Ht Hh.
  enough (spares t w (k o w1).2) as [_ S] by (by apply S).
  transitivity w1; [by apply preserves_spares; split|]. apply Hk.
  apply persist_handle in E as [-> Hlt]. apply not_eq_sym. eapply fresh_at; [done|lia..].
Qed.

Ltac spare_step :=
  lazymatch goal with
  | |- frames _ (bind (persist_secret_v2_with_lifecycle _ _ _) _) =>
    apply spares_persist_then; [done|intros ?; evolve_run|intros ? ?]
  | _ => first [frame_step | apply spares_interact | spare_op]
  end.
Ltac spare_run := repeat spare_step.

Lemma spares_bind {E A B} t (m : M World E A) (k : A -> M World E B) w :
  spares t w (m w).2 -> (forall a w1, m w = (Ok a, w1) -> spares t w1 (k a w1).2) ->
  spares t w (bind m k w).2.
Proof.
  intros Hm Hk. unfold bind. destruct (m w) as [[a|e|] w1] eqn:E1; cbn [snd] in Hm; [|done..].
  transitivity w1; [done|by apply Hk].
Qed.

Lemma spares_bind_lift {E A B} t (r : result E A) (k : A -> M World E B) w :
  (forall a, r = Ok a -> spares t w (k a w).2) -> spares t w (bind (lift r) k w).2.
Proof. intros Hk. apply spares_bind; [reflexivity|]. intros a w1 [= -> <-]. by apply Hk. Qed.

(** ** Calls by a caller without access *)

Section Outsider.
Variables (t : nat) (w : World) (r : StoredEnvelopeRecord) (ctx : BrokerClientContext).
Hypothesis Hinv : sys_inv state w.
Hypothesis Hrec : records cipher w !! uuid_at t = Some r.
Hypothesis Hout : ~ may_access true r ctx.

Lemma outsider_other h r0 manage :
  records cipher w !! h = Some r0 -> may_access manage r0 ctx -> h <> uuid_at t.
Proof.
  intros Hr Hm ->. rewrite Hrec in Hr. injection Hr as <-. apply Hout.
  destruct Hm as (? & p & b & ? & ? & ? & ?). split; [done|]. exists p, b. naive_solver.
Qed.

Lemma frames_at {E A} R (m : M World E A) s : frames R m -> R s (m s).2.
Proof. intros Hf. apply Hf. Qed.

Lemma outsider_unwrap req : spares t w (unwrap_secret_v2 state ctx req w).2.
Proof.
  unfold unwrap_secret_v2. apply spares_bind.
  - apply frames_at. unfold authorize_unwrap. spare_run.
  - intros [h r'] w1 Ha. apply authorize_inv in Ha as (m & r0 & _ & -> & Hr & _ & [_ Hc _] & _); [|apply Hinv].
    apply check_record_ok in Hc as (_ & _ & Hm & _).
    assert (identifier m <> uuid_at t) as Hne by (by eapply outsider_other).
    apply frames_at. unfold complete_unwrap, mark_redeem_token_used, decrypt_record_payload, decrypt_pqc,
      decrypt_with_mlkem, load_kyber_keypair, load_keypair. spare_run.
Qed.

(** Reading a record and checking the caller against it. *)
Lemma outsider_checked {A} h manage (k : StoredEnvelopeRecord -> H A) :
  (forall r', h <> uuid_at t -> frames (spares t) (k r')) ->
  spares t w (bind (load_required state h) (fun r' =>
    bind (lift (validate_v2_record_identity_requirements_inner r' ctx manage)) (fun _ => k r')) w).2.
Proof.
  intros Hk. apply spares_bind; [apply frames_at; unfold load_required; spare_run|].
  intros r' w1 Hl. apply load_required_inv in Hl as (r0 & Hr & -> & _); [|apply Hinv].
  apply spares_bind_lift. intros [] Hv. apply identity_iff in Hv.
  by eapply frames_at, Hk, outsider_other.
Qed.

Lemma outsider_revoke req : spares t w (revoke_secret state ctx req w).2.
Proof.
  unfold revoke_secret. apply spares_bind_lift. intros h _.
  apply outsider_checked. intros r' Hne. spare_run.
Qed.

Lemma outsider_rotate req :
  metadata_ok (t_metadata req) -> spares t w (rotate_secret random_scalars state ctx req w).2.
Proof.
  intros Hm. unfold rotate_secret, rotate_token, split_redeem_token. apply spares_bind_lift. intros h _.
  apply outsider_checked. intros r' Hne. spare_run.
Qed.

Lemma outsider_renew req : spares t w (renew_lease_handler state ctx req w).2.
Proof.
  unfold renew_lease_handler. apply spares_bind_lift. intros [] _. apply spares_bind_lift. intros h _.
  apply spares_bind; [apply frames_at; unfold load_required; spare_run|].
  intros r' w1 Hl. apply load_required_inv in Hl as (r0 & Hr & -> & _); [|apply Hinv].
  do 2 (apply spares_bind_lift; intros [] _).
  apply spares_bind; [apply frames_at; spare_run|]. intros now w2 _.
  apply spares_bind_lift; intros [] _. apply spares_bind_lift. intros [] Hv.
  apply identity_iff in Hv. assert (h <> uuid_at t) as Hne by (by eapply outsider_other).
  apply frames_at. spare_run.
Qed.

Lemma outsider_attenuate req : spares t w (attenuate_handle_v2 state ctx req w).2.
Proof.
  unfold attenuate_handle_v2. apply spares_bind_lift. intros m _. apply spares_bind_lift. intros [] _.
  apply spares_bind; [apply frames_at; spare_run|]. intros found w1 Hl. apply map_err_m_ok in Hl.
  apply spares_bind_lift. intros r' Hf. apply ok_or_ok in Hf. subst found.
  apply spares_bind_lift. intros [] Hv. apply identity_iff in Hv.
  assert (identifier m <> uuid_at t) as Hne.
  { intros Hid. rewrite Hid in Hl. destruct (load_some cipher _ r w (inv_store _ _ Hinv) Hrec) as (w2 & Hl2 & _).
    rewrite Hl2 in Hl. injection Hl as <- _.
    eapply outsider_other; [exact Hrec|exact Hv|done]. }
  apply frames_at. unfold third_party_addition. spare_run.
Qed.

Lemma outsider_delete handle : spares t w (delete_secret state ctx handle w).2.
Proof.
  unfold delete_secret. apply spares_bind_lift. intros h _.
  apply spares_bind; [apply frames_at; spare_run|]. intros found w1 Hl. apply map_err_m_ok in Hl.
  apply spares_bind_lift. intros [] Hv. assert (h <> uuid_at t) as Hne.
  { intros ->. destruct (load_some cipher _ r w (inv_store _ _ Hinv) Hrec) as (w2 & Hl2 & _).
    rewrite Hl2 in Hl. injection Hl as <- _. apply identity_iff in Hv.
    eapply outsider_other; [exact Hrec|exact Hv|done]. }
  apply frames_at. spare_run.
Qed.
End Outsider.

Lemma spares_bind_bounded {E A B} t (m : M World E A) (k : A -> M World E B) w :
  spares t w (m w).2 -> (forall a, frames evolves (k a)) ->
  (forall a w1, m w = (Ok a, w1) -> t < tick w -> tick w1 <= horizon -> spares t w1 (k a w1).2) ->
  spares t w (bind m k w).2.
Proof.
  intros Hm Hev Hk. unfold bind. destruct (m w) as [[a|e|] w1] eqn:E1; cbn [snd] in Hm; [|done..].
  destruct (Hev a w1) as [T2 _], (decide (t < tick w /\ tick w1 <= horizon)) as [[Ht Hh]|Hn].
  - transitivity w1; [done|by apply Hk].
  - destruct Hm as [T1 _]. split; [lia|]. intros Ht Hh. destruct Hn. split; [done|lia].
Qed.

Lemma outsider_combine t w r ctx req :
  sys_inv state w -> records cipher w !! uuid_at t = Some r -> ~ may_access true r ctx ->
  spares t w (combine_shares state ctx req w).2.
Proof.
  intros Hi Hr Hout. unfold combine_shares, log_event. do 2 (apply spares_bind_lift; intros [] _).
  apply spares_bind_lift. intros h _.
  apply spares_bind_bounded; [apply frames_at; spare_run|intros ?; evolve_run; apply evolves_unwrap|].
  intros found w1 Hl Ht Hh1. apply map_err_m_ok in Hl.
  assert (spares t w w1) as S1 by (eapply frames_ok, Hl; spare_run).
  destruct S1 as [T1 S1]. destruct (S1 Ht Hh1 Hi) as [Hi1 R1]. destruct (R1 r Hr) as (r1 & Hr1 & C1).
  do 2 (apply spares_bind_lift; intros ? _). apply spares_bind; [|intros; apply frames_at; spare_run].
  rewrite map_err_m_state. eapply outsider_unwrap; [exact Hi1|exact Hr1|].
  by rewrite (touched_access true r r1).
Qed.

(** Every call, by its caller. *)
Definition caller_of (e : Event) : BrokerClientContext :=
  match e with
  | EWrap ctx _ | EMint ctx _ | EUnwrap ctx _ | EAttenuate ctx _ | EDischarge ctx _ | ERenew ctx _
  | ERevoke ctx _ | ERotate ctx _ | EDelete ctx _ | EClaim ctx _ | EDistribute ctx _ | ECombine ctx _ => ctx
  end.

Lemma spares_mint t ctx req :
  event_ok (EMint ctx req) -> frames (spares t) (mint_aead_key_v2 random_scalars state ctx req).
Proof.
  intros He. unfold mint_aead_key_v2, mint_redeem_token, split_redeem_token.
  apply frames_bind; [typeclasses eauto|apply spares_interact|intros created].
  apply frames_bind_lift; [typeclasses eauto|intros [expires ttl] Ht].
  assert (ttl = m_ttl_seconds req) as -> by (unfold enforce_ttl in Ht; destruct (m_ttl_seconds req); by monad_inv).
  spare_run.
Qed.

Lemma spares_claim t ctx req :
  (forall cid, trim_nonempty (principal_id ctx) = Some cid -> P cid) ->
  frames (spares t) (claim_share state ctx req).
Proof.
  intros HP. unfold claim_share, custody_lineage, log_event.
  apply frames_bind_lift; [typeclasses eauto|]. intros [] Hc. unfold custodian_caller in Hc.
  apply guard_bind_ok in Hc as [_ Hc]. apply guard_bind_ok in Hc as [_ Hc].
  apply rbind_ok in Hc as (p & Hp & Hc). apply ok_or_ok in Hp. apply guard_ok in Hc. bool_to_prop. subst p.
  apply HP in Hp. spare_run.
Qed.

Lemma spares_serve t e w r :
  (forall cid, trim_nonempty (principal_id (caller_of e)) = Some cid -> P cid) -> event_ok e -> sys_inv state w -> records cipher w !! uuid_at t = Some r ->
  ~ may_access true r (caller_of e) -> spares t w (serve e w).
Proof.
  intros HP He Hi Hr Hout.
  destruct e as [ctx req|ctx req|ctx req|ctx req|ctx req|ctx req|ctx req|ctx req|ctx h|ctx req|ctx req|ctx req];
    cbn [caller_of System.serve event_ok] in *.
  - apply frames_at. unfold wrap_secret_v2. spare_run.
  - apply frames_at. by apply spares_mint.
  - by eapply outsider_unwrap.
  - by eapply outsider_attenuate.
  - apply frames_at. unfold mint_discharge. spare_run.
  - by eapply outsider_renew.
  - by eapply outsider_revoke.
  - by eapply outsider_rotate.
  - by eapply outsider_delete.
  - apply frames_at. by apply spares_claim.
  - apply frames_at. unfold distribute_share, custody_lineage, log_event. spare_run.
  - by eapply outsider_combine.
Qed.

Lemma serves_rtc es w :
  Forall event_ok es -> rtc (step random_scalars state) w (foldl (flip serve) w es).
Proof.
  intros HF. revert w. induction HF as [|e es He HF IH]; intros w; [done|]. cbn [foldl].
  eapply rtc_l, IH. by constructor.
Qed.

Lemma spares_serves t es w r :
  sys_inv state w -> t < tick w -> tick (foldl (flip serve) w es) <= horizon ->
  records cipher w !! uuid_at t = Some r ->
  Forall (fun e => event_ok e /\ ~ may_access true r (caller_of e)) es ->
  (forall e cid, e ∈ es -> trim_nonempty (principal_id (caller_of e)) = Some cid -> P cid) ->
  exists r', records cipher (foldl (flip serve) w es) !! uuid_at t = Some r' /\ touched P r r'.
Proof.
  intros Hi Ht Hh Hr HF HP. revert w r Hi Ht Hh Hr HF HP.
  induction es as [|e es IH]; intros w r Hi Ht Hh Hr HF HP.
  - exists r. split; [done|apply touched_refl].
  - apply Forall_cons in HF as [[He Hout] HF]. cbn [foldl] in *. unfold flip in Hh at 2. unfold flip at 2.
    destruct (spares_serve t e w r (fun cid => HP e cid (list_elem_of_here _ _)) He Hi Hr Hout) as [T1 S1].
    assert (tick (serve e w) <= horizon) as Hh1.
    { assert (Forall event_ok es) as Hok by (eapply Forall_impl; [exact HF|by intros ? []]).
      pose proof (evolves_rtc horizon random_scalars state _ _ (serves_rtc es (serve e w) Hok)) as [T _]. lia. }
    destruct (S1 Ht Hh1 Hi) as [Hi1 R1]. destruct (R1 r Hr) as (r1 & Hr1 & C1).
    destruct (IH (serve e w) r1 Hi1) as (r2 & Hr2 & C2); [lia|done|done| |by intros; eapply HP; [apply list_elem_of_further|]|].
    { eapply Forall_impl; [exact HF|]. intros e' [? Ho]. split; [done|]. by rewrite (touched_access true r r1). }
    exists r2. split; [done|by eapply touched_trans].
Qed.

End Callers.

(** C6: callers that may neither use nor manage a secret cannot harm it: after
    any sequence of their calls its record is still there, with the same
    token, deadlines, revocation state, caveat keys, threshold and shares, and
    the same custodians for them; only the time of the last access may have
    changed, and an assignment can have become claimed only when its custodian
    is one of the callers. *)
Theorem outsiders_powerless es w h r :
  reachable random_scalars state w -> tick (foldl (flip serve) w es) <= horizon ->
  records cipher w !! h = Some r ->
  Forall (fun e => event_ok e /\ ~ may_access true r (caller_of e)) es ->
  exists r', records cipher (foldl (flip serve) w es) !! h = Some r'
    /\ touched (fun cid => exists e, e ∈ es /\ trim_nonempty (principal_id (caller_of e)) = Some cid) r r'.
Proof.
  intros Hre Hh Hr HF. assert (Forall event_ok es) as Hok by (eapply Forall_impl; [exact HF|by intros ? []]).
  pose proof (evolves_rtc horizon random_scalars state _ _ (serves_rtc es w Hok)) as [T _].
  pose proof (reachable_inv horizon random_scalars state w Hre ltac:(lia)) as Hi.
  destruct (reachable_old horizon random_scalars state w h r Hre ltac:(lia) Hr) as (t & Ht & <-).
  apply spares_serves; try done. intros e cid He Hc. by exists e.
Qed.

End Access.

(** * The theorems on concrete inputs *)

Module AccessExamples.
Import Reference ToyWorld ToyStore CryptoExamples BrokerExamples Toy257 UnwrapExamples SystemExamples.

(** [bob] tries to revoke the secret that [alice] wrapped. *)
Lemma outsiders_powerless_witness : exists o w1 h r r',
  let e := ERevoke bob (mkRevokeReq (wo_handle o) None) in
  records (sealed_store state0) (serve scalars0 state0 e w1) !! h = Some r'
  /\ touched (fun cid => exists e', e' ∈ [e] /\ trim_nonempty (principal_id (caller_of e')) = Some cid) r r'.
Proof.
  destruct session0 as (o & w1 & h & r & w2 & Hw & Hi & Hp & Hr & Hl & _ & _ & Ht & [[Hpr _] _] & _).
  assert (Hno : ~ may_access true r bob).
  { intros (_ & p & b & Hb & Hbound & [E|(_ & E & _)] & _); [|exact (E Hl)].
    rewrite Hpr in Hbound. vm_compute in Hb, Hbound. congruence. }
  assert (Hid : parse_handle_identifier state0 (wo_handle o) = Ok h).
  { apply (proj2 (parse_handle_identifier_ok state0 (wo_handle o) h)). eexists.
    split; [exact Hp|]. split; [reflexivity|]. apply verify_minted. }
  destruct (revoke_refused state0 bob (mkRevokeReq (wo_handle o) None) h r w1 Hi Hid Hr Hno) as [_ Htick].
  destruct (outsiders_powerless 1000 scalars0 state0 [ERevoke bob (mkRevokeReq (wo_handle o) None)] w1 h r
    (reachable1 o w1 Hw)) as (r' & Hr' & Hc).
  - change (tick (revoke_secret state0 bob (mkRevokeReq (wo_handle o) None) w1).2 <= 1000). lia.
  - exact Hr.
  - constructor; [|constructor]. split; [exact I|exact Hno].
  - exists o, w1, h, r, r'. exact (conj Hr' Hc).
Defined.

End AccessExamples.
