(* ===== verification/Recovery.v ===== *)
(** Threshold custody end to end: a key minted for custodians is given to
    nobody, and its custodians, having claimed their shares, recover it. *)

From S2P Require Import Prelude RustStd Externals Reference Macaroon MacaroonWire Threshold.
From S2P Require Import Transparency World SealedStore Config CryptoEngine Broker Issue Unwrap.
From S2P Require Import Manage Rotation Custody Evolution System Access.

Section Recovery.
Context `{TextCodecsLaws} `{HashesLaws} `{JsonText} `{AeadLaws} `{PqCryptoLaws} `{OracleLaws} `{P256Laws}.
Context `{!Serde KyberKeyPair} `{!Serde DilithiumKeyPair} `{!Serde KeyRecord}.
Context `{!Serde StoredEnvelopeRecord} `{!Serde EncryptedRecord} `{!Serde SecretEnvelope}.
Context `{!Serde (list Share)}.
Context `{!SerdeLaws KyberKeyPair (fun _ => True)} `{!SerdeLaws KeyRecord (fun _ => True)}.
Context `{!SerdeLaws StoredEnvelopeRecord record_ok} `{!SerdeLaws EncryptedRecord (fun _ => True)}.
Context `{!SerdeLaws (list Share) (fun _ => True)}.
Variable random_scalars : nat -> nat -> scalar.
Variable state : BrokerState.

Abbreviation cipher := (sealed_store state).

(** Only the time of the last access and the assignments differ, in any way. *)
Definition custody_changed (r r' : StoredEnvelopeRecord) : Prop :=
  exists a b, r' = set_last_accessed a (set_share_custody b (r_held_shares r) r).

(** A fresh record put in the custody of [ids], one dealt share each. *)
Definition with_custody (k : Z) (d : SplitResult) (ids : list str) (r : StoredEnvelopeRecord)
    : StoredEnvelopeRecord :=
  set_share_custody
    (Some (zip_with (fun cid s => mkAssignment cid (share_x s) false) ids (shares d)))
    (Some (held_for (shares d)))
    (set_threshold (Some k) (Some (map b64_encode (commitments d))) r).

Lemma assignments_for_ok ids ss :
  length ids <= length ss ->
  assignments_for ids ss = Ok (zip_with (fun cid s => mkAssignment cid (share_x s) false) ids ss).
Proof.
  revert ss. induction ids as [|cid ids IH]; intros [|s ss] Hl; cbn in *; try done; [lia|].
  by rewrite IH by lia.
Qed.

Lemma mint_token_ok h r token k n ids w :
  store_inv cipher w -> records cipher w !! h = Some r -> length token = 32 ->
  (1 < k <= n)%Z -> length ids = Z.to_nat n ->
  wp (mint_redeem_token random_scalars state h (b64_encode token) k n true ids) w (fun t w' =>
    t = [] /\ exists d, split (random_scalars (tick w)) token k n = Ok d
      /\ records cipher w' = <[h := with_custody k d ids r]> (records cipher w)
      /\ store_inv cipher w' /\ store_only w w' /\ within 3 w w').
Proof.
  intros Hi Hr Hlen Hk Hids. unfold mint_redeem_token. rewrite (proj2 (Z.ltb_lt _ _)) by lia.
  unfold split_redeem_token. wp_run. apply (wp_lift _ token); [by rewrite b64_roundtrip|].
  wp_run. apply (wp_lift _ tt); [by rewrite Hlen|]. wp_run. apply wp_interact.
  destruct (split_total (random_scalars (tick w)) token k n ltac:(lia)) as [d Hd].
  apply (wp_lift _ d); [by rewrite Hd|]. wp_run.
  pose proof (records_ok cipher w h r Hi Hr) as Hok.
  set (r1 := set_threshold (Some k) (Some (map b64_encode (commitments d))) r).
  destruct (update_some cipher h (fun r => ret (set_threshold (Some k) (Some (map b64_encode (commitments d))) r, tt))
    r r1 tt (advance w) (advance w)) as (w1 & Hw1 & R1 & I1 & S1 & T1); [done|done|done|done|done|].
  apply wp_eq. exists tt, w1. split; [exact Hw1|]. wp_run.
  apply (wp_lift _ (zip_with (fun cid s => mkAssignment cid (share_x s) false) ids (shares d))).
  { apply assignments_for_ok. apply split_ok in Hd as [_ ->]. cbn [shares].
    rewrite length_map, length_seq. lia. }
  wp_run.
  destruct (update_some cipher h (fun r => ret (set_share_custody
      (Some (zip_with (fun cid s => mkAssignment cid (share_x s) false) ids (shares d)))
      (Some (held_for (shares d))) r, tt)) r1 (with_custody k d ids r) tt w1 w1)
    as (w2 & Hw2 & R2 & I2 & S2 & T2); [done|by rewrite R1, lookup_insert_eq|done|done|exact Hok|].
  apply wp_eq. exists tt, w2. split; [exact Hw2|]. wp_run. split; [done|]. exists d. split; [done|].
  split; [rewrite R2, R1, insert_insert_eq; f_equal; by apply records_same|]. split; [done|].
  unfold store_only in *. cbn in S1, T1. split; [intuition congruence|]. unfold within. lia.
Qed.

Definition mint_input (request : MintV2Request) (key_bytes : bytes) (created : datetime)
    (expires : option datetime) (ttl : option Z) (principal : option str) : PersistSecretV2Input :=
  mkPersist key_bytes (default_customer_id state)
    (Some (JObject (mint_metadata (trim_nonempty (m_label request)) ttl))) created expires
    (m_lifecycle request) (m_initial_lease_seconds request) principal.

(** A request for a key in the custody of its custodians. *)
Record custody_request (request : MintV2Request) (k n : Z) : Prop := {
  cr_threshold : m_threshold request = Some k;
  cr_shares : m_num_shares request = Some n;
  cr_range : (1 < k <= n)%Z /\ (n <= 255)%Z;
  cr_custodians : length (m_custodian_ids request) = Z.to_nat n;
}.

(** What minting for custodians leaves. *)
Record minted (ctx : BrokerClientContext) (input : PersistSecretV2Input) (request : MintV2Request)
    (k n : Z) (o : MintV2Response) (h : uuid) (d : SplitResult) (r : StoredEnvelopeRecord)
    (w w' : World) : Prop := {
  minted_issued : exists nonce rs, issued state ctx input nonce r
    /\ split rs (compute_redeem_token state h (session_binding ctx (i_lifecycle input)).1.1 nonce) k n = Ok d;
  minted_out : o = mkMintOut (format_handle (mint (macaroon_root_key state h) h
                      (mint_caveats request (i_expires_at input))))
      (b64_encode (i_plaintext input)) (i_expires_at input) []
      (Some (i_created_at input + redeem_token_ttl state)%Z);
  minted_seals : seals state (i_plaintext input) r w';
  minted_uuid : length h = 16;
  minted_records : records cipher w'
    = <[h := with_custody k d (m_custodian_ids request) r]> (records cipher w);
  minted_inv : store_inv cipher w';
  minted_within : within 31 w w';
  minted_key : exists t, tick w <= t <= tick w + 31 /\ r_signing_key_expires_at r
    = if key_rotation_enabled (crypto_config state)
      then Some (time_at t + rotation (crypto_config state))%Z else None;
}.

Lemma mint_custody_ok ctx request k n w expires ttl principal :
  let created := time_at (tick w) in
  let key_bytes := random_at (S (tick w)) 32 in
  let input := mint_input request key_bytes created expires ttl principal in
  custody_request request k n ->
  store_inv cipher w -> engine_ready state (default_customer_id state) 31 w ->
  metadata_ok (i_metadata input) ->
  enforce_ttl (m_ttl_seconds request) state created = Ok (expires, ttl) ->
  v2_unwrap_principal ctx (m_lifecycle request) (m_unwrap_principal_id request) = Ok principal ->
  rfc3339_range (created + redeem_token_ttl state) ->
  is_ok (initial_lease created (m_initial_lease_seconds request)) = true ->
  wp (mint_aead_key_v2 random_scalars state ctx request) w (fun o w' =>
    exists h d r, minted ctx input request k n o h d r w w').
Proof.
  intros created key_bytes input [Hk Hn [Hkn Hn255] Hids] Hi HR Hm Ht Hp Hd Hl.
  unfold mint_aead_key_v2. wp_run. apply (wp_lift _ (expires, ttl)); [done|]. wp_run.
  rewrite Hk, Hn. change (default 1%Z (Some k)) with k. change (default 1%Z (Some n)) with n.
  apply (wp_lift _ tt).
  { by rewrite (proj2 (Z.ltb_ge _ _)), (proj2 (Z.ltb_ge _ _)) by lia. }
  wp_run. apply (wp_lift _ principal); [done|]. wp_run.
  eapply wp_mono.
  { apply (persist_ok state ctx input (advance (advance w))); [done| |done..].
    eapply engine_ready_later, HR; cbn; lia || done. }
  intros o w1 (nonce & r & Hiss & Hs & Ho & Hlen & Hrec & Hinv & _ & T1 & _ & t & Htt & Hexp).
  unfold within in T1. cbn in T1, Htt.
  assert ((1 <? k)%Z && negb (is_empty (m_custodian_ids request)) = true) as HC.
  { rewrite (proj2 (Z.ltb_lt _ _)) by lia. destruct (m_custodian_ids request); [cbn in Hids; lia|done]. }
  rewrite HC. wp_run. apply (wp_lift _ tt); [by rewrite Hids, Nat.eqb_refl|]. wp_run.
  rewrite Ho. cbn [o_redeem_token].
  eapply wp_mono; [apply (mint_token_ok _ r _ k n); [done|by rewrite Hrec, lookup_insert_eq|apply hmac_length|done..]|].
  intros tok w2 (-> & d & Hsp & Hrec2 & Hinv2 & Hso & T2). wp_run. cbn [o_handle_id] in *.
  eapply wp_mono; [apply record_transparency_ok|].
  intros _ w3 ((L1 & L2 & _) & T3). wp_run. unfold within in T2, T3. cbn in T3, L1, L2.
  exists (o_handle_id o), d, r. split.
  - exists nonce, (random_scalars (tick w1)). by split.
  - done.
  - eapply seals_same, Hs. destruct Hso as [<- _]. done.
  - done.
  - rewrite (records_same _ w2 w3) by done. rewrite Hrec2, Hrec, insert_insert_eq. done.
  - by eapply store_inv_same, Hinv2.
  - unfold within. lia.
  - exists t. split; [lia|done].
Qed.

(** The record as it is when the shares are combined: read and claimed since. *)
Definition custody_now (a : option datetime) (b : option (list ShareAssignment)) (k : Z)
    (d : SplitResult) (ids : list str) (r : StoredEnvelopeRecord) : StoredEnvelopeRecord :=
  set_last_accessed a (set_share_custody b (Some (held_for (shares d))) (with_custody k d ids r)).

Lemma custody_changed_now k d ids r r2 :
  custody_changed (with_custody k d ids r) r2 -> exists a b, r2 = custody_now a b k d ids r.
Proof. intros (a & b & ->). by exists a, b. Qed.

(** Whoever satisfies the policy presents dealt shares. *)
Lemma policy_dealt a b k d ids r cids ss :
  combine_policy (custody_now a b k d ids r) cids ss ->
  ss ⊆ shares d /\ NoDup ss /\ (k <= Z.of_nat (length ss))%Z.
Proof.
  intros (asg & held & _ & Hh & HF & _ & HN & _ & Hk). cbn in Hh. injection Hh as <-. split; [|split].
  - intros s Hs. apply list_elem_of_lookup in Hs as [i Hi].
    destruct (Forall2_lookup_r _ _ _ _ _ HF Hi) as (cid & _ & a0 & hs & _ & _ & _ & Hf & Hy).
    unfold find_held, held_for in Hf. apply List.find_some in Hf as [Hin Hx].
    apply list_elem_of_In, list_elem_of_fmap in Hin as (s' & -> & Hin). cbn in Hx, Hy.
    apply bool_decide_eq_true in Hx. rewrite b64_roundtrip in Hy. injection Hy as Hy.
    destruct s as [x y], s' as [x' y']. cbn in *. by subst.
  - by eapply NoDup_fmap_1.
  - by apply Hk.
Qed.

Lemma check_token_custody ctx ctx' input nonce r k n rs d ids h ss now a b :
  issued state ctx input nonce r ->
  split rs (compute_redeem_token state h (session_binding ctx (i_lifecycle input)).1.1 nonce) k n = Ok d ->
  (1 < k)%Z -> (n <= 255)%Z -> ss ⊆ shares d -> NoDup ss -> (k <= Z.of_nat (length ss))%Z ->
  live r now -> (i_lifecycle input = SingleUseUnwrap -> exporter ctx' = exporter ctx) ->
  check_redeem_token state ctx' h (custody_now a b k d ids r) (to_vec ss) now = Ok tt.
Proof.
  intros. by eapply (check_token_dealt state ctx ctx' input nonce r k n rs d h ss now a b (Some (held_for (shares d)))).
Qed.

Lemma mint_caveats_hold request payload expires keys now :
  (forall v, m_tenant_id request = Some v -> u_tenant_id payload = Some v) ->
  (forall v, m_provider request = Some v -> u_provider payload = Some v) ->
  (forall e, expires = Some e -> rfc3339_range e /\ (now <= e)%Z) ->
  Forall (fun c => encodable c /\ forall sig, check (unwrap_verifier payload now keys) c sig = Ok tt)
    (mint_caveats request expires).
Proof.
  intros Ht Hp He. unfold mint_caveats. rewrite !Forall_app. split; [|split; [|split]].
  - apply Forall_caveat_opt. intros v Hv. split; [done|]. intros. apply check_equal_present, Ht, Hv.
  - apply Forall_caveat_opt. intros v Hv. split; [done|]. intros. apply check_equal_present, Hp, Hv.
  - apply Forall_caveat_opt. intros e Hx. destruct (He e Hx). split; [done|]. intros. cbn.
    by rewrite (proj2 (Z.ltb_ge _ _)).
  - repeat constructor.
Qed.

(** The conditions under which the custodians can recover the key in [w2]. *)
Record recoverable (ctx ctx' : BrokerClientContext) (request : MintV2Request) (o : MintV2Response)
    (h : uuid) (k : Z) (d : SplitResult) (r : StoredEnvelopeRecord) (req : CombineSharesRequest)
    (w1 w2 : World) : Prop := {
  rc_inv : store_inv cipher w2;
  rc_record : exists r2, records cipher w2 !! h = Some r2
    /\ custody_changed (with_custody k d (m_custodian_ids request) r) r2
    /\ combine_policy r2 (cb_custodian_ids req) (cb_shares req);
  rc_kyber : kyber_keys w2 = kyber_keys w1;
  rc_handle : cb_handle req = mo_handle o;
  rc_tenant v : m_tenant_id request = Some v -> cb_tenant_id req = Some v;
  rc_provider v : m_provider request = Some v -> cb_provider req = Some v;
  rc_access : may_access false r ctx';
  rc_session : m_lifecycle request = SingleUseUnwrap -> exporter ctx' = exporter ctx;
  rc_live t : t <= 5 -> live r (time_at (tick w2 + t));
}.

Lemma parse_minted ctx input request k n o h d r w w1 :
  minted ctx input request k n o h d r w w1 ->
  Forall (fun c => fits_u16 (encode c)) (mint_caveats request (i_expires_at input)) ->
  parse_handle_v2 (mo_handle o)
  = Ok (mint (macaroon_root_key state h) h (mint_caveats request (i_expires_at input))).
Proof.
  intros HM Hfit. rewrite (minted_out _ _ _ _ _ _ _ _ _ _ _ HM). cbn [mo_handle].
  apply parse_format, minted_fits; [apply HM|done|].
  unfold mint_caveats, caveat_opt. rewrite !length_app. repeat case_match; cbn; lia.
Qed.

Lemma custody_grants ctx ctx' input request k n o h d r w w1 w2 a b req payload t1 t2 :
  minted ctx input request k n o h d r w w1 -> i_lifecycle input = m_lifecycle request ->
  (1 < k)%Z -> (n <= 255)%Z -> (forall e, i_expires_at input = Some e -> rfc3339_range e) ->
  seals state (i_plaintext input) r w2 ->
  combine_policy (custody_now a b k d (m_custodian_ids request) r) (cb_custodian_ids req) (cb_shares req) ->
  payload = mkUnwrapReq (cb_handle req) (to_vec (cb_shares req)) (cb_tenant_id req) (cb_provider req) None None [] ->
  (forall v, m_tenant_id request = Some v -> cb_tenant_id req = Some v) ->
  (forall v, m_provider request = Some v -> cb_provider req = Some v) ->
  may_access false r ctx' -> (m_lifecycle request = SingleUseUnwrap -> exporter ctx' = exporter ctx) ->
  live r t1 -> live r t2 ->
  grants state ctx' payload (mint (macaroon_root_key state h) h (mint_caveats request (i_expires_at input)))
    (custody_now a b k d (m_custodian_ids request) r) t1 t2.
Proof.
  intros HM Hlc Hk Hn He Hs Hpol -> Htn Hpv Hacc Hx L1 L2.
  destruct (minted_issued _ _ _ _ _ _ _ _ _ _ _ HM) as (nonce & rs & HI & Hsp).
  pose proof (issued_expiry _ _ _ _ _ HI) as Ex. split.
  - exists []. unfold discharge_keys_for_record.
    change (r_third_party_caveat_keys (custody_now a b k d (m_custodian_ids request) r))
      with (r_third_party_caveat_keys r). rewrite (issued_caveat_keys _ _ _ _ _ HI).
    split; [done|]. apply verify_minted_ok, mint_caveats_hold; [done..|].
    intros e E. split; [by apply He|]. apply (proj1 L1). by rewrite Ex.
  - eapply (check_record_live state ctx' _ (i_plaintext input) w2); [apply (issued_live _ _ _ _ _ HI)|done|done|].
    destruct Hs. by split.
  - destruct (policy_dealt _ _ _ _ _ _ _ _ Hpol) as (Hss & ND & Hl).
    eapply (check_token_custody ctx ctx' input nonce r k n rs); try done. by rewrite Hlc.
Qed.

Lemma combine_ok ctx ctx' input request k n o h d r w w1 w2 req :
  minted ctx input request k n o h d r w w1 -> i_lifecycle input = m_lifecycle request ->
  quantum_enabled (crypto_config state) = true -> (1 < k)%Z -> (n <= 255)%Z ->
  (forall e, i_expires_at input = Some e -> rfc3339_range e) ->
  Forall (fun c => fits_u16 (encode c)) (mint_caveats request (i_expires_at input)) ->
  recoverable ctx ctx' request o h k d r req w1 w2 ->
  wp (combine_shares state ctx' req) w2 (fun out w' =>
    out = mkCombineOut (i_plaintext input) /\ tick w' <= tick w2 + 13).
Proof.
  intros HM Hlc Hq Hk Hn He Hfit [Hi2 (r2 & Hr2 & Hto & Hpol) Hk2 Hh Htn Hpv Hacc Hx HL].
  apply custody_changed_now in Hto as (a & b & ->).
  set (m := mint (macaroon_root_key state h) h (mint_caveats request (i_expires_at input))).
  assert (Hp : parse_handle_v2 (cb_handle req) = Ok m) by (rewrite Hh; by eapply parse_minted).
  destruct (policy_dealt _ _ _ _ _ _ _ _ Hpol) as (_ & _ & Hlen).
  unfold combine_shares, log_event. wp_run. apply (wp_lift _ tt).
  { rewrite Hh, (minted_out _ _ _ _ _ _ _ _ _ _ _ HM). done. }
  wp_run. apply (wp_lift _ tt). { destruct (cb_shares req); [cbn in Hlen; lia|done]. }
  wp_run. apply (wp_lift _ h).
  { apply map_err_ok, parse_handle_identifier_ok. exists m. split; [done|]. split; [done|]. apply verify_minted. }
  wp_run. destruct (load_some cipher h _ w2 Hi2 Hr2) as (w3 & Hl & Hrec3 & Hi3 & (K3 & _) & T3).
  apply wp_eq. do 2 eexists. split; [exact Hl|]. wp_run. eapply wp_lift; [reflexivity|]. wp_run.
  set (a' := Some (time_at (tick w2))).
  change (set_last_accessed a' (custody_now a b k d (m_custodian_ids request) r))
    with (custody_now a' b k d (m_custodian_ids request) r) in *.
  apply (wp_lift _ (cb_shares req)); [by apply combine_checks_policy|]. wp_run.
  unfold unwrap_secret_v2. wp_run. set (payload := mkUnwrapReq _ _ _ _ _ _ _).
  assert (seals state (i_plaintext input) r w3) as Hs3
    by (eapply seals_same, (minted_seals _ _ _ _ _ _ _ _ _ _ _ HM); congruence).
  eapply wp_mono.
  { apply (authorize_ok state ctx' payload m (custody_now a' b k d (m_custodian_ids request) r) w3); [done|done| |].
    - cbn [m mint identifier]. by rewrite Hrec3, lookup_insert_eq.
    - rewrite T3. eapply (custody_grants ctx ctx' input request k n o h d r w w1 w3 a' b req); try done.
      + replace (tick w2 + 2 + 2) with (tick w2 + 4) by lia. apply HL. lia.
      + replace (tick w2 + 2 + 3) with (tick w2 + 5) by lia. apply HL. lia. }
  intros [h' r'] w4 (-> & -> & Hrec4 & Hi4 & (K4 & _) & T4). cbn [m mint identifier] in *.
  destruct (minted_issued _ _ _ _ _ _ _ _ _ _ _ HM) as (nonce & rs & HI & _).
  eapply wp_mono.
  { eapply (complete_ok state ctx' payload h _ _ (i_plaintext input)); [done|done| | |by rewrite Hrec4, lookup_insert_eq|done].
    - pose proof (seals_same state _ _ w3 w4 K4 Hs3) as [? ?]. by split.
    - change (r_envelope (set_last_accessed (Some (time_at (tick w3))) (custody_now a' b k d (m_custodian_ids request) r)))
        with (r_envelope r). rewrite (issued_exporter _ _ _ _ _ HI), Hlc.
      destruct (m_lifecycle request); cbn; [|done..]. by rewrite b64_roundtrip, Hx. }
  intros out w5 (-> & _ & _ & _ & [_ T5]). wp_run. cbn [plaintext]. rewrite b64_roundtrip.
  apply (wp_lift _ (i_plaintext input)); [done|]. wp_run.
  eapply wp_mono; [apply record_transparency_ok|]. intros _ w6 [_ [_ T6]]. wp_run. cbn [tick advance] in T6.
  split; [done|lia].
Qed.

(** ** Claiming *)

Lemma find_mark c c' l :
  find_assignment c (mark_claimed c' l) =
  if decide (c = c') then (fun a => mkAssignment (a_custodian_id a) (a_share_index a) true) <$> find_assignment c l
  else find_assignment c l.
Proof.
  induction l as [|x l IH]; [by case_decide|]. cbn [mark_claimed].
  destruct (str_eqb (a_custodian_id x) c') eqn:E; cbn [find_assignment List.find a_custodian_id];
    unfold find_assignment in *; cbn [List.find]; bool_to_prop.
  - destruct (str_eqb (a_custodian_id x) c) eqn:E2; bool_to_prop.
    + by rewrite decide_True by congruence.
    + by rewrite decide_False by congruence.
  - destruct (str_eqb (a_custodian_id x) c) eqn:E2; bool_to_prop; [|exact IH].
    by rewrite decide_False by congruence.
Qed.

Lemma find_dealt ids ss i cid s :
  NoDup ids -> ids !! i = Some cid -> ss !! i = Some s ->
  find_assignment cid (zip_with (fun cid s => mkAssignment cid (share_x s) false) ids ss)
  = Some (mkAssignment cid (share_x s) false).
Proof.
  revert ss i. induction ids as [|c ids IH]; intros [|x ss] i ND Hi Hs; try done.
  apply NoDup_cons in ND as [Hnew ND]. cbn [zip_with]. unfold find_assignment in *. cbn [List.find a_custodian_id].
  destruct i as [|i]; cbn in Hi, Hs.
  - injection Hi as ->. injection Hs as ->. by rewrite str_eqb_refl.
  - rewrite (proj2 (str_eqb_neq c cid)); [by apply (IH ss i)|].
    intros ->. apply Hnew. by eapply list_elem_of_lookup_2.
Qed.

Lemma find_held_dealt ss s :
  NoDup (map share_x ss) -> s ∈ ss ->
  find_held (share_x s) (held_for ss) = Some (mkHeld (share_x s) (b64_encode (share_y s))).
Proof.
  unfold find_held, held_for. induction ss as [|x ss IH]; intros ND Hs; [by apply elem_of_nil in Hs|].
  apply NoDup_cons in ND as [Hnew ND]. cbn [map List.find h_x].
  apply elem_of_cons in Hs as [->|Hs]; [by rewrite bool_decide_eq_true_2|].
  rewrite bool_decide_eq_false_2; [by apply IH|]. intros E. apply Hnew. rewrite E.
  apply list_elem_of_fmap. by exists s.
Qed.

(** The custodian of the dealt share [s], calling for itself. *)
Record claimant (r : StoredEnvelopeRecord) (ids : list str) (d : SplitResult)
    (cctx : BrokerClientContext) (cid : str) (s : Share) : Prop := {
  cl_self : trim_nonempty (principal_id cctx) = Some cid;
  cl_lineage : validate_threshold_custody_record_requirements r cctx = Ok tt;
  cl_share : exists i, ids !! i = Some cid /\ shares d !! i = Some s;
}.

(** Assignments after the custodians [past] have claimed. *)
Definition claimed_by (ids : list str) (d : SplitResult) (past : list str) : list ShareAssignment :=
  foldr mark_claimed (zip_with (fun cid s => mkAssignment cid (share_x s) false) ids (shares d)) past.

Lemma find_claimed_by ids d past i cid s :
  NoDup ids -> ids !! i = Some cid -> shares d !! i = Some s ->
  find_assignment cid (claimed_by ids d past) = Some (mkAssignment cid (share_x s) (bool_decide (cid ∈ past))).
Proof.
  intros ND Hi Hs. induction past as [|c past IH]; cbn [claimed_by foldr].
  - rewrite (find_dealt ids (shares d) i cid s) by done. done.
  - rewrite find_mark. fold (claimed_by ids d past). rewrite IH. destruct (decide (cid = c)) as [<-|E].
    + cbn [fmap option_fmap option_map a_custodian_id a_share_index].
      rewrite (bool_decide_eq_true_2 (cid ∈ cid :: past)); [done|]. apply elem_of_cons. by left.
    + f_equal. f_equal. apply bool_decide_ext. rewrite elem_of_cons. naive_solver.
Qed.

Definition response_of (d : SplitResult) (past : list str) (cid : str) (s : Share) : ClaimShareResponse :=
  mkClaimOut (share_x s) (share_y s) (commitments d) (bool_decide (cid ∈ past)).

Lemma claim_ok handle h k d ids r past a cctx cid s w :
  store_inv cipher w -> parse_handle_identifier state handle = Ok h -> NoDup ids ->
  NoDup (map share_x (shares d)) ->
  records cipher w !! h = Some (custody_now a (Some (claimed_by ids d past)) k d ids r) ->
  claimant r ids d cctx cid s ->
  wp (claim_share state cctx (mkClaimReq handle cid)) w (fun o w' =>
    o = response_of d past cid s
    /\ (exists a', records cipher w' !! h = Some (custody_now a' (Some (claimed_by ids d (cid :: past))) k d ids r))
    /\ store_inv cipher w' /\ kyber_keys w' = kyber_keys w /\ within 5 w w').
Proof.
  intros Hi Hp ND NDx Hr [Hself Hlin (i & Hid & Hs)]. unfold claim_share, custody_lineage, log_event.
  cbn [cl_handle cl_custodian_id]. wp_run. apply (wp_lift _ tt).
  { unfold custodian_caller. rewrite Hself. cbn [ok_or rbind]. rewrite str_eqb_refl.
    apply trim_nonempty_Some in Hself as (raw & _ & _ & Hne).
    destruct handle as [|c handle]; [by vm_compute in Hp|]. by destruct cid. }
  wp_run. apply (wp_lift _ h); [by rewrite Hp|]. wp_run.
  destruct (load_some cipher h _ w Hi Hr) as (w1 & Hl & R1 & I1 & (K1 & _) & T1).
  apply wp_eq. do 2 eexists. split; [exact Hl|]. cbn beta iota. apply (wp_lift _ tt).
  { apply map_err_ok. exact Hlin. }
  wp_run. set (a' := Some (time_at (tick w))) in *.
  change (set_last_accessed a' (custody_now a (Some (claimed_by ids d past)) k d ids r))
    with (custody_now a' (Some (claimed_by ids d past)) k d ids r) in *.
  assert (claim_step cid (custody_now a' (Some (claimed_by ids d past)) k d ids r)
    = Ok (custody_now a' (Some (claimed_by ids d (cid :: past))) k d ids r,
          mkClaim (share_x s) (share_y s) (commitments d) (bool_decide (cid ∈ past)))) as Hstep.
  { unfold claim_step. cbn [custody_now with_custody r_share_assignments r_held_shares r_threshold_commitments
      set_last_accessed set_share_custody set_threshold ok_or rbind].
    rewrite (find_claimed_by ids d past i cid s) by done. cbn [ok_or rbind a_share_index a_claimed].
    rewrite find_held_dealt by (done || by eapply list_elem_of_lookup_2). cbn [ok_or rbind h_y_b64 h_x].
    rewrite b64_roundtrip. cbn [ok_or rbind]. do 2 f_equal.
    rewrite map_map. rewrite <- (map_id (commitments d)) at 2.
    f_equal. apply map_ext. intros c. by rewrite b64_roundtrip. }
  pose proof (records_ok cipher w h _ Hi Hr) as Hok.
  destruct (update_some cipher h (fun r => lift (claim_step cid r))
      (custody_now a' (Some (claimed_by ids d past)) k d ids r)
      (custody_now a' (Some (claimed_by ids d (cid :: past))) k d ids r)
      (mkClaim (share_x s) (share_y s) (commitments d) (bool_decide (cid ∈ past))) w1 w1)
    as (w2 & Hw2 & R2 & I2 & (K2 & _) & T2);
    [done|by rewrite R1, lookup_insert_eq|unfold lift; by rewrite Hstep|done|exact Hok|].
  apply wp_eq. do 2 eexists. split; [exact Hw2|]. wp_run.
  eapply wp_mono; [apply record_transparency_ok|].
  intros _ w3 ((L1 & L2 & _) & T3). wp_run. unfold within in *. cbn in L1, L2, T3.
  split; [done|]. split; [exists a'; rewrite (records_same _ w2 w3) by done; by rewrite R2, lookup_insert_eq|].
  split; [by eapply store_inv_same, I2|]. split; [congruence|lia].
Qed.

(** Several custodians claim, one after the other. *)
Fixpoint claim_all (handle : str) (claims : list (BrokerClientContext * str)) : HC (list ClaimShareResponse) :=
  match claims with
  | [] => ret []
  | (cctx, cid) :: claims =>
    let* o := claim_share state cctx (mkClaimReq handle cid) in
    let* os := claim_all handle claims in
    ret (o :: os)
  end.

(** The share a custodian was given. *)
Definition share_of (o : ClaimShareResponse) : Share := mkShare (co_x o) (co_y o).

Lemma claim_all_ok handle h k d ids r claims ss : forall past a w,
  store_inv cipher w -> parse_handle_identifier state handle = Ok h -> NoDup ids ->
  NoDup (map share_x (shares d)) ->
  records cipher w !! h = Some (custody_now a (Some (claimed_by ids d past)) k d ids r) ->
  Forall2 (fun c s => claimant r ids d c.1 c.2 s) claims ss ->
  wp (claim_all handle claims) w (fun os w' =>
    map share_of os = ss
    /\ (exists a', records cipher w' !! h
          = Some (custody_now a' (Some (claimed_by ids d (rev (map snd claims) ++ past))) k d ids r))
    /\ store_inv cipher w' /\ kyber_keys w' = kyber_keys w
    /\ tick w <= tick w' <= tick w + 5 * length claims).
Proof.
  revert ss. induction claims as [|[cctx cid] claims IH]; intros ss past a w Hi Hp ND NDx Hr HF.
  - apply Forall2_nil_inv_l in HF as ->. cbn [claim_all]. wp_run. split; [done|]. split; [by exists a|].
    split; [done|]. split; [done|]. cbn. lia.
  - apply Forall2_cons_inv_l in HF as (s & ss' & Hc & HF & ->). cbn [fst snd] in Hc. cbn [claim_all]. wp_run.
    eapply wp_mono; [by eapply claim_ok|]. intros o w1 (-> & (a1 & Hr1) & I1 & K1 & [T1 T1']). wp_run.
    eapply wp_mono; [by eapply (IH ss' (cid :: past) a1 w1)|].
    intros os w2 (<- & (a2 & Hr2) & I2 & K2 & T2). wp_run. split.
    + cbn [map]. f_equal. by destruct s.
    + split; [exists a2; cbn [map rev snd]; by rewrite <- app_assoc|]. split; [done|]. split; [congruence|].
      cbn [length]. lia.
Qed.

Lemma claimants_distinct r ids d claims ss :
  NoDup (map share_x (shares d)) -> NoDup (map snd claims) ->
  Forall2 (fun c s => claimant r ids d c.1 c.2 s) claims ss -> NoDup (map share_x ss).
Proof.
  intros NDx NDc HF. apply NoDup_alt. intros i j x Hi Hj.
  apply list_lookup_fmap_Some in Hi as (s & -> & Hi). apply list_lookup_fmap_Some in Hj as (s' & Hx & Hj).
  destruct (Forall2_lookup_r _ _ _ _ _ HF Hi) as ([c1 id1] & Hc1 & [_ _ (i1 & Hid1 & Hs1)]).
  destruct (Forall2_lookup_r _ _ _ _ _ HF Hj) as ([c2 id2] & Hc2 & [_ _ (i2 & Hid2 & Hs2)]). cbn [snd] in *.
  assert (i1 = i2) as <-.
  { apply (proj1 (NoDup_alt _) NDx i1 i2 (share_x s)); apply list_lookup_fmap_Some; eauto. }
  assert (id1 = id2) as <- by congruence.
  apply (proj1 (NoDup_alt _) NDc i j id1); apply list_lookup_fmap_Some;
    [by exists (c1, id1)|by exists (c2, id1)].
Qed.

(** After the claims, the custodians satisfy the policy. *)
Lemma claimed_policy a k d ids r claims ss past :
  NoDup ids -> NoDup (map share_x (shares d)) ->
  Forall2 (fun c s => claimant r ids d c.1 c.2 s) claims ss ->
  NoDup (map snd claims) -> (k <= Z.of_nat (length claims))%Z ->
  combine_policy (custody_now a (Some (claimed_by ids d (rev (map snd claims) ++ past))) k d ids r)
    (map snd claims) ss.
Proof.
  intros ND NDx HF NDc Hk. set (all := rev (map snd claims) ++ past).
  exists (claimed_by ids d all), (held_for (shares d)). split; [done|]. split; [done|].
  split; [|split; [done|split; [|split]]].
  - apply Forall2_same_length_lookup_2; [rewrite length_map; by eapply Forall2_length|].
    intros j cid s Hc Hs. apply list_lookup_fmap_Some in Hc as ([cctx cid'] & -> & Hc). cbn [snd].
    destruct (Forall2_lookup_lr _ _ _ _ _ _ HF Hc Hs) as [_ _ (i & Hid & Hsi)]. cbn [snd] in Hid.
    exists (mkAssignment cid' (share_x s) (bool_decide (cid' ∈ all))), (mkHeld (share_x s) (b64_encode (share_y s))).
    split; [by apply (find_claimed_by ids d all i)|]. cbn [a_claimed a_share_index h_y_b64].
    split; [|split; [done|split; [|by rewrite b64_roundtrip]]].
    + apply bool_decide_eq_true_2. unfold all. apply elem_of_app. left.
      apply list_elem_of_In. rewrite <- in_rev. apply list_elem_of_In, list_elem_of_fmap.
      exists (cctx, cid'). split; [done|by eapply list_elem_of_lookup_2].
    + apply find_held_dealt; [done|by eapply list_elem_of_lookup_2].
  - by eapply claimants_distinct.
  - apply Forall_forall. intros cid Hc. apply list_elem_of_fmap in Hc as ([cctx cid'] & -> & Hc).
    apply list_elem_of_lookup in Hc as [j Hc]. destruct (Forall2_lookup_l _ _ _ _ _ HF Hc) as (s & _ & [Hself _ _]).
    cbn [fst snd] in *. apply trim_nonempty_Some in Hself as (raw & _ & -> & Hne). by rewrite trim_idem.
  - intros k' [= <-]. apply Forall2_length in HF. lia.
Qed.

Lemma dealt_nodup random secret k n d :
  (n <= 255)%Z -> split random secret k n = Ok d -> NoDup (map share_x (shares d)) /\ length (shares d) = Z.to_nat n.
Proof.
  intros Hn [_ ->]%split_ok. cbn [shares]. split; [|by rewrite length_map, length_seq].
  rewrite map_map. apply NoDup_fmap_2_strong; [|apply NoDup_seq].
  intros i j Hi%elem_of_seq Hj%elem_of_seq E. apply (share_at_inj [] i j) in E as [_ ?]; [done|lia..].
Qed.

(** Every custodian has a share. *)
Lemma claimants_exist r ids d claims :
  length ids = length (shares d) ->
  Forall (fun c => trim_nonempty (principal_id c.1) = Some c.2 /\ c.2 ∈ ids
    /\ validate_threshold_custody_record_requirements r c.1 = Ok tt) claims ->
  exists ss, Forall2 (fun c s => claimant r ids d c.1 c.2 s) claims ss.
Proof.
  intros Hlen HF. induction HF as [|[cctx cid] claims (Hp & Hin & Hv) HF [ss IH]]; [by exists []|].
  cbn [fst snd] in *. apply list_elem_of_lookup in Hin as [i Hid].
  destruct (lookup_lt_is_Some_2 (shares d) i) as [s Hs];
    [rewrite <- Hlen; by eapply lookup_lt_Some|].
  exists (s :: ss). constructor; [|done]. split; [done|done|by exists i].
Qed.

(** C13: threshold custody works end to end: minting a key for custodians
    succeeds and returns no redeem token; any threshold of distinct
    custodians can each claim a share, in any order; and a caller with access
    that combines the claimed shares gets exactly the minted key. *)
Theorem custody_flow ctx request k n w expires ttl principal :
  let created := time_at (tick w) in
  let input := mint_input request (random_at (S (tick w)) 32) created expires ttl principal in
  custody_request request k n -> NoDup (m_custodian_ids request) ->
  store_inv cipher w -> engine_ready state (default_customer_id state) 31 w ->
  metadata_ok (i_metadata input) ->
  enforce_ttl (m_ttl_seconds request) state created = Ok (expires, ttl) ->
  v2_unwrap_principal ctx (m_lifecycle request) (m_unwrap_principal_id request) = Ok principal ->
  rfc3339_range (created + redeem_token_ttl state) ->
  is_ok (initial_lease created (m_initial_lease_seconds request)) = true ->
  (forall e, expires = Some e -> rfc3339_range e) ->
  Forall (fun c => fits_u16 (encode c)) (mint_caveats request expires) ->
  exists o w1 h d r key, mint_aead_key_v2 random_scalars state ctx request w = (Ok o, w1)
    /\ minted ctx input request k n o h d r w w1
    /\ mo_redeem_token o = [] /\ mo_key o = b64_encode key
    /\ forall claims ctx' tenant provider,
      Forall (fun c => trim_nonempty (principal_id c.1) = Some c.2 /\ c.2 ∈ m_custodian_ids request
        /\ validate_threshold_custody_record_requirements r c.1 = Ok tt) claims ->
      NoDup (map snd claims) -> (k <= Z.of_nat (length claims))%Z ->
      may_access false r ctx' -> (m_lifecycle request = SingleUseUnwrap -> exporter ctx' = exporter ctx) ->
      (forall v, m_tenant_id request = Some v -> tenant = Some v) ->
      (forall v, m_provider request = Some v -> provider = Some v) ->
      (forall t, t <= tick w1 + 5 * length claims + 5 -> live r (time_at t)) ->
      exists os w2 w3, claim_all (mo_handle o) claims w1 = (Ok os, w2)
        /\ combine_shares state ctx'
             (mkCombineReq (mo_handle o) (map share_of os) tenant provider (map snd claims)) w2
           = (Ok (mkCombineOut key), w3).
Proof.
  intros created input Hreq NDi Hi HR Hm Httl Hpr Hdl Hl He Hfit.
  pose proof (mint_custody_ok ctx request k n w expires ttl principal Hreq Hi HR Hm Httl Hpr Hdl Hl) as HM.
  apply wp_eq in HM as (o & w1 & Hmint & h & d & r & HM). destruct Hreq as [_ _ [Hkn Hn] Hids].
  exists o, w1, h, d, r, (i_plaintext input). split; [done|]. split; [done|].
  pose proof (minted_out _ _ _ _ _ _ _ _ _ _ _ HM) as Ho.
  split; [by rewrite Ho|]. split; [by rewrite Ho|].
  intros claims ctx' tenant provider HF NDc Hk Hacc Hx Htn Hpv HL.
  destruct (minted_issued _ _ _ _ _ _ _ _ _ _ _ HM) as (nonce & rs & HI & Hsp).
  destruct (dealt_nodup _ _ _ _ _ Hn Hsp) as [NDx Hlen].
  destruct (claimants_exist r (m_custodian_ids request) d claims) as [ss HC]; [congruence|done|].
  assert (Hp : parse_handle_identifier state (mo_handle o) = Ok h).
  { apply parse_handle_identifier_ok. eexists. split; [by eapply parse_minted|]. split; [done|apply verify_minted]. }
  assert (HA := claim_all_ok (mo_handle o) h k d (m_custodian_ids request) r claims ss [] (r_last_accessed r) w1
    (minted_inv _ _ _ _ _ _ _ _ _ _ _ HM) Hp NDi NDx).
  ospecialize (HA _ HC).
  { rewrite (minted_records _ _ _ _ _ _ _ _ _ _ _ HM), lookup_insert_eq. by destruct r. }
  apply wp_eq in HA as (os & w2 & HA & Hss & (a' & Hr2) & I2 & K2 & T2). exists os, w2.
  assert (HU := combine_ok ctx ctx' input request k n o h d r w w1 w2
    (mkCombineReq (mo_handle o) (map share_of os) tenant provider (map snd claims)) HM eq_refl
    (ready_quantum _ _ _ _ HR) ltac:(lia) Hn He Hfit).
  ospecialize (HU _).
  { split; cbn [cb_handle cb_shares cb_tenant_id cb_provider cb_custodian_ids]; try done.
    - eexists. split; [exact Hr2|]. split; [by eexists _, _|]. rewrite Hss.
      by apply claimed_policy.
    - intros t Ht. apply HL. lia. }
  apply wp_eq in HU as (out & w3 & HU & -> & _). exists w3. by split.
Qed.

End Recovery.

(** * The theorems on concrete inputs *)

Module RecoveryExamples.
Import Reference ToyWorld ToyStore CryptoExamples BrokerExamples Toy257 UnwrapExamples SystemExamples.

Definition carol : BrokerClientContext :=
  from_tls_exporter (le_bytes 32 79) None (Some #"spiffe://prod/carol") (Some (le_bytes 32 7)) None.

(** A key for three custodians, two of which can recover it. *)
Definition mint0 : MintV2Request :=
  mkMintReq (Some 3600%Z) None (Some #"acme") None (Some 2%Z) (Some 3%Z) SingleUseUnwrap None
    [ #"spiffe://prod/bob"; #"spiffe://prod/dave"; #"spiffe://prod/carol"] None.

Definition minput0 : PersistSecretV2Input :=
  mint_input state0 mint0 (random_at (S (tick empty_world)) 32) (time_at (tick empty_world)) expires0
    (Some 3600%Z) principal0.

Lemma ready31 : engine_ready state0 (default_customer_id state0) 31 empty_world.
Proof.
  split; try reflexivity.
  - by eexists.
  - intros t Ht _. change (rotation _) with (86400 * 10^9)%Z. cbn [tick empty_world] in Ht.
    split; [by vm_compute|]. unfold rfc3339_range, time_at, toy_oracle. lia.
  - intros t t' Ht Ht'. change (rotation _) with (86400 * 10^9)%Z. cbn [tick empty_world] in *.
    unfold time_at, toy_oracle. lia.
Qed.

Lemma request0 : custody_request mint0 2 3.
Proof. split; try reflexivity; lia. Qed.
Lemma custodians0 : NoDup (m_custodian_ids mint0).
Proof. apply (bool_decide_unpack _). vm_compute. exact I. Qed.
Lemma mint_metadata0 : metadata_ok (i_metadata minput0).
Proof. split; [discriminate|]. split; vm_compute; reflexivity. Qed.
Lemma mint_ttl0 : enforce_ttl (m_ttl_seconds mint0) state0 (time_at (tick empty_world)) = Ok (expires0, Some 3600%Z).
Proof. vm_compute. reflexivity. Qed.
Lemma mint_caveats0_fit : Forall (fun c => fits_u16 (encode c)) (mint_caveats mint0 expires0).
Proof. apply (bool_decide_unpack _). vm_compute. exact I. Qed.

Lemma mint_live0 o h d r w1 t :
  minted state0 alice minput0 mint0 2 3 o h d r empty_world w1 -> t <= 100 -> live r (time_at t).
Proof.
  intros HM Ht. destruct (minted_issued _ _ _ _ _ _ _ _ _ _ _ _ HM) as (nonce & rs & HI & _).
  destruct (minted_key _ _ _ _ _ _ _ _ _ _ _ _ HM) as (t0 & Ht0 & Hk).
  change (if key_rotation_enabled (crypto_config state0) then Some (time_at t0 + rotation (crypto_config state0))%Z
    else None) with (Some (time_at t0 + 86400 * 10^9)%Z) in Hk.
  split; [|split; [|split]].
  - rewrite (issued_expiry _ _ _ _ _ HI). intros e [= <-]. unfold time_at, toy_oracle. lia.
  - rewrite (issued_deadline _ _ _ _ _ HI). intros e [= <-].
    unfold time_at, toy_oracle. change (hours 24) with (86400 * 10^9)%Z. lia.
  - rewrite Hk. intros e [= <-]. unfold time_at, toy_oracle. lia.
  - rewrite (issued_lifecycle _ _ _ _ _ HI). done.
Qed.

(** A custodian other than the issuer has the lineage to claim. *)
Lemma custodian0 nonce r cctx cid cert :
  issued state0 alice minput0 nonce r -> authenticated_transport cctx = true ->
  trim_nonempty (principal_id cctx) = Some cid -> peer_cert_sha256 cctx = Some cert ->
  cid <> #"spiffe://prod/alice" ->
  validate_threshold_custody_record_requirements r cctx = Ok tt.
Proof.
  intros HI Ha Hp Hc Hne. apply (proj2 (custody_iff r cctx)). split; [exact Ha|]. exists cid. split; [exact Hp|].
  split; [rewrite (issued_transport _ _ _ _ _ HI); reflexivity|].
  exists #"spiffe://prod/alice", cert, (b64_encode (le_bytes 32 9)).
  split; [rewrite (issued_by _ _ _ _ _ HI); vm_compute; reflexivity|].
  split; [exact Hc|]. split; [rewrite (issued_peer _ _ _ _ _ HI); vm_compute; reflexivity|].
  split; [intros E; destruct (Hne E)|]. rewrite (issued_attestation _ _ _ _ _ HI). exact I.
Qed.

Lemma custody_flow_witness : exists o w1 os w2 w3 key,
  mint_aead_key_v2 scalars0 state0 alice mint0 empty_world = (Ok o, w1)
  /\ claim_all state0 (mo_handle o) [(bob, #"spiffe://prod/bob"); (carol, #"spiffe://prod/carol")] w1 = (Ok os, w2)
  /\ combine_shares state0 alice (mkCombineReq (mo_handle o) (map share_of os) (Some #"acme") None
       [ #"spiffe://prod/bob"; #"spiffe://prod/carol"]) w2 = (Ok (mkCombineOut key), w3)
  /\ mo_key o = b64_encode key.
Proof.
  destruct (custody_flow scalars0 state0 alice mint0 2 3 empty_world expires0 (Some 3600%Z) principal0
    request0 custodians0 inv0 ready31 mint_metadata0 mint_ttl0 principal0_ok deadline0 eq_refl expires0_ok
    mint_caveats0_fit) as (o & w1 & h & d & r & key & Hm & HM & _ & Hkey & HC).
  destruct (minted_issued _ _ _ _ _ _ _ _ _ _ _ _ HM) as (nonce & rs & HI & _).
  pose proof (minted_within _ _ _ _ _ _ _ _ _ _ _ _ HM) as [_ Ht]. cbn [tick empty_world] in Ht.
  destruct (HC [(bob, #"spiffe://prod/bob"); (carol, #"spiffe://prod/carol")] alice (Some #"acme") None)
    as (os & w2 & w3 & Hc & Hcomb).
  - constructor; [|constructor; [|constructor]]; cbn [fst snd].
    + split; [vm_compute; reflexivity|]. split; [apply (bool_decide_unpack _); vm_compute; exact I|].
      exact (custodian0 nonce r bob #"spiffe://prod/bob" (le_bytes 32 8) HI eq_refl ltac:(vm_compute; reflexivity)
        eq_refl ltac:(discriminate)).
    + split; [vm_compute; reflexivity|]. split; [apply (bool_decide_unpack _); vm_compute; exact I|].
      exact (custodian0 nonce r carol #"spiffe://prod/carol" (le_bytes 32 7) HI eq_refl ltac:(vm_compute; reflexivity)
        eq_refl ltac:(discriminate)).
  - apply (bool_decide_unpack _). vm_compute. exact I.
  - cbn. lia.
  - exact (issuer_may_unwrap state0 alice minput0 nonce r HI principal0_ok ltac:(discriminate)).
  - reflexivity.
  - intros v Hv. exact Hv.
  - intros v Hv. discriminate Hv.
  - intros t Htt. cbn [length] in Htt. apply (mint_live0 o h d r w1 t HM). lia.
  - exists o, w1, os, w2, w3, key. exact (conj Hm (conj Hc (conj Hcomb Hkey))).
Defined.

End RecoveryExamples.
