(* ===== verification/Grpc.v ===== *)
(** The gRPC service (secret_broker_server_impl.rs): the messages of
    secret_broker.proto, their conversion to and from the requests of the
    handlers, the status codes of errors, and every remote call. *)

From S2P Require Import Prelude RustStd Externals Reference Macaroon MacaroonWire Threshold.
From S2P Require Import Transparency World SealedStore Config CryptoEngine CipherEngine Broker Issue Unwrap.
From S2P Require Import Delegate Manage Custody Postgres.

(** ** Status *)

Inductive Code :=
| InvalidArgument | NotFound | FailedPrecondition | Unauthenticated | PermissionDenied
| UnavailableCode | Internal.

(** What the message of a status is printed from. *)
Inductive StatusCause :=
| Message (text : str)
| OfService (e : ServiceError.t)
| OfCustody (e : CustodyError)
| OfEngine (e : EngineError)
| OfCrypto (e : CryptoError)
| UnsupportedName (algorithm : str).

Record Status := mkStatus { code : Code; cause : StatusCause }.

Definition invalid_argument (m : str) : Status := mkStatus InvalidArgument (Message m).
Definition internal (m : str) : Status := mkStatus Internal (Message m).

(** [svc_err]: every error is internal. *)
Definition svc_err {E} (f : E -> StatusCause) (e : E) : Status := mkStatus Internal (f e).

Definition service_code (e : ServiceError.t) : Code :=
  match e with
  | ServiceError.InvalidBase64 | ServiceError.Serialization | ServiceError.InvalidHandle
  | ServiceError.InvalidTtl | ServiceError.InvalidAttenuation _ => InvalidArgument
  | ServiceError.HandleNotFound => NotFound
  | ServiceError.ExpiredHandle | ServiceError.RevokedHandle | ServiceError.MissingLineage _ =>
    FailedPrecondition
  | ServiceError.UnauthenticatedTransport | ServiceError.AuthenticatedPrincipalRequired => Unauthenticated
  | ServiceError.SignatureInvalid | ServiceError.ExporterBindingMismatch
  | ServiceError.RedeemTokenInvalid | ServiceError.RedeemTokenExpired | ServiceError.RedeemTokenUsed
  | ServiceError.PrincipalMismatch | ServiceError.PeerCertMismatch | ServiceError.AttestationMismatch
  | ServiceError.UnauthorizedDischargePrincipal => PermissionDenied
  | ServiceError.Unavailable _ => UnavailableCode
  | ServiceError.Storage _ | ServiceError.Crypto _ | ServiceError.Database => Internal
  end.

(** [Unavailable] shows its message alone. *)
Definition svc_service_err (e : ServiceError.t) : Status :=
  mkStatus (service_code e)
    (match e with ServiceError.Unavailable message => Message message | _ => OfService e end).

(** ** Messages *)

Record Timestamp := mkTimestamp { seconds : Z; nanos : Z }.

(** [timestamp_subsec_nanos] is non-negative: the seconds are rounded down. *)
Definition chrono_to_timestamp (dt : datetime) : option Timestamp :=
  Some (mkTimestamp (timestamp dt) (dt mod ns_per_sec)%Z).

(** [prost_types::Value]; a number is the bit pattern of its [f64], and the
    fields of a struct are in key order. *)
Inductive prost_value :=
| PNull
| PNumber (bits : Z)
| PString (s : str)
| PBool (b : bool)
| PStruct (fields : list (str * prost_value))
| PList (values : list prost_value)
| PNone.

(** [json!(n)]: numbers that are not finite become null. *)
Definition json_f64 (bits : Z) : json :=
  if (Z.land (Z.shiftr bits 52) 2047 =? 2047)%Z then JNull else JNumber (Float bits).

Definition json_object (fields : list (str * json)) : json :=
  JObject (foldl (fun m kv => obj_insert kv.1 kv.2 m) [] fields).

Fixpoint prost_value_to_json (v : prost_value) : json :=
  match v with
  | PNull => JNull
  | PNumber n => json_f64 n
  | PString s => JString s
  | PBool b => JBool b
  | PStruct fields => json_object (map (fun kv => (kv.1, prost_value_to_json kv.2)) fields)
  | PList values => JArray (map prost_value_to_json values)
  | PNone => JNull
  end.

Definition prost_struct_to_json (fields : list (str * prost_value)) : json :=
  json_object (map (fun kv => (kv.1, prost_value_to_json kv.2)) fields).

Record ThresholdShare := mkThresholdShare { ts_x : Z; ts_y : bytes }.

Record WrapSecretV2Request := mkWrapMsg {
  gw_plaintext : bytes;
  gw_customer_id : str;
  gw_metadata : option (list (str * prost_value));
  gw_lifecycle : Z;
  gw_initial_lease_seconds : Z;
  gw_label : str;
  gw_tenant_id : str;
  gw_provider : str;
  gw_circuit_id : str;
  gw_node_id : str;
  gw_unwrap_principal_id : str;
  gw_ttl_seconds : Z;
}.

Record WrapSecretResponse := mkWrapReply {
  gwo_handle : str;
  gwo_created_at : option Timestamp;
  gwo_expires_at : option Timestamp;
  gwo_redeem_token : bytes;
  gwo_redeem_token_expires_at : option Timestamp;
}.

Record MintAeadKeyV2Request := mkMintMsg {
  gm_ttl_seconds : Z;
  gm_label : str;
  gm_tenant_id : str;
  gm_provider : str;
  gm_threshold : Z;
  gm_num_shares : Z;
  gm_lifecycle : Z;
  gm_initial_lease_seconds : Z;
  gm_custodian_ids : list str;
  gm_unwrap_principal_id : str;
}.

Record MintAeadKeyV2Response := mkMintReply {
  gmo_key : bytes;
  gmo_handle : str;
  gmo_expires_at : option Timestamp;
  gmo_redeem_token : bytes;
  gmo_redeem_shares : list ThresholdShare;
  gmo_redeem_token_expires_at : option Timestamp;
  gmo_threshold : Z;
  gmo_num_shares : Z;
}.

Record UnwrapSecretV2Request := mkUnwrapMsg {
  gu_handle : str;
  gu_redeem_token : bytes;
  gu_redeem_shares : list ThresholdShare;
  gu_tenant_id : str;
  gu_provider : str;
  gu_circuit_id : str;
  gu_node_id : str;
  gu_discharges : list str;
}.

Record AttenuateHandleV2Request := mkAttenuateMsg {
  ga_handle : str;
  ga_tenant_id : str;
  ga_provider : str;
  ga_circuit_id : str;
  ga_node_id : str;
  ga_action : str;
  ga_max_uses : Z;
  ga_third_party : option (str * str);
}.

Record AttenuateHandleV2Response := mkAttenuateReply {
  gao_handle : str;
  gao_third_party_caveat_id : str;
}.

Record RevokeReply := mkRevokeReply { gk_revoked : bool; gk_revoked_at : option Timestamp }.
Record RenewReply := mkRenewReply { gn_lease_expires_at : option Timestamp; gn_renewal_count : Z }.

Record RotateMsg := mkRotateMsg {
  gt_old_handle : str;
  gt_new_plaintext : bytes;
  gt_customer_id : str;
  gt_metadata : option (list (str * prost_value));
  gt_ttl_seconds : Z;
  gt_lifecycle : Z;
  gt_rotation_reason : str;
  gt_threshold : Z;
  gt_num_shares : Z;
}.

Record RotateReply := mkRotateReply {
  gto_new_handle : str;
  gto_created_at : option Timestamp;
  gto_expires_at : option Timestamp;
  gto_redeem_token : bytes;
  gto_redeem_token_expires_at : option Timestamp;
  gto_old_revoked : bool;
  gto_new_shares : list ThresholdShare;
}.

Record ClaimReply := mkClaimReply {
  gc_share : option ThresholdShare;
  gc_commitments : list bytes;
  gc_previously_claimed : bool;
}.

Record DistributeMsg := mkDistributeMsg {
  gd_handle : str;
  gd_share_index : Z;
  gd_share : option ThresholdShare;
  gd_custodian_id : str;
}.

Record CombineMsg := mkCombineMsg {
  gb_handle : str;
  gb_shares : list ThresholdShare;
  gb_tenant_id : str;
  gb_provider : str;
  gb_custodian_ids : list str;
}.

Record CryptoEncryptRequest := mkEncryptMsg {
  ge_key_id : str;
  ge_plaintext : bytes;
  ge_algorithm : str;
  ge_customer_id : str;
}.
Record CryptoEncryptResponse := mkEncryptReply {
  geo_ciphertext : bytes;
  geo_key_id : str;
  geo_nonce : bytes;
}.

Record CryptoDecryptRequest := mkDecryptMsg {
  gx_key_id : str;
  gx_ciphertext : bytes;
  gx_algorithm : str;
  gx_customer_id : str;
}.
Record CryptoDecryptResponse := mkDecryptReply { gxo_plaintext : bytes; gxo_verified : bool }.

Record IssuePostgresCredentialsRequest := mkPgMsg {
  gp_audience : str;
  gp_scope : list str;
  gp_ttl_seconds : Z;
  gp_application_name : str;
}.
Record IssuePostgresCredentialsResponse := mkPgReply {
  gpo_database_url : str;
  gpo_username : str;
  gpo_password : str;
  gpo_expires_at : option Timestamp;
  gpo_ca_certificate_pem : str;
  gpo_server_cert_fingerprint : str;
}.

Record DescribeChannelResponse := mkChannel {
  ch_session_id : str;
  ch_tls_exporter : bytes;
  ch_tls_exporter_hash : bytes;
  ch_authenticated_transport : bool;
  ch_principal_id : str;
  ch_peer_cert_sha256 : bytes;
  ch_attestation_digest : bytes;
}.

(** ** Conversions *)

Definition empty_to_none (value : str) : option str :=
  let trimmed := trim value in if is_empty trimmed then None else Some trimmed.

(** [if v.is_empty() { None } else { Some(v) }] *)
Definition nonempty (value : str) : option str := if is_empty value then None else Some value.
(** [if n > 0 { Some(n) } else { None }] of an unsigned number *)
Definition positive (n : Z) : option Z := if (0 <? n)%Z then Some n else None.

Definition parse_crypto_algorithm (value : str) : result Status EncryptionAlgorithm :=
  let name := trim value in
  if str_in name [ []; #"aes-256-gcm"] then Ok Aes256Gcm
  else if str_eqb name #"chacha20-poly1305" then Ok ChaCha20Poly1305
  else if str_eqb name #"xchacha20-poly1305" then Ok XChaCha20Poly1305
  else if str_eqb name #"kyber768" then Ok Kyber768
  else Err (mkStatus InvalidArgument (UnsupportedName name)).

Definition customer_or_default (value : str) : str :=
  let trimmed := trim value in if is_empty trimmed then #"default" else trimmed.

Definition share_to_proto (s : Share) : ThresholdShare := mkThresholdShare (u8 (share_x s)) (share_y s).

Definition share_from_proto (x_message y_message : str) (s : ThresholdShare) : result Status Share :=
  let! _ := guard ((ts_x s =? 0)%Z || (255 <? ts_x s)%Z) (invalid_argument x_message) in
  let! _ := guard (negb (length (ts_y s) =? SHARE_LENGTH)%nat) (invalid_argument y_message) in
  Ok (mkShare (to_u8 (ts_x s)) (ts_y s)).

(** The thresholds of a mint request: zero means none, more than 255 is refused. *)
Definition byte_or_none (n : Z) (m : str) : result Status (option Z) :=
  if (n =? 0)%Z then Ok None else if (n <=? 255)%Z then Ok (Some n) else Err (invalid_argument m).

Definition wrap_request (req : WrapSecretV2Request) : WrapV2Request :=
  mkWrapReq (gw_plaintext req) (empty_to_none (gw_customer_id req))
    (prost_struct_to_json <$> gw_metadata req) (from_proto_i32 (gw_lifecycle req))
    (positive (gw_ttl_seconds req)) (positive (gw_initial_lease_seconds req))
    (empty_to_none (gw_label req)) (empty_to_none (gw_tenant_id req)) (empty_to_none (gw_provider req))
    (empty_to_none (gw_circuit_id req)) (empty_to_none (gw_node_id req))
    (empty_to_none (gw_unwrap_principal_id req)).

Definition mint_request (req : MintAeadKeyV2Request) : result Status MintV2Request :=
  let! threshold := byte_or_none (gm_threshold req) #"threshold must be <= 255" in
  let! num_shares := byte_or_none (gm_num_shares req) #"num_shares must be <= 255" in
  Ok (mkMintReq (positive (gm_ttl_seconds req)) (empty_to_none (gm_label req))
        (empty_to_none (gm_tenant_id req)) (empty_to_none (gm_provider req)) threshold num_shares
        (from_proto_i32 (gm_lifecycle req)) (positive (gm_initial_lease_seconds req))
        (gm_custodian_ids req) (empty_to_none (gm_unwrap_principal_id req))).

Definition attenuate_request (req : AttenuateHandleV2Request) : AttenuateV2Request :=
  mkAttenuateReq (ga_handle req) (empty_to_none (ga_tenant_id req)) (empty_to_none (ga_provider req))
    (empty_to_none (ga_circuit_id req)) (empty_to_none (ga_node_id req)) (empty_to_none (ga_action req))
    (if (ga_max_uses req =? 0)%Z then None else Some (ga_max_uses req))
    ((fun '(location, condition) => mkThirdParty location condition) <$> ga_third_party req).

(** [req.threshold as u8]: the low byte. *)
Definition rotate_request (req : RotateMsg) : RotateSecretRequest :=
  mkRotateReq (gt_old_handle req) (gt_new_plaintext req) (nonempty (gt_customer_id req))
    (prost_struct_to_json <$> gt_metadata req)
    (if (gt_ttl_seconds req =? 0)%Z then None else Some (gt_ttl_seconds req))
    (nonempty (gt_rotation_reason req)) (from_proto_i32 (gt_lifecycle req))
    ((fun n => n mod 256)%Z <$> positive (gt_threshold req))
    ((fun n => n mod 256)%Z <$> positive (gt_num_shares req)).

Section Grpc.
Context `{TextCodecs} `{Hashes} `{JsonText} `{Aead} `{PqCrypto} `{Oracle} `{AeadData} `{P256}.
Context `{!Serde KyberKeyPair} `{!Serde DilithiumKeyPair} `{!Serde KeyRecord}.
Context `{!Serde StoredEnvelopeRecord} `{!Serde EncryptedRecord} `{!Serde SecretEnvelope}.
Context `{!Serde (list Share)}.
Variable random_scalars : nat -> nat -> scalar.
Variable state : BrokerState.

Abbreviation G := (M World Status).
Abbreviation config := (crypto_config state).
Abbreviation store_key := (crypto_store_key state).

(** [broker_context]: the context the connection attached to the request. *)
Definition broker_context (extension : option BrokerClientContext) : result Status BrokerClientContext :=
  ok_or extension (mkStatus FailedPrecondition (Message
    #"secret-broker requests require authenticated live mTLS connection context")).

(** ** Secrets *)

Definition rpc_wrap_secret_v2 (ext : option BrokerClientContext) (req : WrapSecretV2Request)
    : G WrapSecretResponse :=
  let* context := lift (broker_context ext) in
  let* now := utc_now in
  let* outcome := map_err_m svc_service_err (wrap_secret_v2 state context (wrap_request req)) in
  let* redeem_token := lift (ok_or (b64_decode (wo_redeem_token outcome))
                               (internal #"redeem token base64 decode")) in
  ret (mkWrapReply (wo_handle outcome) (chrono_to_timestamp now)
         (wo_expires_at outcome ≫= chrono_to_timestamp) redeem_token
         (wo_redeem_token_expires_at outcome ≫= chrono_to_timestamp)).

Definition rpc_delete_secret (ext : option BrokerClientContext) (handle : str) : G unit :=
  let* context := lift (broker_context ext) in
  let* _ := map_err_m (svc_err OfService) (delete_secret state context handle) in
  ret tt.

(** The token or the shares of a mint response. *)
Definition mint_reply_token (threshold : Z) (redeem_token : str) : result Status (bytes * list ThresholdShare) :=
  if (1 <? threshold)%Z then
    if is_empty redeem_token then Ok ([], [])
    else
      let! dealt := ok_or (from_slice (A := list Share) redeem_token) (internal #"share decode") in
      Ok ([], map share_to_proto dealt)
  else
    let! token := ok_or (b64_decode redeem_token) (internal #"redeem token base64 decode") in
    Ok (token, []).

Definition rpc_mint_aead_key_v2 (ext : option BrokerClientContext) (req : MintAeadKeyV2Request)
    : G MintAeadKeyV2Response :=
  let* context := lift (broker_context ext) in
  let* handler_req := lift (mint_request req) in
  let effective_threshold := default 1%Z (m_threshold handler_req) in
  let effective_num_shares := default 1%Z (m_num_shares handler_req) in
  let* result := map_err_m svc_service_err (mint_aead_key_v2 random_scalars state context handler_req) in
  let* key_bytes := lift (ok_or (b64_decode (mo_key result)) (internal #"key base64 decode")) in
  let* (redeem_token, redeem_shares) :=
    lift (mint_reply_token effective_threshold (mo_redeem_token result)) in
  ret (mkMintReply key_bytes (mo_handle result) (mo_expires_at result ≫= chrono_to_timestamp)
         redeem_token redeem_shares (mo_redeem_token_expires_at result ≫= chrono_to_timestamp)
         effective_threshold effective_num_shares).

(** The token text the handler expects: shares as JSON, or the raw token in
    base64. *)
Definition unwrap_token (req : UnwrapSecretV2Request) : result Status str :=
  if negb (is_empty (gu_redeem_shares req)) then
    let! shares := collect (share_from_proto #"share x must be in 1..=255"
                              #"share y must be exactly 32 bytes") (gu_redeem_shares req) in
    Ok (to_vec shares)
  else if negb (is_empty (gu_redeem_token req)) then Ok (b64_encode (gu_redeem_token req))
  else Err (invalid_argument #"either redeem_token or redeem_shares must be provided").

(** Discharges that cannot be read are dropped. *)
Definition read_discharges (tokens : list str) : list DischargeMacaroon :=
  omap (fun t => result_ok (discharge_deserialize t)) tokens.

Definition unwrap_request (req : UnwrapSecretV2Request) (redeem_token : str) : UnwrapV2Request :=
  mkUnwrapReq (gu_handle req) redeem_token (empty_to_none (gu_tenant_id req))
    (empty_to_none (gu_provider req)) (empty_to_none (gu_circuit_id req))
    (empty_to_none (gu_node_id req)) (read_discharges (gu_discharges req)).

Definition rpc_unwrap_secret_v2 (ext : option BrokerClientContext) (req : UnwrapSecretV2Request)
    : G bytes :=
  let* context := lift (broker_context ext) in
  let* redeem_token := lift (unwrap_token req) in
  let* resp := map_err_m svc_service_err
    (unwrap_secret_v2 state context (unwrap_request req redeem_token)) in
  lift (ok_or (b64_decode (plaintext resp)) (internal #"base64 decode")).

Definition rpc_attenuate_handle_v2 (ext : option BrokerClientContext) (req : AttenuateHandleV2Request)
    : G AttenuateHandleV2Response :=
  let* context := lift (broker_context ext) in
  let* result := map_err_m (svc_err OfService) (attenuate_handle_v2 state context (attenuate_request req)) in
  ret (mkAttenuateReply (ao_handle result) (default [] (ao_third_party_caveat_id result))).

(** ** Management *)

Definition rpc_renew_lease (ext : option BrokerClientContext) (req : RenewLeaseRequest) : G RenewReply :=
  let* context := lift (broker_context ext) in
  let* result := map_err_m svc_service_err (renew_lease_handler state context req) in
  ret (mkRenewReply (chrono_to_timestamp (no_lease_expires_at result)) (no_renewal_count result)).

Definition rpc_revoke_secret (ext : option BrokerClientContext) (handle reason : str) : G RevokeReply :=
  let* context := lift (broker_context ext) in
  let* result := map_err_m svc_service_err
    (revoke_secret state context (mkRevokeReq handle (nonempty reason))) in
  ret (mkRevokeReply (ko_revoked result) (ko_revoked_at result ≫= chrono_to_timestamp)).

Definition rpc_rotate_secret (ext : option BrokerClientContext) (req : RotateMsg) : G RotateReply :=
  let* context := lift (broker_context ext) in
  let* result := map_err_m svc_service_err
    (rotate_secret random_scalars state context (rotate_request req)) in
  ret (mkRotateReply (to_new_handle result) (chrono_to_timestamp (to_created_at result))
         (to_expires_at result ≫= chrono_to_timestamp) (to_redeem_token result)
         (to_redeem_token_expires_at result ≫= chrono_to_timestamp) (to_old_revoked result)
         (map share_to_proto (to_new_shares result))).

Definition rpc_mint_discharge (ext : option BrokerClientContext) (req : MintDischargeRequest) : G str :=
  let* context := lift (broker_context ext) in
  let* result := map_err_m svc_service_err (mint_discharge state context req) in
  ret (discharge_token result).

(** ** Custody *)

(** The custodian is the authenticated caller; a name in the request may only
    confirm it. *)
Definition claim_caller (context : BrokerClientContext) (custodian_id : str) : result Status str :=
  let! principal := ok_or (trim_nonempty (principal_id context)) (mkStatus PermissionDenied
    (Message #"ClaimShare requires an authenticated broker principal identity")) in
  let! _ := guard (negb (is_empty (trim custodian_id)) && negb (str_eqb (trim custodian_id) principal))
    (mkStatus PermissionDenied
       (Message #"custodian_id must match the authenticated broker principal identity")) in
  Ok principal.

Definition rpc_claim_share (ext : option BrokerClientContext) (handle custodian_id : str) : G ClaimReply :=
  let* context := lift (broker_context ext) in
  let* principal := lift (claim_caller context custodian_id) in
  let* result := map_err_m (svc_err OfCustody) (claim_share state context (mkClaimReq handle principal)) in
  ret (mkClaimReply (Some (mkThresholdShare (u8 (co_x result)) (co_y result))) (co_commitments result)
         (co_previously_claimed result)).

Definition rpc_distribute_share (ext : option BrokerClientContext) (req : DistributeMsg)
    : G DistributeShareResponse :=
  let* context := lift (broker_context ext) in
  let* share := lift (ok_or (gd_share req) (invalid_argument #"share is required")) in
  let* share := lift (share_from_proto #"share x must be 1..=255" #"share y must be 32 bytes" share) in
  map_err_m (svc_err OfCustody) (distribute_share state context
    (mkDistributeReq (gd_handle req) (gd_share_index req) share (gd_custodian_id req))).

Definition rpc_combine_shares (ext : option BrokerClientContext) (req : CombineMsg) : G bytes :=
  let* context := lift (broker_context ext) in
  let* shares := lift (collect (share_from_proto #"share x must be 1..=255" #"share y must be 32 bytes")
                         (gb_shares req)) in
  let* result := map_err_m (svc_err OfCustody) (combine_shares state context
    (mkCombineReq (gb_handle req) shares (nonempty (gb_tenant_id req)) (nonempty (gb_provider req))
       (gb_custodian_ids req))) in
  ret (cb_plaintext result).

(** ** Administrative calls of the crypto engine *)

(** [req.key_id.trim()], which must not be empty *)
Definition required (value message : str) : result Status str :=
  let value := trim value in
  let! _ := guard (is_empty value) (invalid_argument message) in Ok value.

Definition rpc_crypto_encrypt (ext : option BrokerClientContext) (req : CryptoEncryptRequest)
    : G CryptoEncryptResponse :=
  let* _ := lift (broker_context ext) in
  let* algorithm := lift (parse_crypto_algorithm (ge_algorithm req)) in
  let* result := map_err_m (svc_err OfEngine) (encrypt_data_with_key config store_key
    (ge_plaintext req) algorithm (empty_to_none (ge_key_id req)) (customer_or_default (ge_customer_id req))) in
  ret (mkEncryptReply (er_ciphertext result) (default [] (er_key_id result)) (er_nonce result)).

Definition rpc_crypto_decrypt (ext : option BrokerClientContext) (req : CryptoDecryptRequest)
    : G CryptoDecryptResponse :=
  let* _ := lift (broker_context ext) in
  let* key_id := lift (required (gx_key_id req) #"key_id is required") in
  let* algorithm := lift (parse_crypto_algorithm (gx_algorithm req)) in
  let* result := map_err_m (svc_err OfEngine) (decrypt_data config store_key
    (gx_ciphertext req) algorithm key_id (customer_or_default (gx_customer_id req))) in
  ret (mkDecryptReply (dr_plaintext result) (dr_verified result)).

Definition rpc_crypto_sign (ext : option BrokerClientContext) (key_id : str) (data : bytes) : G bytes :=
  let* _ := lift (broker_context ext) in
  let* key_id := lift (required key_id #"key_id is required") in
  map_err_m (svc_err OfCrypto) (sign_data (crypto_master_key state) data key_id).

Definition rpc_crypto_verify (ext : option BrokerClientContext) (key_id : str) (data signature : bytes)
    : G bool :=
  let* _ := lift (broker_context ext) in
  let* key_id := lift (required key_id #"key_id is required") in
  map_err_m (svc_err OfCrypto) (CryptoEngine.verify_signature data signature key_id).

Definition rpc_crypto_keygen (ext : option BrokerClientContext) (algorithm customer_id : str)
    : G (str * bytes * str) :=
  let* _ := lift (broker_context ext) in
  let* algorithm := lift (required algorithm #"algorithm is required") in
  let* keypair := map_err_m (svc_err OfCrypto) (generate_key_pair config (crypto_master_key state)
    algorithm (customer_or_default customer_id)) in
  ret (kp_key_id keypair, kp_public_key keypair, kp_algorithm keypair).

Definition rpc_crypto_random (ext : option BrokerClientContext) (length : Z) : G (bytes * Z) :=
  let* _ := lift (broker_context ext) in
  let* random := map_err_m (svc_err OfEngine) (generate_random_bytes config (Z.to_nat length)) in
  ret (random, length).

Definition rpc_crypto_pubkey (ext : option BrokerClientContext) (key_id : str) : G (str * bytes) :=
  let* _ := lift (broker_context ext) in
  let* key_id := lift (required key_id #"key_id is required") in
  let* public_key := map_err_m (svc_err OfCrypto) (get_public_key key_id) in
  ret (key_id, public_key).

(** ** The channel *)

Definition rpc_health_check : G (str * option Timestamp) :=
  let* now := utc_now in
  ret (#"ok", chrono_to_timestamp now).

Definition rpc_describe_channel (ext : option BrokerClientContext) : G DescribeChannelResponse :=
  let* context := lift (broker_context ext) in
  let* session := lift (ok_or (session_id context)
    (internal #"authenticated TLS context is missing session ID")) in
  ret (mkChannel (uuid_to_string session) (exporter context) (sha256 (exporter context))
         (authenticated_transport context) (default [] (principal_id context))
         (default [] (peer_cert_sha256 context)) (default [] (attestation_digest context))).

(** ** Postgres credentials *)

Definition postgres_params (req : IssuePostgresCredentialsRequest) : PostgresCredentialParams :=
  mkPgParams (gp_audience req) (gp_scope req)
    (if (gp_ttl_seconds req =? 0)%Z then None else Some (gp_ttl_seconds req))
    (empty_to_none (gp_application_name req)).

Definition rpc_issue_postgres_credentials `{Urls} `{Passwords} `{PgServer}
    (hash_order : list str -> list str) (manager : option PostgresLeaseManager)
    (ext : option BrokerClientContext) (req : IssuePostgresCredentialsRequest)
    : M PgWorld Status IssuePostgresCredentialsResponse :=
  let* context := lift (broker_context ext) in
  let* result := map_err_m svc_service_err (issue_postgres_credentials hash_order manager context
    (postgres_params req)) in
  ret (mkPgReply (po_database_url result) (po_username result) (po_password result)
         (po_expires_at result ≫= chrono_to_timestamp) (default [] (po_ca_certificate_pem result))
         (default [] (po_server_cert_fingerprint result))).

(** ** All calls on the broker's own state *)

Inductive Rpc :=
| RWrap (req : WrapSecretV2Request)
| RDelete (handle : str)
| RMint (req : MintAeadKeyV2Request)
| RUnwrap (req : UnwrapSecretV2Request)
| RAttenuate (req : AttenuateHandleV2Request)
| RRenew (req : RenewLeaseRequest)
| RRevoke (handle reason : str)
| RRotate (req : RotateMsg)
| RDischarge (req : MintDischargeRequest)
| RClaim (handle custodian_id : str)
| RDistribute (req : DistributeMsg)
| RCombine (req : CombineMsg)
| REncrypt (req : CryptoEncryptRequest)
| RDecrypt (req : CryptoDecryptRequest)
| RSign (key_id : str) (data : bytes)
| RVerify (key_id : str) (data signature : bytes)
| RKeygen (algorithm customer_id : str)
| RRandom (length : Z)
| RPubkey (key_id : str)
| RHealth
| RDescribe.

(** A call and whether it succeeded, without the reply. *)
Definition call (ext : option BrokerClientContext) (r : Rpc) : G unit :=
  match r with
  | RWrap req => fmap_m (fun _ => tt) (rpc_wrap_secret_v2 ext req)
  | RDelete handle => rpc_delete_secret ext handle
  | RMint req => fmap_m (fun _ => tt) (rpc_mint_aead_key_v2 ext req)
  | RUnwrap req => fmap_m (fun _ => tt) (rpc_unwrap_secret_v2 ext req)
  | RAttenuate req => fmap_m (fun _ => tt) (rpc_attenuate_handle_v2 ext req)
  | RRenew req => fmap_m (fun _ => tt) (rpc_renew_lease ext req)
  | RRevoke handle reason => fmap_m (fun _ => tt) (rpc_revoke_secret ext handle reason)
  | RRotate req => fmap_m (fun _ => tt) (rpc_rotate_secret ext req)
  | RDischarge req => fmap_m (fun _ => tt) (rpc_mint_discharge ext req)
  | RClaim handle custodian_id => fmap_m (fun _ => tt) (rpc_claim_share ext handle custodian_id)
  | RDistribute req => fmap_m (fun _ => tt) (rpc_distribute_share ext req)
  | RCombine req => fmap_m (fun _ => tt) (rpc_combine_shares ext req)
  | REncrypt req => fmap_m (fun _ => tt) (rpc_crypto_encrypt ext req)
  | RDecrypt req => fmap_m (fun _ => tt) (rpc_crypto_decrypt ext req)
  | RSign key_id data => fmap_m (fun _ => tt) (rpc_crypto_sign ext key_id data)
  | RVerify key_id data signature => fmap_m (fun _ => tt) (rpc_crypto_verify ext key_id data signature)
  | RKeygen algorithm customer_id => fmap_m (fun _ => tt) (rpc_crypto_keygen ext algorithm customer_id)
  | RRandom length => fmap_m (fun _ => tt) (rpc_crypto_random ext length)
  | RPubkey key_id => fmap_m (fun _ => tt) (rpc_crypto_pubkey ext key_id)
  | RHealth => fmap_m (fun _ => tt) rpc_health_check
  | RDescribe => fmap_m (fun _ => tt) (rpc_describe_channel ext)
  end.

(** ** All calls of the service *)

Inductive ServiceCall :=
| BrokerCall (r : Rpc)
| PostgresCall (req : IssuePostgresCredentialsRequest).

(** A call on the broker's own state leaves the database alone. *)
Definition respond `{Urls} `{Passwords} `{PgServer} (hash_order : list str -> list str)
    (manager : option PostgresLeaseManager) (ext : option BrokerClientContext) (c : ServiceCall)
    : M PgWorld Status unit :=
  match c with
  | BrokerCall r => zoom broker_world (fun w p => mkPgWorld w (issued_leases p) (database p)) (call ext r)
  | PostgresCall req => fmap_m (fun _ => tt) (rpc_issue_postgres_credentials hash_order manager ext req)
  end.

End Grpc.
