(* ===== verification/Service.v ===== *)
(** What clients get through the gRPC service: every remote call is its handler,
    and but for one a sequence of steps of the broker; the round trip of a
    secret through the service; and where the service departs from its
    protocol. *)

From S2P Require Import Prelude RustStd Externals Reference Macaroon MacaroonWire Threshold.
From S2P Require Import Transparency World SealedStore Config CryptoEngine CipherEngine Broker Issue Unwrap.
From S2P Require Import Delegate Manage Rotation Custody Evolution System Postgres Grpc.

Section Service.
Context `{TextCodecsLaws} `{HashesLaws} `{JsonText} `{AeadLaws} `{PqCryptoLaws} `{OracleLaws} `{AeadData} `{P256} `{Urls} `{Passwords} `{PgServer}.
Context `{!Serde KyberKeyPair} `{!Serde DilithiumKeyPair} `{!Serde KeyRecord}.
Context `{!Serde StoredEnvelopeRecord} `{!Serde EncryptedRecord} `{!Serde SecretEnvelope}.
Context `{!Serde (list Share)}.
Context `{!SerdeLaws KyberKeyPair (fun _ => True)} `{!SerdeLaws KeyRecord (fun _ => True)}.
Context `{!SerdeLaws StoredEnvelopeRecord record_ok} `{!SerdeLaws EncryptedRecord (fun _ => True)}.
Variable random_scalars : nat -> nat -> scalar.
Variable state : BrokerState.

Abbreviation cipher := (sealed_store state).
Abbreviation step := (step random_scalars state).
Abbreviation config := (crypto_config state).
Abbreviation store_key := (crypto_store_key state).

(** ** The engine *)

(** Work of the engine that leaves the sealed records alone, and of the keys
    with a name of an envelope's only touches the one called [key]. *)
Definition engine_except (key : option str) (w w' : World) : Prop :=
  tick w <= tick w' /\ envelopes w' = envelopes w
  /\ forall u : uuid, key <> Some (uuid_to_string u) ->
       kyber_keys w' !! uuid_to_string u = kyber_keys w !! uuid_to_string u.

#[export] Instance engine_except_preorder key : PreOrder (engine_except key).
Proof.
  split; [done|]. intros w1 w2 w3 (T1 & E1 & K1) (T2 & E2 & K2).
  split; [lia|]. split; [congruence|]. intros u Hu. by rewrite K2, K1.
Qed.

Lemma engine_only_except key w w' : engine_only w w' -> engine_except key w w'.
Proof. intros (T & E & K). split; [done|]. split; [done|]. intros u _. apply K. Qed.
Lemma except_engine_only key w w' :
  (forall u, key <> Some (uuid_to_string u)) -> engine_except key w w' -> engine_only w w'.
Proof. intros Hk (T & E & K). split; [done|]. split; [done|]. intros u. apply K, Hk. Qed.

Lemma engine_interact {E A} key (f : nat -> A) : frames (E := E) (engine_except key) (interact f).
Proof. intros w. split; [cbn; lia|done]. Qed.
Lemma engine_cache {E} key f :
  frames (E := E) (engine_except key) (modify (fun w => set_key_cache (f w) w)).
Proof. done. Qed.
Lemma engine_dilithium {E} key f :
  frames (E := E) (engine_except key) (modify (fun w => set_dilithium_keys (f w) w)).
Proof. done. Qed.
Lemma engine_kyber {E} key name v :
  (forall u, key <> Some (uuid_to_string u) -> name <> uuid_to_string u) ->
  frames (E := E) (engine_except key) (modify (fun w => set_kyber_keys (<[name := v]> (kyber_keys w)) w)).
Proof. intros Hk w. split; [done|]. split; [done|]. intros u Hu. cbn. by rewrite lookup_insert_ne by (by apply Hk). Qed.

Ltac engine_step :=
  first [apply engine_interact | apply engine_cache | apply engine_dilithium | frame_step].
Ltac engine_run := repeat engine_step.

(** The names the engine makes up are not UUIDs. *)
Lemma mlkem_name u u' : #"mlkem_" ++ uuid_to_string u <> uuid_to_string u'.
Proof.
  intros E. pose proof (uuid_alphabet u') as HF. rewrite <- E in HF.
  apply Forall_app in HF as [HF _]. by apply Forall_cons in HF as [HF _].
Qed.

Lemma frames_assoc {S E A B C} (R : S -> S -> Prop) (m : M S E A) (f : A -> M S E B) (k : B -> M S E C) :
  frames R (bind m (fun a => bind (f a) k)) -> frames R (bind (bind m f) k).
Proof.
  intros Hf s. specialize (Hf s). unfold bind in *. by destruct (m s) as [[a|e|] s1].
Qed.
Lemma frames_ret_bind {S E A B} (R : S -> S -> Prop) (a : A) (k : A -> M S E B) :
  frames R (k a) -> frames R (bind (ret a) k).
Proof. done. Qed.

(** Encryption with ML-KEM stores a fresh key under the name it is given. *)
Lemma engine_encrypt_mlkem data key_id secret :
  frames (engine_except key_id) (encrypt_with_mlkem store_key data key_id secret).
Proof.
  unfold encrypt_with_mlkem, generate_mlkem_keypair.
  apply frames_assoc, frames_bind; [typeclasses eauto|apply engine_interact|]. intros seed.
  destruct (mlkem_keygen seed) as [ek dk].
  do 2 (apply frames_assoc, frames_bind; [typeclasses eauto|apply engine_interact|intros ?]).
  apply frames_ret_bind. unfold generate_mldsa_keypair, store_kyber_keypair,
    store_dilithium_keypair, store_keypair, ks_encrypt, perform_mlkem_encapsulation,
    hybrid_encrypt_with_shared_secret. cbn [ky_key_id].
  assert (Hkey : forall u, key_id <> Some (uuid_to_string u) ->
    default (#"mlkem_" ++ uuid_to_string a) key_id <> uuid_to_string u).
  { intros u Hu. destruct key_id as [key|]; [|apply mlkem_name]. intros E. apply Hu. cbn in E. by rewrite E. }
  repeat first [engine_step | by apply engine_kyber].
Qed.

(** The key of the envelopes that an encryption may replace. *)
Definition replaced_key (algorithm : EncryptionAlgorithm) (key_id : option str) : option str :=
  match algorithm with Kyber768 => key_id | _ => None end.

Lemma engine_encrypt data algorithm key_id customer :
  frames (engine_except (replaced_key algorithm key_id))
    (encrypt_data_with_key config store_key data algorithm key_id customer).
Proof.
  unfold encrypt_data_with_key. destruct algorithm; cbn [replaced_key]; engine_run;
    unfold process_encryption_request, quantum_encryption_request, get_or_generate_key, get_key, generate_key,
      encrypt_aes256_gcm, encrypt_chacha20_poly1305, encrypt_xchacha20_poly1305, encrypt_with;
    repeat first [engine_step | apply engine_encrypt_mlkem].
Qed.

Lemma engine_decrypt key data algorithm key_id customer :
  frames (engine_except key) (decrypt_data config store_key data algorithm key_id customer).
Proof.
  unfold decrypt_data, process_decryption_request, quantum_decryption_request, get_key, reject_expired,
    decrypt_with_mlkem, load_kyber_keypair, load_keypair. engine_run.
Qed.

Lemma engine_quiet {E A} key (m : M World E A) :
  frames (quiet_but None) m -> frames (engine_except key) m.
Proof. apply frames_mono. intros w w' Hq. by apply engine_only_except, quiet_engine. Qed.

(** ** Which handler a call is for *)

(** What becomes of a call by [ctx]: a handler of the broker with the request
    it is given, a refusal, or work of the engine that may replace the named
    key of the envelopes. *)
Inductive Dispatch := Serves (e : Event) | Refuses | UsesEngine (key : option str).

Definition serves_ok {E} (r : result E Event) : Dispatch := match r with Ok e => Serves e | _ => Refuses end.

Definition dispatch (ctx : BrokerClientContext) (r : Rpc) : Dispatch :=
  match r with
  | RWrap req => Serves (EWrap ctx (wrap_request req))
  | RDelete handle => Serves (EDelete ctx handle)
  | RMint req => serves_ok (let! q := mint_request req in Ok (EMint ctx q))
  | RUnwrap req => serves_ok (let! token := unwrap_token req in Ok (EUnwrap ctx (unwrap_request req token)))
  | RAttenuate req => Serves (EAttenuate ctx (attenuate_request req))
  | RRenew req => Serves (ERenew ctx req)
  | RRevoke handle reason => Serves (ERevoke ctx (mkRevokeReq handle (nonempty reason)))
  | RRotate req => Serves (ERotate ctx (rotate_request req))
  | RDischarge req => Serves (EDischarge ctx req)
  | RClaim handle cid =>
    serves_ok (let! principal := claim_caller ctx cid in Ok (EClaim ctx (mkClaimReq handle principal)))
  | RDistribute req => serves_ok (
      let! share := ok_or (gd_share req) (invalid_argument #"share is required") in
      let! share := share_from_proto #"share x must be 1..=255" #"share y must be 32 bytes" share in
      Ok (EDistribute ctx (mkDistributeReq (gd_handle req) (gd_share_index req) share (gd_custodian_id req))))
  | RCombine req => serves_ok (
      let! shares := collect (share_from_proto #"share x must be 1..=255" #"share y must be 32 bytes") (gb_shares req) in
      Ok (ECombine ctx (mkCombineReq (gb_handle req) shares (nonempty (gb_tenant_id req))
                          (nonempty (gb_provider req)) (gb_custodian_ids req))))
  | REncrypt req => UsesEngine
      (match parse_crypto_algorithm (ge_algorithm req) with
       | Ok algorithm => replaced_key algorithm (empty_to_none (ge_key_id req))
       | _ => None
       end)
  | _ => UsesEngine None
  end.

(** Whether the handler succeeds. *)
Definition served_ok (e : Event) (w : World) : bool :=
  match e with
  | EWrap ctx req => is_ok (wrap_secret_v2 state ctx req w).1
  | EMint ctx req => is_ok (mint_aead_key_v2 random_scalars state ctx req w).1
  | EUnwrap ctx req => is_ok (unwrap_secret_v2 state ctx req w).1
  | EAttenuate ctx req => is_ok (attenuate_handle_v2 state ctx req w).1
  | EDischarge ctx req => is_ok (mint_discharge state ctx req w).1
  | ERenew ctx req => is_ok (renew_lease_handler state ctx req w).1
  | ERevoke ctx req => is_ok (revoke_secret state ctx req w).1
  | ERotate ctx req => is_ok (rotate_secret random_scalars state ctx req w).1
  | EDelete ctx handle => is_ok (delete_secret state ctx handle w).1
  | EClaim ctx req => is_ok (claim_share state ctx req w).1
  | EDistribute ctx req => is_ok (distribute_share state ctx req w).1
  | ECombine ctx req => is_ok (combine_shares state ctx req w).1
  end.

(** The state in which the handler runs: a wrap call reads the clock first. *)
Definition before (r : Rpc) (w : World) : World := match r with RWrap _ => advance w | _ => w end.

(** What a call that is dispatched so does to the broker's state. *)
Definition follows (d : Dispatch) (w0 w : World) (out : result Status unit * World) : Prop :=
  match d with
  | Serves e => out.2 = serve random_scalars state e w0 /\ (is_ok out.1 = true -> served_ok e w0 = true)
  | Refuses => out.2 = w /\ is_ok out.1 = false
  | UsesEngine key => engine_except key w out.2
  end.

(** A handler whose result is converted afterwards. *)
Lemma converted {E A B} (f : E -> Status) (m : M World E A) (k : A -> M World Status B) w :
  (forall a s, (k a s).2 = s) ->
  (fmap_m (fun _ => tt) (bind (map_err_m f m) k) w).2 = (m w).2
  /\ (is_ok (fmap_m (fun _ => tt) (bind (map_err_m f m) k) w).1 = true -> is_ok (m w).1 = true).
Proof.
  intros Hk. unfold fmap_m, bind, map_err_m. destruct (m w) as [[a|e|] w1]; [|done..].
  specialize (Hk a w1). cbn. destruct (k a w1) as [[b|e|] w2]; cbn in *; subst; by split.
Qed.
Lemma converted_done {E A} (f : E -> Status) (m : M World E A) w :
  (bind (map_err_m f m) (fun _ => ret tt) w).2 = (m w).2
  /\ (is_ok (bind (map_err_m f m) (fun _ => ret tt) w).1 = true -> is_ok (m w).1 = true).
Proof. unfold bind, map_err_m. destruct (m w) as [[a|e|] w1]; by split. Qed.
Lemma converted_last {E A} (f : E -> Status) (m : M World E A) w :
  (fmap_m (fun _ => tt) (map_err_m f m) w).2 = (m w).2
  /\ (is_ok (fmap_m (fun _ => tt) (map_err_m f m) w).1 = true -> is_ok (m w).1 = true).
Proof. unfold fmap_m, bind, map_err_m. destruct (m w) as [[a|e|] w1]; by split. Qed.

(** A request that is converted first. *)
Lemma bind_lift {A B} (x : result Status A) (k : A -> M World Status B) w :
  fmap_m (fun _ => tt) (bind (lift x) k) w
  = match x with Ok a => fmap_m (fun _ => tt) (k a) w | Err e => (Err e, w) | Panic => (Panic, w) end.
Proof. unfold fmap_m, bind, lift. by destruct x. Qed.

Ltac pure_tail := intros; unfold bind, lift, ret; repeat (cbn; case_match); done.

Lemma call_handler ctx r w :
  match dispatch ctx r with UsesEngine _ => False | _ => True end ->
  follows (dispatch ctx r) (before r w) w (call random_scalars state (Some ctx) r w).
Proof.
  destruct r as [req|handle|req|req|req|req|handle reason|req|req|handle cid|req|req|req|req
    |kid data|kid data sg|alg cust|n|kid| |]; intros Hd; try done; clear Hd;
    cbn [dispatch call before]; unfold rpc_wrap_secret_v2, rpc_mint_aead_key_v2,
      rpc_unwrap_secret_v2, rpc_attenuate_handle_v2, rpc_renew_lease, rpc_revoke_secret, rpc_rotate_secret,
      rpc_mint_discharge, rpc_claim_share, rpc_distribute_share, rpc_combine_shares; rewrite ?bind_lift;
    cbn [broker_context ok_or].
  - apply (converted svc_service_err _ _ (advance w)). pure_tail.
  - unfold rpc_delete_secret. rewrite (bind_run _ _ w ctx w) by done. by apply converted_done.
  - rewrite bind_lift. destruct (mint_request req) as [q| |]; [|done..]. apply converted. pure_tail.
  - rewrite bind_lift. destruct (unwrap_token req) as [q| |]; [|done..]. apply converted. pure_tail.
  - apply converted. pure_tail.
  - apply converted. pure_tail.
  - apply converted. pure_tail.
  - apply converted. pure_tail.
  - apply converted. pure_tail.
  - rewrite bind_lift. destruct (claim_caller ctx cid) as [q| |]; [|done..]. apply converted. pure_tail.
  - rewrite bind_lift. destruct (gd_share req) as [sh|]; [|done]. cbn [ok_or rbind]. rewrite bind_lift.
    destruct (share_from_proto _ _ sh) as [q| |]; [|done..]. apply converted_last.
  - rewrite bind_lift. destruct (collect _ _) as [q| |]; [|done..]. apply converted. pure_tail.
Qed.

Lemma engine_key_usage key key_id : frames (engine_except key) (update_key_usage key_id).
Proof. apply engine_quiet, quiet_update_key_usage. Qed.

(** Work of the crypto engine. *)
Ltac service_step :=
  lazymatch goal with
  | |- frames _ (bind (lift _) _) => apply frames_bind_lift; [typeclasses eauto|intros ? ?]
  | |- frames _ (decrypt_data _ _ _ _ _ _) => apply engine_decrypt
  | |- frames _ (sign_data _ _ _) => apply engine_quiet, quiet_sign_data
  | |- frames _ (generate_key_pair _ _ _ _) => apply engine_quiet, quiet_generate_key_pair
  | |- frames _ (update_key_usage _) => apply engine_key_usage
  | |- frames _ utc_now => apply engine_interact
  | _ => engine_step
  end.

Lemma call_engine ext ctx r key :
  dispatch ctx r = UsesEngine key -> frames (engine_except key) (call random_scalars state ext r).
Proof.
  destruct r as [req|handle|req|req|req|req|handle reason|req|req|handle cid|req|req|req|req
    |kid data|kid data sg|alg cust|n|kid| |]; cbn [dispatch call]; unfold serves_ok;
    try (intros Hd; by repeat case_match); try done; intros [= <-];
    unfold fmap_m, rpc_crypto_encrypt, rpc_crypto_decrypt, rpc_crypto_sign, rpc_crypto_verify, rpc_crypto_keygen,
      rpc_crypto_random, rpc_crypto_pubkey, rpc_health_check, rpc_describe_channel, CryptoEngine.verify_signature,
      check_expired, get_public_key, generate_random_bytes, hsm_random_bytes.
  - apply frames_bind; [typeclasses eauto| |intros; frame_run].
    apply frames_bind_lift; [typeclasses eauto|intros _ _].
    apply frames_bind_lift; [typeclasses eauto|intros algorithm Ha]. rewrite Ha.
    apply frames_bind; [typeclasses eauto| |intros; frame_run]. apply frames_map_err, engine_encrypt.
  - repeat service_step.
  - repeat service_step.
  - repeat service_step.
  - repeat service_step.
  - repeat service_step.
  - repeat service_step.
  - repeat service_step.
  - repeat service_step.
Qed.

(** ** Database credentials *)

(** The broker's own state is left alone. *)
Definition pg_engine (p p' : PgWorld) : Prop := engine_only (broker_world p) (broker_world p').
#[export] Instance pg_engine_preorder : PreOrder pg_engine.
Proof. unfold pg_engine. split; [intros p; reflexivity|]. intros p1 p2 p3 ? ?. by etransitivity. Qed.

Lemma pg_on_world {A} (f : nat -> A) : frames pg_engine (on_world (interact f)).
Proof. intros p. unfold pg_engine, on_world, zoom. cbn. split; [cbn; lia|done]. Qed.
Lemma pg_transaction body : frames pg_engine (in_transaction body).
Proof.
  intros p. unfold in_transaction. destruct (tx_begin (database p)) as [t|]; [|reflexivity].
  destruct (body t) as [[]]; [|reflexivity..]. by destruct (tx_commit _ _).
Qed.
Lemma pg_issue hash_order manager ctx params :
  frames pg_engine (issue_postgres_credentials hash_order manager ctx params).
Proof.
  unfold issue_postgres_credentials, issue_credentials, create_role.
  repeat first [apply pg_on_world | apply pg_transaction | frame_step]; intros p; unfold pg_engine; reflexivity.
Qed.

(** ** The calls *)

(** What a client must respect: metadata survives its JSON form. *)
Definition rpc_ok (c : ServiceCall) : Prop :=
  match c with
  | BrokerCall (RWrap req) => metadata_ok (w_metadata (wrap_request req))
  | BrokerCall (RMint req) => metadata_ok (Some (JObject (mint_metadata (trim_nonempty (empty_to_none (gm_label req)))
                                               (positive (gm_ttl_seconds req)))))
  | BrokerCall (RRotate req) => metadata_ok (t_metadata (rotate_request req))
  | _ => True
  end.

Lemma mint_request_ok req q :
  mint_request req = Ok q ->
  m_label q = empty_to_none (gm_label req) /\ m_ttl_seconds q = positive (gm_ttl_seconds req).
Proof. unfold mint_request. intros E. by monad_inv. Qed.

Lemma dispatch_ok ctx r e : rpc_ok (BrokerCall r) -> dispatch ctx r = Serves e -> event_ok e.
Proof.
  intros Hr Hd.
  destruct r as [req|handle|req|req|req|req|handle reason|req|req|handle cid|req|req|req|req
    |kid data|kid data sg|alg cust|n|kid| |]; cbn [rpc_ok dispatch] in *;
    try discriminate Hd; try (injection Hd as <-; exact Hr || exact I).
  - destruct (mint_request req) as [q| |] eqn:Hq; try discriminate Hd. injection Hd as <-.
    destruct (mint_request_ok req q Hq) as [El Et]. cbn [event_ok]. by rewrite El, Et.
  - destruct (unwrap_token req); try discriminate Hd. by injection Hd as <-.
  - destruct (claim_caller ctx cid); try discriminate Hd. by injection Hd as <-.
  - destruct (ok_or (gd_share req) _) as [sh| |]; try discriminate Hd. cbn [rbind] in Hd.
    destruct (share_from_proto _ _ sh); try discriminate Hd. by injection Hd as <-.
  - destruct (collect _ (gb_shares req)); try discriminate Hd. by injection Hd as <-.
Qed.

(** A call of the service by [ctx]: it does to the broker's state what it is
    dispatched to, or it is the handler for database credentials. *)
Definition dispatched (hash_order : list str -> list str) (manager : option PostgresLeaseManager)
    (ctx : BrokerClientContext) (c : ServiceCall) (p : PgWorld) (out : result Status unit * PgWorld) : Prop :=
  match c with
  | BrokerCall r =>
    issued_leases out.2 = issued_leases p /\ database out.2 = database p
    /\ follows (dispatch ctx r) (before r (broker_world p)) (broker_world p) (out.1, broker_world out.2)
  | PostgresCall req =>
    let handler := issue_postgres_credentials hash_order manager ctx (postgres_params req) p in
    out.2 = handler.2 /\ is_ok out.1 = is_ok handler.1 /\ engine_only (broker_world p) (broker_world out.2)
  end.

(** The key of an envelope that a call names for an encryption with ML-KEM. *)
Definition names_key (c : ServiceCall) (u : uuid) : Prop :=
  match c with
  | BrokerCall (REncrypt req) => parse_crypto_algorithm (ge_algorithm req) = Ok Kyber768
      /\ empty_to_none (ge_key_id req) = Some (uuid_to_string u)
  | _ => False
  end.

Lemma respond_broker hash_order manager ext r p :
  respond random_scalars state hash_order manager ext (BrokerCall r) p
  = ((call random_scalars state ext r (broker_world p)).1,
     mkPgWorld (call random_scalars state ext r (broker_world p)).2 (issued_leases p) (database p)).
Proof. cbn [respond]. unfold zoom. by destruct (call _ _ _ _ _). Qed.

Lemma call_follows ctx r w :
  follows (dispatch ctx r) (before r w) w (call random_scalars state (Some ctx) r w).
Proof.
  destruct (dispatch ctx r) as [e| |key] eqn:Hd.
  - rewrite <- Hd. apply call_handler. by rewrite Hd.
  - rewrite <- Hd. apply call_handler. by rewrite Hd.
  - cbn [follows]. by eapply call_engine.
Qed.

Lemma dispatch_key ctx r key u :
  dispatch ctx r = UsesEngine key -> key = Some (uuid_to_string u) -> names_key (BrokerCall r) u.
Proof.
  intros Hd ->. destruct r; cbn [dispatch names_key] in *; try discriminate Hd;
    try (unfold serves_ok in Hd; by repeat case_match).
  destruct (parse_crypto_algorithm _) as [[]| |]; try discriminate Hd. split; [done|]. by injection Hd.
Qed.

Lemma dispatched_call hash_order manager ctx c p :
  dispatched hash_order manager ctx c p (respond random_scalars state hash_order manager (Some ctx) c p).
Proof.
  destruct c as [r|req]; cbn [dispatched].
  - rewrite respond_broker. do 2 (split; [done|]). cbn [fst snd broker_world]. rewrite <- surjective_pairing.
    apply call_follows.
  - cbn [respond]. unfold rpc_issue_postgres_credentials.
    pose proof (pg_issue hash_order manager ctx (postgres_params req) p) as Hf.
    unfold pg_engine in Hf. unfold fmap_m, bind, map_err_m, lift. cbn [broker_context ok_or].
    by destruct (issue_postgres_credentials hash_order manager ctx (postgres_params req) p) as [[o|e|] p1].
Qed.

(** Without a context of a connection. *)
Lemma refused_call hash_order manager c p :
  c <> BrokerCall RHealth ->
  exists m, respond random_scalars state hash_order manager None c p
    = (Err (mkStatus FailedPrecondition (Message m)), p).
Proof.
  intros Hc. destruct c as [r|req]; [|by eexists]. rewrite respond_broker.
  assert (exists m, call random_scalars state None r (broker_world p)
    = (Err (mkStatus FailedPrecondition (Message m)), broker_world p)) as [m ->].
  { destruct r; first [by destruct Hc | by eexists]. }
  exists m. by destruct p.
Qed.

(** What a dispatched call does is made of steps, unless it names the key of
    an envelope. *)
Lemma dispatched_steps hash_order manager ctx c p out :
  rpc_ok c -> (forall u, ~ names_key c u) -> dispatched hash_order manager ctx c p out ->
  rtc step (broker_world p) (broker_world out.2).
Proof.
  intros Hr Hn Hd. destruct c as [r|req]; cbn [dispatched] in Hd.
  2:{ destruct Hd as (_ & _ & Hd). by apply rtc_once, step_engine. }
  destruct Hd as (_ & _ & Hd). destruct (dispatch ctx r) as [e| |key] eqn:Er; cbn [follows fst snd] in Hd.
  - destruct Hd as [-> _]. apply (rtc_l _ _ (before r (broker_world p))).
    + apply step_engine. destruct r; try reflexivity. split; [cbn; lia|done].
    + apply rtc_once, step_serve. by eapply dispatch_ok.
  - destruct Hd as [-> _]. reflexivity.
  - apply rtc_once, step_engine. apply (except_engine_only key); [|done].
    intros u Hu. apply (Hn u). by eapply dispatch_key.
Qed.

Lemma dispatched_wrap hash_order manager ctx req p out :
  dispatched hash_order manager ctx (BrokerCall (RWrap req)) p out ->
  broker_world out.2 = serve random_scalars state (EWrap ctx (wrap_request req)) (advance (broker_world p)).
Proof. intros (_ & _ & Hd & _). exact Hd. Qed.

Lemma health_steps hash_order manager ext p :
  rtc step (broker_world p) (broker_world (respond random_scalars state hash_order manager ext (BrokerCall RHealth) p).2).
Proof. rewrite respond_broker. apply rtc_once, step_engine. split; [cbn; lia|done]. Qed.

Lemma health_or_not c : c = BrokerCall RHealth \/ c <> BrokerCall RHealth.
Proof. destruct c as [[]|]; first [by left | by right]. Qed.

(** C7: every remote call, that for database credentials included, runs the
    handler it names and nothing else.  Without the context of a live
    connection every call but the health check is refused and changes nothing.
    For a connection, a call leaves the broker exactly as its handler does on
    the converted request, and succeeds only when the handler does; a request
    that cannot be converted is refused and changes nothing; the calls for the
    crypto engine leave the sealed records and the keys of envelopes alone,
    with one exception: an encryption with ML-KEM that names a key replaces
    the key of that name, and this is all it replaces.  Every call that
    does not so name the key of an envelope, and whose metadata survives its
    JSON form, takes the broker along its steps, so that what is proved of
    sequences of steps holds for clients of the service that make no such
    call. *)
Theorem api_refines hash_order manager ext c p :
  let out := respond random_scalars state hash_order manager ext c p in
  (ext = None -> c <> BrokerCall RHealth ->
     exists m, out = (Err (mkStatus FailedPrecondition (Message m)), p))
  /\ (forall ctx, ext = Some ctx -> dispatched hash_order manager ctx c p out)
  /\ (rpc_ok c -> (forall u, ~ names_key c u) -> rtc step (broker_world p) (broker_world out.2)).
Proof.
  intros out. unfold out. split; [intros -> ?; by apply refused_call|]. split.
  { intros ctx ->. apply dispatched_call. }
  intros Hr Hn. destruct ext as [ctx|].
  - eapply dispatched_steps; [done|done|apply dispatched_call].
  - destruct (health_or_not c) as [->|Hc]; [apply health_steps|].
    destruct (refused_call hash_order manager c p Hc) as [m ->]. reflexivity.
Qed.

(** ** Envelope keys *)

(** An administrative encryption may name any key: whoever has a
    connection can call it with the name of an envelope's key, and the broker
    replaces that key by a fresh one.  From then on the secrets sealed in the
    envelope are decrypted with the new key. *)
Theorem envelope_key_overwritten ctx kid data customer w :
  let dk := (mlkem_keygen (random_at (tick w + 2) 64)).2 in
  quantum_enabled config = true -> empty_to_none kid = Some kid ->
  exists o w1,
    rpc_crypto_encrypt state (Some ctx) (mkEncryptMsg kid data #"kyber768" customer) w = (Ok o, w1)
    /\ envelopes w1 = envelopes w
    /\ forall w2 ciphertext nonce, kyber_keys w2 !! kid = kyber_keys w1 !! kid ->
         decrypt_with_mlkem store_key ciphertext nonce kid w2
         = (let! ss := perform_mlkem_decapsulation nonce dk in
            hybrid_decrypt_with_shared_secret ciphertext ss, w2).
Proof.
  intros dk Q Hkid.
  assert (HE : wp (rpc_crypto_encrypt state (Some ctx) (mkEncryptMsg kid data #"kyber768" customer)) w
    (fun _ w1 => envelopes w1 = envelopes w
       /\ exists kp, stored_kyber store_key w1 kid kp /\ ky_private_key kp = dk)).
  { unfold rpc_crypto_encrypt. wp_run. apply (wp_lift _ ctx); [done|]. wp_run.
    apply (wp_lift _ Kyber768); [done|]. wp_run. cbn [ge_key_id ge_plaintext]. rewrite Hkid.
    unfold encrypt_data_with_key, quantum_encryption_request. wp_run.
    apply (wp_lift _ tt); [by rewrite Q|]. cbn [eq_algorithm eq_data eq_key_id eq_exporter_secret]. wp_run.
    eapply wp_mono; [apply encrypt_mlkem_ok|].
    intros r w' (_ & (kp & ss & Hst & Hdk & _) & ((He & _) & _) & _). wp_run. split; [done|]. exists kp.
    split; [done|]. rewrite Hdk. unfold dk. cbn [tick advance]. do 4 f_equal. lia. }
  apply wp_eq in HE as (o & w1 & HE & He & kp & Hst & Hdk). exists o, w1. split; [done|]. split; [done|].
  intros w2 ct nonce Hk. unfold decrypt_with_mlkem.
  rewrite (bind_run _ _ w2 (Some kp) w2); [|by eapply load_stored_kyber, stored_kyber_same].
  unfold lift, bind. cbn [ok_or]. rewrite Hdk. by destruct (perform_mlkem_decapsulation nonce dk).
Qed.

(** ** Redeem tokens *)

Lemma empty_to_none_normal v : normalized (empty_to_none v) = empty_to_none v.
Proof.
  unfold normalized, empty_to_none, normalize_optional_string.
  destruct (is_empty (trim v)) eqn:E; [done|]. by rewrite trim_idem, E.
Qed.

(** The context of a request is repeated in the other. *)
Definition same_context (req : WrapSecretV2Request) (msg : UnwrapSecretV2Request) : Prop :=
  gu_tenant_id msg = gw_tenant_id req /\ gu_provider msg = gw_provider req
  /\ gu_circuit_id msg = gw_circuit_id req /\ gu_node_id msg = gw_node_id req.

Lemma same_context_presents req msg token :
  same_context req msg -> presents (wrap_request req) (unwrap_request msg token).
Proof.
  intros (Ht & Hp & Hc & Hn). unfold presents. cbn. rewrite !empty_to_none_normal, Ht, Hp, Hc, Hn. auto.
Qed.

Lemma rpc_wrap_ok ctx req w expires ttl principal :
  let request := wrap_request req in
  let created := time_at (S (tick w)) in
  let input := wrap_input state request created expires principal in
  store_inv cipher w -> engine_ready state (i_customer_id input) 26 (advance w) ->
  metadata_ok (w_metadata request) ->
  enforce_ttl (w_ttl_seconds request) state created = Ok (expires, ttl) ->
  v2_unwrap_principal ctx (w_lifecycle request) (w_unwrap_principal_id request) = Ok principal ->
  rfc3339_range (created + redeem_token_ttl state) ->
  is_ok (initial_lease created (w_initial_lease_seconds request)) = true ->
  wp (rpc_wrap_secret_v2 state (Some ctx) req) w (fun reply w1 =>
    exists o h r, wrapped state ctx input (wrap_caveats request expires) o h r (advance w) w1
      /\ gwo_handle reply = wo_handle o /\ b64_encode (gwo_redeem_token reply) = wo_redeem_token o
      /\ gwo_redeem_token reply <> []
      /\ gwo_created_at reply = chrono_to_timestamp (time_at (tick w))
      /\ gwo_expires_at reply = expires ≫= chrono_to_timestamp
      /\ gwo_redeem_token_expires_at reply = chrono_to_timestamp (created + redeem_token_ttl state)).
Proof.
  intros request created input Hi HR Hm Ht Hp Hd Hl. unfold rpc_wrap_secret_v2. wp_run.
  apply (wp_lift _ ctx); [done|]. wp_run.
  eapply wp_mono; [by apply (wrap_ok state ctx request (advance w) expires ttl principal)|].
  intros o w1 (h & r & HW). destruct (wrapped_issued _ _ _ _ _ _ _ _ _ HW) as (nonce & _ & Htok). wp_run.
  eapply wp_lift; [rewrite Htok, b64_roundtrip; reflexivity|]. wp_run.
  exists o, h, r. split; [done|]. split; [done|]. split; [done|].
  destruct (wrapped_times _ _ _ _ _ _ _ _ _ HW) as [He Hre]. cbn [gwo_expires_at gwo_redeem_token_expires_at].
  rewrite He, Hre. repeat split. intros E. cbn [gwo_redeem_token] in E. apply (f_equal length) in E. unfold compute_redeem_token in E. by rewrite hmac_length in E.
Qed.

Lemma rpc_unwrap_wrapped ctx ctx' req created expires principal o h r w0 w1 w2 msg a :
  let request := wrap_request req in
  let input := wrap_input state request created expires principal in
  wrapped state ctx input (wrap_caveats request expires) o h r w0 w1 ->
  quantum_enabled config = true ->
  (forall e, expires = Some e -> rfc3339_range e) ->
  Forall (fun c => fits_u16 (encode c)) (wrap_caveats request expires) ->
  gu_handle msg = wo_handle o -> b64_encode (gu_redeem_token msg) = wo_redeem_token o ->
  gu_redeem_token msg <> [] -> gu_redeem_shares msg = [] -> same_context req msg ->
  store_inv cipher w2 -> records cipher w2 !! h = Some (set_last_accessed a r) ->
  kyber_keys w2 = kyber_keys w1 -> may_access false r ctx' ->
  (w_lifecycle request = SingleUseUnwrap -> exporter ctx' = exporter ctx) ->
  live r (time_at (tick w2 + 2)) -> live r (time_at (tick w2 + 3)) ->
  exists w3, rpc_unwrap_secret_v2 state (Some ctx') msg w2 = (Ok (gw_plaintext req), w3).
Proof.
  intros request input HW HQ He Hfit Mh Mt Mne Ms Mc I2 R2 K2 Hacc Hexp L1 L2.
  assert (HP : presentable state ctx ctx' request o h r (unwrap_request msg (b64_encode (gu_redeem_token msg))) w1 w2).
  { split; try done; [by exists a|by apply same_context_presents]. }
  destruct (unwrap_wrapped state ctx ctx' request _ created expires principal o h r w0 w1 w2 HW
    HQ He Hfit HP) as (w3 & Hu & _).
  exists w3. unfold rpc_unwrap_secret_v2. rewrite (bind_run _ _ w2 ctx' w2) by done.
  rewrite (bind_run _ _ w2 (b64_encode (gu_redeem_token msg)) w2).
  2: { unfold unwrap_token, lift. rewrite Ms. by destruct (gu_redeem_token msg). }
  erewrite bind_run; [|by apply map_err_m_ok]. unfold lift. cbn [plaintext]. by rewrite b64_roundtrip.
Qed.

(** C10: through the service, wrapping a secret and presenting the returned
    handle and token, unchanged and with the same context, returns the wrapped
    bytes, as long as the record is live, its key is there and the caller has
    access. *)
Theorem service_roundtrip ctx req w expires ttl principal :
  let request := wrap_request req in
  let created := time_at (S (tick w)) in
  let input := wrap_input state request created expires principal in
  store_inv cipher w -> engine_ready state (i_customer_id input) 26 (advance w) ->
  metadata_ok (w_metadata request) ->
  enforce_ttl (w_ttl_seconds request) state created = Ok (expires, ttl) ->
  v2_unwrap_principal ctx (w_lifecycle request) (w_unwrap_principal_id request) = Ok principal ->
  rfc3339_range (created + redeem_token_ttl state) ->
  is_ok (initial_lease created (w_initial_lease_seconds request)) = true ->
  (forall e, expires = Some e -> rfc3339_range e) ->
  Forall (fun c => fits_u16 (encode c)) (wrap_caveats request expires) ->
  exists reply w1 o h r, rpc_wrap_secret_v2 state (Some ctx) req w = (Ok reply, w1)
    /\ wrapped state ctx input (wrap_caveats request expires) o h r (advance w) w1
    /\ forall ctx' msg a w2,
      gu_handle msg = gwo_handle reply -> gu_redeem_token msg = gwo_redeem_token reply ->
      gu_redeem_shares msg = [] -> same_context req msg ->
      store_inv cipher w2 -> records cipher w2 !! h = Some (set_last_accessed a r) ->
      kyber_keys w2 = kyber_keys w1 -> may_access false r ctx' ->
      (w_lifecycle request = SingleUseUnwrap -> exporter ctx' = exporter ctx) ->
      live r (time_at (tick w2 + 2)) -> live r (time_at (tick w2 + 3)) ->
      exists w3, rpc_unwrap_secret_v2 state (Some ctx') msg w2 = (Ok (gw_plaintext req), w3).
Proof.
  intros request created input Hi HR Hm Ht Hp Hd Hl He Hfit.
  pose proof (rpc_wrap_ok ctx req w expires ttl principal Hi HR Hm Ht Hp Hd Hl) as HW.
  apply wp_eq in HW as (reply & w1 & Hwrap & o & h & r & HW & Hh & Htok & Hne & _).
  exists reply, w1, o, h, r. split; [done|]. split; [done|].
  intros ctx' msg a w2 Mh Mt Ms Mc I2 R2 K2 Hacc Hexp L1 L2.
  by eapply (rpc_unwrap_wrapped ctx ctx' req created expires principal o h r (advance w) w1 w2 msg a);
    rewrite ?Mh, ?Mt; try done; apply (ready_quantum _ _ _ _ HR).
Qed.

(** A token that redeems a record without threshold is 32 raw bytes. *)
Lemma redeemed_token ctx payload m r w o w' :
  store_inv cipher w -> parse_handle_v2 (u_handle payload) = Ok m ->
  records cipher w !! identifier m = Some r -> is_threshold r = false ->
  unwrap_secret_v2 state ctx payload w = (Ok o, w') ->
  exists t, b64_decode (u_redeem_token payload) = Some t /\ length t = 32.
Proof.
  intros Hi Hp Hr Hth E. unfold unwrap_secret_v2 in E. apply bind_ok in E as ([h r'] & w1 & Ha & _).
  apply authorize_inv in Ha as (m' & r0 & Hp' & -> & Hr' & _ & [_ _ Ht] & _); [|done].
  rewrite Hp in Hp'. injection Hp' as <-. rewrite Hr in Hr'. injection Hr' as <-.
  apply check_redeem_token_ok in Ht as (n64 & n & b & t & _ & _ & _ & Hprov & Hcomp & _).
  exists t. unfold comparable_token in Hcomp. rewrite Hth in Hcomp. injection Hcomp as <-.
  split; [|apply hmac_length]. unfold provided_token in Hprov. unfold is_threshold in Hth.
  destruct (r_threshold r) as [k|]; [change (default 1%Z (Some k)) with k in Hth; rewrite Hth in Hprov|];
    by apply ok_or_ok in Hprov.
Qed.

Lemma persist_token ctx input w o w' :
  persist_secret_v2_with_lifecycle state ctx input w = (Ok o, w') ->
  exists d, o_redeem_token o = b64_encode d /\ length d = 32.
Proof.
  unfold persist_secret_v2_with_lifecycle.
  destruct (session_binding ctx (i_lifecycle input)) as [[bv rb] eb]. intros E. monad_inv.
  eexists. split; [reflexivity|apply hmac_length].
Qed.

Lemma rotated_token ctx payload w o w' :
  (default 1 (t_threshold payload) <= 1)%Z ->
  rotate_secret random_scalars state ctx payload w = (Ok o, w') ->
  to_new_shares o = [] /\ exists d, to_redeem_token o = b64_encode d /\ length d = 32.
Proof.
  intros Hth E. unfold rotate_secret in E. rewrite (Z.max_r _ 1) in E by done.
  do 4 (apply bind_ok in E as (? & ? & _ & E)). apply bind_ok in E as ([? ?] & ? & _ & E).
  do 2 (apply bind_ok in E as (? & ? & _ & E)). apply bind_ok in E as (out & ? & Hper & E).
  apply persist_token in Hper as (d & Hd & Hl).
  apply bind_ok in E as ([tok sh] & ? & Htok & E). unfold rotate_token in Htok.
  change (1 <? 1)%Z with false in Htok. injection Htok as <- <- _.
  do 3 (apply bind_ok in E as (? & ? & _ & E)). injection E as <- _. cbn.
  split; [done|]. by exists d.
Qed.

(** Rotation does not keep the protocol for tokens.  A threshold whose low
    byte is zero or one is lost: the rotated secret gets a single token.  And
    that token is returned as base64 text where the protocol has raw bytes, so
    a client that presents it unchanged is refused, whoever it is and whatever
    happens in between. *)
Theorem rotated_token_rejected ctx req w reply w1 :
  (0 <= gt_threshold req)%Z -> (gt_threshold req mod 256 <= 1)%Z ->
  rpc_rotate_secret random_scalars state (Some ctx) req w = (Ok reply, w1) ->
  gto_new_shares reply = []
  /\ forall ctx' msg m r w2 o w3,
       store_inv cipher w2 -> gu_redeem_token msg = gto_redeem_token reply -> gu_redeem_shares msg = [] ->
       parse_handle_v2 (gu_handle msg) = Ok m ->
       records cipher w2 !! identifier m = Some r -> is_threshold r = false ->
       rpc_unwrap_secret_v2 state (Some ctx') msg w2 <> (Ok o, w3).
Proof.
  intros H0' Hth E. unfold rpc_rotate_secret in E.
  apply bind_ok in E as (c & w0 & Hc & E). injection Hc as <- <-.
  apply bind_ok in E as (out & w0 & Hrot & E). apply map_err_m_ok in Hrot. injection E as <- _.
  apply rotated_token in Hrot as (Hs & d & Hd & Hl).
  2: { cbn [t_threshold rotate_request]. unfold positive. destruct (0 <? gt_threshold req)%Z; cbn; lia. }
  cbn [gto_new_shares gto_redeem_token]. rewrite Hs, Hd. split; [done|].
  intros ctx' msg m r w2 o w3 Hi Mt Ms Hp Hr Hn E. unfold rpc_unwrap_secret_v2 in E.
  apply bind_ok in E as (c' & ? & Hc & E). injection Hc as <- <-.
  apply bind_ok in E as (tok & ? & Htok & E). unfold unwrap_token, lift in Htok. rewrite Ms, Mt in Htok.
  cbn [is_empty negb] in Htok. pose proof (b64_longer d) as Hlong. rewrite Hl in Hlong.
  assert (Hne : d <> []) by (intros ->; by cbn in Hl). specialize (Hlong Hne).
  destruct (is_empty (b64_encode d)) eqn:Hem; cbn [negb] in Htok; [discriminate Htok|]. injection Htok as <- <-.
  apply bind_ok in E as (resp & ? & Hu & _). apply map_err_m_ok in Hu.
  apply (redeemed_token ctx' _ m r w2) in Hu as (t & Ht & Hlt); [|done..].
  cbn in Ht. rewrite b64_roundtrip in Ht. injection Ht as <-. lia.
Qed.

End Service.

(** * The theorems on concrete calls *)

Module ServiceExamples.
Import Reference ToyWorld ToyStore CryptoExamples CipherExamples BrokerExamples Toy257 UnwrapExamples RotationExamples SystemExamples PostgresExamples.

(** A wrap request of [alice], and the request that redeems its reply. *)
Definition wrap_msg : WrapSecretV2Request :=
  mkWrapMsg #"hunter2" [] (Some []) 0 0 [] #" acme " [] [] [] [] 3600.
Definition unwrap_msg (o : WrapSecretResponse) : UnwrapSecretV2Request :=
  mkUnwrapMsg (gwo_handle o) (gwo_redeem_token o) [] #" acme " [] [] [] [].
Definition msg_expires : option datetime := Some (1700003601 * 10^9)%Z.
Definition msg_input : PersistSecretV2Input :=
  wrap_input state0 (wrap_request wrap_msg) (time_at 1) msg_expires principal0.

(** A wrap by [alice] and the refusal of the same call without a
    connection. *)
Lemma api_refines_witness :
  is_ok (respond scalars0 state0 id None (Some alice) (BrokerCall (RWrap wrap_msg)) pg_world0).1 = true
  /\ broker_world (respond scalars0 state0 id None (Some alice) (BrokerCall (RWrap wrap_msg)) pg_world0).2
     = serve scalars0 state0 (EWrap alice (wrap_request wrap_msg)) (advance (broker_world pg_world0))
  /\ rtc (step scalars0 state0) (broker_world pg_world0)
       (broker_world (respond scalars0 state0 id None (Some alice) (BrokerCall (RWrap wrap_msg)) pg_world0).2)
  /\ exists m, respond scalars0 state0 id None None (BrokerCall (RWrap wrap_msg)) pg_world0
       = (Err (mkStatus FailedPrecondition (Message m)), pg_world0).
Proof.
  assert (Hr : rpc_ok (BrokerCall (RWrap wrap_msg))) by (vm_compute; repeat split; discriminate).
  split; [vm_compute; reflexivity|]. split; [|split].
  - apply (dispatched_wrap scalars0 state0 id None).
    exact (proj1 (proj2 (api_refines scalars0 state0 id None (Some alice) _ pg_world0)) alice eq_refl).
  - apply (api_refines scalars0 state0 id None (Some alice) _ pg_world0); [exact Hr|]. intros u Hu. exact Hu.
  - apply (proj1 (api_refines scalars0 state0 id None None _ pg_world0)); [reflexivity|discriminate].
Defined.

Lemma envelope_key_overwritten_witness : exists o w1,
  rpc_crypto_encrypt state0 (Some bob) (mkEncryptMsg #"k1" #"x" #"kyber768" []) empty_world = (Ok o, w1)
  /\ envelopes w1 = envelopes empty_world.
Proof.
  destruct (envelope_key_overwritten state0 bob #"k1" #"x" [] empty_world) as (o & w1 & E & He & _).
  - reflexivity.
  - vm_compute. reflexivity.
  - exists o, w1. exact (conj E He).
Defined.

(** A broker with the default configuration can issue secrets while it has few
    keys. *)
Lemma toy_ready state w :
  crypto_config state = crypto_config state0 -> is_Some (crypto_master_key state) ->
  key_metadata w = ∅ -> tick w <= 100 -> engine_ready state #"default" 26 w.
Proof.
  intros Hc Hm Hk Hw. split; rewrite ?Hc; [reflexivity|reflexivity| |exact Hm| |].
  - unfold quota_free. rewrite Hk. by vm_compute.
  - intros t Ht _. change (rotation _) with (86400 * 10^9)%Z.
    split; [by vm_compute|]. unfold rfc3339_range, time_at, toy_oracle. lia.
  - intros t t' Ht Ht'. change (rotation _) with (86400 * 10^9)%Z. unfold time_at, toy_oracle. lia.
Qed.

(** A record of such a broker lives for a day, unless it or its lease ends
    before. *)
Lemma toy_live state ctx input cs o h r w w1 t :
  crypto_config state = crypto_config state0 -> redeem_token_ttl state = redeem_token_ttl state0 ->
  wrapped state ctx input cs o h r w w1 ->
  (forall e, i_lifecycle input = RenewableLease ->
     initial_lease (i_created_at input) (i_initial_lease_seconds input) = Ok (Some e) -> (time_at t <= e)%Z) ->
  (forall e, i_expires_at input = Some e -> (time_at t <= e)%Z) -> t <= 1000 ->
  (time_at t <= i_created_at input + 86400 * 10^9)%Z -> live r (time_at t).
Proof.
  intros Hc Hd HW Hs He Ht Hle. destruct (wrapped_issued _ _ _ _ _ _ _ _ _ HW) as (nonce & HI & _).
  destruct (wrapped_key _ _ _ _ _ _ _ _ _ HW) as (t0 & Ht0 & Hk). rewrite Hc in Hk.
  change (if key_rotation_enabled (crypto_config state0) then Some (time_at t0 + rotation (crypto_config state0))%Z
    else None) with (Some (time_at t0 + 86400 * 10^9)%Z) in Hk.
  split; [|split; [|split]].
  - by rewrite (issued_expiry _ _ _ _ _ HI).
  - rewrite (issued_deadline _ _ _ _ _ HI), Hd. by intros e [= <-].
  - rewrite Hk. intros e [= <-]. unfold time_at, toy_oracle. lia.
  - rewrite (issued_lifecycle _ _ _ _ _ HI). intros Hl e Ee. apply (Hs e Hl).
    by rewrite (issued_lease _ _ _ _ _ HI), Ee.
Qed.

Lemma msg_live o h r w1 t :
  wrapped state0 alice msg_input (wrap_caveats (wrap_request wrap_msg) msg_expires) o h r
    (advance empty_world) w1 -> t <= 100 -> live r (time_at t).
Proof.
  intros HW Ht. apply (toy_live _ _ _ _ _ _ _ _ _ _ eq_refl eq_refl HW); [by intros ? [=]| |lia|]; unfold time_at, toy_oracle.
  - intros e [= <-]. lia.
  - cbn. lia.
Qed.

Lemma msg_principal : v2_unwrap_principal alice SingleUseUnwrap None = Ok principal0.
Proof. vm_compute. reflexivity. Qed.

Lemma service_roundtrip_witness : exists reply w1 w3,
  rpc_wrap_secret_v2 state0 (Some alice) wrap_msg empty_world = (Ok reply, w1)
  /\ rpc_unwrap_secret_v2 state0 (Some alice) (unwrap_msg reply) w1 = (Ok #"hunter2", w3).
Proof.
  destruct (service_roundtrip state0 alice wrap_msg empty_world msg_expires (Some 3600%Z) principal0)
    as (reply & w1 & o & h & r & Hw & HW & Hu).
  - exact inv0.
  - apply toy_ready; [done|by eexists|done|cbn; lia].
  - by repeat split.
  - vm_compute. reflexivity.
  - exact msg_principal.
  - by split.
  - reflexivity.
  - intros e [= <-]. by split.
  - apply (bool_decide_unpack _). vm_compute. exact I.
  - destruct (wrapped_issued _ _ _ _ _ _ _ _ _ HW) as (nonce & HI & _).
    pose proof (wrapped_within _ _ _ _ _ _ _ _ _ HW) as [_ Ht]. cbn [tick empty_world advance] in Ht.
    destruct (Hu alice (unwrap_msg reply) (r_last_accessed r) w1) as [w3 H3].
    + reflexivity.
    + reflexivity.
    + reflexivity.
    + repeat split.
    + exact (wrapped_inv _ _ _ _ _ _ _ _ _ HW).
    + rewrite (wrapped_records _ _ _ _ _ _ _ _ _ HW), lookup_insert_eq. by destruct r.
    + reflexivity.
    + exact (issuer_may_unwrap state0 alice msg_input nonce r HI msg_principal ltac:(discriminate)).
    + reflexivity.
    + apply (msg_live o h r w1 _ HW). lia.
    + apply (msg_live o h r w1 _ HW). lia.
    + exists reply, w1, w3. exact (conj Hw H3).
Defined.

(** The rotation of [RotationExamples] as a call with threshold 257. *)
Definition rotate_msg (o : WrapSecretOutcome) : RotateMsg :=
  mkRotateMsg (wo_handle o) #"hunter3" [] (Some []) 0 0 [] 257 3.

Lemma rotated_token_rejected_witness : exists o w reply w1,
  rpc_rotate_secret no_scalars state0 (Some alice) (rotate_msg o) w = (Ok reply, w1)
  /\ gto_new_shares reply = [].
Proof.
  destruct rotation_runs as (o & w & out & w1 & E).
  assert (ER : exists reply, rpc_rotate_secret no_scalars state0 (Some alice) (rotate_msg o) w = (Ok reply, w1)).
  { eexists. unfold rpc_rotate_secret. rewrite (bind_run _ _ w alice w) by reflexivity.
    erewrite bind_run; [|apply map_err_m_ok; exact E]. reflexivity. }
  destruct ER as [reply ER]. exists o, w, reply, w1. split; [exact ER|].
  apply (rotated_token_rejected no_scalars state0 alice (rotate_msg o) w reply w1); [cbn; lia|by vm_compute|exact ER].
Defined.

End ServiceExamples.
