(* ===== verification/Client.v ===== *)
(** The client library (crates/secret-broker-client/src/lib.rs): the calls of
    the adapter with their checks before and after a request, the cache of
    redeem tokens and shares, the resolution of the principal a secret is
    bound to, and the conversion of metadata.  The broker is an interface, the
    remote calls of a [Stub], which [broker_stub] implements by the service. *)

From S2P Require Import Prelude RustStd Externals Reference Macaroon MacaroonWire Threshold.
From S2P Require Import Transparency World SealedStore Config CryptoEngine CipherEngine Broker Issue Unwrap.
From S2P Require Import Delegate Manage Custody Postgres Grpc.

(** ** The remote service *)

(** [SecretBrokerServiceClient] over a state of the world, and the clock. *)
Record Stub (S : Type) := mkStub {
  clock : S -> datetime * S;
  st_describe_channel : M S Status DescribeChannelResponse;
  st_wrap_secret_v2 : WrapSecretV2Request -> M S Status WrapSecretResponse;
  st_mint_aead_key_v2 : MintAeadKeyV2Request -> M S Status MintAeadKeyV2Response;
  st_unwrap_secret_v2 : UnwrapSecretV2Request -> M S Status bytes;
  st_attenuate_handle_v2 : AttenuateHandleV2Request -> M S Status AttenuateHandleV2Response;
  st_mint_discharge : MintDischargeRequest -> M S Status str;
  st_issue_postgres_credentials :
    IssuePostgresCredentialsRequest -> M S Status IssuePostgresCredentialsResponse;
  st_crypto_encrypt : CryptoEncryptRequest -> M S Status CryptoEncryptResponse;
  st_crypto_decrypt : CryptoDecryptRequest -> M S Status CryptoDecryptResponse;
  st_crypto_sign : str -> bytes -> M S Status bytes;
  st_crypto_verify : str -> bytes -> bytes -> M S Status bool;
  st_crypto_keygen : str -> str -> M S Status (str * bytes * str);
  st_crypto_random : Z -> M S Status (bytes * Z);
  st_crypto_pubkey : str -> M S Status (str * bytes);
  st_delete_secret : str -> M S Status unit;
  st_renew_lease : RenewLeaseRequest -> M S Status RenewReply;
  st_revoke_secret : str -> str -> M S Status RevokeReply;
  st_rotate_secret : RotateMsg -> M S Status RotateReply;
  st_claim_share : str -> str -> M S Status ClaimReply;
}.
Arguments clock {S} _ _.
Arguments st_describe_channel {S} _.
Arguments st_wrap_secret_v2 {S} _ _.
Arguments st_mint_aead_key_v2 {S} _ _.
Arguments st_unwrap_secret_v2 {S} _ _.
Arguments st_attenuate_handle_v2 {S} _ _.
Arguments st_mint_discharge {S} _ _.
Arguments st_issue_postgres_credentials {S} _ _.
Arguments st_crypto_encrypt {S} _ _.
Arguments st_crypto_decrypt {S} _ _.
Arguments st_crypto_sign {S} _ _ _.
Arguments st_crypto_verify {S} _ _ _ _.
Arguments st_crypto_keygen {S} _ _ _.
Arguments st_crypto_random {S} _ _.
Arguments st_crypto_pubkey {S} _ _.
Arguments st_delete_secret {S} _ _.
Arguments st_renew_lease {S} _ _.
Arguments st_revoke_secret {S} _ _ _.
Arguments st_rotate_secret {S} _ _.
Arguments st_claim_share {S} _ _ _.

(** ** Data *)

Inductive ClientError :=
| StatusError (s : Status)
| MetadataNotObject
| UnauthenticatedChannel | NoChannelPrincipal | NoPeerCertificate | ClientPrincipalMismatch
| ExplicitPrincipalMismatch
| MissingField (field : str) | NegativeNanos | TimestampOutOfRange
| InvalidRedeemToken | RedeemMaterialExpired | RedeemMaterialNotLoaded
| TokenAndShares | ThresholdTooLarge | SharesTooMany | MissingShares | MissingToken
| NoShares | ShareIndexRange | ShareLength
| MissingHandle | MissingCaveatId | MissingArgument (name : str) | MissingDischarge.

Record ThresholdShareMaterial := mkMaterial { ms_x : Z; ms_y : bytes }.

Inductive RedeemMaterial := MToken (token : str) | MShares (shares : list ThresholdShareMaterial).
Record RedeemCacheEntry := mkEntry { material : RedeemMaterial; entry_expires_at : option datetime }.

Record ClientState (S : Type) := mkClient { redeem_cache : gmap str RedeemCacheEntry; net : S }.
Arguments mkClient {S} _ _.
Arguments redeem_cache {S} _.
Arguments net {S} _.

Definition into_proto (l : SecretLifecycle) : Z :=
  match l with SingleUseUnwrap => 0 | RenewableLease => 1 | ServiceBootstrap => 2 end.

Record WrapV2Params := mkWrapParams {
  wp_metadata : option json;
  wp_tenant_id : option str;
  wp_provider : option str;
  wp_circuit_id : option str;
  wp_node_id : option str;
  wp_ttl_seconds : option Z;
  wp_lifecycle : option SecretLifecycle;
  wp_initial_lease_seconds : option Z;
  wp_label : option str;
  wp_unwrap_principal_id : option str;
}.

Record WrapResponse := mkWrapResponse {
  wr_handle : str;
  wr_created_at : datetime;
  wr_expires_at : option datetime;
  wr_redeem_token : str;
  wr_redeem_token_expires_at : option datetime;
}.

Record MintAeadKeyV2Params := mkMintParams {
  mp_ttl_seconds : option Z;
  mp_label : option str;
  mp_tenant_id : option str;
  mp_provider : option str;
  mp_threshold : option Z;
  mp_num_shares : option Z;
  mp_lifecycle : option SecretLifecycle;
  mp_initial_lease_seconds : option Z;
  mp_unwrap_principal_id : option str;
  mp_custodian_ids : option (list str);
}.

Record MintAeadKeyV2Lease := mkMintLease {
  ml_key : bytes;
  ml_handle : str;
  ml_redeem_token : option str;
  ml_redeem_shares : list ThresholdShareMaterial;
  ml_redeem_token_expires_at : option datetime;
  ml_expires_at : option datetime;
  ml_threshold : Z;
  ml_num_shares : Z;
}.

Record UnwrapSecretV2Params := mkUnwrapParams {
  up_handle : str;
  up_redeem_token : option str;
  up_redeem_shares : list ThresholdShareMaterial;
  up_tenant_id : option str;
  up_provider : option str;
  up_circuit_id : option str;
  up_node_id : option str;
  up_discharges : list str;
}.

Record AttenuateHandleV2Params := mkAttenuateParams {
  ap_handle : str;
  ap_tenant_id : option str;
  ap_provider : option str;
  ap_circuit_id : option str;
  ap_node_id : option str;
  ap_action : option str;
  ap_max_uses : option Z;
  ap_third_party : option (str * str);
}.

Record RotateParams := mkRotateParams {
  rp_customer_id : option str;
  rp_metadata : option json;
  rp_ttl_seconds : option Z;
  rp_lifecycle : option SecretLifecycle;
  rp_rotation_reason : option str;
  rp_threshold : option Z;
  rp_num_shares : option Z;
}.

Record RotateResult := mkRotateResult {
  rr_new_handle : str;
  rr_created_at : option datetime;
  rr_expires_at : option datetime;
  rr_redeem_token : str;
  rr_redeem_token_expires_at : option datetime;
  rr_old_revoked : bool;
  rr_new_shares : list ThresholdShareMaterial;
}.

Record PostgresCredentialLease := mkPgLease {
  pl_database_url : str;
  pl_username : option str;
  pl_password : option str;
  pl_ca_certificate_pem : option str;
  pl_server_cert_fingerprint : option str;
  pl_expires_at : option datetime;
}.

(** ** Conversions *)

(** [n as f64] of an integer: the bit pattern of the nearest double, ties to
    even. *)
Definition f64_of_nonneg (n : Z) : Z :=
  if (n =? 0)%Z then 0%Z
  else
    let e := Z.log2 n in
    let mantissa :=
      if (e <=? 52)%Z then Z.shiftl n (52 - e)
      else
        let unit := Z.shiftl 1 (e - 52) in
        let q := (n / unit)%Z in
        let rest := (2 * (n mod unit))%Z in
        if (unit <? rest)%Z || ((rest =? unit)%Z && Z.odd q) then (q + 1)%Z else q in
    ((e + 1023) * 2^52 + (mantissa - 2^52))%Z.
Definition as_f64 (n : number) : Z :=
  match n with
  | PosInt n => f64_of_nonneg n
  | NegInt n => (2^63 + f64_of_nonneg (- n))%Z
  | Float bits => bits
  end.

(** Every number has a double ([serde_json] without arbitrary precision), so
    the conversion of a value does not fail. *)
Fixpoint serde_value_to_prost (v : json) : prost_value :=
  match v with
  | JNull => PNull
  | JBool b => PBool b
  | JNumber n => PNumber (as_f64 n)
  | JString s => PString s
  | JArray values => PList (map serde_value_to_prost values)
  | JObject m => PStruct (map (fun kv => (kv.1, serde_value_to_prost kv.2)) m)
  end.

Definition json_map_to_struct (m : list (str * json)) : list (str * prost_value) :=
  map (fun kv => (kv.1, serde_value_to_prost kv.2)) m.

Definition option_json_to_struct (value : option json)
    : result ClientError (option (list (str * prost_value))) :=
  match value with
  | None => Ok None
  | Some (JObject m) => Ok (Some (json_map_to_struct m))
  | Some _ => Err MetadataNotObject
  end.

Section Timestamps.
Context `{TextCodecs}.

(** [Utc.timestamp_opt(secs, nanos).single()]: up to two seconds of
    nanoseconds are accepted in the last second of a minute, for leap seconds. *)
Definition timestamp_opt (secs nanos : Z) : option datetime :=
  let t := (secs * ns_per_sec + nanos)%Z in
  if ((nanos <? ns_per_sec)%Z || ((nanos <? 2 * ns_per_sec)%Z && (secs mod 60 =? 59)%Z))
     && (datetime_min <=? t)%Z && (t <=? datetime_max)%Z
  then Some t else None.

Definition timestamp_to_datetime (ts : Timestamp) : result ClientError datetime :=
  let! _ := guard (nanos ts <? 0)%Z NegativeNanos in
  ok_or (timestamp_opt (seconds ts) (nanos ts)) TimestampOutOfRange.
Definition optional_timestamp (ts : option Timestamp) : result ClientError (option datetime) :=
  match ts with
  | Some ts => let! t := timestamp_to_datetime ts in Ok (Some t)
  | None => Ok None
  end.
Definition required_timestamp (ts : option Timestamp) (field : str) : result ClientError datetime :=
  let! ts := ok_or ts (MissingField field) in timestamp_to_datetime ts.
End Timestamps.

Definition SHARE_Y_LEN : nat := 32.

Definition validate_threshold_shares (shares : list ThresholdShareMaterial) : result ClientError unit :=
  let! _ := guard (is_empty shares) NoShares in
  for_each (fun share =>
    let! _ := guard (ms_x share =? 0)%Z ShareIndexRange in
    guard (negb (length (ms_y share) =? SHARE_Y_LEN)%nat) ShareLength) shares.

Definition proto_shares_to_material (shares : list ThresholdShare)
    : result ClientError (list ThresholdShareMaterial) :=
  if is_empty shares then Ok []
  else
    let! materials := collect (fun share =>
      let! _ := guard ((ts_x share =? 0)%Z || (255 <? ts_x share)%Z) ShareIndexRange in
      Ok (mkMaterial (ts_x share) (ts_y share))) shares in
    let! _ := validate_threshold_shares materials in
    Ok materials.

Definition material_to_proto_shares (shares : list ThresholdShareMaterial)
    : result ClientError (list ThresholdShare) :=
  let! _ := validate_threshold_shares shares in
  Ok (map (fun share => mkThresholdShare (ms_x share) (ms_y share)) shares).

(** ** Calls *)

Section Calls.
Context `{TextCodecs} {S : Type}.
Variable stub : Stub S.
(** [client_principal_id] of the adapter *)
Variable client_principal_id : option str.
(** The order in which the cache is iterated. *)
Variable cache_order : list (str * RedeemCacheEntry) -> list (str * RedeemCacheEntry).

Abbreviation C := (M (ClientState S) ClientError).

(** [client.call(request).await.map_err(map_status)?] *)
Definition remote {A} (m : M S Status A) : C A :=
  map_err_m StatusError (zoom net (fun s c => mkClient (redeem_cache c) s) m).
Definition local_now : C datetime := fun c =>
  let '(t, s) := clock stub (net c) in (Ok t, mkClient (redeem_cache c) s).
Definition set_cache (f : gmap str RedeemCacheEntry -> gmap str RedeemCacheEntry) : C unit := fun c =>
  (Ok tt, mkClient (f (redeem_cache c)) (net c)).

(** *** The cache *)

Definition entry_is_expired (e : RedeemCacheEntry) : C bool :=
  match entry_expires_at e with
  | Some expiry => let* now := local_now in ret (expiry <? now)%Z
  | None => ret false
  end.

(** [retain], which asks the clock for every entry that expires *)
Fixpoint purge_entries (entries : list (str * RedeemCacheEntry)) : C unit :=
  match entries with
  | [] => ret tt
  | (handle, e) :: entries =>
    let* expired := entry_is_expired e in
    let* _ := (if expired : bool then set_cache (base.delete handle) else ret tt) in
    purge_entries entries
  end.
Definition purge_expired : C unit := fun c => purge_entries (cache_order (map_to_list (redeem_cache c))) c.

Definition remember_redeem_token (handle token : str) (expires_at : option datetime) : C unit :=
  let trimmed := trim token in
  let* _ := lift (ok_or (b64_decode trimmed) InvalidRedeemToken) in
  set_cache (<[trim handle := mkEntry (MToken trimmed) expires_at]>).

Definition remember_redeem_shares (handle : str) (shares : list ThresholdShareMaterial)
    (expires_at : option datetime) : C unit :=
  let* _ := lift (validate_threshold_shares shares) in
  set_cache (<[trim handle := mkEntry (MShares shares) expires_at]>).

(** The entry is removed even when it turns out to have expired. *)
Definition take_redeem_material (handle : str) (now : datetime) : C (RedeemMaterial * option datetime) :=
  let* found := (fun c => (Ok (redeem_cache c !! handle), c)) in
  let* _ := set_cache (base.delete handle) in
  let* entry := lift (ok_or found RedeemMaterialNotLoaded) in
  let* _ := lift (guard (match entry_expires_at entry with
                         | Some expiry => (expiry <? now)%Z
                         | None => false
                         end) RedeemMaterialExpired) in
  ret (material entry, entry_expires_at entry).

Definition validate_expiry (expires_at : option datetime) : C unit :=
  match expires_at with
  | Some expiry => let* now := local_now in lift (guard (expiry <? now)%Z RedeemMaterialExpired)
  | None => ret tt
  end.

Definition preload_redeem_token (handle token : str) (expires_at : option datetime) : C unit :=
  let* _ := local_now in
  let* _ := purge_expired in
  remember_redeem_token (trim handle) token expires_at.
Definition preload_redeem_shares (handle : str) (shares : list ThresholdShareMaterial)
    (expires_at : option datetime) : C unit :=
  let* _ := local_now in
  let* _ := purge_expired in
  remember_redeem_shares (trim handle) shares expires_at.

(** *** The principal a secret is bound to *)

Definition require_authenticated_channel_principal (channel : DescribeChannelResponse)
    (require_peer_cert : bool) : result ClientError str :=
  let channel_principal := trim (ch_principal_id channel) in
  let! _ := guard (negb (ch_authenticated_transport channel)) UnauthenticatedChannel in
  let! _ := guard (is_empty channel_principal) NoChannelPrincipal in
  let! _ := guard (require_peer_cert && is_empty (ch_peer_cert_sha256 channel)) NoPeerCertificate in
  let! _ := guard (match trim_nonempty client_principal_id with
                   | Some client_principal => negb (str_eqb client_principal channel_principal)
                   | None => false
                   end) ClientPrincipalMismatch in
  Ok channel_principal.

Definition long_lived (lifecycle : SecretLifecycle) : bool :=
  match lifecycle with RenewableLease | ServiceBootstrap => true | SingleUseUnwrap => false end.

Definition resolve_v2_unwrap_principal (lifecycle : SecretLifecycle) (requested_principal : option str)
    (channel : DescribeChannelResponse) : result ClientError str :=
  let requested_principal := trim_nonempty requested_principal in
  match requested_principal, long_lived lifecycle with
  | None, false => Ok []
  | _, _ =>
    let! channel_principal := require_authenticated_channel_principal channel (long_lived lifecycle) in
    match lifecycle, requested_principal with
    | SingleUseUnwrap, Some requested =>
      let! _ := guard (negb (str_eqb requested channel_principal)) ExplicitPrincipalMismatch in
      Ok requested
    | SingleUseUnwrap, None => Ok []
    | _, _ => Ok (default channel_principal requested_principal)
    end
  end.

(** The channel is only asked about when it matters. *)
Definition resolved_principal (lifecycle : SecretLifecycle) (requested : option str) : C str :=
  let requested := trim_nonempty requested in
  match requested, long_lived lifecycle with
  | None, false => ret []
  | _, _ =>
    let* channel := remote (st_describe_channel stub) in
    lift (resolve_v2_unwrap_principal lifecycle requested channel)
  end.

(** *** Secrets *)

Definition or_empty (o : option str) : str := default [] o.
Definition or_zero (o : option Z) : Z := default 0%Z o.

Definition wrap_message (plaintext : bytes) (metadata : option (list (str * prost_value)))
    (params : WrapV2Params) (principal : str) : WrapSecretV2Request :=
  mkWrapMsg plaintext [] metadata (into_proto (default SingleUseUnwrap (wp_lifecycle params)))
    (or_zero (wp_initial_lease_seconds params)) (or_empty (wp_label params)) (or_empty (wp_tenant_id params))
    (or_empty (wp_provider params)) (or_empty (wp_circuit_id params)) (or_empty (wp_node_id params))
    principal (or_zero (wp_ttl_seconds params)).

Definition wrap_bytes_v2 (plaintext : bytes) (params : WrapV2Params) : C WrapResponse :=
  let* _ := local_now in
  let* _ := purge_expired in
  let* metadata := lift (option_json_to_struct (wp_metadata params)) in
  let lifecycle := default SingleUseUnwrap (wp_lifecycle params) in
  let* principal := resolved_principal lifecycle (wp_unwrap_principal_id params) in
  let* response := remote (st_wrap_secret_v2 stub (wrap_message plaintext metadata params principal)) in
  let* created_at := lift (required_timestamp (gwo_created_at response) #"created_at") in
  let* expires_at := lift (optional_timestamp (gwo_expires_at response)) in
  let redeem_token := b64_encode (gwo_redeem_token response) in
  let* redeem_token_expires_at := lift (optional_timestamp (gwo_redeem_token_expires_at response)) in
  let* _ := remember_redeem_token (gwo_handle response) redeem_token redeem_token_expires_at in
  ret (mkWrapResponse (gwo_handle response) created_at expires_at redeem_token redeem_token_expires_at).

(** [wrap_json_v2], for a payload and its JSON text *)
Definition wrap_json_v2 {T} `{!Serde T} (payload : T) (params : WrapV2Params) : C WrapResponse :=
  wrap_bytes_v2 (to_vec payload) params.

Definition mint_message (params : MintAeadKeyV2Params) (principal : str) : MintAeadKeyV2Request :=
  mkMintMsg (or_zero (mp_ttl_seconds params)) (or_empty (mp_label params)) (or_empty (mp_tenant_id params))
    (or_empty (mp_provider params)) (or_zero (mp_threshold params)) (or_zero (mp_num_shares params))
    (into_proto (default SingleUseUnwrap (mp_lifecycle params))) (or_zero (mp_initial_lease_seconds params))
    (default [] (mp_custodian_ids params)) principal.

(** A count in the response: zero means the fallback. *)
Definition reply_count (n fallback : Z) (e : ClientError) : result ClientError Z :=
  if (n =? 0)%Z then Ok fallback else if (n <=? 255)%Z then Ok n else Err e.

Definition client_mint_aead_key_v2 (params : MintAeadKeyV2Params) : C MintAeadKeyV2Lease :=
  let lifecycle := default SingleUseUnwrap (mp_lifecycle params) in
  let* principal := resolved_principal lifecycle (mp_unwrap_principal_id params) in
  let* response := remote (st_mint_aead_key_v2 stub (mint_message params principal)) in
  let* threshold := lift (reply_count (gmo_threshold response) 1 ThresholdTooLarge) in
  let* num_shares := lift (reply_count (gmo_num_shares response) threshold SharesTooMany) in
  let* expires_at := lift (optional_timestamp (gmo_expires_at response)) in
  let* redeem_expires_at := lift (optional_timestamp (gmo_redeem_token_expires_at response)) in
  let* redeem_shares := lift (proto_shares_to_material (gmo_redeem_shares response)) in
  let redeem_token := if is_empty (gmo_redeem_token response) then None
                      else Some (b64_encode (gmo_redeem_token response)) in
  let* _ :=
    (if (1 <? threshold)%Z then
       let* _ := lift (guard (is_empty redeem_shares) MissingShares) in
       remember_redeem_shares (gmo_handle response) redeem_shares redeem_expires_at
     else
       let* token := lift (ok_or redeem_token MissingToken) in
       remember_redeem_token (gmo_handle response) token redeem_expires_at) in
  ret (mkMintLease (gmo_key response) (gmo_handle response) redeem_token redeem_shares redeem_expires_at
         expires_at threshold num_shares).

(** What is presented: given material, or what the cache has. *)
Definition redeem_material (params : UnwrapSecretV2Params) (handle : str) (now : datetime)
    : C (bytes * list ThresholdShare) :=
  match up_redeem_token params with
  | Some token =>
    let* token_bytes := lift (ok_or (b64_decode (trim token)) InvalidRedeemToken) in
    ret (token_bytes, [])
  | None =>
    if negb (is_empty (up_redeem_shares params)) then
      let* shares := lift (material_to_proto_shares (up_redeem_shares params)) in
      ret ([], shares)
    else
      let* (material, expires_at) := take_redeem_material handle now in
      let* _ := validate_expiry expires_at in
      match material with
      | MToken token =>
        let* token_bytes := lift (ok_or (b64_decode token) InvalidRedeemToken) in
        ret (token_bytes, [])
      | MShares shares =>
        let* shares := lift (material_to_proto_shares shares) in
        ret ([], shares)
      end
  end.

Definition unwrap_message (params : UnwrapSecretV2Params) (handle : str) (token : bytes)
    (shares : list ThresholdShare) : UnwrapSecretV2Request :=
  mkUnwrapMsg handle token shares (or_empty (up_tenant_id params)) (or_empty (up_provider params))
    (or_empty (up_circuit_id params)) (or_empty (up_node_id params)) (up_discharges params).

Definition client_unwrap_secret_v2 (params : UnwrapSecretV2Params) : C bytes :=
  let* now := local_now in
  let* _ := purge_expired in
  let* _ := lift (guard (match up_redeem_token params with Some _ => true | None => false end
                         && negb (is_empty (up_redeem_shares params))) TokenAndShares) in
  let handle := trim (up_handle params) in
  let* (redeem_token, redeem_shares) := redeem_material params handle now in
  remote (st_unwrap_secret_v2 stub (unwrap_message params handle redeem_token redeem_shares)).

Definition client_attenuate_handle_v2 (params : AttenuateHandleV2Params) : C (str * option str) :=
  let* response := remote (st_attenuate_handle_v2 stub
    (mkAttenuateMsg (trim (ap_handle params)) (or_empty (ap_tenant_id params)) (or_empty (ap_provider params))
       (or_empty (ap_circuit_id params)) (or_empty (ap_node_id params)) (or_empty (ap_action params))
       (or_zero (ap_max_uses params)) (ap_third_party params))) in
  let handle := trim (gao_handle response) in
  let* _ := lift (guard (is_empty handle) MissingHandle) in
  let caveat_id := empty_to_none (gao_third_party_caveat_id response) in
  let* _ := lift (guard (match ap_third_party params, caveat_id with Some _, None => true | _, _ => false end)
                    MissingCaveatId) in
  ret (handle, caveat_id).

Definition required_argument (value name : str) : result ClientError str :=
  let! _ := guard (is_empty (trim value)) (MissingArgument name) in Ok (trim value).

Definition client_mint_discharge (primary_handle location caveat_id : str) : C str :=
  let* primary_handle := lift (required_argument primary_handle #"primary_handle") in
  let* location := lift (required_argument location #"location") in
  let* caveat_id := lift (required_argument caveat_id #"opaque caveat_id") in
  let* channel := remote (st_describe_channel stub) in
  let* _ := lift (require_authenticated_channel_principal channel true) in
  let* token := remote (st_mint_discharge stub (mkDischargeReq location primary_handle caveat_id)) in
  let* _ := lift (guard (is_empty (trim token)) MissingDischarge) in
  ret (trim token).

(** *** Management *)

Definition client_delete_secret (handle : str) : C unit :=
  let* _ := remote (st_delete_secret stub handle) in
  set_cache (base.delete handle).

Definition client_renew_lease (handle : str) (lease_duration_seconds : Z) : C (option datetime * Z) :=
  let* response := remote (st_renew_lease stub (mkRenewReq (trim handle) lease_duration_seconds)) in
  let* lease_expires_at := lift (optional_timestamp (gn_lease_expires_at response)) in
  ret (lease_expires_at, gn_renewal_count response).

Definition client_revoke_secret (handle : str) (reason : option str) : C (bool * option datetime) :=
  let* response := remote (st_revoke_secret stub (trim handle) (or_empty reason)) in
  let* _ := set_cache (base.delete (trim handle)) in
  let* revoked_at := lift (optional_timestamp (gk_revoked_at response)) in
  ret (gk_revoked response, revoked_at).

Definition rotate_message (old_handle : str) (new_plaintext : bytes)
    (metadata : option (list (str * prost_value))) (params : RotateParams) : RotateMsg :=
  mkRotateMsg (trim old_handle) new_plaintext (or_empty (rp_customer_id params)) metadata
    (or_zero (rp_ttl_seconds params)) (default 0%Z (into_proto <$> rp_lifecycle params))
    (or_empty (rp_rotation_reason params)) (or_zero (rp_threshold params)) (or_zero (rp_num_shares params)).

(** The service returns the token as text, which is kept as it is; a token
    that is not base64 is not cached, without an error. *)
Definition client_rotate_secret (old_handle : str) (new_plaintext : bytes) (params : RotateParams)
    : C RotateResult :=
  let* metadata := lift (option_json_to_struct (rp_metadata params)) in
  let* response := remote (st_rotate_secret stub (rotate_message old_handle new_plaintext metadata params)) in
  let new_handle := trim (gto_new_handle response) in
  let redeem_token := default [] (from_utf8 (gto_redeem_token response)) in
  let* redeem_token_expires_at := lift (optional_timestamp (gto_redeem_token_expires_at response)) in
  let* _ := (if is_empty redeem_token then ret tt
             else fun c => (Ok tt, (remember_redeem_token new_handle redeem_token redeem_token_expires_at c).2)) in
  let* _ := set_cache (base.delete (trim old_handle)) in
  let* new_shares := lift (proto_shares_to_material (gto_new_shares response)) in
  let* created_at := lift (optional_timestamp (gto_created_at response)) in
  let* expires_at := lift (optional_timestamp (gto_expires_at response)) in
  ret (mkRotateResult new_handle created_at expires_at redeem_token redeem_token_expires_at
         (gto_old_revoked response) new_shares).

Definition client_claim_share (handle custodian_id : str)
    : C (ThresholdShareMaterial * list bytes * bool) :=
  let* response := remote (st_claim_share stub (trim handle) (trim custodian_id)) in
  let* share := lift (ok_or (gc_share response) MissingShares) in
  let* _ := lift (guard ((ts_x share =? 0)%Z || (255 <? ts_x share)%Z) ShareIndexRange) in
  ret (mkMaterial (ts_x share) (ts_y share), gc_commitments response, gc_previously_claimed response).

(** *** Credentials and the crypto engine *)

Definition client_issue_postgres_credentials (audience : str) (scope : list str) (ttl_seconds : option Z)
    (application_name : option str) : C PostgresCredentialLease :=
  let* response := remote (st_issue_postgres_credentials stub
    (mkPgMsg (trim audience) scope (or_zero ttl_seconds) (or_empty application_name))) in
  let* expires_at := lift (optional_timestamp (gpo_expires_at response)) in
  ret (mkPgLease (gpo_database_url response) (empty_to_none (gpo_username response))
         (empty_to_none (gpo_password response)) (empty_to_none (gpo_ca_certificate_pem response))
         (empty_to_none (gpo_server_cert_fingerprint response)) expires_at).

Definition client_crypto_encrypt (key_id : option str) (plaintext : bytes) (algorithm customer_id : option str)
    : C (bytes * str * bytes) :=
  let* response := remote (st_crypto_encrypt stub
    (mkEncryptMsg (or_empty key_id) plaintext (or_empty algorithm) (or_empty customer_id))) in
  ret (geo_ciphertext response, geo_key_id response, geo_nonce response).

Definition client_crypto_decrypt (key_id : str) (ciphertext : bytes) (algorithm customer_id : option str)
    : C (bytes * bool) :=
  let* response := remote (st_crypto_decrypt stub
    (mkDecryptMsg key_id ciphertext (or_empty algorithm) (or_empty customer_id))) in
  ret (gxo_plaintext response, gxo_verified response).

Definition client_crypto_sign (key_id : str) (data : bytes) : C bytes :=
  remote (st_crypto_sign stub key_id data).
Definition client_crypto_verify (key_id : str) (data signature : bytes) : C bool :=
  remote (st_crypto_verify stub key_id data signature).
Definition client_crypto_keygen (algorithm : str) (customer_id : option str) : C (str * bytes * str) :=
  remote (st_crypto_keygen stub algorithm (or_empty customer_id)).
Definition client_crypto_random (length : Z) : C bytes :=
  let* response := remote (st_crypto_random stub length) in ret response.1.
Definition client_crypto_pubkey (key_id : str) : C bytes :=
  let* response := remote (st_crypto_pubkey stub (trim key_id)) in ret response.2.

End Calls.

(** ** The service behind the stub *)

Section BrokerStub.
Context `{TextCodecs} `{Hashes} `{JsonText} `{Aead} `{PqCrypto} `{Oracle} `{AeadData} `{P256}.
Context `{!Serde KyberKeyPair} `{!Serde DilithiumKeyPair} `{!Serde KeyRecord}.
Context `{!Serde StoredEnvelopeRecord} `{!Serde EncryptedRecord} `{!Serde SecretEnvelope}.
Context `{!Serde (list Share)}.
Variable random_scalars : nat -> nat -> scalar.
Variable state : BrokerState.

(** A connection with context [ctx].  Client and broker each read their clock,
    so the readings are unrelated.  Postgres credentials are disabled. *)
Definition broker_stub (ctx : BrokerClientContext) : Stub World := {|
  clock w := (time_at (tick w), advance w);
  st_describe_channel := rpc_describe_channel (Some ctx);
  st_wrap_secret_v2 := rpc_wrap_secret_v2 state (Some ctx);
  st_mint_aead_key_v2 := rpc_mint_aead_key_v2 random_scalars state (Some ctx);
  st_unwrap_secret_v2 := rpc_unwrap_secret_v2 state (Some ctx);
  st_attenuate_handle_v2 := rpc_attenuate_handle_v2 state (Some ctx);
  st_mint_discharge := rpc_mint_discharge state (Some ctx);
  st_issue_postgres_credentials _ :=
    lift (Err (svc_service_err (ServiceError.Unavailable #"postgres credential issuance disabled")));
  st_crypto_encrypt := rpc_crypto_encrypt state (Some ctx);
  st_crypto_decrypt := rpc_crypto_decrypt state (Some ctx);
  st_crypto_sign := rpc_crypto_sign state (Some ctx);
  st_crypto_verify := rpc_crypto_verify (Some ctx);
  st_crypto_keygen := rpc_crypto_keygen state (Some ctx);
  st_crypto_random := rpc_crypto_random state (Some ctx);
  st_crypto_pubkey := rpc_crypto_pubkey (Some ctx);
  st_delete_secret := rpc_delete_secret state (Some ctx);
  st_renew_lease := rpc_renew_lease state (Some ctx);
  st_revoke_secret := rpc_revoke_secret state (Some ctx);
  st_rotate_secret := rpc_rotate_secret random_scalars state (Some ctx);
  st_claim_share := rpc_claim_share state (Some ctx);
|}.
End BrokerStub.
