(* ===== verification/Session.v ===== *)
(** What a client gets from the broker through the library of [Client]: cached
    material is used once, the client resolves the principal of a secret as the
    broker does, a secret wrapped and unwrapped by the library comes back, and
    keys for custodians cannot be minted with it. *)

From S2P Require Import Prelude RustStd Externals Reference Macaroon MacaroonWire Threshold.
From S2P Require Import Transparency World SealedStore Config CryptoEngine CipherEngine Broker Issue Unwrap.
From S2P Require Import Delegate Manage Rotation Custody Evolution System Grpc Service Client.

(** ** The cache *)

Section Cache.
Context `{TextCodecs} {S : Type}.
Variable stub : Stub S.
Variable cache_order : list (str * RedeemCacheEntry) -> list (str * RedeemCacheEntry).

Abbreviation unwrap := (client_unwrap_secret_v2 stub cache_order).

(** Purging does not fail, and only removes. *)
Lemma purge_entries_shrinks l c : exists c',
  purge_entries stub l c = (Ok tt, c') /\ redeem_cache c' ⊆ redeem_cache c.
Proof.
  revert c. induction l as [|[k e] l IH]; intros c; [by exists c|].
  assert (exists b s, entry_is_expired stub e c = (Ok b, mkClient (redeem_cache c) s)) as (b & s & Hb).
  { unfold entry_is_expired, local_now, ret, bind. destruct (entry_expires_at e), c; cbn; eauto.
    destruct (clock stub _). eauto. }
  cbn [purge_entries]. rewrite (bind_run _ _ c b (mkClient (redeem_cache c) s)) by done. destruct b.
  - rewrite (bind_run _ _ _ tt (mkClient (base.delete k (redeem_cache c)) s)) by done.
    destruct (IH (mkClient (base.delete k (redeem_cache c)) s)) as (c' & -> & Hc'). exists c'. split; [done|].
    cbn in Hc'. etrans; [exact Hc'|apply delete_subseteq].
  - rewrite (bind_run _ _ _ tt (mkClient (redeem_cache c) s)) by done. apply (IH (mkClient (redeem_cache c) s)).
Qed.

(** The start of every call that uses the cache. *)
Lemma local_now_runs c : local_now stub c = (Ok (clock stub (net c)).1, mkClient (redeem_cache c) (clock stub (net c)).2).
Proof. unfold local_now. by destruct (clock stub (net c)). Qed.

(** An unwrap that relies on the cache. *)
Definition from_cache (params : UnwrapSecretV2Params) : Prop :=
  up_redeem_token params = None /\ up_redeem_shares params = [].

Lemma from_cache_runs params c : from_cache params -> exists now c1,
  redeem_cache c1 ⊆ redeem_cache c
  /\ unwrap params c = (let* (token, shares) := redeem_material stub params (trim (up_handle params)) now in
       remote (st_unwrap_secret_v2 stub (unwrap_message params (trim (up_handle params)) token shares))) c1.
Proof.
  intros [Hn Hs]. destruct (purge_entries_shrinks (cache_order (map_to_list (redeem_cache c)))
    (mkClient (redeem_cache c) (clock stub (net c)).2)) as (c1 & Hp & Hc1).
  exists (clock stub (net c)).1, c1. split; [done|]. unfold client_unwrap_secret_v2.
  erewrite bind_run by apply local_now_runs. rewrite (bind_run _ _ _ tt c1) by exact Hp.
  rewrite (bind_run _ _ c1 tt c1); [done|]. unfold lift. by rewrite Hn.
Qed.

Lemma remote_cache {A} (m : M S Status A) c : redeem_cache (remote m c).2 = redeem_cache c.
Proof. unfold remote, map_err_m, zoom. by destruct (m (net c)). Qed.

Lemma take_removes handle now (c : ClientState S) :
  redeem_cache (take_redeem_material handle now c).2 = base.delete handle (redeem_cache c).
Proof.
  unfold take_redeem_material, set_cache, lift, bind, ret. cbn.
  destruct (redeem_cache c !! handle) as [e|]; [|done]. cbn. by destruct (guard _ _).
Qed.

Lemma redeem_material_removes params handle now c :
  from_cache params -> redeem_cache (redeem_material stub params handle now c).2 = base.delete handle (redeem_cache c).
Proof.
  intros [Hn Hs]. unfold redeem_material. rewrite Hn, Hs. cbn [is_empty negb].
  pose proof (take_removes handle now c) as Ht. unfold bind at 1.
  destruct (take_redeem_material handle now c) as [[[m x]| |] c1]; [|done..]. cbn [snd] in Ht. rewrite <- Ht.
  assert (Hv : redeem_cache (validate_expiry stub x c1).2 = redeem_cache c1).
  { unfold validate_expiry. destruct x; [|done]. erewrite bind_run by apply local_now_runs. done. }
  unfold bind at 1. destruct (validate_expiry stub x c1) as [[[]| |] c2]; [|done..]. cbn [snd] in Hv. rewrite <- Hv.
  destruct m; unfold bind, lift, ret; by case_match.
Qed.

(** C39: cached redeem material is used at most once: whether or not the call
    succeeds, an unwrap that relies on the cache leaves no material for its
    handle, and the next one fails before it reaches the broker. *)
Theorem cached_material_once params c r c1 :
  from_cache params -> unwrap params c = (r, c1) ->
  redeem_cache c1 !! trim (up_handle params) = None
  /\ forall params' c2, from_cache params' -> trim (up_handle params') = trim (up_handle params) ->
       redeem_cache c2 = redeem_cache c1 -> (unwrap params' c2).1 = Err RedeemMaterialNotLoaded.
Proof.
  intros Hc Hu. destruct (from_cache_runs params c Hc) as (now & c0 & _ & Hr). rewrite Hr in Hu.
  assert (Hgone : redeem_cache c1 !! trim (up_handle params) = None).
  { pose proof (redeem_material_removes params (trim (up_handle params)) now c0 Hc) as Hd. unfold bind in Hu.
    destruct (redeem_material _ _ _ _ c0) as [[[t sh]| |] c']; [|injection Hu as <- <-; cbn in Hd; rewrite Hd; apply lookup_delete_eq..].
    apply (f_equal snd) in Hu. cbn [snd] in Hu, Hd. subst c1. rewrite remote_cache, Hd. apply lookup_delete_eq. }
  split; [done|]. intros params' c2 Hc' Hh Hsame.
  destruct (from_cache_runs params' c2 Hc') as (now' & c3 & Hsub & ->).
  assert (Hnone : redeem_cache c3 !! trim (up_handle params') = None).
  { rewrite Hh. rewrite Hsame in Hsub. by eapply lookup_weaken_None. }
  destruct Hc' as [Hn Hs]. unfold redeem_material, take_redeem_material. rewrite Hn, Hs. cbn [is_empty negb].
  unfold bind, set_cache, lift. cbn. by rewrite Hnone.
Qed.

End Cache.

(** ** Times *)

Lemma timestamp_roundtrip `{TextCodecsLaws} t :
  (datetime_min <= t <= datetime_max)%Z -> optional_timestamp (chrono_to_timestamp t) = Ok (Some t).
Proof.
  intros Ht. cbn. unfold timestamp_to_datetime, timestamp_opt. cbn [seconds nanos].
  assert (Hn : (0 <= t mod ns_per_sec < ns_per_sec)%Z) by (by apply Z.mod_pos_bound).
  assert (Hs : (timestamp t * ns_per_sec + t mod ns_per_sec = t)%Z).
  { unfold timestamp. rewrite (Z.div_mod t ns_per_sec) at 3 by done. lia. }
  rewrite Hs, (proj2 (Z.ltb_ge _ 0)), (proj2 (Z.ltb_lt _ ns_per_sec)), !(proj2 (Z.leb_le _ _)) by lia. done.
Qed.

(** ** The client and the broker *)

Section Session.
Context `{TextCodecsLaws} `{HashesLaws} `{JsonText} `{AeadLaws} `{PqCryptoLaws} `{OracleLaws} `{AeadData} `{P256}.
Context `{!Serde KyberKeyPair} `{!Serde DilithiumKeyPair} `{!Serde KeyRecord}.
Context `{!Serde StoredEnvelopeRecord} `{!Serde EncryptedRecord} `{!Serde SecretEnvelope}.
Context `{!Serde (list Share)}.
Context `{!SerdeLaws KyberKeyPair (fun _ => True)} `{!SerdeLaws KeyRecord (fun _ => True)}.
Context `{!SerdeLaws StoredEnvelopeRecord record_ok} `{!SerdeLaws EncryptedRecord (fun _ => True)}.
Variable random_scalars : nat -> nat -> scalar.
Variable state : BrokerState.
Variable client_principal_id : option str.
Variable cache_order : list (str * RedeemCacheEntry) -> list (str * RedeemCacheEntry).
Hypothesis cache_order_perm : forall l, cache_order l ≡ₚ l.

Abbreviation stub := (broker_stub random_scalars state).
Abbreviation cipher := (sealed_store state).

(** The identity the client was configured with, if any, is the one the
    connection authenticated, and a certificate is not empty. *)
Record consistent (ctx : BrokerClientContext) : Prop := {
  consistent_session : is_Some (session_id ctx);
  consistent_principal : forall p, trim_nonempty client_principal_id = Some p ->
    normalized_context_principal ctx = Some p;
  consistent_peer : peer_cert_sha256 ctx <> Some [];
}.

(** The part of the description the library uses. *)
Record describes (ch : DescribeChannelResponse) (ctx : BrokerClientContext) : Prop := {
  describes_transport : ch_authenticated_transport ch = authenticated_transport ctx;
  describes_principal : ch_principal_id ch = default [] (principal_id ctx);
  describes_peer : ch_peer_cert_sha256 ch = default [] (peer_cert_sha256 ctx);
}.

Lemma describe_runs ctx w : is_Some (session_id ctx) ->
  exists ch, rpc_describe_channel (Some ctx) w = (Ok ch, w) /\ describes ch ctx.
Proof.
  intros [s Hs]. unfold rpc_describe_channel, lift, bind. cbn. rewrite Hs. cbn. by eexists.
Qed.

Lemma channel_principal_ok ctx ch peer principal :
  consistent ctx -> describes ch ctx ->
  require_authenticated_channel_principal client_principal_id ch peer = Ok principal
  <-> authenticated_transport ctx = true /\ normalized_context_principal ctx = Some principal
      /\ (peer = true -> is_Some (peer_cert_sha256 ctx)).
Proof.
  intros [_ Hc Hp] [Ha Hi Hcert]. unfold require_authenticated_channel_principal. rewrite Ha, Hi, Hcert.
  rewrite !guard_bind_ok, negb_false_iff.
  assert (Hn : is_empty (trim (default [] (principal_id ctx))) = false
    <-> normalized_context_principal ctx = Some (trim (default [] (principal_id ctx)))).
  { unfold normalized_context_principal. destruct (principal_id ctx) as [p|]; cbn [default trim_nonempty id]; [|done].
    destruct (is_empty (trim p)); split; congruence. }
  assert (Hpeer : peer && is_empty (default [] (peer_cert_sha256 ctx)) = false
    <-> (peer = true -> is_Some (peer_cert_sha256 ctx))).
  { destruct peer, (peer_cert_sha256 ctx) as [[|b l]|]; cbn; try done; split; intros Hx; try done;
      try (by eexists); by destruct (Hx eq_refl). }
  rewrite Hpeer, Hn. split.
  - intros (Hau & Hpr & Hpc & _ & [= <-]). done.
  - intros (Hau & Hpr & Hpc). assert (trim (default [] (principal_id ctx)) = principal) as Ht.
    { unfold normalized_context_principal in Hpr. apply trim_nonempty_Some in Hpr as (raw & -> & -> & _). done. }
    rewrite Ht. split; [done|]. split; [done|]. split; [done|]. split; [|done].
    destruct (trim_nonempty client_principal_id) as [p|] eqn:E; [|done].
    specialize (Hc p eq_refl). rewrite Hpr in Hc. injection Hc as ->. by rewrite str_eqb_refl.
Qed.

Lemma empty_to_none_trim v : empty_to_none v = trim_nonempty (Some v).
Proof. done. Qed.
Lemma trim_nonempty_normal o v : trim_nonempty o = Some v -> trim_nonempty (Some v) = Some v.
Proof. intros E. by rewrite <- E, trim_nonempty_idem. Qed.

(** What the library sends as the principal when the broker would accept the
    caller's choice. *)
Definition sent_principal (ctx : BrokerClientContext) (lifecycle : SecretLifecycle) (requested : option str) : str :=
  if long_lived lifecycle then default (default [] (normalized_context_principal ctx)) (trim_nonempty requested)
  else default [] (trim_nonempty requested).

Lemma resolve_ok ctx ch lifecycle requested principal :
  consistent ctx -> describes ch ctx -> v2_unwrap_principal ctx lifecycle requested = Ok principal ->
  resolve_v2_unwrap_principal client_principal_id lifecycle requested ch
    = Ok (sent_principal ctx lifecycle requested).
Proof.
  intros Hc Hd Hv. unfold v2_unwrap_principal in Hv. apply guard_bind_ok in Hv as [Ha%negb_false_iff Hv].
  apply rbind_ok in Hv as (cur & Hcur & Hv). apply ok_or_ok in Hcur.
  unfold resolve_v2_unwrap_principal, sent_principal. rewrite Hcur.
  assert (Hch : forall peer, (peer = true -> is_Some (peer_cert_sha256 ctx)) ->
    require_authenticated_channel_principal client_principal_id ch peer = Ok cur)
    by (intros; by apply (channel_principal_ok ctx)).
  destruct lifecycle; cbn [long_lived].
  - destruct (trim_nonempty requested) as [q|]; [|done]. rewrite Hch by done.
    apply guard_bind_ok in Hv as [Hv _]. cbn [rbind]. by rewrite Hv.
  - apply rbind_ok in Hv as (pc & Hpc%ok_or_ok & _). rewrite Hch by eauto. by destruct (trim_nonempty requested).
  - apply rbind_ok in Hv as (pc & Hpc%ok_or_ok & _). rewrite Hch by eauto. by destruct (trim_nonempty requested).
Qed.

Lemma sent_principal_ok ctx lifecycle requested :
  v2_unwrap_principal ctx lifecycle (empty_to_none (sent_principal ctx lifecycle requested))
  = v2_unwrap_principal ctx lifecycle requested.
Proof.
  unfold v2_unwrap_principal. rewrite empty_to_none_trim, trim_nonempty_idem.
  destruct (guard _ _) as [[]| |]; [|done..]. cbn [rbind]. unfold sent_principal.
  destruct (normalized_context_principal ctx) as [cur|] eqn:Hcur; [|done]. cbn [ok_or rbind default id].
  destruct (trim_nonempty requested) as [q|] eqn:Hq.
  - destruct lifecycle; cbn [long_lived default id]; by rewrite (trim_nonempty_normal _ _ Hq).
  - destruct lifecycle; cbn [long_lived default id]; [done|..]; by rewrite (trim_nonempty_normal _ _ Hcur).
Qed.

Lemma channel_described ctx c : consistent ctx ->
  exists ch, remote (st_describe_channel (stub ctx)) c = (Ok ch, c) /\ describes ch ctx.
Proof.
  intros Hc. destruct (describe_runs ctx (net c) (consistent_session _ Hc)) as (ch & Hd & Hdesc).
  exists ch. split; [|done]. unfold remote, zoom, map_err_m. cbn [broker_stub st_describe_channel].
  rewrite Hd. by destruct c.
Qed.

Lemma resolve_sent ctx ch lifecycle requested sent :
  consistent ctx -> describes ch ctx ->
  resolve_v2_unwrap_principal client_principal_id lifecycle requested ch = Ok sent ->
  sent = sent_principal ctx lifecycle requested.
Proof.
  intros Hc Hd. unfold resolve_v2_unwrap_principal, sent_principal.
  destruct (trim_nonempty requested) as [q|], (long_lived lifecycle) eqn:Hl; try (by intros [= <-]);
    intros (cur & Hcur & Hr)%rbind_ok; apply (channel_principal_ok ctx) in Hcur as (_ & Hn & _);
    rewrite ?Hn; try done; destruct lifecycle; try done; try (by injection Hr).
  by apply guard_bind_ok in Hr as [_ [= <-]].
Qed.

Lemma resolved_principal_ok ctx lifecycle requested principal c :
  consistent ctx -> v2_unwrap_principal ctx lifecycle requested = Ok principal ->
  resolved_principal (stub ctx) client_principal_id lifecycle requested c
    = (Ok (sent_principal ctx lifecycle requested), c).
Proof.
  intros Hc Hv. destruct (channel_described ctx c Hc) as (ch & E & Hdesc).
  assert (Hr : resolve_v2_unwrap_principal client_principal_id lifecycle (trim_nonempty requested) ch
    = Ok (sent_principal ctx lifecycle requested)).
  { rewrite <- (resolve_ok ctx ch lifecycle requested principal) by done.
    unfold resolve_v2_unwrap_principal. by rewrite trim_nonempty_idem. }
  unfold resolved_principal. destruct (trim_nonempty requested) as [q|] eqn:Hq, (long_lived lifecycle) eqn:Hl;
    try (erewrite bind_run by exact E; unfold lift; by rewrite Hr).
  unfold ret, sent_principal. by rewrite Hq, Hl.
Qed.

Lemma resolved_principal_sent ctx lifecycle requested sent c c' :
  consistent ctx ->
  resolved_principal (stub ctx) client_principal_id lifecycle requested c = (Ok sent, c') ->
  sent = sent_principal ctx lifecycle requested.
Proof.
  intros Hc. destruct (channel_described ctx c Hc) as (ch & E & Hdesc).
  assert (Hr : forall sent, resolve_v2_unwrap_principal client_principal_id lifecycle (trim_nonempty requested) ch
    = Ok sent -> sent = sent_principal ctx lifecycle requested).
  { intros s Hs. apply (resolve_sent ctx) in Hs as ->; [|done..].
    unfold sent_principal. by rewrite trim_nonempty_idem. }
  unfold resolved_principal, lift, bind. destruct (trim_nonempty requested) as [q|] eqn:Hq, (long_lived lifecycle) eqn:Hl;
    rewrite ?E; try (intros [= Hs _]; by apply Hr).
  intros [= <- _]. unfold sent_principal. by rewrite Hq, Hl.
Qed.

(** C40: the library and the broker agree on whom a secret is for: what the
    library sends in place of the caller's choice is accepted exactly when the
    choice itself is, with the same principal, and a choice the broker accepts
    is never refused by the library. *)
Theorem client_principal_agrees ctx lifecycle requested principal c :
  consistent ctx ->
  (exists sent, resolved_principal (stub ctx) client_principal_id lifecycle requested c = (Ok sent, c)
     /\ v2_unwrap_principal ctx lifecycle (empty_to_none sent) = Ok principal)
  <-> v2_unwrap_principal ctx lifecycle requested = Ok principal.
Proof.
  intros Hc. split.
  - intros (sent & Hr & Hv). apply (resolved_principal_sent ctx) in Hr as ->; [|done].
    by rewrite sent_principal_ok in Hv.
  - intros Hv. exists (sent_principal ctx lifecycle requested).
    rewrite sent_principal_ok. split; [by eapply resolved_principal_ok|done].
Qed.

(** ** Keys for custodians *)

Lemma mint_for_custodians ctx q w o w' :
  mint_aead_key_v2 random_scalars state ctx q w = (Ok o, w') ->
  (1 < default 1 (m_threshold q))%Z -> m_custodian_ids q <> [] -> mo_redeem_token o = [].
Proof.
  intros E Ht Hids. unfold mint_aead_key_v2 in E. apply Z.ltb_lt in Ht. rewrite Ht in E.
  assert (Hn : negb (is_empty (m_custodian_ids q)) = true) by (by destruct (m_custodian_ids q)).
  rewrite Hn in E. cbn [andb] in E. monad_inv. destruct a0 as [x y]. monad_inv. cbn [mo_redeem_token].
  unfold mint_redeem_token in *. rewrite Ht in *. by monad_inv.
Qed.

Lemma rpc_mint_for_custodians ctx req w reply w' :
  rpc_mint_aead_key_v2 random_scalars state (Some ctx) req w = (Ok reply, w') ->
  (1 < gm_threshold req)%Z -> gm_custodian_ids req <> [] ->
  gmo_redeem_shares reply = [] /\ gmo_threshold reply = gm_threshold req.
Proof.
  intros E Ht Hids. unfold rpc_mint_aead_key_v2 in E. monad_inv. destruct a3 as [token shares]. monad_inv.
  assert (Hq : m_threshold a0 = Some (gm_threshold req) /\ m_custodian_ids a0 = gm_custodian_ids req).
  { unfold mint_request, byte_or_none in Hm0. rewrite (proj2 (Z.eqb_neq _ 0)) in Hm0 by lia.
    destruct (_ <=? _)%Z; [|done]. cbn [rbind] in Hm0. monad_inv. done. }
  destruct Hq as [Hq Hi]. apply mint_for_custodians in Hm1; [|by rewrite Hq|by rewrite Hi].
  rewrite Hm1, Hq in Hm3. unfold mint_reply_token in Hm3. cbn [default id] in Hm3.
  rewrite (proj2 (Z.ltb_lt _ _) Ht) in Hm3. cbn in Hm3. injection Hm3 as <- <-. cbn. by rewrite Hq.
Qed.

(** A reply without shares to a threshold request is refused. *)
Lemma mint_without_shares ctx params principal c c1 reply w1 :
  resolved_principal (stub ctx) client_principal_id (default SingleUseUnwrap (mp_lifecycle params))
    (mp_unwrap_principal_id params) c = (Ok principal, c1) ->
  rpc_mint_aead_key_v2 random_scalars state (Some ctx) (mint_message params principal) (net c1) = (Ok reply, w1) ->
  gmo_redeem_shares reply = [] -> (1 < gmo_threshold reply)%Z ->
  exists e, client_mint_aead_key_v2 (stub ctx) client_principal_id params c = (Err e, mkClient (redeem_cache c1) w1).
Proof.
  intros Hp Hm Hs Ht. unfold client_mint_aead_key_v2. rewrite (bind_run _ _ c principal c1) by done.
  rewrite (bind_run _ _ c1 reply (mkClient (redeem_cache c1) w1)).
  2: { unfold remote, map_err_m, zoom. cbn [broker_stub st_mint_aead_key_v2]. by rewrite Hm. }
  rewrite Hs. unfold reply_count at 1. rewrite (proj2 (Z.eqb_neq _ 0)) by lia.
  unfold bind, lift. destruct (gmo_threshold reply <=? 255)%Z; [|by eexists].
  assert (Hcount : forall n d e, exists r, reply_count n d e = r /\ r <> Panic).
  { intros. unfold reply_count. repeat case_match; by eexists. }
  assert (Htime : forall ts, optional_timestamp ts <> Panic).
  { intros [ts|]; [|done]. unfold optional_timestamp, timestamp_to_datetime, guard, ok_or. cbn. by repeat case_match. }
  destruct (Hcount (gmo_num_shares reply) (gmo_threshold reply) SharesTooMany) as ([n| |] & -> & ?); [|by eexists|done].
  destruct (optional_timestamp (gmo_expires_at reply)) eqn:?; [|by eexists|by edestruct Htime].
  destruct (optional_timestamp (gmo_redeem_token_expires_at reply)) eqn:?; [|by eexists|by edestruct Htime].
  cbn. rewrite (proj2 (Z.ltb_lt _ _) Ht). by eexists.
Qed.

(** With the library no key can be minted for custodians: the broker keeps
    the shares and returns none, and the library refuses a reply without
    shares, after the broker has stored the secret and dealt its shares. *)
Theorem custody_mint_unusable ctx params k ids c :
  mp_threshold params = Some k -> (1 < k)%Z -> mp_custodian_ids params = Some ids -> ids <> [] ->
  is_ok (client_mint_aead_key_v2 (stub ctx) client_principal_id params c).1 = false
  /\ forall principal c1 reply w1,
       resolved_principal (stub ctx) client_principal_id (default SingleUseUnwrap (mp_lifecycle params))
         (mp_unwrap_principal_id params) c = (Ok principal, c1) ->
       rpc_mint_aead_key_v2 random_scalars state (Some ctx) (mint_message params principal) (net c1)
         = (Ok reply, w1) ->
       net (client_mint_aead_key_v2 (stub ctx) client_principal_id params c).2 = w1.
Proof.
  intros Hk Hk1 Hi Hids.
  assert (Hrun : forall principal c1 reply w1,
    resolved_principal (stub ctx) client_principal_id (default SingleUseUnwrap (mp_lifecycle params))
      (mp_unwrap_principal_id params) c = (Ok principal, c1) ->
    rpc_mint_aead_key_v2 random_scalars state (Some ctx) (mint_message params principal) (net c1) = (Ok reply, w1) ->
    exists e, client_mint_aead_key_v2 (stub ctx) client_principal_id params c = (Err e, mkClient (redeem_cache c1) w1)).
  { intros principal c1 reply w1 Hp Hm.
    destruct (rpc_mint_for_custodians ctx (mint_message params principal) (net c1) reply w1) as [Hs Ht];
      [done|cbn; by rewrite Hk|cbn; by rewrite Hi|].
    eapply mint_without_shares; [done..|]. rewrite Ht. cbn. by rewrite Hk. }
  split; [|intros principal c1 reply w1 Hp Hm; by destruct (Hrun principal c1 reply w1 Hp Hm) as [e ->]].
  destruct (client_mint_aead_key_v2 _ _ _ c) as [[l| |] c'] eqn:E; [|done..]. exfalso. pose proof E as E'.
  unfold client_mint_aead_key_v2 in E. apply bind_ok in E as (principal & c1 & Hp & E).
  apply bind_ok in E as (reply & c2 & Hm & _). unfold remote in Hm. apply map_err_m_ok in Hm.
  unfold zoom in Hm. cbn [broker_stub st_mint_aead_key_v2] in Hm.
  destruct (rpc_mint_aead_key_v2 _ _ _ _ (net c1)) as [r w1] eqn:Hr. injection Hm as -> _.
  destruct (Hrun principal c1 reply w1 Hp Hr) as [e ?]. congruence.
Qed.

(** ** The round trip *)

(** The broker only saw time pass. *)
Definition idle (n : nat) (w w' : World) : Prop :=
  envelopes w' = envelopes w /\ kyber_keys w' = kyber_keys w /\ within n w w'.

Definition entry_lasts (e : RedeemCacheEntry) (from : nat) (n : nat) : Prop :=
  forall x t, entry_expires_at e = Some x -> from <= t <= from + n -> (time_at t <= x)%Z.

Lemma purge_entries_keeps ctx l c k e :
  (forall e', (k, e') ∈ l -> e' = e) -> entry_lasts e (tick (net c)) (length l) ->
  exists c', purge_entries (stub ctx) l c = (Ok tt, c') /\ redeem_cache c' !! k = redeem_cache c !! k
    /\ idle (length l) (net c) (net c').
Proof.
  revert c. induction l as [|[k' e'] l IH]; intros c Hl He; [by exists c; repeat split; cbn|].
  assert (exists b c1, entry_is_expired (stub ctx) e' c = (Ok b, c1) /\ redeem_cache c1 = redeem_cache c
    /\ idle 1 (net c) (net c1) /\ (k' = k -> b = false)) as (b & c1 & Hb & Hc1 & (E1 & K1 & T1) & Hk).
  { unfold entry_is_expired. destruct (entry_expires_at e') as [x|] eqn:Hx.
    - erewrite bind_run by apply local_now_runs. do 2 eexists. split; [reflexivity|]. split; [done|].
      split; [repeat split; cbn; lia|]. intros ->. rewrite (Hl e') in Hx by left.
      apply Z.ltb_ge, He; [done|cbn; lia].
    - exists false, c. unfold idle, within. repeat split; lia. }
  cbn [purge_entries]. rewrite (bind_run _ _ c b c1) by done.
  set (c2 := if b then mkClient (base.delete k' (redeem_cache c1)) (net c1) else c1).
  rewrite (bind_run _ _ c1 tt c2) by (by destruct b).
  assert (net c2 = net c1 /\ redeem_cache c2 !! k = redeem_cache c !! k) as [N2 C2].
  { subst c2. destruct b; cbn; [|by rewrite Hc1]. split; [done|]. rewrite Hc1, lookup_delete_ne; [done|].
    intros ->. by discriminate Hk. }
  unfold within in T1. cbn [length] in He. destruct (IH c2) as (c' & Hp & Hc' & E' & K' & T').
  - intros e'' Hin. apply Hl. by right.
  - intros x t Hx Ht. apply (He x t Hx). rewrite N2 in Ht. lia.
  - exists c'. split; [done|]. split; [congruence|]. rewrite N2 in *. unfold idle, within in *. cbn [length].
    rewrite E', K'. repeat split; [done|done|lia..].
Qed.

(** The state in which a call that starts in [c] reaches the broker. *)
Definition arrived ctx (c : ClientState World) : ClientState World :=
  (purge_expired (stub ctx) cache_order (mkClient (redeem_cache c) (advance (net c)))).2.

Lemma arrives {A} ctx (k : datetime -> M (ClientState World) ClientError A) c :
  (let* now := local_now (stub ctx) in let* _ := purge_expired (stub ctx) cache_order in k now) c
  = k (time_at (tick (net c))) (arrived ctx c).
Proof.
  erewrite bind_run by apply local_now_runs. cbn [broker_stub clock fst snd]. unfold arrived, purge_expired.
  cbn [redeem_cache]. destruct (purge_entries_shrinks (stub ctx) (cache_order (map_to_list (redeem_cache c)))
    (mkClient (redeem_cache c) (advance (net c)))) as (c1 & Hp & _).
  rewrite (bind_run _ _ _ tt c1) by exact Hp. by rewrite Hp.
Qed.

Lemma arrived_keeps ctx c k e :
  redeem_cache c !! k = Some e -> entry_lasts e (tick (net c)) (S (size (redeem_cache c))) ->
  redeem_cache (arrived ctx c) !! k = Some e /\ idle (S (size (redeem_cache c))) (net c) (net (arrived ctx c)).
Proof.
  intros Hk He. unfold arrived, purge_expired. cbn [redeem_cache].
  set (l := cache_order (map_to_list (redeem_cache c))). set (c0 := mkClient _ (advance _)).
  assert (Hlen : length l = size (redeem_cache c)).
  { unfold l. by rewrite cache_order_perm, length_map_to_list. }
  destruct (purge_entries_keeps ctx l c0 k e) as (c' & -> & Hc' & E' & K' & T').
  - intros e' Hin. unfold l in Hin. rewrite cache_order_perm, elem_of_map_to_list in Hin. congruence.
  - intros x t Hx Ht. apply (He x t Hx). cbn in Ht. lia.
  - cbn [snd]. unfold within in T'. cbn in E', K', T', Hc'. split; [by rewrite Hc'|].
    unfold idle, within. rewrite E', K'. repeat split; lia.
Qed.

Lemma trim_b64 d : trim (b64_encode d) = b64_encode d.
Proof. apply trim_graphic, b64_graphic. Qed.
Lemma lifecycle_roundtrip l : from_proto_i32 (into_proto l) = l.
Proof. by destruct l. Qed.

(** A successful wrap by the broker, and what the library makes of it. *)
Lemma wrap_bytes_ok ctx plaintext params metadata c principal reply w1 expires deadline :
  let lifecycle := default SingleUseUnwrap (wp_lifecycle params) in
  let requested := wp_unwrap_principal_id params in
  consistent ctx -> option_json_to_struct (wp_metadata params) = Ok metadata ->
  v2_unwrap_principal ctx lifecycle requested = Ok principal ->
  rpc_wrap_secret_v2 state (Some ctx)
    (wrap_message plaintext metadata params (sent_principal ctx lifecycle requested)) (net (arrived ctx c)) = (Ok reply, w1) ->
  trim (gwo_handle reply) = gwo_handle reply ->
  (exists t, gwo_created_at reply = chrono_to_timestamp t /\ rfc3339_range t) ->
  gwo_expires_at reply = expires ≫= chrono_to_timestamp -> (forall e, expires = Some e -> rfc3339_range e) ->
  gwo_redeem_token_expires_at reply = chrono_to_timestamp deadline -> rfc3339_range deadline ->
  exists o c1, wrap_bytes_v2 (stub ctx) client_principal_id cache_order plaintext params c = (Ok o, c1)
    /\ wr_handle o = gwo_handle reply /\ net c1 = w1
    /\ wr_redeem_token o = b64_encode (gwo_redeem_token reply) /\ wr_redeem_token_expires_at o = Some deadline
    /\ redeem_cache c1 = <[wr_handle o := mkEntry (MToken (wr_redeem_token o)) (wr_redeem_token_expires_at o)]>
         (redeem_cache (arrived ctx c)).
Proof.
  intros lifecycle requested Hc Hm Hv Hw Hh (t & Ht & Htr) He Her Hd Hdr.
  unfold wrap_bytes_v2. rewrite (arrives ctx (fun _ => _)). rewrite (bind_run _ _ _ metadata (arrived ctx c)) by (by unfold lift; rewrite Hm).
  erewrite bind_run by (by eapply resolved_principal_ok).
  rewrite (bind_run _ _ _ reply (mkClient (redeem_cache (arrived ctx c)) w1)).
  2: { unfold remote, map_err_m, zoom. cbn [broker_stub st_wrap_secret_v2]. fold lifecycle requested. by rewrite Hw. }
  assert (E1 : required_timestamp (gwo_created_at reply) #"created_at" = Ok t).
  { pose proof (timestamp_roundtrip t (datetime_range t Htr)) as Hx. rewrite Ht. cbn in Hx |- *. by destruct (timestamp_to_datetime _); [injection Hx as ->|..]. }
  assert (E2 : optional_timestamp (gwo_expires_at reply) = Ok expires).
  { rewrite He. destruct expires as [e|]; [|done]. by apply timestamp_roundtrip, datetime_range, Her. }
  assert (E3 : optional_timestamp (gwo_redeem_token_expires_at reply) = Ok (Some deadline)).
  { rewrite Hd. by apply timestamp_roundtrip, datetime_range. }
  unfold remember_redeem_token, bind, lift, set_cache, ret. rewrite E1, E2, E3, trim_b64, b64_roundtrip, Hh.
  cbn. do 2 eexists. by split; [reflexivity|].
Qed.

(** An unwrap with a cached token sends it. *)
Lemma unwrap_cached ctx params token x c plaintext :
  let handle := trim (up_handle params) in
  from_cache params -> redeem_cache c !! handle = Some (mkEntry (MToken (b64_encode token)) (Some x)) ->
  entry_lasts (mkEntry (MToken (b64_encode token)) (Some x)) (tick (net c)) (S (size (redeem_cache c))) ->
  (forall w, idle (S (S (size (redeem_cache c)))) (net c) w ->
     exists w', rpc_unwrap_secret_v2 state (Some ctx) (unwrap_message params handle token []) w = (Ok plaintext, w')) ->
  exists c', client_unwrap_secret_v2 (stub ctx) cache_order params c = (Ok plaintext, c').
Proof.
  intros handle [Hn Hs] Hk He Hu. destruct (arrived_keeps ctx c handle _ Hk He) as (Hk1 & E1 & K1 & T1).
  unfold within in T1. unfold client_unwrap_secret_v2. rewrite arrives. fold handle.
  rewrite (bind_run _ _ _ tt (arrived ctx c)) by (unfold lift; by rewrite Hn).
  set (w2 := advance (net (arrived ctx c))).
  destruct (Hu w2) as [w3 Hw3].
  { unfold idle, within, w2. cbn. rewrite E1, K1. repeat split; lia. }
  rewrite (bind_run _ _ _ (token, []) (mkClient (base.delete handle (redeem_cache (arrived ctx c))) w2)).
  - unfold remote, map_err_m, zoom. cbn [broker_stub st_unwrap_secret_v2 net]. rewrite Hw3. by eexists.
  - unfold redeem_material, take_redeem_material, validate_expiry, local_now, set_cache. rewrite Hn, Hs.
    cbn [is_empty negb]. unfold bind, lift, ret. cbn. rewrite Hk1. cbn.
    rewrite (proj2 (Z.ltb_ge x _)) by (apply (He x); [done|lia]). cbn.
    rewrite (proj2 (Z.ltb_ge x _)) by (apply (He x); [done|lia]). cbn. by rewrite b64_roundtrip.
Qed.

(** C11: a secret wrapped with the library is given back by it: the token it
    cached for the handle, sent with the same context, unwraps the very bytes,
    as long as the record is live, its key is there and the caller has access. *)
Theorem client_roundtrip ctx plaintext params metadata c expires ttl principal :
  let lifecycle := default SingleUseUnwrap (wp_lifecycle params) in
  let msg := wrap_message plaintext metadata params
               (sent_principal ctx lifecycle (wp_unwrap_principal_id params)) in
  let request := wrap_request msg in
  let w := net (arrived ctx c) in
  let created := time_at (S (tick w)) in
  let input := wrap_input state request created expires principal in
  consistent ctx -> option_json_to_struct (wp_metadata params) = Ok metadata ->
  v2_unwrap_principal ctx lifecycle (wp_unwrap_principal_id params) = Ok principal ->
  store_inv cipher w -> engine_ready state (i_customer_id input) 26 (advance w) ->
  metadata_ok (w_metadata request) ->
  enforce_ttl (w_ttl_seconds request) state created = Ok (expires, ttl) ->
  rfc3339_range (time_at (tick w)) -> rfc3339_range (created + redeem_token_ttl state) ->
  is_ok (initial_lease created (w_initial_lease_seconds request)) = true ->
  (forall e, expires = Some e -> rfc3339_range e) ->
  Forall (fun cv => fits_u16 (encode cv)) (wrap_caveats request expires) ->
  exists reply c1 o h r,
    wrap_bytes_v2 (stub ctx) client_principal_id cache_order plaintext params c = (Ok reply, c1)
    /\ redeem_cache c1 = <[wr_handle reply := mkEntry (MToken (wr_redeem_token reply)) (wr_redeem_token_expires_at reply)]>
         (redeem_cache (arrived ctx c))
    /\ wrapped state ctx input (wrap_caveats request expires) o h r (advance w) (net c1)
    /\ forall ctx' params' a c2,
      up_handle params' = wr_handle reply -> from_cache params' ->
      same_context msg (unwrap_message params' [] [] []) ->
      redeem_cache c2 !! wr_handle reply = redeem_cache c1 !! wr_handle reply ->
      store_inv cipher (net c2) -> records cipher (net c2) !! h = Some (set_last_accessed a r) ->
      kyber_keys (net c2) = kyber_keys (net c1) -> may_access false r ctx' ->
      (lifecycle = SingleUseUnwrap -> exporter ctx' = exporter ctx) ->
      (forall t, tick (net c2) <= t <= tick (net c2) + size (redeem_cache c2) + 5 -> live r (time_at t)) ->
      exists c3, client_unwrap_secret_v2 (stub ctx') cache_order params' c2 = (Ok plaintext, c3).
Proof.
  intros lifecycle msg request w created input Hc Hm Hp Hi HR Hmd Httl Hcr Hd Hl Her Hfit.
  assert (Hlc : w_lifecycle (wrap_request msg) = lifecycle) by apply lifecycle_roundtrip.
  pose proof (rpc_wrap_ok state ctx msg w expires ttl principal Hi HR Hmd Httl) as HW.
  destruct (proj1 (wp_eq _ _ _) (HW ltac:(rewrite Hlc, <- Hp; apply sent_principal_ok) Hd Hl))
    as (reply & w1 & Hwrap & o & h & r & Hwr & Hh & Htok & Hne & Hat & Hexp & Hdl). clear HW.
  assert (Htrim : trim (gwo_handle reply) = gwo_handle reply)
    by (rewrite Hh, (wrapped_handle _ _ _ _ _ _ _ _ _ Hwr); apply trim_handle).
  destruct (wrap_bytes_ok ctx plaintext params metadata c principal reply w1 expires _ Hc Hm Hp Hwrap Htrim
    ltac:(by eexists) Hexp Her Hdl Hd) as (out & c1 & Hrun & Hout & Hnet & Htk & Hdx & Hcache).
  exists out, c1, o, h, r. split; [done|]. split; [done|]. rewrite Hnet, Hout. split; [done|].
  intros ctx' params' a c2 Ph Pc Ps C2 I2 R2 K2 Hacc Hex Hlive.
  destruct (wrapped_issued _ _ _ _ _ _ _ _ _ Hwr) as (nonce & HI & _).
  apply (unwrap_cached ctx' params' (gwo_redeem_token reply) (created + redeem_token_ttl state)%Z c2); [done|..].
  - by rewrite Ph, Htrim, C2, Hcache, Hout, Htk, Hdx, lookup_insert_eq.
  - intros x t [= <-] Ht. destruct (Hlive t) as (_ & Hx & _); [lia|]. apply Hx, (issued_deadline _ _ _ _ _ HI).
  - intros w2 (E2 & K2' & T2). unfold within in T2.
    apply (rpc_unwrap_wrapped state ctx ctx' msg created expires principal o h r (advance w) w1 w2 _ a); try done.
    + apply (ready_quantum _ _ _ _ HR).
    + cbn. by rewrite Ph, Htrim.
    + by eapply store_inv_same, I2.
    + by rewrite (records_same _ (net c2)).
    + congruence.
    + by rewrite <- Hlc in Hex.
    + apply Hlive. lia.
    + apply Hlive. lia.
Qed.

End Session.

(** * The theorems on concrete sessions *)

Module SessionExamples.
Import Reference ToyWorld ToyStore CryptoExamples CipherExamples BrokerExamples Toy257 UnwrapExamples RotationExamples.
Import SystemExamples ServiceExamples.

Definition as_listed (l : list (str * RedeemCacheEntry)) : list (str * RedeemCacheEntry) := l.
Lemma as_listed_perm l : as_listed l ≡ₚ l.
Proof. done. Qed.

Definition session0 : ClientState World := mkClient ∅ empty_world.
Definition wrap_params : WrapV2Params :=
  mkWrapParams (Some (JObject [])) (Some #" acme ") None None None (Some 3600%Z) None None None None.
Definition unwrap_params (handle : str) : UnwrapSecretV2Params :=
  mkUnwrapParams handle None [] (Some #" acme ") None None None [].

(** [alice] on a connection with a session. *)
Definition online : BrokerClientContext :=
  from_tls_exporter (le_bytes 32 77) (Some (le_bytes 16 3)) (Some #" spiffe://prod/alice ") (Some (le_bytes 32 9)) None.

Lemma online_consistent : consistent None online.
Proof. split; [by eexists|done|done]. Qed.
Lemma online_principal : v2_unwrap_principal online SingleUseUnwrap None = Ok principal0.
Proof. vm_compute. reflexivity. Qed.

Lemma client_principal_agrees_witness : exists sent,
  resolved_principal (broker_stub scalars0 state0 online) None SingleUseUnwrap None session0 = (Ok sent, session0)
  /\ v2_unwrap_principal online SingleUseUnwrap (empty_to_none sent) = Ok principal0.
Proof.
  apply (client_principal_agrees scalars0 state0 None online SingleUseUnwrap None principal0 session0).
  - exact online_consistent.
  - exact online_principal.
Defined.

(** A cached token that the broker does not know. *)
Definition stale : ClientState World :=
  mkClient {[ #"h" := mkEntry (MToken (b64_encode #"t")) None ]} empty_world.

Lemma cached_material_once_witness : exists r c1,
  client_unwrap_secret_v2 (broker_stub scalars0 state0 online) as_listed (unwrap_params #"h") stale = (r, c1)
  /\ redeem_cache c1 !! #"h" = None.
Proof.
  destruct (client_unwrap_secret_v2 (broker_stub scalars0 state0 online) as_listed (unwrap_params #"h") stale)
    as [r c1] eqn:E.
  exists r, c1. split; [reflexivity|].
  apply (cached_material_once (broker_stub scalars0 state0 online) as_listed (unwrap_params #"h") stale r c1);
    [split; reflexivity|exact E].
Defined.

Lemma custody_mint_unusable_witness :
  is_ok (client_mint_aead_key_v2 (broker_stub scalars0 state0 online) None
    (mkMintParams None None None None (Some 2%Z) (Some 3%Z) None None None (Some [ #"a"; #"b"; #"c"])) session0).1 = false.
Proof.
  refine (proj1 (custody_mint_unusable scalars0 state0 None online _ 2 [ #"a"; #"b"; #"c"] session0 _ _ _ _));
    [reflexivity|lia|reflexivity|discriminate].
Defined.

(** The message [wrap_params] becomes, and the record it is kept as. *)
Definition session_msg : WrapSecretV2Request := mkWrapMsg #"hunter2" [] (Some []) 0 0 [] #" acme " [] [] [] [] 3600.
Definition session_expires : option datetime := Some (1700003602 * 10^9)%Z.
Definition session_input : PersistSecretV2Input :=
  wrap_input state0 (wrap_request session_msg) (time_at 2) session_expires principal0.

Lemma session_live o h r w1 t :
  wrapped state0 online session_input (wrap_caveats (wrap_request session_msg) session_expires) o h r
    (advance (advance empty_world)) w1 -> t <= 100 -> live r (time_at t).
Proof.
  intros HW Ht. apply (toy_live _ _ _ _ _ _ _ _ _ _ eq_refl eq_refl HW); [by intros ? [=]| |lia|]; unfold time_at, toy_oracle.
  - intros e [= <-]. lia.
  - cbn. lia.
Qed.

Lemma client_roundtrip_witness : exists reply c1 c3,
  wrap_bytes_v2 (broker_stub scalars0 state0 online) None as_listed #"hunter2" wrap_params session0 = (Ok reply, c1)
  /\ client_unwrap_secret_v2 (broker_stub scalars0 state0 online) as_listed (unwrap_params (wr_handle reply)) c1
     = (Ok #"hunter2", c3).
Proof.
  destruct (client_roundtrip scalars0 state0 None as_listed as_listed_perm online #"hunter2" wrap_params (Some [])
    session0 session_expires (Some 3600%Z) principal0) as (reply & c1 & o & h & r & Hw & Hc & HW & Hu).
  - exact online_consistent.
  - reflexivity.
  - exact online_principal.
  - exact inv0.
  - apply toy_ready; [reflexivity|by eexists|reflexivity|apply (bool_decide_unpack _); reflexivity].
  - by repeat split.
  - vm_compute. reflexivity.
  - by split.
  - by split.
  - reflexivity.
  - intros e [= <-]. by split.
  - apply (bool_decide_unpack _). vm_compute. exact I.
  - destruct (wrapped_issued _ _ _ _ _ _ _ _ _ HW) as (nonce & HI & _).
    pose proof (wrapped_within _ _ _ _ _ _ _ _ _ HW) as [_ Ht].
    cbn [arrived net redeem_cache session0] in Hc.
    destruct (Hu online (unwrap_params (wr_handle reply)) (r_last_accessed r) c1) as [c3 H3].
    + reflexivity.
    + split; reflexivity.
    + repeat split.
    + reflexivity.
    + exact (wrapped_inv _ _ _ _ _ _ _ _ _ HW).
    + rewrite (wrapped_records _ _ _ _ _ _ _ _ _ HW), lookup_insert_eq. by destruct r.
    + reflexivity.
    + exact (issuer_may_unwrap state0 online session_input nonce r HI online_principal ltac:(discriminate)).
    + reflexivity.
    + intros t Hlt. apply (session_live o h r (net c1) t HW). rewrite Hc, map_size_insert_None in Hlt by done.
      change (arrived _ _ _ _ _) with (mkClient (S := World) ∅ (advance empty_world)) in Hlt, Ht. cbn in Hlt, Ht. rewrite map_size_empty in Hlt. lia.
    + exists reply, c1, c3. exact (conj Hw H3).
Defined.

End SessionExamples.
