(* ===== verification/Tls.v ===== *)
(** The interfaces of the crates for certificates, PEM files and TLS, which the
    client library and the standalone broker share. *)

From S2P Require Import Prelude RustStd Net.

(** Crates [x509-parser] and [yasna]: reading a certificate, the common names
    of its subject ([None] where one is no text), the bits of its public key,
    an extension that must be unique ([None] where it is not), the names in
    its subject alternative name, and a DER octet string. *)
Inductive GeneralName := UriName (uri : str) | OtherName.
Class X509 := {
  certificate : Type;
  x509_from_der : bytes -> option certificate;
  common_names : certificate -> list (option str);
  subject_public_key : certificate -> bytes;
  get_extension_unique : certificate -> list Z -> option (option bytes);
  subject_alternative_name : certificate -> option (list GeneralName);
  der_octets : bytes -> option bytes;
}.

Inductive ServerName := IpServer (address : IpAddr) | DnsServer (name : str).
Inductive PemItem := Pkcs8Key (key : bytes) | Pkcs1Key (key : bytes) | Sec1Key (key : bytes) | OtherItem.
Inductive PrivateKey := Pkcs8 (key : bytes) | Pkcs1 (key : bytes) | Sec1 (key : bytes).

(** A signature of the handshake with its scheme: proof that the server has the
    private key of its certificate. *)
Record DigitallySignedStruct := mkDss { dss_scheme : Z; dss_sig : bytes }.

(** Crates [rustls-pemfile] and [rustls]: the certificates and the items of a
    PEM file; which names are DNS names; whether a certificate can be a trust
    root, a chain and key an identity of a client or a server, and roots a
    verifier of servers or clients; the verification of a server's chain and
    name, and of a client's chain; and the verification of a handshake's
    signature with a certificate's key, for the two versions of TLS, with the
    schemes it supports. *)
Class Rustls := {
  pem_certs : bytes -> option (list bytes);
  pem_items : bytes -> list (option PemItem);
  dns_name : str -> bool;
  root_accepts : bytes -> bool;
  client_auth_accepts : list bytes -> PrivateKey -> bool;
  webpki_builds : list bytes -> bool;
  webpki_verify : list bytes -> bytes -> list bytes -> ServerName -> bytes -> Z -> bool;
  server_auth_accepts : list bytes -> PrivateKey -> bool;
  client_verifier_builds : list bytes -> bool;
  webpki_verify_client : list bytes -> list bytes -> bool;
  webpki_tls12_signature : bytes -> bytes -> DigitallySignedStruct -> bool;
  webpki_tls13_signature : bytes -> bytes -> DigitallySignedStruct -> bool;
  webpki_schemes : list Z;
}.
