(* ===== verification/Attestation.v ===== *)
(** Remote attestation (ra_tls.rs and tls_setup.rs): the evidence in a
    certificate, the class of a quote, its binding to the key of the
    certificate, its verification, and the digest the broker keeps of an
    attested caller.  X.509, DER, SHA-512 and the DCAP library are parameters,
    and so are the answers of the collateral service and the clock. *)

From S2P Require Import Prelude RustStd Net Externals Reference World Tls.

(** ** Interfaces *)

(** [dcap_qvl::quote::Report], with the fields that are read *)
Inductive Report :=
| TD10 (mr_td report_data : bytes)
| TD15 (mr_td report_data : bytes)
| SgxEnclave (mr_enclave mr_signer : bytes) (isv_svn : Z) (report_data : bytes).

(** Crates [dcap-qvl] and [sha2]: reading a quote, and verifying it against
    collateral at a time, which gives the report of the quote. *)
Class Dcap := {
  collateral : Type;
  quote_parse : bytes -> option Report;
  dcap_verify : bytes -> collateral -> Z -> option Report;
  sha512 : bytes -> bytes;
}.
(** The sizes of the measurements ([[u8; 48]], [[u8; 32]] and [u16]). *)
Definition report_ok (r : Report) : Prop :=
  match r with
  | TD10 mr_td _ | TD15 mr_td _ => length mr_td = 48
  | SgxEnclave mr_enclave mr_signer isv_svn _ =>
    length mr_enclave = 32 /\ length mr_signer = 32 /\ (0 <= isv_svn < 2^16)%Z
  end.

Class DcapLaws `{Dcap} : Prop := {
  dcap_report q c t r : dcap_verify q c t = Some r -> quote_parse q = Some r;
  dcap_sizes q c t r : dcap_verify q c t = Some r -> report_ok r;
}.

(** An entry of the event log *)
Record TdxEventLog := mkEventLog { imr : Z; event : str; event_payload : bytes }.

(** ** Evidence *)

Inductive AttestationError :=
| BadCertificate | BadExtension | QuoteTooShort | UnsupportedQuoteFormat | BadQuote
| BindingMismatch | NoPccsUrl | NoCollateral | ClockBeforeEpoch | DcapFailed
| NoEventLog | BadEventLog | NoComposeHash.

Inductive TEEVendor := UnsupportedVendor | IntelTDX | IntelSGX.

Definition PHALA_RATLS_QUOTE_OID : list Z := [1; 3; 6; 1; 4; 1; 62397; 1; 1]%Z.
Definition PHALA_RATLS_EVENT_LOG_OID : list Z := [1; 3; 6; 1; 4; 1; 62397; 1; 2]%Z.
Definition RA_TLS_BINDING_TAG : bytes := #"ratls-cert".

Record Attestation := mkAttestation { quote : bytes; raw_event_log : bytes }.
Record VerifiedAttestation := mkVerified { report : Report; verified_event_log : bytes }.

(** The version is the first two bytes, the type of the environment bytes 4
    to 7. *)
Definition detect_vendor_from_quote (a : Attestation) : result AttestationError TEEVendor :=
  let! _ := guard (length (quote a) <? 8)%nat QuoteTooShort in
  let! version := slice (quote a) 0 2 in
  let! tee_type := slice (quote a) 4 8 in
  let version := of_le_bytes version in
  let tee_type := of_le_bytes tee_type in
  let sgx := (tee_type =? 0)%Z in
  let tdx := (tee_type =? 0x81)%Z in
  Ok (if (version =? 3)%Z && sgx then IntelSGX
      else if ((version =? 4)%Z || (version =? 5)%Z) && tdx then IntelTDX
      else if ((version =? 4)%Z || (version =? 5)%Z) && sgx then IntelSGX
      else UnsupportedVendor).

Definition report_data_of (r : Report) : bytes :=
  match r with TD10 _ d | TD15 _ d | SgxEnclave _ _ _ d => d end.

Section Attestation.
Context `{TextCodecs} `{Hashes} `{X509} `{Dcap} `{!Serde (list TdxEventLog)}.
(** The collateral service's answer, and the seconds since the epoch unless
    the clock is before it. *)
Variable get_collateral : str -> bytes -> option collateral.
Variable now : option Z.

(** The value of an extension is itself an octet string. *)
Definition get_extension_octets (cert : certificate) (oid : list Z) : result AttestationError (option bytes) :=
  let! ext := ok_or (get_extension_unique cert oid) BadExtension in
  match ext with
  | None => Ok None
  | Some value => let! inner := ok_or (der_octets value) BadExtension in Ok (Some inner)
  end.

Definition attestation_from_der (cert_der : bytes) : result AttestationError (option Attestation) :=
  let! cert := ok_or (x509_from_der cert_der) BadCertificate in
  let! quote := get_extension_octets cert PHALA_RATLS_QUOTE_OID in
  match quote with
  | None => Ok None
  | Some quote =>
    let! log := get_extension_octets cert PHALA_RATLS_EVENT_LOG_OID in
    Ok (Some (mkAttestation quote (default [] log)))
  end.

Definition decode_report_data (quote : bytes) : result AttestationError bytes :=
  let! parsed := ok_or (quote_parse quote) BadQuote in Ok (report_data_of parsed).

Definition is_unsupported (v : TEEVendor) : bool := match v with UnsupportedVendor => true | _ => false end.

(** The binding of a quote to a public key. *)
Definition expected_report_data (pubkey_der : bytes) : bytes := sha512 (RA_TLS_BINDING_TAG ++ #":" ++ pubkey_der).

Definition verify_with_ra_pubkey (a : Attestation) (pubkey_der : bytes) (pccs_url : option str)
    : result AttestationError VerifiedAttestation :=
  let! vendor := detect_vendor_from_quote a in
  let! _ := guard (is_unsupported vendor) UnsupportedQuoteFormat in
  let! actual_report_data := decode_report_data (quote a) in
  let! _ := guard (negb (str_eqb actual_report_data (expected_report_data pubkey_der))) BindingMismatch in
  let! pccs_url := ok_or (trim_nonempty pccs_url) NoPccsUrl in
  let! collateral := ok_or (get_collateral pccs_url (quote a)) NoCollateral in
  let! now := ok_or now ClockBeforeEpoch in
  let! verified := ok_or (dcap_verify (quote a) collateral now) DcapFailed in
  Ok (mkVerified verified (raw_event_log a)).

Definition is_compose_event (ev : TdxEventLog) : bool :=
  (imr ev =? 3)%Z && (str_eqb (event ev) #"compose-hash" || str_eqb (event ev) #"upgraded-app-id").

Definition decode_compose_hash (v : VerifiedAttestation) : result AttestationError str :=
  let! _ := guard (is_empty (verified_event_log v)) NoEventLog in
  let! events := ok_or (from_slice (A := list TdxEventLog) (verified_event_log v)) BadEventLog in
  match List.find is_compose_event events with
  | Some ev => Ok (hex_encode (event_payload ev))
  | None => Err NoComposeHash
  end.

(** ** The digest of an attested caller *)

Definition measurements (r : Report) : bytes :=
  match r with
  | TD10 mr_td _ | TD15 mr_td _ => #"tdx" ++ hex_encode mr_td
  | SgxEnclave mr_enclave mr_signer isv_svn _ =>
    #"sgx" ++ hex_encode mr_enclave ++ hex_encode mr_signer ++ show_N (Z.to_N isv_svn)
  end.

(** An event log without a compose hash is as good as none. *)
Definition compose_part (v : VerifiedAttestation) : bytes :=
  match result_ok (decode_compose_hash v) with
  | Some compose_hash => if is_empty compose_hash then [] else #"compose" ++ to_ascii_lowercase compose_hash
  | None => []
  end.

Definition attestation_digest_from_cert (cert : bytes) (pccs_url : option str)
    : result AttestationError (option bytes) :=
  let! attestation := attestation_from_der cert in
  match attestation with
  | None => Ok None
  | Some attestation =>
    let! vendor := detect_vendor_from_quote attestation in
    let! _ := guard (is_unsupported vendor) UnsupportedQuoteFormat in
    let! parsed_cert := ok_or (x509_from_der cert) BadCertificate in
    let! verified := verify_with_ra_pubkey attestation (subject_public_key parsed_cert) pccs_url in
    Ok (Some (sha256 (measurements (report verified) ++ compose_part verified)))
  end.

End Attestation.

(** * Properties *)

Section AttestationLaws.
Context `{TextCodecsLaws} `{!HexLaws} `{HashesLaws} `{X509} `{DcapLaws} `{!Serde (list TdxEventLog)}.
Variable get_collateral : str -> bytes -> option collateral.
Variable now : option Z.

Abbreviation verify_quote := (verify_with_ra_pubkey get_collateral now).

(** A quote of a class that can be verified. *)
Definition supported (a : Attestation) : Prop :=
  exists v, detect_vendor_from_quote a = Ok v /\ is_unsupported v = false.

(** The evidence is a quote for the key, verified against the collateral the
    service returned. *)
Record attests (a : Attestation) (pubkey_der : bytes) (pccs_url : option str) (v : VerifiedAttestation) : Prop := {
  attests_supported : supported a;
  attests_quote : exists url c t, trim_nonempty pccs_url = Some url /\ get_collateral url (quote a) = Some c
    /\ now = Some t /\ dcap_verify (quote a) c t = Some (report v);
  attests_log : verified_event_log v = raw_event_log a;
  attests_binding : report_data_of (report v) = expected_report_data pubkey_der;
}.

Lemma verify_attests a pubkey_der pccs_url v :
  verify_quote a pubkey_der pccs_url = Ok v <-> attests a pubkey_der pccs_url v.
Proof.
  unfold verify_with_ra_pubkey. split.
  - intros Hv. monad_inv. match goal with Hx : decode_report_data _ = Ok _ |- _ => unfold decode_report_data in Hx end.
    monad_inv. bool_to_prop. split; cbn [report verified_event_log]; [by eexists|by eexists _, _, _|done|].
    match goal with Hx : dcap_verify _ _ _ = Some _ |- _ => apply dcap_report in Hx end. congruence.
  - intros [(vd & Hd & Hu) (url & c & t & Hurl & Hc & Ht & Hv) Hl Hb].
    pose proof (dcap_report _ _ _ _ Hv) as Hp. unfold decode_report_data.
    rewrite Hd. cbn [rbind]. rewrite Hu, Hp. cbn [guard rbind ok_or]. rewrite Hb, str_eqb_refl. cbn [negb guard rbind].
    rewrite Hurl. cbn [ok_or rbind]. rewrite Hc. cbn [ok_or rbind]. rewrite Ht. cbn [ok_or rbind]. rewrite Hv.
    cbn [ok_or rbind]. rewrite <- Hl. by destruct v.
Qed.

(** ** What the digest determines *)

(** The code that runs: for TDX its measurement, for SGX also the signer and
    the security version. *)
Definition same_code (r r' : Report) : Prop :=
  match r, r' with
  | (TD10 m _ | TD15 m _), (TD10 m' _ | TD15 m' _) => m = m'
  | SgxEnclave e s v _, SgxEnclave e' s' v' _ => e = e' /\ s = s' /\ v = v'
  | _, _ => False
  end.

Lemma measurements_inj r r' t t' :
  report_ok r -> report_ok r' ->
  match t with c :: _ => is_digit c = false | [] => True end ->
  match t' with c :: _ => is_digit c = false | [] => True end ->
  measurements r ++ t = measurements r' ++ t' -> same_code r r' /\ t = t'.
Proof.
  assert (Htd : forall m m' u u', length m = 48 -> length m' = 48 ->
    (#"tdx" ++ hex_encode m) ++ u = (#"tdx" ++ hex_encode m') ++ u' -> m = m' /\ u = u').
  { intros m m' u u' Hm Hm' E. rewrite <- !app_assoc in E. apply app_inv_head, app_inj_1 in E as [E ->].
    - by apply hex_inj in E.
    - rewrite !hex_length. lia. }
  intros Hr Hr' Ht Ht' E. destruct r as [m d|m d|e s v d], r' as [m' d'|m' d'|e' s' v' d'];
    cbn [measurements same_code report_ok] in *; try (by apply Htd in E); try discriminate E.
  destruct Hr as (He & Hs & Hv), Hr' as (He' & Hs' & Hv'). rewrite <- !app_assoc in E. apply app_inv_head in E.
  apply app_inj_1 in E as [Ee%hex_inj E]; [|rewrite !hex_length; lia].
  apply app_inj_1 in E as [Es%hex_inj E]; [|rewrite !hex_length; lia].
  apply digits_split in E as [Ev%show_N_inj ->]; [|apply show_N_digits..|done|done].
  split; [|done]. split; [done|]. split; [done|]. lia.
Qed.

Lemma compose_part_head v : match compose_part v with c :: _ => is_digit c = false | [] => True end.
Proof. unfold compose_part. destruct (result_ok _) as [h|]; [|done]. by destruct (is_empty h). Qed.

Lemma digest_evidence cert pccs_url d :
  attestation_digest_from_cert get_collateral now cert pccs_url = Ok (Some d) ->
  exists a c v, attestation_from_der cert = Ok (Some a) /\ x509_from_der cert = Some c
    /\ attests a (subject_public_key c) pccs_url v /\ d = sha256 (measurements (report v) ++ compose_part v).
Proof.
  unfold attestation_digest_from_cert. intros (att & Ha & Hd)%rbind_ok. destruct att as [a|]; [|done].
  monad_inv. match goal with Hx : verify_quote _ _ _ = Ok _ |- _ => apply verify_attests in Hx end. by eexists _, _, _.
Qed.

End AttestationLaws.

Section DigestLaws.
Context `{TextCodecsLaws} `{!HexLaws} `{HashesLaws} `{X509} `{DcapLaws} `{!Serde (list TdxEventLog)}.

End DigestLaws.

(** * The theorems on concrete certificates *)

Module ToyAttestation.
Import Reference ToyWorld.

(** Certificates are given by a table. *)
Record ToyCert := mkToyCert {
  toy_names : list (option str);
  toy_key : bytes;
  toy_quote : option bytes;
  toy_alt_names : option (list GeneralName);
}.

(** A TDX quote of version 4, with its key after the header. *)
Definition quote0 (key : bytes) : bytes := le_bytes 2 4 ++ le_bytes 2 0 ++ le_bytes 4 0x81 ++ key.
Definition server : ToyCert := mkToyCert [Some #" Broker "] #"sk" (Some (quote0 #"sk")) None.
Definition workload : ToyCert :=
  mkToyCert [] #"ck" (Some (quote0 #"ck")) (Some [OtherName; UriName #"spiffe://PROD/alice"]).
Definition unattested : ToyCert := mkToyCert [] #"uk" None (Some [UriName #"spiffe://prod/bob"]).

#[export] Instance toy_x509 : X509 := {
  certificate := ToyCert;
  x509_from_der d := if str_eqb d #"server" then Some server
                     else if str_eqb d #"workload" then Some workload
                     else if str_eqb d #"unattested" then Some unattested else None;
  common_names := toy_names;
  subject_public_key := toy_key;
  get_extension_unique c oid := Some (if bool_decide (oid = PHALA_RATLS_QUOTE_OID) then toy_quote c else None);
  subject_alternative_name := toy_alt_names;
  der_octets := Some;
}.

#[export] Instance toy_dcap : Dcap := {
  collateral := unit;
  quote_parse q := if (length q <? 8)%nat then None
                   else Some (TD10 (le_bytes 48 7) (RA_TLS_BINDING_TAG ++ #":" ++ drop 8 q));
  dcap_verify q _ _ := if (length q <? 8)%nat then None
                       else Some (TD10 (le_bytes 48 7) (RA_TLS_BINDING_TAG ++ #":" ++ drop 8 q));
  sha512 d := d;
}.
#[export] Instance toy_dcap_laws : DcapLaws.
Proof. split; intros q c t r; cbn; [done|]. case_if; [done|]. intros [= <-]. reflexivity. Qed.

#[export] Instance toy_event_log : Serde (list TdxEventLog) := {| to_vec _ := []; from_slice _ := None |}.

Definition pccs (url : str) (q : bytes) : option (@collateral toy_dcap) := Some tt.
Definition pccs_url0 : option str := Some #"https://pccs".


End ToyAttestation.
