(* ===== verification/Connection.v ===== *)
(** How the client library connects (client.rs): the configuration from the
    environment and its validation, measurement policies, and the
    verification of the server's certificate.  URLs, PEM files, rustls and the
    file system are parameters. *)

From S2P Require Import Prelude RustStd Net Externals Reference World Tls Attestation.

(** ** Interfaces *)

(** Crate [url] *)
Class Uris := {
  uri : Type;
  uri_parse : str -> option uri;
  uri_scheme : uri -> str;
  host_str : uri -> option str;
  uri_username : uri -> str;
  uri_password : uri -> option str;
  uri_query : uri -> option str;
  uri_fragment : uri -> option str;
  uri_path : uri -> str;
  uri_text : uri -> str;
}.

(** ** Configuration *)

Inductive ConnectionError :=
| EnvMissing (key : str) | EnvEmpty (key : str) | EnvUnreadable (key : str)
| BadMode | BadTimeout | BadEndpoint | EndpointNotHttps | EndpointNoHost | EndpointUserInfo
| EndpointQuery | EndpointPath | BadPccsUrl | PccsUserInfo | PccsFragment
| EmptySubject | DuplicateSubject | EmptyServerName | BadServerName
| Unreadable (path : str) | BadPem | NoCertificates | NoPrivateKey
| PolicyNotJson | PolicyNotObject | PolicyField (field : str) | BadIsvsvn | BadComposeHash
| PartialSgxPolicy | UnconstrainedPolicy
| ZeroTimeout | NoIdentity | NoTrustRoots | NoPolicy | EmptyPolicyName | NoSubjects | NoPccs
| NotLoopback | PolicyInLocalMode
| BadRoot | BadClientAuth | BadVerifier
| ChainRejected | BadServerCertificate | NoCommonName | SubjectNotAllowed | NotAttested
| NoRuntime | BadHandshakeSignature
| UnsupportedEvidence | EvidenceRejected (e : AttestationError)
| ComposeHashMissing | ComposeHashRejected | MrtdRejected | SgxRejected.

Inductive AttestationMode := Enforced | Local.

Definition DEFAULT_TIMEOUT : Z := 10.

Definition mode_parse (raw : str) : result ConnectionError AttestationMode :=
  let value := to_ascii_lowercase (trim raw) in
  if str_eqb value #"enforced" then Ok Enforced
  else if str_eqb value #"local" then Ok Local
  else Err BadMode.

Definition normalize_measurement (value : str) : str := to_ascii_lowercase (trim value).

Record MeasurementPolicy := mkMeasurements {
  allowed_mrtd : gset str;
  allowed_mrenclave : gset str;
  allowed_mrsigner : gset str;
  min_isvsvn : option Z;
  expected_compose_hash : option str;
}.

Definition accepts_tdx_mrtd (p : MeasurementPolicy) (mrtd : str) : bool :=
  bool_decide (normalize_measurement mrtd ∈ allowed_mrtd p).
Definition accepts_sgx (p : MeasurementPolicy) (mrenclave mrsigner : str) (isvsvn : Z) : bool :=
  negb (bool_decide (allowed_mrenclave p = ∅)) && negb (bool_decide (allowed_mrsigner p = ∅))
  && bool_decide (normalize_measurement mrenclave ∈ allowed_mrenclave p)
  && bool_decide (normalize_measurement mrsigner ∈ allowed_mrsigner p)
  && match min_isvsvn p with Some minimum => (minimum <=? isvsvn)%Z | None => true end.
Definition requires_compose_hash (p : MeasurementPolicy) : bool :=
  match expected_compose_hash p with Some _ => true | None => false end.
Definition accepts_compose_hash (p : MeasurementPolicy) (value : str) : bool :=
  bool_decide (expected_compose_hash p = Some (normalize_measurement value)).

Record ClientPolicy := mkPolicy { policy_name : str; measurement : MeasurementPolicy }.

Definition required_json_string (object : list (str * json)) (key : str) : result ConnectionError str :=
  match obj_get key object with
  | Some (JString value) =>
    let! _ := guard (is_empty (trim value)) (PolicyField key) in Ok (trim value)
  | _ => Err (PolicyField key)
  end.

(** The string of a JSON value *)
Definition as_str (v : json) : option str := match v with JString s => Some s | _ => None end.

Fixpoint insert_measurements (key : str) (values : list json) (set : gset str) : result ConnectionError (gset str) :=
  match values with
  | [] => Ok set
  | item :: values =>
    let! raw := ok_or (as_str item) (PolicyField key) in
    let normalized := normalize_measurement raw in
    let! _ := guard (is_empty normalized) (PolicyField key) in
    let! _ := guard (bool_decide (normalized ∈ set)) (PolicyField key) in
    insert_measurements key values ({[normalized]} ∪ set)
  end.
Definition required_or_empty_measurement_set (object : list (str * json)) (key : str)
    : result ConnectionError (gset str) :=
  match obj_get key object with
  | None => Ok ∅
  | Some (JArray values) => insert_measurements key values ∅
  | Some _ => Err (PolicyField key)
  end.

Definition policy_isvsvn (object : list (str * json)) : result ConnectionError (option Z) :=
  match obj_get #"min_isvsvn" object with
  | None | Some JNull => Ok None
  | Some (JNumber (PosInt n)) => if (n <? 2^16)%Z then Ok (Some n) else Err BadIsvsvn
  | Some _ => Err BadIsvsvn
  end.
Definition policy_compose_hash (object : list (str * json)) : result ConnectionError (option str) :=
  match obj_get #"expected_compose_hash" object with
  | None | Some JNull => Ok None
  | Some (JString value) =>
    let value := normalize_measurement value in
    let! _ := guard (is_empty value) BadComposeHash in Ok (Some value)
  | Some _ => Err BadComposeHash
  end.

Definition no_measurement (s : gset str) : bool := bool_decide (s = ∅).

Definition policy_from_json (value : json) : result ConnectionError ClientPolicy :=
  match value with
  | JObject object =>
    let! policy_name := required_json_string object #"policy_name" in
    let! allowed_mrtd := required_or_empty_measurement_set object #"allowed_mrtd" in
    let! allowed_mrenclave := required_or_empty_measurement_set object #"allowed_mrenclave" in
    let! allowed_mrsigner := required_or_empty_measurement_set object #"allowed_mrsigner" in
    let! min_isvsvn := policy_isvsvn object in
    let! expected_compose_hash := policy_compose_hash object in
    let! _ := guard (negb (Bool.eqb (no_measurement allowed_mrenclave) (no_measurement allowed_mrsigner)))
                PartialSgxPolicy in
    let! _ := guard (no_measurement allowed_mrtd && no_measurement allowed_mrenclave
                     && match expected_compose_hash with None => true | Some _ => false end)
                UnconstrainedPolicy in
    Ok (mkPolicy policy_name
          (mkMeasurements allowed_mrtd allowed_mrenclave allowed_mrsigner min_isvsvn expected_compose_hash))
  | _ => Err PolicyNotObject
  end.

Fixpoint insert_subjects (entries : list str) (subjects : gset str) : result ConnectionError (gset str) :=
  match entries with
  | [] => Ok subjects
  | entry :: entries =>
    let subject := to_ascii_lowercase (trim entry) in
    let! _ := guard (is_empty subject) EmptySubject in
    let! _ := guard (bool_decide (subject ∈ subjects)) DuplicateSubject in
    insert_subjects entries ({[subject]} ∪ subjects)
  end.
Definition parse_subject_allowlist (raw : str) : result ConnectionError (gset str) :=
  let! subjects := insert_subjects (split_on Byte.x2c raw) ∅ in
  let! _ := guard (no_measurement subjects) EmptySubject in
  Ok subjects.

Inductive TokioRuntime := Outside | CurrentThread | MultiThread.
Inductive TlsVersion := Tls12 | Tls13.

Record ClientIdentity := mkIdentity { certificates : list bytes; private_key : PrivateKey }.

Section Connection.
Context `{TextCodecs} `{Hashes} `{JsonText} `{X509} `{Dcap} `{!Serde (list TdxEventLog)} `{Uris} `{Rustls}.
Variable env : environment.
Variable read_file : str -> option bytes.

Definition required_env (key : str) : result ConnectionError str :=
  let! raw := map_err (fun _ => EnvMissing key) (env key) in
  let value := trim raw in
  let! _ := guard (is_empty value) (EnvEmpty key) in
  Ok value.

(** [Ok] of the default where the variable is not set *)
Definition mode_from_env : result ConnectionError AttestationMode :=
  match env #"SECRET_BROKER_CLIENT_MODE" with
  | Ok value => mode_parse value
  | Err NotPresent => Ok Enforced
  | _ => Err (EnvUnreadable #"SECRET_BROKER_CLIENT_MODE")
  end.

Definition parse_timeout : result ConnectionError Z :=
  match env #"SECRET_BROKER_CLIENT_TIMEOUT_SECS" with
  | Ok raw =>
    let value := trim raw in
    let! _ := guard (is_empty value) BadTimeout in
    let! seconds := ok_or (parse_unsigned (2^64 - 1) value) BadTimeout in
    let! _ := guard (seconds =? 0)%Z BadTimeout in
    Ok seconds
  | Err NotPresent => Ok DEFAULT_TIMEOUT
  | _ => Err (EnvUnreadable #"SECRET_BROKER_CLIENT_TIMEOUT_SECS")
  end.

Definition is_some {A} (o : option A) : bool := match o with Some _ => true | None => false end.

Definition validate_endpoint (endpoint : uri) : result ConnectionError unit :=
  let! _ := guard (negb (str_eqb (uri_scheme endpoint) #"https")) EndpointNotHttps in
  let! _ := guard (negb (is_some (host_str endpoint))) EndpointNoHost in
  let! _ := guard (negb (is_empty (uri_username endpoint)) || is_some (uri_password endpoint)) EndpointUserInfo in
  let! _ := guard (is_some (uri_query endpoint) || is_some (uri_fragment endpoint)) EndpointQuery in
  guard (negb (str_eqb (uri_path endpoint) #"/") && negb (is_empty (uri_path endpoint))) EndpointPath.
Definition parse_endpoint (raw : str) : result ConnectionError uri :=
  let! endpoint := ok_or (uri_parse raw) BadEndpoint in
  let! _ := validate_endpoint endpoint in
  Ok endpoint.

Definition validate_pccs_url (url : uri) : result ConnectionError unit :=
  let! _ := guard (negb (str_eqb (uri_scheme url) #"http" || str_eqb (uri_scheme url) #"https")
                   || negb (is_some (host_str url))) BadPccsUrl in
  let! _ := guard (negb (is_empty (uri_username url)) || is_some (uri_password url)) PccsUserInfo in
  guard (is_some (uri_fragment url)) PccsFragment.
Definition parse_pccs_url (raw : str) : result ConnectionError uri :=
  let! url := ok_or (uri_parse raw) BadPccsUrl in
  let! _ := validate_pccs_url url in
  Ok url.

Definition ends_with (suffix s : str) : bool := starts_with (rev suffix) (rev s).

Definition endpoint_is_loopback (endpoint : uri) : bool :=
  match host_str endpoint with
  | None => false
  | Some host =>
    let normalized := to_ascii_lowercase (trim host) in
    str_eqb normalized #"localhost" || ends_with #".localhost" normalized
    || match parse_ip normalized with Some address => is_loopback address | None => false end
  end.

Definition parse_server_name (raw : str) : result ConnectionError ServerName :=
  let value := trim raw in
  let! _ := guard (is_empty value) EmptyServerName in
  match parse_ip value with
  | Some address => Ok (IpServer address)
  | None => if dns_name value then Ok (DnsServer value) else Err BadServerName
  end.
Definition validate_server_name (raw : str) : result ConnectionError unit :=
  let! _ := parse_server_name raw in Ok tt.

Definition parse_certificates (pem : bytes) : result ConnectionError (list bytes) :=
  let! certificates := ok_or (pem_certs pem) BadPem in
  let! _ := guard (is_empty certificates) NoCertificates in
  Ok certificates.

(** The first key of the file; an item that cannot be read before it is an
    error. *)
Fixpoint first_key (items : list (option PemItem)) : result ConnectionError PrivateKey :=
  match items with
  | [] => Err NoPrivateKey
  | None :: _ => Err BadPem
  | Some (Pkcs8Key key) :: _ => Ok (Pkcs8 key)
  | Some (Pkcs1Key key) :: _ => Ok (Pkcs1 key)
  | Some (Sec1Key key) :: _ => Ok (Sec1 key)
  | Some OtherItem :: items => first_key items
  end.
Definition parse_private_key (pem : bytes) : result ConnectionError PrivateKey := first_key (pem_items pem).

Definition identity_from_pem (cert_pem key_pem : bytes) : result ConnectionError ClientIdentity :=
  let! certificates := parse_certificates cert_pem in
  let! private_key := parse_private_key key_pem in
  Ok (mkIdentity certificates private_key).
Definition identity_from_paths (cert_path key_path : str) : result ConnectionError ClientIdentity :=
  let! cert_pem := ok_or (read_file cert_path) (Unreadable cert_path) in
  let! key_pem := ok_or (read_file key_path) (Unreadable key_path) in
  identity_from_pem cert_pem key_pem.
Definition load_ca_certificates (path : str) : result ConnectionError (list bytes) :=
  let! pem := ok_or (read_file path) (Unreadable path) in
  parse_certificates pem.

Definition policy_from_file (path : str) : result ConnectionError ClientPolicy :=
  let! bytes := ok_or (read_file path) (Unreadable path) in
  let! value := ok_or (json_parse bytes) PolicyNotJson in
  policy_from_json value.

Record SecretBrokerClientConfig := mkClientConfig {
  endpoint : uri;
  attestation_mode : AttestationMode;
  policy : option ClientPolicy;
  subject_allowlist : option (gset str);
  pccs_url : option uri;
  client_identity : ClientIdentity;
  client_ca_certificates : list bytes;
  server_name : str;
  timeout : Z;
}.

Definition config_validate (c : SecretBrokerClientConfig) : result ConnectionError unit :=
  let! _ := validate_endpoint (endpoint c) in
  let! _ := validate_server_name (server_name c) in
  let! _ := guard (timeout c =? 0)%Z ZeroTimeout in
  let! _ := guard (is_empty (certificates (client_identity c))) NoIdentity in
  let! _ := guard (is_empty (client_ca_certificates c)) NoTrustRoots in
  match attestation_mode c with
  | Enforced =>
    let! p := ok_or (policy c) NoPolicy in
    let! _ := guard (is_empty (trim (policy_name p))) EmptyPolicyName in
    let! _ := guard (match subject_allowlist c with Some subjects => no_measurement subjects | None => true end)
                NoSubjects in
    let! pccs := ok_or (pccs_url c) NoPccs in
    validate_pccs_url pccs
  | Local =>
    let! _ := guard (negb (endpoint_is_loopback (endpoint c))) NotLoopback in
    guard (is_some (policy c) || is_some (subject_allowlist c) || is_some (pccs_url c)) PolicyInLocalMode
  end.

(** The fields of enforced mode *)
Definition enforced_fields : result ConnectionError (ClientPolicy * gset str * uri) :=
  let! policy_path := required_env #"SECRET_BROKER_CLIENT_POLICY_FILE" in
  let! raw := required_env #"SECRET_BROKER_CLIENT_SUBJECTS" in
  let! subjects := parse_subject_allowlist raw in
  let! raw := required_env #"SECRET_BROKER_PCCS_URL" in
  let! pccs := parse_pccs_url raw in
  let! policy := policy_from_file policy_path in
  Ok (policy, subjects, pccs).

Definition client_config_from_env : result ConnectionError SecretBrokerClientConfig :=
  let! raw := required_env #"SECRET_BROKER_ENDPOINT" in
  let! endpoint := parse_endpoint raw in
  let! mode := mode_from_env in
  let! client_cert_path := required_env #"SECRET_BROKER_CLIENT_CERT" in
  let! client_key_path := required_env #"SECRET_BROKER_CLIENT_KEY" in
  let! client_ca_path := required_env #"SECRET_BROKER_CLIENT_CA_CERT" in
  let! server_name := required_env #"SECRET_BROKER_CLIENT_SERVER_NAME" in
  let! _ := validate_server_name server_name in
  let! timeout := parse_timeout in
  let! identity := identity_from_paths client_cert_path client_key_path in
  let! cas := load_ca_certificates client_ca_path in
  let! config :=
    match mode with
    | Enforced =>
      let! (policy, subjects, pccs) := enforced_fields in
      Ok (mkClientConfig endpoint Enforced (Some policy) (Some subjects) (Some pccs) identity cas server_name timeout)
    | Local => Ok (mkClientConfig endpoint Local None None None identity cas server_name timeout)
    end in
  let! _ := config_validate config in
  Ok config.

(** ** The connection *)

Record RaTlsServerVerifier := mkVerifierRa {
  chain_roots : list bytes;
  ra_policy : ClientPolicy;
  ra_subjects : gset str;
  ra_pccs_url : str;
}.
(** [rustls::ClientConfig]; without a verifier of its own it is the standard
    one for the roots. *)
Record TlsConfig := mkTls {
  tls_roots : list bytes;
  tls_client : ClientIdentity;
  tls_alpn : list str;
  tls_verifier : option RaTlsServerVerifier;
}.

Definition build_client_tls_config (c : SecretBrokerClientConfig) : result ConnectionError TlsConfig :=
  let roots := client_ca_certificates c in
  let! _ := for_each (fun root => guard (negb (root_accepts root)) BadRoot) roots in
  let identity := client_identity c in
  let! _ := guard (negb (client_auth_accepts (certificates identity) (private_key identity))) BadClientAuth in
  match attestation_mode c with
  | Local => Ok (mkTls roots identity [ #"h2"] None)
  | Enforced =>
    let! _ := guard (negb (webpki_builds roots)) BadVerifier in
    let! policy := ok_or (policy c) NoPolicy in
    let! subjects := ok_or (subject_allowlist c) NoSubjects in
    let! pccs := ok_or (pccs_url c) NoPccs in
    Ok (mkTls roots identity [ #"h2"] (Some (mkVerifierRa roots policy subjects (uri_text pccs))))
  end.

(** [connect], up to opening the socket *)
Definition connect (c : SecretBrokerClientConfig) : result ConnectionError (ServerName * TlsConfig) :=
  let! _ := config_validate c in
  let! name := parse_server_name (server_name c) in
  let! tls := build_client_tls_config c in
  Ok (name, tls).

(** *** The server's certificate *)

Variable get_collateral : str -> bytes -> option collateral.
Variable now : option Z.
(** What the handshake is run by: [Handle::try_current] fails outside of a
    runtime, and [block_in_place] panics on one with a single thread. *)
Variable runtime : TokioRuntime.

Definition enforce_measurement_policy (p : MeasurementPolicy) (v : VerifiedAttestation)
    : result ConnectionError unit :=
  let compose_hash := result_ok (decode_compose_hash v) in
  let! _ :=
    (if requires_compose_hash p then
       let! compose_hash := ok_or compose_hash ComposeHashMissing in
       guard (negb (accepts_compose_hash p compose_hash)) ComposeHashRejected
     else Ok tt) in
  match report v with
  | TD10 mr_td _ | TD15 mr_td _ => guard (negb (accepts_tdx_mrtd p (hex_encode mr_td))) MrtdRejected
  | SgxEnclave mr_enclave mr_signer isv_svn _ =>
    guard (negb (accepts_sgx p (hex_encode mr_enclave) (hex_encode mr_signer) isv_svn)) SgxRejected
  end.

(** The first common name, in lower case *)
Definition server_subject (c : certificate) : option str :=
  match common_names c with
  | Some name :: _ => let name := to_ascii_lowercase (trim name) in if is_empty name then None else Some name
  | _ => None
  end.

Definition verify_peer_certificate (cert : bytes) (p : ClientPolicy) (subjects : gset str) (pccs : str)
    : result ConnectionError unit :=
  let! view := ok_or (x509_from_der cert) BadServerCertificate in
  let! subject := ok_or (server_subject view) NoCommonName in
  let! _ := guard (negb (bool_decide (subject ∈ subjects))) SubjectNotAllowed in
  let! evidence := map_err EvidenceRejected (attestation_from_der cert) in
  let! attestation := ok_or evidence NotAttested in
  let! vendor := map_err EvidenceRejected (detect_vendor_from_quote attestation) in
  let! _ := guard (is_unsupported vendor) UnsupportedEvidence in
  let! verified := map_err EvidenceRejected
    (verify_with_ra_pubkey get_collateral now attestation (subject_public_key view) (Some pccs)) in
  enforce_measurement_policy (measurement p) verified.

(** A server as the handshake presents it: its certificates, and the signature
    of the handshake so far *)
Record Peer := mkPeer {
  end_entity : bytes;
  intermediates : list bytes;
  ocsp_response : bytes;
  handshake_time : Z;
  tls_version : TlsVersion;
  handshake_message : bytes;
  handshake_signature : DigitallySignedStruct;
}.

Definition run_attestation_verification {T} (future : result ConnectionError T) : result ConnectionError T :=
  match runtime with
  | Outside => Err NoRuntime
  | CurrentThread => Panic
  | MultiThread => future
  end.

Definition verify_server_cert (v : RaTlsServerVerifier) (name : ServerName) (peer : Peer)
    : result ConnectionError unit :=
  let! _ := guard (negb (webpki_verify (chain_roots v) (end_entity peer) (intermediates peer) name
                           (ocsp_response peer) (handshake_time peer))) ChainRejected in
  run_attestation_verification
    (verify_peer_certificate (end_entity peer) (ra_policy v) (ra_subjects v) (ra_pccs_url v)).

(** The verifier leaves the signatures to the verifier of the chain. *)
Definition verify_tls12_signature (message cert : bytes) (dss : DigitallySignedStruct)
    : result ConnectionError unit :=
  guard (negb (webpki_tls12_signature message cert dss)) BadHandshakeSignature.
Definition verify_tls13_signature (message cert : bytes) (dss : DigitallySignedStruct)
    : result ConnectionError unit :=
  guard (negb (webpki_tls13_signature message cert dss)) BadHandshakeSignature.
Definition supported_verify_schemes : list Z := webpki_schemes.

(** What the handshake asks of the verifier, in the order rustls asks it: the
    certificate first, then the signature by its key.  Without a verifier of
    the library's own it is the standard one for the roots. *)
Definition accept_server (name : ServerName) (tls : TlsConfig) (peer : Peer) : result ConnectionError unit :=
  let! _ :=
    match tls_verifier tls with
    | Some v => verify_server_cert v name peer
    | None => guard (negb (webpki_verify (tls_roots tls) (end_entity peer) (intermediates peer) name
                             (ocsp_response peer) (handshake_time peer))) ChainRejected
    end in
  match tls_version peer with
  | Tls12 => verify_tls12_signature (handshake_message peer) (end_entity peer) (handshake_signature peer)
  | Tls13 => verify_tls13_signature (handshake_message peer) (end_entity peer) (handshake_signature peer)
  end.

End Connection.

(** * Properties *)

Section ConnectionLaws.
Context `{TextCodecsLaws} `{!HexLaws} `{HashesLaws} `{JsonText} `{X509} `{DcapLaws} `{!Serde (list TdxEventLog)}.
Context `{Uris} `{Rustls}.
Variable get_collateral : str -> bytes -> option collateral.
Variable now : option Z.
Variable runtime : TokioRuntime.

Abbreviation accept := (accept_server get_collateral now runtime).

(** ** Measurements *)

Lemma normalize_hex d : normalize_measurement (hex_encode d) = hex_encode d.
Proof.
  unfold normalize_measurement. rewrite trim_graphic by apply hex_graphic. unfold to_ascii_lowercase.
  induction (hex_lower d) as [|b l Hb _ IH]; [done|]. cbn [fmap list_fmap]. rewrite IH. f_equal.
  revert Hb. destruct b; by vm_compute.
Qed.

(** The policy lists the code of a report. *)
Definition listed (p : MeasurementPolicy) (r : Report) : Prop :=
  match r with
  | TD10 mr_td _ | TD15 mr_td _ => hex_encode mr_td ∈ allowed_mrtd p
  | SgxEnclave mr_enclave mr_signer isv_svn _ =>
    hex_encode mr_enclave ∈ allowed_mrenclave p /\ hex_encode mr_signer ∈ allowed_mrsigner p
    /\ forall minimum, min_isvsvn p = Some minimum -> (minimum <= isv_svn)%Z
  end.

Definition composed (p : MeasurementPolicy) (v : VerifiedAttestation) : Prop :=
  forall h, expected_compose_hash p = Some h -> decode_compose_hash v = Ok h.

Lemma accepts_sgx_iff p e s n :
  accepts_sgx p (hex_encode e) (hex_encode s) n = true <->
  hex_encode e ∈ allowed_mrenclave p /\ hex_encode s ∈ allowed_mrsigner p
  /\ forall minimum, min_isvsvn p = Some minimum -> (minimum <= n)%Z.
Proof.
  unfold accepts_sgx. rewrite !normalize_hex, !andb_true_iff, !negb_true_iff, !bool_decide_eq_false, !bool_decide_eq_true.
  split.
  - intros ((((_ & _) & He) & Hs) & Hm). split; [done|]. split; [done|]. intros m Hmin. rewrite Hmin in Hm. by apply Z.leb_le.
  - intros (He & Hs & Hm). repeat split; [set_solver|set_solver|done|done|].
    destruct (min_isvsvn p) as [m|]; [|done]. by apply Z.leb_le, Hm.
Qed.

Lemma decoded_compose v h : decode_compose_hash v = Ok h -> exists d, h = hex_encode d.
Proof. unfold decode_compose_hash. intros Hh. monad_inv. destruct (List.find _ _); [|done]. injection Hh as <-. eauto. Qed.

Lemma measurement_policy_iff p v :
  enforce_measurement_policy p v = Ok tt <-> composed p v /\ listed p (report v).
Proof.
  assert (Hc : (if requires_compose_hash p
    then let! compose_hash := ok_or (result_ok (decode_compose_hash v)) ComposeHashMissing in
         guard (negb (accepts_compose_hash p compose_hash)) ComposeHashRejected
    else Ok tt) = Ok tt <-> composed p v).
  { unfold requires_compose_hash, composed, accepts_compose_hash.
    destruct (expected_compose_hash p) as [h|]; [|split; [by intros _ h|done]].
    destruct (decode_compose_hash v) as [h'|e|] eqn:Ed; cbn [result_ok ok_or rbind].
    - destruct (decoded_compose _ _ Ed) as [d ->]. rewrite normalize_hex, guard_ok, negb_false_iff, bool_decide_eq_true.
      split; [by intros [= ->] ? [= <-]|]. intros Hx. specialize (Hx h eq_refl). by injection Hx as ->.
    - split; [done|]. intros Hx. by specialize (Hx h eq_refl).
    - split; [done|]. intros Hx. by specialize (Hx h eq_refl). }
  unfold enforce_measurement_policy. rewrite rbind_ok. split.
  - intros ([] & Hg & Hr). split; [by apply Hc|].
    destruct (report v); cbn [listed]; apply guard_ok, negb_false_iff in Hr.
    1,2: by unfold accepts_tdx_mrtd in Hr; rewrite normalize_hex in Hr; apply bool_decide_eq_true in Hr.
    by apply accepts_sgx_iff.
  - intros [Hg Hl]. exists tt. split; [by apply Hc|].
    destruct (report v); cbn [listed] in Hl; apply guard_ok, negb_false_iff.
    1,2: by unfold accepts_tdx_mrtd; rewrite normalize_hex; apply bool_decide_eq_true.
    by apply accepts_sgx_iff.
Qed.

(** ** Servers *)

(** A certificate of an allowed subject with verified evidence, bound to its
    key, of code the policy lists. *)
Definition trusted_server (p : ClientPolicy) (subjects : gset str) (pccs : str) (cert : bytes) : Prop :=
  exists view subject a v, x509_from_der cert = Some view /\ server_subject view = Some subject
    /\ subject ∈ subjects /\ attestation_from_der cert = Ok (Some a)
    /\ attests get_collateral now a (subject_public_key view) (Some pccs) v
    /\ composed (measurement p) v /\ listed (measurement p) (report v).

Lemma verify_peer_iff p subjects pccs cert :
  verify_peer_certificate get_collateral now cert p subjects pccs = Ok tt <-> trusted_server p subjects pccs cert.
Proof.
  unfold verify_peer_certificate, trusted_server. split.
  - intros Hv. monad_inv. subst. bool_to_prop.
    match goal with Hx : enforce_measurement_policy _ _ = Ok _ |- _ => apply measurement_policy_iff in Hx as [? ?] end.
    match goal with Hx : verify_with_ra_pubkey _ _ _ _ _ = Ok _ |- _ => apply verify_attests in Hx end.
    by eexists _, _, _, _.
  - intros (view & subject & a & v & Hx & Hs & Hin & Ha & Hv & Hc & Hl).
    destruct (attests_supported _ _ _ _ _ _ Hv) as (vd & Hd & Hu).
    rewrite Hx. cbn [ok_or rbind]. rewrite Hs. cbn [ok_or rbind]. rewrite bool_decide_eq_true_2 by done.
    cbn [negb guard rbind]. rewrite Ha. cbn [map_err rbind ok_or]. rewrite Hd. cbn [map_err rbind]. rewrite Hu.
    cbn [guard rbind]. rewrite (proj2 (verify_attests _ _ _ _ _ _) Hv). cbn [map_err rbind].
    by apply measurement_policy_iff.
Qed.

(** The chain of a server verifies for a name under the configured roots. *)
Definition chain_verifies (roots : list bytes) (name : ServerName) (peer : Peer) : Prop :=
  webpki_verify roots (end_entity peer) (intermediates peer) name (ocsp_response peer) (handshake_time peer) = true.

(** What [connect] has checked and set up. *)
Lemma connect_inv c name tls :
  connect c = Ok (name, tls) ->
  parse_server_name (server_name c) = Ok name /\ config_validate c = Ok tt
  /\ tls_roots tls = client_ca_certificates c /\ tls_client tls = client_identity c
  /\ match attestation_mode c with
     | Enforced => exists p subjects pccs, policy c = Some p /\ subject_allowlist c = Some subjects
         /\ pccs_url c = Some pccs
         /\ tls_verifier tls = Some (mkVerifierRa (client_ca_certificates c) p subjects (uri_text pccs))
     | Local => endpoint_is_loopback (endpoint c) = true /\ tls_verifier tls = None
     end.
Proof.
  unfold connect. intros E. apply rbind_ok in E as ([] & Hval & E). apply rbind_ok in E as (n & Hn & E).
  apply rbind_ok in E as (t & Ht & E). injection E as -> ->. split; [done|]. split; [done|].
  unfold build_client_tls_config in Ht. unfold config_validate in Hval.
  destruct (attestation_mode c); monad_inv; bool_to_prop; subst; cbn; [|by repeat split].
  split; [done|]. split; [done|]. by eexists _, _, _.
Qed.

(** The server has signed the handshake with the key of its certificate. *)
Definition proves_key (peer : Peer) : Prop :=
  match tls_version peer with
  | Tls12 => webpki_tls12_signature (handshake_message peer) (end_entity peer) (handshake_signature peer) = true
  | Tls13 => webpki_tls13_signature (handshake_message peer) (end_entity peer) (handshake_signature peer) = true
  end.

Lemma signature_iff peer :
  match tls_version peer with
  | Tls12 => verify_tls12_signature (handshake_message peer) (end_entity peer) (handshake_signature peer)
  | Tls13 => verify_tls13_signature (handshake_message peer) (end_entity peer) (handshake_signature peer)
  end = Ok tt <-> proves_key peer.
Proof.
  unfold proves_key, verify_tls12_signature, verify_tls13_signature.
  destruct (tls_version peer); by rewrite guard_ok, negb_false_iff.
Qed.

Lemma run_attestation_ok {T} (m : result ConnectionError T) x :
  run_attestation_verification runtime m = Ok x <-> runtime = MultiThread /\ m = Ok x.
Proof. unfold run_attestation_verification. destruct runtime; naive_solver. Qed.

(** C9: a connection is only made to a server that is authenticated as
    configured: its chain verifies for the configured name under the configured
    roots, and it has signed the handshake with the key of its certificate; in
    enforced mode its subject is allowed and its certificate carries a verified
    quote, bound to its key, of code the policy lists, and the handshake runs on
    a multi-threaded runtime; and in local mode the endpoint is a loopback host.
    These are the exact conditions of the client's verifier, for both versions
    of TLS. *)
Theorem authenticated_connections c name tls peer :
  connect c = Ok (name, tls) ->
  accept name tls peer = Ok tt <->
  chain_verifies (client_ca_certificates c) name peer /\ proves_key peer
  /\ match attestation_mode c with
     | Enforced => runtime = MultiThread
         /\ exists p subjects pccs, policy c = Some p /\ subject_allowlist c = Some subjects
         /\ pccs_url c = Some pccs /\ trusted_server p subjects (uri_text pccs) (end_entity peer)
     | Local => endpoint_is_loopback (endpoint c) = true
     end.
Proof.
  intros (_ & _ & Hr & _ & Hm)%connect_inv. unfold accept_server, chain_verifies.
  rewrite rbind_ok. setoid_rewrite signature_iff. destruct (attestation_mode c).
  - destruct Hm as (p & subjects & pccs & Hp & Hs & Hu & ->). unfold verify_server_cert.
    cbn [chain_roots ra_policy ra_subjects ra_pccs_url].
    setoid_rewrite guard_bind_ok. setoid_rewrite run_attestation_ok. setoid_rewrite negb_false_iff. split.
    + intros ([] & (Hc & Hrun & Ht%verify_peer_iff) & Hk). repeat split; try done. by exists p, subjects, pccs.
    + intros (Hc & Hk & Hrun & p' & s' & u' & Hp' & Hs' & Hu' & Ht). exists tt. repeat split; try done.
      apply verify_peer_iff. congruence.
  - destruct Hm as [Hl ->]. setoid_rewrite guard_ok. rewrite Hr. setoid_rewrite negb_false_iff.
    split; [by intros ([] & ? & ?)|]. intros (? & ? & ?). by exists tt.
Qed.

(** On a runtime with a single thread the client does not refuse a server whose
    chain verifies, in enforced mode: it panics. *)
Theorem current_thread_panics c name tls peer :
  connect c = Ok (name, tls) -> attestation_mode c = Enforced -> runtime = CurrentThread ->
  chain_verifies (client_ca_certificates c) name peer -> accept name tls peer = Panic.
Proof.
  intros (_ & _ & _ & _ & Hm)%connect_inv Hmode Hrun Hc. rewrite Hmode in Hm.
  destruct Hm as (p & subjects & pccs & _ & _ & _ & Hv). unfold accept_server. rewrite Hv.
  unfold verify_server_cert, chain_verifies in *. cbn [chain_roots]. rewrite Hc.
  cbn [negb guard rbind]. by rewrite Hrun.
Qed.

Lemma policy_constrained value p :
  policy_from_json value = Ok p ->
  no_measurement (allowed_mrtd (measurement p)) && no_measurement (allowed_mrenclave (measurement p))
  && match expected_compose_hash (measurement p) with None => true | Some _ => false end = false.
Proof. unfold policy_from_json. destruct value; try done. intros Hp. monad_inv. by subst. Qed.

(** A policy that constrains only the compose hash, which the policy parser
    accepts as a constraint of its own, accepts no server at all. *)
Theorem compose_only_policy_unusable value p :
  policy_from_json value = Ok p -> allowed_mrtd (measurement p) = ∅ -> allowed_mrenclave (measurement p) = ∅ ->
  is_Some (expected_compose_hash (measurement p))
  /\ forall subjects pccs cert, verify_peer_certificate get_collateral now cert p subjects pccs <> Ok tt.
Proof.
  intros Hp Ht He. split.
  - apply policy_constrained in Hp. rewrite Ht, He in Hp. destruct (expected_compose_hash _); [by eexists|done].
  - intros subjects pccs cert (view & subject & a & v & _ & _ & _ & _ & _ & _ & Hl)%verify_peer_iff.
    destruct (report v); cbn in Hl; rewrite ?Ht, ?He in Hl; set_solver.
Qed.

Lemma trim_bracketed s : trim (#"[" ++ s ++ #"]") = #"[" ++ s ++ #"]".
Proof.
  unfold trim. change (#"[" ++ s ++ #"]") with (Byte.x5b :: (s ++ #"]")) at 1.
  rewrite trim_start_graphic by done. change (Byte.x5b :: (s ++ #"]")) with ((Byte.x5b :: s) ++ #"]").
  by apply (trim_end_graphic Byte.x5d).
Qed.

Lemma bracketed_host_no_loopback u s : host_str u = Some (#"[" ++ s ++ #"]") -> endpoint_is_loopback u = false.
Proof.
  intros Hh. unfold endpoint_is_loopback. rewrite Hh, trim_bracketed.
  unfold to_ascii_lowercase. rewrite !fmap_app. set (l := ascii_lower <$> s).
  change (ascii_lower <$> #"[") with #"[". change (ascii_lower <$> #"]") with #"]".
  change (#"[" ++ l ++ #"]") with (Byte.x5b :: (l ++ #"]")). rewrite bracket_no_ip, orb_false_r.
  apply orb_false_iff. split; [by apply str_eqb_neq|]. unfold ends_with.
  change (Byte.x5b :: (l ++ #"]")) with ((Byte.x5b :: l) ++ #"]"). by rewrite rev_app_distr.
Qed.

(** In local mode the loopback address of IPv6 is refused, since a URL
    gives the address in brackets. *)
Theorem ipv6_loopback_refused c address :
  attestation_mode c = Local -> host_str (endpoint c) = Some (#"[" ++ address ++ #"]") ->
  config_validate c <> Ok tt.
Proof.
  intros Hm Hh Hv. unfold config_validate in Hv. rewrite Hm in Hv. monad_inv. bool_to_prop.
  match goal with Hx : endpoint_is_loopback _ = true |- _ => rename Hx into Hl end.
  rewrite (bracketed_host_no_loopback _ address) in Hl by done. done.
Qed.

End ConnectionLaws.

(** ** Well-formed configurations *)

Section ConfigurationLaws.
Context `{TextCodecs} `{JsonText} `{Uris} `{Rustls}.

(** The form measurements and subjects are compared in *)
Definition canonical (s : str) : Prop := normalize_measurement s = s /\ s <> [].

Lemma normalize_idem s : normalize_measurement (normalize_measurement s) = normalize_measurement s.
Proof. unfold normalize_measurement. by rewrite trim_lower, trim_idem, lower_idem. Qed.
Lemma normalize_canonical s : is_empty (normalize_measurement s) = false -> canonical (normalize_measurement s).
Proof. intros Hs. split; [apply normalize_idem|]. by destruct (normalize_measurement s). Qed.

(** The strings of a policy, in the form measurements are compared in. *)
Definition named_by (values : list json) (s : str) : Prop :=
  exists raw, JString raw ∈ values /\ s = normalize_measurement raw.

Lemma insert_measurements_spec key values set set' :
  insert_measurements key values set = Ok set' ->
  (forall s, s ∈ set' <-> s ∈ set \/ named_by values s) /\ (set_Forall canonical set -> set_Forall canonical set').
Proof.
  revert set. induction values as [|item values IH]; intros set; cbn [insert_measurements].
  - intros [= <-]. split; [|done]. intros s. split; [by left|]. intros [Hs|(raw & Hin & _)]; [done|].
    by apply elem_of_nil in Hin.
  - intros E. monad_inv. bool_to_prop. destruct item as [| | |raw| |]; try done.
    match goal with Hx : as_str _ = Some _ |- _ => injection Hx as <- end.
    match goal with Hx : insert_measurements _ _ _ = Ok _ |- _ => destruct (IH _ Hx) as [Hset Hcan] end.
    split.
    + intros s. rewrite Hset, elem_of_union, elem_of_singleton. unfold named_by. setoid_rewrite elem_of_cons. naive_solver.
    + intros Hs. apply Hcan, set_Forall_union; [|done]. apply set_Forall_singleton, normalize_canonical. done.
Qed.

(** The measurements listed under a key *)
Definition measured (object : list (str * json)) (key : str) (set : gset str) : Prop :=
  set_Forall canonical set
  /\ match obj_get key object with
     | Some (JArray values) => forall s, s ∈ set <-> named_by values s
     | Some _ => False
     | None => set = ∅
     end.

Lemma measurement_set_spec object key set :
  required_or_empty_measurement_set object key = Ok set -> measured object key set.
Proof.
  unfold required_or_empty_measurement_set, measured. destruct (obj_get key object) as [[]|]; try done.
  - intros [Hset Hcan]%insert_measurements_spec. split; [by apply Hcan|]. intros s. rewrite Hset. set_solver.
  - by intros [= <-].
Qed.

(** A field that is not there, or is [null] *)
Definition absent (object : list (str * json)) (key : str) : Prop :=
  obj_get key object = None \/ obj_get key object = Some JNull.

(** A policy as it is read from an object: each of its fields is what the
    object says, and is absent only when it is absent there. *)
Record policy_wf (object : list (str * json)) (p : ClientPolicy) : Prop := {
  wf_name : exists raw, obj_get #"policy_name" object = Some (JString raw)
    /\ policy_name p = trim raw /\ policy_name p <> [];
  wf_mrtd : measured object #"allowed_mrtd" (allowed_mrtd (measurement p));
  wf_mrenclave : measured object #"allowed_mrenclave" (allowed_mrenclave (measurement p));
  wf_mrsigner : measured object #"allowed_mrsigner" (allowed_mrsigner (measurement p));
  wf_pair : allowed_mrenclave (measurement p) = ∅ <-> allowed_mrsigner (measurement p) = ∅;
  wf_isvsvn : match min_isvsvn (measurement p) with
    | Some n => (n < 2^16)%Z /\ obj_get #"min_isvsvn" object = Some (JNumber (PosInt n))
    | None => absent object #"min_isvsvn"
    end;
  wf_compose : match expected_compose_hash (measurement p) with
    | Some h => canonical h
        /\ exists raw, obj_get #"expected_compose_hash" object = Some (JString raw) /\ h = normalize_measurement raw
    | None => absent object #"expected_compose_hash"
    end;
  wf_constrained : allowed_mrtd (measurement p) <> ∅ \/ allowed_mrenclave (measurement p) <> ∅
    \/ is_Some (expected_compose_hash (measurement p));
}.

Lemma isvsvn_spec object n :
  policy_isvsvn object = Ok n ->
  match n with
  | Some n => (n < 2^16)%Z /\ obj_get #"min_isvsvn" object = Some (JNumber (PosInt n))
  | None => absent object #"min_isvsvn"
  end.
Proof.
  unfold policy_isvsvn, absent. destruct (obj_get _ _) as [[| |[]| | |]|]; try done;
    try (intros [= <-]; auto).
  destruct (_ <? _)%Z eqn:En; [|done]. intros [= <-]. bool_to_prop. done.
Qed.
Lemma compose_spec object h :
  policy_compose_hash object = Ok h ->
  match h with
  | Some h => canonical h
      /\ exists raw, obj_get #"expected_compose_hash" object = Some (JString raw) /\ h = normalize_measurement raw
  | None => absent object #"expected_compose_hash"
  end.
Proof.
  unfold policy_compose_hash, absent. destruct (obj_get _ _) as [[]|]; try done; try (intros [= <-]; auto).
  intros Hc. monad_inv. subst. split; [by apply normalize_canonical|]. by eexists.
Qed.
Lemma policy_name_spec object name :
  required_json_string object #"policy_name" = Ok name ->
  exists raw, obj_get #"policy_name" object = Some (JString raw) /\ name = trim raw /\ name <> [].
Proof.
  unfold required_json_string. destruct (obj_get _ _) as [[]|]; try done. intros Hn. monad_inv. subst.
  eexists. split; [done|]. split; [done|]. by destruct (trim _).
Qed.

Lemma policy_well_formed value p :
  policy_from_json value = Ok p -> exists object, value = JObject object /\ policy_wf object p.
Proof.
  unfold policy_from_json. destruct value as [| | | | |object]; try done. intros E. exists object. split; [done|].
  monad_inv. subst.
  match goal with Hx : negb (Bool.eqb _ _) = false |- _ => rename Hx into Hp end.
  split; cbn [policy_name measurement allowed_mrtd allowed_mrenclave allowed_mrsigner min_isvsvn expected_compose_hash];
    [by apply policy_name_spec|by apply measurement_set_spec..| |by apply isvsvn_spec|by apply compose_spec|].
  - apply negb_false_iff, Bool.eqb_prop in Hp. unfold no_measurement in Hp. case_bool_decide; case_bool_decide; naive_solver.
  - match goal with Hx : no_measurement _ && _ && _ = false |- _ => rename Hx into Hc end.
    unfold no_measurement in Hc. apply andb_false_iff in Hc as [[Hc|Hc]%andb_false_iff|Hc].
    + apply bool_decide_eq_false in Hc. auto.
    + apply bool_decide_eq_false in Hc. auto.
    + right; right. case_match; [by eexists|done].
Qed.

Lemma insert_subjects_spec entries set set' :
  insert_subjects entries set = Ok set' ->
  (forall s, s ∈ set' <-> s ∈ set \/ exists entry, entry ∈ entries /\ s = normalize_measurement entry)
  /\ (set_Forall canonical set -> set_Forall canonical set').
Proof.
  revert set. induction entries as [|entry entries IH]; intros set; cbn [insert_subjects].
  - intros [= <-]. split; [|done]. intros s. split; [by left|]. intros [Hs|(e & Hin & _)]; [done|].
    by apply elem_of_nil in Hin.
  - intros E. monad_inv. destruct (IH _ E) as [Hset Hcan]. split.
    + intros s. rewrite Hset, elem_of_union, elem_of_singleton. setoid_rewrite elem_of_cons.
      unfold normalize_measurement. naive_solver.
    + intros Hs. apply Hcan, set_Forall_union; [|done]. by apply set_Forall_singleton, normalize_canonical.
Qed.
Lemma subjects_well_formed raw subjects :
  parse_subject_allowlist raw = Ok subjects -> subjects <> ∅ /\ set_Forall canonical subjects
  /\ forall s, s ∈ subjects <-> exists entry, entry ∈ split_on Byte.x2c raw /\ s = normalize_measurement entry.
Proof.
  unfold parse_subject_allowlist. intros E. monad_inv. subst.
  match goal with Hx : insert_subjects _ _ = Ok _ |- _ => destruct (insert_subjects_spec _ _ _ Hx) as [Hset Hcan] end.
  split; [|split].
  - unfold no_measurement in *. bool_to_prop. done.
  - apply Hcan. by apply set_Forall_empty.
  - intros s. rewrite Hset. set_solver.
Qed.

Lemma parse_digits_range limit acc s n :
  (0 <= acc <= limit)%Z -> parse_digits limit acc s = Some n -> (0 <= n <= limit)%Z.
Proof.
  revert acc. induction s as [|b s IH]; intros acc Ha; cbn [parse_digits]; [by intros [= <-]|].
  unfold digit. destruct (in_range _ _ b) eqn:Eb; [|done]. unfold in_range in Eb. case_if; [|done].
  apply IH. bool_to_prop. lia.
Qed.
Lemma parse_unsigned_range limit s n : (0 <= limit)%Z -> parse_unsigned limit s = Some n -> (0 <= n <= limit)%Z.
Proof.
  intros Hl. unfold parse_unsigned. destruct s as [|b s]; [done|].
  repeat case_if; try done; apply parse_digits_range; lia.
Qed.
Lemma timeout_spec env t : parse_timeout env = Ok t ->
  (0 < t < 2^64)%Z
  /\ match env #"SECRET_BROKER_CLIENT_TIMEOUT_SECS" with
     | Ok raw => parse_unsigned (2^64 - 1) (trim raw) = Some t
     | Err NotPresent => t = 10%Z
     | _ => False
     end.
Proof.
  unfold parse_timeout. destruct (env _) as [raw|[]|]; try done; [|by intros [= <-]].
  intros E. monad_inv. subst. bool_to_prop. split; [|done].
  match goal with Hx : parse_unsigned _ _ = Some _ |- _ => apply parse_unsigned_range in Hx; lia end.
Qed.
Lemma mode_spec env mode : mode_from_env env = Ok mode ->
  match env #"SECRET_BROKER_CLIENT_MODE" with
  | Ok raw => to_ascii_lowercase (trim raw) = match mode with Enforced => #"enforced" | Local => #"local" end
  | Err NotPresent => mode = Enforced
  | _ => False
  end.
Proof.
  unfold mode_from_env, mode_parse. destruct (env _) as [raw|[]|]; try done; [|by intros [= <-]].
  cbn zeta. intros Hm. destruct mode; repeat case_if; try done; by bool_to_prop.
Qed.

(** What the environment gives under a name, trimmed; it must not be blank. *)
Definition variable (env : environment) (key value : str) : Prop :=
  exists raw, env key = Ok raw /\ value = trim raw /\ value <> [].
Lemma required_env_spec env key value : required_env env key = Ok value -> variable env key value.
Proof.
  unfold required_env. destruct (env key) as [raw|e|] eqn:E; try done. intros Hr. cbn [map_err rbind] in Hr. monad_inv.
  exists raw. split; [done|]. split; [done|]. by destruct (trim raw).
Qed.

(** The certificates of a PEM file *)
Definition certificates_at (read_file : str -> option bytes) (path : str) (certs : list bytes) : Prop :=
  exists pem, read_file path = Some pem /\ pem_certs pem = Some certs /\ certs <> [].
Lemma parse_certificates_spec pem certs : parse_certificates pem = Ok certs -> pem_certs pem = Some certs /\ certs <> [].
Proof. unfold parse_certificates. intros E. monad_inv. subst. split; [done|]. by destruct certs. Qed.

(** A URL without user name, password or fragment *)
Definition plain_url (u : uri) : Prop :=
  is_Some (host_str u) /\ uri_username u = [] /\ uri_password u = None /\ uri_fragment u = None.

(** A configuration that [from_env] can return: what each part is, and which
    variable or file says so. *)
Record config_wf (env : environment) (read_file : str -> option bytes) (c : SecretBrokerClientConfig) : Prop := {
  wf_endpoint : exists raw, variable env #"SECRET_BROKER_ENDPOINT" raw /\ uri_parse raw = Some (endpoint c)
    /\ uri_scheme (endpoint c) = #"https" /\ plain_url (endpoint c) /\ uri_query (endpoint c) = None
    /\ (uri_path (endpoint c) = #"/" \/ uri_path (endpoint c) = []);
  wf_server_name : variable env #"SECRET_BROKER_CLIENT_SERVER_NAME" (server_name c)
    /\ exists name, parse_server_name (server_name c) = Ok name;
  wf_timeout : (0 < timeout c < 2^64)%Z
    /\ match env #"SECRET_BROKER_CLIENT_TIMEOUT_SECS" with
       | Ok raw => parse_unsigned (2^64 - 1) (trim raw) = Some (timeout c)
       | Err NotPresent => timeout c = 10%Z
       | _ => False
       end;
  wf_identity : exists cert_path key_path pem, variable env #"SECRET_BROKER_CLIENT_CERT" cert_path
    /\ variable env #"SECRET_BROKER_CLIENT_KEY" key_path
    /\ certificates_at read_file cert_path (certificates (client_identity c))
    /\ read_file key_path = Some pem /\ first_key (pem_items pem) = Ok (private_key (client_identity c));
  wf_roots : exists path, variable env #"SECRET_BROKER_CLIENT_CA_CERT" path
    /\ certificates_at read_file path (client_ca_certificates c);
  wf_mode_name : match env #"SECRET_BROKER_CLIENT_MODE" with
    | Ok raw => to_ascii_lowercase (trim raw)
        = match attestation_mode c with Enforced => #"enforced" | Local => #"local" end
    | Err NotPresent => attestation_mode c = Enforced
    | _ => False
    end;
  wf_mode : match attestation_mode c with
    | Enforced => exists p subjects pccs path text object raw_subjects raw_pccs,
        policy c = Some p /\ subject_allowlist c = Some subjects /\ pccs_url c = Some pccs
        /\ variable env #"SECRET_BROKER_CLIENT_POLICY_FILE" path /\ read_file path = Some text
        /\ json_parse text = Some (JObject object) /\ policy_wf object p
        /\ variable env #"SECRET_BROKER_CLIENT_SUBJECTS" raw_subjects
        /\ subjects <> ∅ /\ set_Forall canonical subjects
        /\ (forall s, s ∈ subjects <->
              exists entry, entry ∈ split_on Byte.x2c raw_subjects /\ s = normalize_measurement entry)
        /\ variable env #"SECRET_BROKER_PCCS_URL" raw_pccs /\ uri_parse raw_pccs = Some pccs
        /\ (uri_scheme pccs = #"http" \/ uri_scheme pccs = #"https") /\ plain_url pccs
    | Local => endpoint_is_loopback (endpoint c) = true
        /\ policy c = None /\ subject_allowlist c = None /\ pccs_url c = None
    end;
}.

Ltac url_parts :=
  repeat match goal with Hx : is_some ?o = _ |- _ => destruct o eqn:?; try discriminate Hx; clear Hx end.

Lemma endpoint_spec raw u : parse_endpoint raw = Ok u ->
  uri_parse raw = Some u /\ uri_scheme u = #"https" /\ plain_url u /\ uri_query u = None
  /\ (uri_path u = #"/" \/ uri_path u = []).
Proof.
  unfold parse_endpoint, validate_endpoint. intros E. monad_inv. subst. bool_to_prop. url_parts.
  split; [done|]. split; [done|]. split; [split; [by eexists|split; [by destruct (uri_username u)|done]]|].
  split; [done|]. match goal with Hx : _ && _ = false |- _ => apply andb_false_iff in Hx as [Hx|Hx] end;
    bool_to_prop; [by left|right; by destruct (uri_path u)].
Qed.
Lemma pccs_spec raw u : parse_pccs_url raw = Ok u ->
  uri_parse raw = Some u /\ (uri_scheme u = #"http" \/ uri_scheme u = #"https") /\ plain_url u.
Proof.
  unfold parse_pccs_url, validate_pccs_url. intros E. monad_inv. subst. bool_to_prop. url_parts.
  split; [done|]. split; [|split; [by eexists|split; [by destruct (uri_username u)|done]]].
  match goal with Hx : _ || _ = true |- _ => apply orb_prop in Hx end. by rewrite <- !str_eqb_eq.
Qed.

Lemma enforced_spec env read_file p subjects pccs :
  enforced_fields env read_file = Ok (p, subjects, pccs) ->
  exists path text object raw_subjects raw_pccs,
    variable env #"SECRET_BROKER_CLIENT_POLICY_FILE" path /\ read_file path = Some text
    /\ json_parse text = Some (JObject object) /\ policy_wf object p
    /\ variable env #"SECRET_BROKER_CLIENT_SUBJECTS" raw_subjects
    /\ parse_subject_allowlist raw_subjects = Ok subjects
    /\ variable env #"SECRET_BROKER_PCCS_URL" raw_pccs /\ parse_pccs_url raw_pccs = Ok pccs.
Proof.
  unfold enforced_fields. intros E.
  apply rbind_ok in E as (path & Hpath & E). apply rbind_ok in E as (rs & Hrs & E).
  apply rbind_ok in E as (ss & Hss & E). apply rbind_ok in E as (rp & Hrp & E).
  apply rbind_ok in E as (u & Hu & E). apply rbind_ok in E as (pol & Hpol & E). injection E as -> -> ->.
  unfold policy_from_file in Hpol. apply rbind_ok in Hpol as (text & Ht%ok_or_ok & Hpol).
  apply rbind_ok in Hpol as (value & Hj%ok_or_ok & Hpol).
  destruct (policy_well_formed _ _ Hpol) as (object & -> & Hp).
  exists path, text, object, rs, rp. eauto 20 using required_env_spec.
Qed.

(** C32: a configuration read from the environment is well formed, and is what
    the environment and the files it names say: the endpoint is the https URL
    given, without credentials, query or path; the server name is the one given
    and usable; the timeout is the positive number given, or ten seconds; the
    certificates, the private key and the roots are those of the named files;
    the mode is the one named, enforced when none is.  In enforced mode every
    field of the policy is the corresponding field of the policy file, in the
    form measurements are compared in, and left out only where the file leaves
    it out, and it constrains something; the allowed subjects are exactly the
    entries of the list given, normalised; and the collateral service is the
    URL given.  In local mode the endpoint is a loopback host and there are
    none of these. *)
Theorem configuration_well_formed env read_file c :
  client_config_from_env env read_file = Ok c -> config_wf env read_file c.
Proof.
  unfold client_config_from_env. intros E.
  apply rbind_ok in E as (raw & Hraw%required_env_spec & E). apply rbind_ok in E as (u & Hu%endpoint_spec & E).
  apply rbind_ok in E as (mode & Hmode%mode_spec & E).
  apply rbind_ok in E as (cert & Hcert%required_env_spec & E). apply rbind_ok in E as (key & Hkey%required_env_spec & E).
  apply rbind_ok in E as (ca & Hca%required_env_spec & E). apply rbind_ok in E as (sn & Hsn%required_env_spec & E).
  apply rbind_ok in E as ([] & Hname & E). apply rbind_ok in E as (t & Ht%timeout_spec & E).
  apply rbind_ok in E as (id & Hid & E). apply rbind_ok in E as (roots & Hroots & E).
  apply rbind_ok in E as (config & Hm & E). apply rbind_ok in E as ([] & Hval & E). injection E as ->.
  assert (Hn : exists name, parse_server_name sn = Ok name)
    by (unfold validate_server_name in Hname; monad_inv; by eexists).
  unfold identity_from_paths, identity_from_pem in Hid.
  apply rbind_ok in Hid as (cpem & Hcp%ok_or_ok & Hid). apply rbind_ok in Hid as (kpem & Hkp%ok_or_ok & Hid).
  apply rbind_ok in Hid as (cs & [Hcs Hcne]%parse_certificates_spec & Hid).
  apply rbind_ok in Hid as (pk & Hpk & Hid). injection Hid as <-.
  unfold load_ca_certificates in Hroots. apply rbind_ok in Hroots as (rpem & Hrp%ok_or_ok & [Hrs Hrne]%parse_certificates_spec).
  destruct mode.
  - apply rbind_ok in Hm as ([[p subjects] pccs] & He & Hm). injection Hm as <-.
    destruct (enforced_spec _ _ _ _ _ He) as (path & text & object & rsub & rpccs & ? & ? & ? & ? & ? & Hs & ? & Hpc).
    destruct (subjects_well_formed _ _ Hs) as (? & ? & ?). destruct (pccs_spec _ _ Hpc) as (? & ? & ?).
    split; [by exists raw|done|done|exists cert, key, kpem; repeat split; try done; by exists cpem
      |exists ca; split; [done|by exists rpem]|done|].
    by exists p, subjects, pccs, path, text, object, rsub, rpccs.
  - injection Hm as <-.
    split; [by exists raw|done|done|exists cert, key, kpem; repeat split; try done; by exists cpem
      |exists ca; split; [done|by exists rpem]|done|].
    unfold config_validate in Hval. cbn [attestation_mode] in *. monad_inv. bool_to_prop. done.
Qed.

End ConfigurationLaws.

(** * The theorems on concrete configurations *)

Module ConnectionExamples.
Import Reference ToyWorld ToyAttestation.

Record ToyUri := mkUri { toy_scheme : str; toy_host : str }.
#[export] Instance toy_uris : Uris := {
  uri := ToyUri;
  uri_parse raw := match split_once #"://" raw with Some (scheme, host) => Some (mkUri scheme host) | None => None end;
  uri_scheme := toy_scheme;
  host_str u := if is_empty (toy_host u) then None else Some (toy_host u);
  uri_username _ := [];
  uri_password _ := None;
  uri_query _ := None;
  uri_fragment _ := None;
  uri_path _ := [];
  uri_text u := toy_scheme u ++ #"://" ++ toy_host u;
}.
#[export] Instance toy_rustls : Rustls := {
  pem_certs pem := Some [pem];
  pem_items pem := [Some (Pkcs8Key pem)];
  dns_name name := true;
  root_accepts _ := true;
  client_auth_accepts _ _ := true;
  webpki_builds _ := true;
  webpki_verify roots cert _ _ _ _ := bool_decide (roots = [ #"ca"]);
  server_auth_accepts _ _ := true;
  client_verifier_builds _ := true;
  webpki_verify_client roots chain := bool_decide (roots = [ #"ca"]);
  webpki_tls12_signature message cert dss := bool_decide (dss_sig dss = cert ++ message);
  webpki_tls13_signature message cert dss := bool_decide (dss_sig dss = cert ++ #"13" ++ message);
  webpki_schemes := [0x403%Z];
}.

(** A policy that lists the measurement of the toy quotes. *)
Definition policy_json : json := JObject
  [(#"allowed_mrtd", JArray [JString (hex_encode (le_bytes 48 7))]); (#"policy_name", JString #"prod")].
Definition compose_only_json : json := JObject
  [(#"expected_compose_hash", JString #"aa"); (#"policy_name", JString #"compose")].
Definition policy0 : ClientPolicy :=
  mkPolicy #"prod" (mkMeasurements {[hex_encode (le_bytes 48 7)]} ∅ ∅ None None).
Lemma policy0_parsed : policy_from_json policy_json = Ok policy0.
Proof. vm_compute. reflexivity. Qed.

Definition config0 : SecretBrokerClientConfig :=
  mkClientConfig (mkUri #"https" #"broker.example" : uri) Enforced (Some policy0) (Some {[ #"broker"]})
    (Some (mkUri #"https" #"pccs" : uri)) (mkIdentity [ #"c"] (Pkcs8 #"k")) [ #"ca"] #"broker.example" 10.
Definition peer0 : Peer := mkPeer #"server" [] [] 0 Tls13 #"hello" (mkDss 0x403 #"server13hello").

Lemma authenticated_connections_witness : exists name tls,
  connect config0 = Ok (name, tls)
  /\ chain_verifies [ #"ca"] name peer0 /\ proves_key peer0 /\ MultiThread = MultiThread
  /\ exists p subjects u, policy config0 = Some p /\ subject_allowlist config0 = Some subjects
       /\ pccs_url config0 = Some u /\ trusted_server pccs (Some 1%Z) p subjects (uri_text u) #"server".
Proof.
  eassert (Hc : connect config0 = Ok (_, _)) by (vm_compute; reflexivity).
  do 2 eexists. split; [exact Hc|].
  apply (proj1 (authenticated_connections pccs (Some 1%Z) MultiThread config0 _ _ peer0 Hc)). vm_compute. reflexivity.
Defined.

Lemma current_thread_panics_witness : exists name tls,
  accept_server pccs (Some 1%Z) CurrentThread name tls peer0 = Panic.
Proof.
  eassert (Hc : connect config0 = Ok (_, _)) by (vm_compute; reflexivity).
  do 2 eexists. by apply (current_thread_panics pccs (Some 1%Z) CurrentThread config0 _ _ peer0 Hc).
Defined.

Lemma compose_only_policy_unusable_witness : exists p,
  policy_from_json compose_only_json = Ok p
  /\ verify_peer_certificate pccs (Some 1%Z) #"server" p {[ #"broker"]} #"u" <> Ok tt.
Proof.
  eassert (Hp : policy_from_json compose_only_json = Ok _) by (vm_compute; reflexivity).
  eexists. split; [exact Hp|].
  apply (compose_only_policy_unusable pccs (Some 1%Z) _ _ Hp); reflexivity.
Defined.

(** A client configured by its environment; the policy file has the measurement
    in upper case. *)
Definition policy_fields : list (str * json) :=
  [(#"allowed_mrtd", JArray [JString #" AB01 "]); (#"min_isvsvn", JNumber (PosInt 3)); (#"policy_name", JString #"prod")].
Definition client_env (key : str) : result VarError str :=
  if str_eqb key #"SECRET_BROKER_ENDPOINT" then Ok #"https://broker.example"
  else if str_eqb key #"SECRET_BROKER_CLIENT_CERT" then Ok #"/c.pem"
  else if str_eqb key #"SECRET_BROKER_CLIENT_KEY" then Ok #"/k.pem"
  else if str_eqb key #"SECRET_BROKER_CLIENT_CA_CERT" then Ok #"/ca.pem"
  else if str_eqb key #"SECRET_BROKER_CLIENT_SERVER_NAME" then Ok #"broker.example"
  else if str_eqb key #"SECRET_BROKER_CLIENT_POLICY_FILE" then Ok #"/policy.json"
  else if str_eqb key #"SECRET_BROKER_CLIENT_SUBJECTS" then Ok #"Broker, standby"
  else if str_eqb key #"SECRET_BROKER_PCCS_URL" then Ok #"https://pccs"
  else Err NotPresent.
Definition client_files (path : str) : option bytes :=
  if str_eqb path #"/policy.json" then Some (json_text policy_fields) else Some path.

(** The sets of the configuration *)
Definition sets_as_configured (c : SecretBrokerClientConfig) : bool :=
  match policy c, subject_allowlist c with
  | Some p, Some subjects => bool_decide (allowed_mrtd (measurement p) = {[ #"ab01"]})
      && bool_decide (subjects = {[ #"broker"; #"standby"]})
  | _, _ => false
  end.
Lemma configuration_well_formed_witness : exists c,
  client_config_from_env client_env client_files = Ok c /\ config_wf client_env client_files c
  /\ sets_as_configured c = true.
Proof.
  assert (Hc : match client_config_from_env client_env client_files with
               | Ok c => sets_as_configured c
               | _ => false
               end = true) by (vm_compute; reflexivity).
  destruct (client_config_from_env client_env client_files) as [c|e|] eqn:E; [|discriminate Hc..].
  exists c. exact (conj eq_refl (conj (configuration_well_formed client_env client_files c E) Hc)).
Defined.

Definition local6 : SecretBrokerClientConfig :=
  mkClientConfig (mkUri #"https" #"[::1]" : uri) Local None None None (mkIdentity [ #"c"] (Pkcs8 #"k")) [ #"ca"]
    #"localhost" 10.
Lemma ipv6_loopback_refused_witness : config_validate local6 <> Ok tt.
Proof. apply (ipv6_loopback_refused local6 #"::1"); reflexivity. Defined.

End ConnectionExamples.
