(* ===== verification/Startup.v ===== *)
(** How the broker comes up: opening its two databases and their key files,
    building the crypto engine, the start-up diagnostics, and the state the
    handlers run on (secret_broker_impl/mod.rs, sealed_key_store.rs,
    sealed_store.rs, key_manager.rs, quantum_resistant.rs,
    hardware_security.rs and service.rs).  The operating system, sled and the
    metrics registry are parameters. *)

From S2P Require Import Prelude RustStd Net Externals Reference Transparency World SealedStore Config.
From S2P Require Import CryptoEngine CipherEngine Broker Postgres.

(** ** Interfaces *)

(** The operating system and crate [sled]: whether directories can be created,
    files read, written, inspected and protected; whether a database can be
    opened while others are open, and its trees; the mode of files created
    without one; whether the metrics registry starts and Postgres answers. *)
Class Platform := {
  mkdir_ok : str -> bool;
  read_ok : str -> bool;
  write_ok : str -> bool;
  stat_ok : str -> bool;
  chmod_ok : str -> bool;
  default_mode : Z;
  sled_opens : gset str -> str -> bool;
  tree_opens : str -> str -> bool;
  monitor_starts : bool;
  postgres_connects : str -> bool;
}.
(** A database is locked while it is open. *)
Class PlatformLaws `{Platform} : Prop :=
  sled_exclusive opened path : sled_opens opened path = true -> path ∉ opened.

(** ** State *)

(** The trees of a database; a tree that was never opened is empty. *)
Record Database := mkDatabase {
  db_envelopes : gmap bytes bytes;
  db_kyber : gmap bytes bytes;
  db_dilithium : gmap bytes bytes;
  db_generic : gmap bytes bytes;
}.
Definition no_database : Database := mkDatabase ∅ ∅ ∅ ∅.

Record File := mkFile { contents : bytes; mode : Z }.
(** Modes [0o777] and [0o600] *)
Definition permission_bits : Z := 0x1ff.
Definition owner_only : Z := 0x180.

(** The disk, and the process: which databases it has open, the generic keys
    of the engine's database and the rest of its state, which has the other
    open trees. *)
Record Process := mkProcess {
  databases : gmap str Database;
  files : gmap str File;
  open_dbs : gset str;
  generic_keys : gmap bytes bytes;
  memory : World;
}.

Definition set_memory (w : World) (p : Process) : Process :=
  mkProcess (databases p) (files p) (open_dbs p) (generic_keys p) w.
Definition set_generic (t : gmap bytes bytes) (p : Process) : Process :=
  mkProcess (databases p) (files p) (open_dbs p) t (memory p).
Definition put_file (path : str) (f : File) (p : Process) : Process :=
  mkProcess (databases p) (<[path := f]> (files p)) (open_dbs p) (generic_keys p) (memory p).
Definition lock_db (path : str) (p : Process) : Process :=
  mkProcess (databases p) (files p) ({[path]} ∪ open_dbs p) (generic_keys p) (memory p).

Inductive StartError :=
| MasterKeyFileUnset | Unreadable (path : str) | MasterKeyLength (got : nat) | PermissionsUnset (path : str)
| DirectoryUnavailable (path : str) | DatabaseUnavailable (path : str)
| StoreKeyLength (path : str) | Unwritable (path : str)
| LogUnusable (e : LogError) | ConfigInvalid (e : ConfigError)
| QuantumRequired | MonitorUnavailable
| HsmDisabled | HsmUnsupported (hsm_type : str) | HsmNotInitialized | HsmKeyMissing (key_id : str)
| EngineFailure (e : CryptoError) | CipherFailure (e : EngineError) | PostgresFailure (e : PgError).

(** The result of a computation whose failure is only looked at. *)
Definition attempt {S E F A} (m : M S E A) : M S F (result E A) := fun s =>
  match m s with
  | (Panic, s') => (Panic, s')
  | (r, s') => (Ok r, s')
  end.

Section Startup.
Context `{TextCodecs} `{Hashes} `{JsonText} `{Aead} `{PqCrypto} `{Oracle} `{Urls} `{Platform}.
Context `{!Serde KyberKeyPair} `{!Serde DilithiumKeyPair} `{!Serde KeyRecord}.

Abbreviation B := (M Process StartError).

Definition look {A} (f : Process -> A) : B A := fun p => (Ok (f p), p).
Definition update (f : Process -> Process) : B unit := fun p => (Ok tt, f p).
Definition in_memory {E A} (f : E -> StartError) (m : M World E A) : B A :=
  map_err_m f (zoom memory set_memory m).
Definition random (n : nat) : B bytes := zoom memory set_memory (os_random n).

(** ** Databases and their keys *)

(** A new database is empty. *)
Definition sled_open (path : str) : B Database :=
  let* opened := look open_dbs in
  let* _ := lift (guard (negb (sled_opens opened path)) (DatabaseUnavailable path)) in
  let* _ := update (lock_db path) in
  look (fun p => default no_database (databases p !! path)).

Definition open_tree (path tree : str) : B unit :=
  lift (guard (negb (tree_opens path tree)) (DatabaseUnavailable path)).

Definition create_parent (path : str) : B unit :=
  match path_parent path with
  | Some parent => lift (guard (negb (mkdir_ok parent)) (DirectoryUnavailable parent))
  | None => ret tt
  end.

Definition master_key_path (fallback db_path : str) : str :=
  set_file_name db_path (match file_name db_path with Some name => name ++ #".master" | None => fallback end).

(** The key in the file of that name, or a fresh one in a new file. *)
Definition load_or_create_key (new_mode : Z) (path : str) : B bytes :=
  let* found := look (fun p => files p !! path) in
  match found with
  | Some f =>
    let* _ := lift (guard (negb (read_ok path)) (Unreadable path)) in
    let* _ := lift (guard (negb (length (contents f) =? 32)%nat) (StoreKeyLength path)) in
    ret (contents f)
  | None =>
    let* key := random 32 in
    let* _ := lift (guard (negb (write_ok path)) (Unwritable path)) in
    let* _ := update (put_file path (mkFile key new_mode)) in
    ret key
  end.

(** Of the sealed store: the file is created for this user only.  It cannot
    appear between the check and the creation. *)
Definition load_or_create_master_key (db_path : str) : B bytes :=
  load_or_create_key owner_only (master_key_path #"sealed_envelopes.master" db_path).
(** Of the key store: [fs::write] *)
Definition key_store_master_key (db_path : str) : B bytes :=
  load_or_create_key default_mode (master_key_path #"sealed_keys.master" db_path).

(** [SealedStore::open] *)
Definition sealed_store_open (path : str) : B bytes :=
  let* _ := create_parent path in
  let* db := sled_open path in
  let* _ := open_tree path #"sealed_envelopes" in
  let* key := load_or_create_master_key path in
  let* _ := update (fun p => set_memory (set_envelopes (db_envelopes db) (memory p)) p) in
  ret key.

(** [SealedKeyStore::open] *)
Definition key_store_open (path : str) : B bytes :=
  let* _ := create_parent path in
  let* db := sled_open path in
  let* _ := open_tree path #"kyber_keys" in
  let* _ := open_tree path #"dilithium_keys" in
  let* _ := open_tree path #"generic_keys" in
  let* key := key_store_master_key path in
  let* _ := update (fun p => set_generic (db_generic db)
    (set_memory (set_kyber_keys (db_kyber db) (set_dilithium_keys (db_dilithium db) (memory p))) p)) in
  ret key.

(** ** Generic keys *)

Definition store_generic_key (store_key : bytes) (key_id algorithm : str) (key_bytes : bytes) : B unit :=
  let* (ciphertext, nonce) := in_memory EngineFailure (ks_encrypt store_key key_bytes) in
  let* now := zoom memory set_memory utc_now in
  let data := to_vec (mkKeyRecord key_id algorithm ciphertext nonce now) in
  update (fun p => set_generic (<[key_id := data]> (generic_keys p)) p).

Definition load_generic_key (store_key : bytes) (key_id : str) : B (option (str * bytes)) :=
  let* found := look (fun p => generic_keys p !! key_id) in
  match found with
  | None => ret None
  | Some value =>
    let* r := lift (ok_or (from_slice (A := KeyRecord) value) (EngineFailure KeyStoreFailure)) in
    let* plaintext := lift (map_err EngineFailure (decrypt_record store_key r)) in
    ret (Some (kr_algorithm r, plaintext))
  end.

Definition delete_generic_key (key_id : str) : B unit :=
  update (fun p => set_generic (base.delete key_id (generic_keys p)) p).

(** ** The security module *)

Inductive HsmType := Software.
Inductive HsmStatus := Healthy | Unhealthy.
Record HardwareSecurityModule := mkHsm {
  hsm_config : CryptoConfig;
  hsm_type : HsmType;
  hsm_status : HsmStatus;
  is_initialized : bool;
  hsm_store_key : bytes;
}.

Definition hsm_type_from_config (value : str) : result StartError HsmType :=
  let value := to_ascii_lowercase (trim value) in
  if str_eqb value #"software" then Ok Software else Err (HsmUnsupported value).

(** [initialize_hsm] comes last: the module is healthy. *)
Definition hsm_new (config : CryptoConfig) : B HardwareSecurityModule :=
  let* _ := lift (guard (negb (hsm_enabled config)) HsmDisabled) in
  let* t := lift (hsm_type_from_config (hsm_type_ (hsm config))) in
  let* key := key_store_open (qc_sealed_store_path (quantum_crypto config)) in
  ret (mkHsm config t Healthy true key).

Definition check_hsm_health (m : HardwareSecurityModule) : B unit :=
  lift (guard (negb (is_initialized m)) HsmNotInitialized).
Definition hsm_health_check (m : HardwareSecurityModule) : HsmStatus :=
  if is_initialized m then hsm_status m else Unhealthy.

Definition hsm_random (m : HardwareSecurityModule) (length : nat) : B bytes :=
  let* _ := check_hsm_health m in random length.
Definition store_key (m : HardwareSecurityModule) (key_id : str) (key_data : bytes) (key_type : str) : B unit :=
  let* _ := check_hsm_health m in store_generic_key (hsm_store_key m) key_id key_type key_data.
Definition retrieve_key (m : HardwareSecurityModule) (key_id : str) : B bytes :=
  let* _ := check_hsm_health m in
  let* found := load_generic_key (hsm_store_key m) key_id in
  match found with
  | Some (_, bytes) => ret bytes
  | None => fail (HsmKeyMissing key_id)
  end.
Definition delete_key (m : HardwareSecurityModule) (key_id : str) : B unit :=
  let* _ := check_hsm_health m in delete_generic_key key_id.

(** ** The engine *)

Record CryptoEngineService := mkService {
  svc_config : CryptoConfig;
  svc_store_key : bytes;
  svc_master_key : option bytes;
  svc_hsm : option HardwareSecurityModule;
}.

(** [CryptoEngine::new]: an empty key cache. *)
Definition crypto_engine_new : B unit :=
  update (fun p => set_memory (set_key_cache ∅ (memory p)) p).

(** [KeyManager::new]: empty tables and a fresh master key, kept in memory. *)
Definition initialize_master_key : B (option bytes) :=
  let* key := random 32 in ret (Some key).
Definition key_manager_new : B (option bytes) :=
  let* _ := update (fun p => set_memory (set_key_tables ∅ ∅ (memory p)) p) in
  initialize_master_key.

(** [QuantumResistantCrypto::new] *)
Definition quantum_new (config : CryptoConfig) : B bytes :=
  let* _ := lift (guard (negb (quantum_enabled config)) QuantumRequired) in
  key_store_open (qc_sealed_store_path (quantum_crypto config)).

Definition service_new (config : CryptoConfig) : B CryptoEngineService :=
  let* _ := crypto_engine_new in
  let* master_key := key_manager_new in
  let* store_key := quantum_new config in
  let* _ := lift (guard (negb monitor_starts) MonitorUnavailable) in
  let* m := (if hsm_enabled config then let* m := hsm_new config in ret (Some m) else ret None) in
  ret (mkService config store_key master_key m).

(** ** Health *)

Definition sign_with_real_dilithium (data private_key_bytes : bytes) : result CryptoError bytes :=
  let! _ := guard (negb (length private_key_bytes =? 32)%nat) InvalidSize in
  Ok (mldsa_sign private_key_bytes data).
Definition verify_real_dilithium_signature (data signature_bytes public_key_bytes : bytes)
    : result CryptoError bool :=
  let! _ := guard (negb (length public_key_bytes =? 1952)%nat) InvalidSize in
  ok_or (mldsa_verify public_key_bytes data signature_bytes) SignatureFormat.

Definition health_message : bytes := #"PRODUCTION quantum-resistant cryptography test".

(** The ages of the keys only go to the log. *)
Definition quantum_health_check (config : CryptoConfig) : M World CryptoError unit :=
  let* _ := lift (guard (negb (quantum_enabled config)) QuantumDisabled) in
  let* mlkem := generate_mlkem_keypair in
  let* mldsa := generate_mldsa_keypair #"health_check" in
  let* (shared_secret, ciphertext) := perform_mlkem_encapsulation (ky_public_key mlkem) in
  let* decapsulated := lift (perform_mlkem_decapsulation ciphertext (ky_private_key mlkem)) in
  let* _ := lift (guard (negb (str_eqb decapsulated shared_secret)) KemFailure) in
  let* signature := lift (sign_with_real_dilithium health_message (di_private_key mldsa)) in
  let* valid := lift (verify_real_dilithium_signature health_message signature (di_public_key mldsa)) in
  lift (guard (negb valid) SignatureFormat).

(** [CryptoEngine::health_check] draws random bytes and fails never. *)
Definition engine_health_check : M World CryptoError unit :=
  let* _ := os_random 32 in ret tt.

Definition health_status {E A} (r : result E A) : str :=
  match r with Ok _ => #"healthy" | _ => #"unhealthy" end.

Definition hsm_health (m : option HardwareSecurityModule) : str :=
  match m with
  | Some m => match hsm_health_check m with Healthy => #"healthy" | Unhealthy => #"unhealthy" end
  | None => #"not_configured"
  end.

(** The key manager's own check compares the sizes of its tables for the log
    and succeeds. *)
Definition service_health_check (svc : CryptoEngineService) : B (gmap str str) :=
  let* engine := attempt (in_memory EngineFailure engine_health_check) in
  let* quantum := attempt (in_memory EngineFailure (quantum_health_check (svc_config svc))) in
  let health := list_to_map [(#"crypto_engine", health_status engine); (#"key_manager", #"healthy");
                             (#"quantum_crypto", health_status quantum); (#"hsm", hsm_health (svc_hsm svc))] in
  let fine v := existsb (str_eqb v) [ #"healthy"; #"operational"; #"not_configured"] in
  let overall := if forallb (fun kv : str * str => fine kv.2) (map_to_list health)
                 then #"healthy" else #"degraded" in
  ret (<[ #"overall" := overall]> health).

(** *** Statistics *)

Definition get_supported_algorithms (config : CryptoConfig) : list str :=
  if quantum_enabled config
  then [ #"kyber512"; #"kyber768"; #"kyber1024"; #"dilithium2"; #"dilithium3"; #"dilithium5"]
  else [].
Definition is_algorithm_supported (config : CryptoConfig) (algorithm : str) : bool :=
  quantum_enabled config && str_in algorithm (get_supported_algorithms config).

Record QuantumCryptoStats := mkStats {
  total_kyber_keys : nat;
  total_dilithium_keys : nat;
  stats_algorithms : list str;
  stats_enabled : bool;
  implementation_type : str;
  nist_compliance : bool;
  secure_post_quantum : bool;
}.
Definition get_crypto_statistics (config : CryptoConfig) : B QuantumCryptoStats :=
  let* kyber_total := look (fun p => size (kyber_keys (memory p))) in
  let* dilithium_total := look (fun p => size (dilithium_keys (memory p))) in
  ret (mkStats kyber_total dilithium_total (get_supported_algorithms config) (quantum_enabled config)
         #"PRODUCTION_PURE_RUST_FIPS203_204" true true).

Definition get_capabilities (m : HardwareSecurityModule) : list str := [ #"random_generation"; #"key_storage"].
Definition get_info (m : HardwareSecurityModule) : gmap str str :=
  list_to_map [(#"type", #"software"); (#"enabled", if hsm_enabled (hsm_config m) then #"true" else #"false");
               (#"status", match hsm_health_check m with Healthy => #"Healthy" | Unhealthy => #"Unhealthy" end);
               (#"capabilities", join #", " (get_capabilities m))].

(** *** Diagnostics *)

Definition load_dilithium_keypair (store_key : bytes) (key_id : str) : M World CryptoError (option DilithiumKeyPair) :=
  load_keypair store_key dilithium_keys key_id.

(** Step 7: a fresh signing key, then a look for it in the key store. *)
Definition dilithium_probe (store_key : bytes) : M World CryptoError (option DilithiumKeyPair) :=
  let* id := new_uuid in
  let diag_key_id := #"__diag_" ++ uuid_to_string id in
  let* _ := generate_mldsa_keypair diag_key_id in
  load_dilithium_keypair store_key diag_key_id.

(** Step 7c: failures are only logged. *)
Definition hsm_probe (m : HardwareSecurityModule) : B unit :=
  let* stored := attempt (F := StartError)
    (store_key m #"__diag_hsm_key__" #"diagnostic_key_material_32bytes!" #"aes256") in
  match stored with
  | Ok _ =>
    let* _ := attempt (F := StartError) (retrieve_key m #"__diag_hsm_key__") in
    let* _ := attempt (F := StartError) (delete_key m #"__diag_hsm_key__") in
    ret tt
  | _ => ret tt
  end.

Definition service_random (svc : CryptoEngineService) (length : nat) : B bytes :=
  match svc_hsm svc with Some m => hsm_random m length | None => random length end.

(** Steps 3, 4 and 6 read the monitor, the key tables and the statistics for
    the log. *)
Definition startup_diagnostics (svc : CryptoEngineService) : B unit :=
  let* _ := service_health_check svc in
  let* bytes := service_random svc 32 in
  let* _ := lift (if (length bytes =? 32)%nat then Ok tt else Panic) in
  let* _ := (match svc_hsm svc with
             | Some m => let* _ := attempt (F := StartError) (hsm_random m 16) in ret tt
             | None => ret tt
             end) in
  let* _ := get_crypto_statistics (svc_config svc) in
  let* _ := in_memory EngineFailure (quantum_health_check (svc_config svc)) in
  let* _ := in_memory EngineFailure (dilithium_probe (svc_store_key svc)) in
  match svc_hsm svc with Some m => hsm_probe m | None => ret tt end.

(** ** The broker *)

Variable env : environment.
Definition env_ok (key : str) : option str := result_ok (env key).

(** A broker that has started, and where its data is. *)
Record Running := mkRunning {
  broker : BrokerState;
  postgres : option PostgresLeaseManager;
  store_path : str;
  engine_path : str;
  log_path : str;
}.

Definition read_file (path : str) : B File :=
  let* found := look (fun p => files p !! path) in
  let* f := lift (ok_or found (Unreadable path)) in
  let* _ := lift (guard (negb (read_ok path)) (Unreadable path)) in
  ret f.

(** The file of the master key is made private to this user. *)
Definition harden (path : str) : B unit :=
  let* found := look (fun p => files p !! path) in
  let* f := lift (ok_or found (Unreadable path)) in
  let* _ := lift (guard (negb (stat_ok path)) (PermissionsUnset path)) in
  if (Z.land (mode f) permission_bits =? owner_only)%Z then ret tt
  else
    let* _ := lift (guard (negb (chmod_ok path)) (PermissionsUnset path)) in
    update (put_file path (mkFile (contents f) owner_only)).

Definition broker_master_key : B bytes :=
  let* path := lift (map_err (fun _ => MasterKeyFileUnset) (env #"BROKER_MASTER_KEY_FILE")) in
  let* f := read_file path in
  let* _ := lift (guard (negb (length (contents f) =? 32)%nat) (MasterKeyLength (length (contents f)))) in
  let* _ := harden path in
  ret (contents f).

(** [TransparencyLogger::new]: the file is created where there is none, and a
    file that cannot be read starts a new chain. *)
Definition transparency_open (path : str) : B TransparencyLogger :=
  let* _ := create_parent path in
  let* found := look (fun p => files p !! path) in
  let* _ := lift (guard (negb (write_ok path)) (Unwritable path)) in
  let* _ := (match found with Some _ => ret tt | None => update (put_file path (mkFile [] default_mode)) end) in
  let text := default [] (contents <$> found) in
  let* l := lift (if read_ok path then map_err LogUnusable (logger_new (Some text))
                  else Ok (mkLogger 0 GENESIS_HASH text)) in
  let* _ := update (fun p => set_memory (set_logger (Some l) (memory p)) p) in
  ret l.

(** [PostgresLeaseManager::from_env] *)
Definition postgres_from_env (max_handle_ttl : duration) : B (option PostgresLeaseManager) :=
  let* fs := look files in
  let read path := f ← fs !! path; if read_ok path then from_utf8 (contents f) else None in
  let* config := lift (map_err PostgresFailure (pg_config_from_env env_ok read max_handle_ttl)) in
  match config with
  | None => ret None
  | Some config =>
    let* _ := lift (guard (negb (postgres_connects (admin_url config))) (PostgresFailure ConnectFailed)) in
    let* m := lift (map_err PostgresFailure (manager_new config)) in
    ret (Some m)
  end.

Definition broker_sled_path : str :=
  default #"/var/lib/secret-broker/broker.sled" (env_ok #"BROKER_SLED_PATH").
Definition broker_log_path : str :=
  default #"/var/log/secret-broker/broker-transparency.jsonl" (env_ok #"BROKER_TRANSPARENCY_LOG").

Definition load_broker_from_env (require_attested_discharge_mint : bool) : B Running :=
  let* master_key_bytes := broker_master_key in
  let sled_path := broker_sled_path in
  let transparency_path := broker_log_path in
  let* _ := create_parent sled_path in
  let* store_cipher := sealed_store_open sled_path in
  let* _ := lift (guard (negb (chmod_ok sled_path)) (PermissionsUnset sled_path)) in
  let* _ := transparency_open transparency_path in
  let handle_hmac_key := derive_handle_hmac_key master_key_bytes in
  let crypto_config := from_env env_ok in
  let* _ := lift (map_err ConfigInvalid (validate crypto_config)) in
  let* crypto := service_new crypto_config in
  let* _ := startup_diagnostics crypto in
  let max_handle_ttl := hours (24 * 365) in
  let* pg := postgres_from_env max_handle_ttl in
  let state := broker_new crypto_config (svc_store_key crypto) (svc_master_key crypto) store_cipher #"default"
                 max_handle_ttl handle_hmac_key (hours 24) in
  let state := configure_discharge_policy state require_attested_discharge_mint
                 (env_csv (env_ok #"BROKER_DISCHARGE_PRINCIPAL_ALLOWLIST")) in
  ret (mkRunning state pg sled_path (qc_sealed_store_path (quantum_crypto crypto_config)) transparency_path).

(** The end of the process: every write was flushed, so the disk has the trees
    and the log as they are; the rest is gone. *)
Definition stop (r : Running) (p : Process) : Process :=
  let w := memory p in
  let db path := default no_database (databases p !! path) in
  let store := db (store_path r) in
  let engine := db (engine_path r) in
  let log := match files p !! log_path r, logger w with
             | Some f, Some l => <[log_path r := mkFile (file l) (mode f)]> (files p)
             | _, _ => files p
             end in
  mkProcess
    (<[store_path r := mkDatabase (envelopes w) (db_kyber store) (db_dilithium store) (db_generic store)]>
     (<[engine_path r := mkDatabase (db_envelopes engine) (kyber_keys w) (dilithium_keys w) (generic_keys p)]>
      (databases p)))
    log ∅ ∅ (mkWorld (tick w) ∅ ∅ ∅ ∅ ∅ ∅ None).

End Startup.

(** * Properties *)

(** Only time has passed. *)
Definition idle (w w' : World) : Prop := exists n, w' = Nat.iter n advance w.

#[export] Instance idle_preorder : PreOrder idle.
Proof.
  split; [by exists 0|]. intros w1 w2 w3 [n ->] [m ->]. exists (m + n). by rewrite Nat.iter_add.
Qed.

Lemma idle_same w w' : idle w w' ->
  tick w <= tick w' /\ envelopes w' = envelopes w /\ kyber_keys w' = kyber_keys w
  /\ dilithium_keys w' = dilithium_keys w /\ key_pairs w' = key_pairs w /\ key_metadata w' = key_metadata w
  /\ key_cache w' = key_cache w /\ logger w' = logger w.
Proof.
  intros [n ->]. induction n as [|n (IH & ? & ? & ? & ? & ? & ? & ?)]; [done|].
  change (Nat.iter (S n) advance w) with (advance (Nat.iter n advance w)).
  split; [cbn [tick advance]; lia|]. by repeat split.
Qed.

Definition file_at (p : Process) (path : str) : option bytes := contents <$> (files p !! path).

(** The databases on disk stay as they are, files keep their contents, and what
    is open stays open. *)
Record keeps (p p' : Process) : Prop := {
  keeps_databases : databases p' = databases p;
  keeps_files path c : file_at p path = Some c -> file_at p' path = Some c;
  keeps_open : open_dbs p ⊆ open_dbs p';
}.

#[export] Instance keeps_preorder : PreOrder keeps.
Proof.
  split; [done|]. intros p1 p2 p3 [D1 F1 O1] [D2 F2 O2].
  split; [congruence|auto|set_solver].
Qed.

(** The trees the process has open stay as they are, and so do its tables. *)
Record trees_kept (p p' : Process) : Prop := {
  kept_memory : idle (memory p) (memory p');
  kept_generic : generic_keys p' = generic_keys p;
}.
#[export] Instance trees_kept_preorder : PreOrder trees_kept.
Proof. split; [done|]. intros p1 p2 p3 [M1 G1] [M2 G2]. split; [by etransitivity|congruence]. Qed.

Section StartupLaws.
Context `{TextCodecsLaws} `{HashesLaws} `{JsonText} `{AeadLaws} `{PqCryptoLaws} `{OracleLaws} `{Urls} `{PlatformLaws}.
Context `{!Serde KyberKeyPair} `{!Serde DilithiumKeyPair} `{!Serde KeyRecord}.

(** ** Frames *)

Lemma zoom_frames {E A} (R : World -> World -> Prop) (R' : Process -> Process -> Prop) (m : M World E A) :
  (forall p w, R (memory p) w -> R' p (set_memory w p)) -> frames R m -> frames R' (zoom memory set_memory m).
Proof. intros HR Hm p. unfold zoom. specialize (Hm (memory p)). destruct (m (memory p)). by apply HR. Qed.

Lemma attempt_state {S E F A} (m : M S E A) s : (attempt (F := F) m s).2 = (m s).2.
Proof. unfold attempt. by destruct (m s) as [[]]. Qed.
Lemma attempt_frames {S E F A} (R : S -> S -> Prop) (m : M S E A) : frames R m -> frames R (attempt (F := F) m).
Proof. intros Hm s. rewrite attempt_state. apply Hm. Qed.

Lemma idle_interact {E A} (f : nat -> A) : frames (E := E) idle (interact f).
Proof. intros w. by exists 1. Qed.

Lemma idle_kept p w : idle (memory p) w -> trees_kept p (set_memory w p).
Proof. by split. Qed.
Lemma keeps_memory p w : keeps p (set_memory w p).
Proof. done. Qed.
Lemma keeps_world {E A} (m : M World E A) : frames keeps (zoom memory set_memory m).
Proof. apply (zoom_frames (fun _ _ => True)); [|done]. intros p w _. apply keeps_memory. Qed.
Lemma kept_world {E A} (m : M World E A) : frames idle m -> frames trees_kept (zoom memory set_memory m).
Proof. apply zoom_frames, idle_kept. Qed.

Lemma keeps_put path f p :
  (forall f0, files p !! path = Some f0 -> contents f = contents f0) -> keeps p (put_file path f p).
Proof.
  intros Hc. split; [done| |done]. unfold file_at. intros path' c Hp. cbn [files put_file].
  destruct (decide (path = path')) as [<-|]; [|by rewrite lookup_insert_ne].
  rewrite lookup_insert_eq. destruct (files p !! path) as [f0|] eqn:E; [|done]. cbn in *. by rewrite (Hc f0).
Qed.
Lemma keeps_lock path p : keeps p (lock_db path p).
Proof. split; [done..|]. cbn. set_solver. Qed.

End StartupLaws.

(** Follow the code, and keep what every step keeps. *)
Ltac frame_step :=
  match goal with
  | |- frames _ (bind _ _) => apply frames_bind; [typeclasses eauto| |intros ?]
  | |- frames _ (lift _) => apply frames_lift; typeclasses eauto
  | |- frames _ (ret _) => apply frames_ret; typeclasses eauto
  | |- frames _ (fail _) => apply frames_fail; typeclasses eauto
  | |- frames _ (map_err_m _ _) => apply frames_map_err
  | |- frames _ (attempt _) => apply attempt_frames
  | |- frames idle (interact _) => apply idle_interact
  | |- frames keeps (zoom memory set_memory _) => apply keeps_world
  | |- frames trees_kept (zoom memory set_memory _) => apply kept_world
  | |- frames _ (look _) => intros ?; reflexivity
  | |- frames _ (gets _) => intros ?; reflexivity
  | |- frames _ (match ?x with _ => _ end) => destruct x
  | |- frames _ (let '_ := ?x in _) => destruct x
  end.
Ltac frame_run := repeat frame_step.

Section Starting.
Context `{TextCodecsLaws} `{HashesLaws} `{JsonText} `{AeadLaws} `{PqCryptoLaws} `{OracleLaws} `{Urls} `{PlatformLaws}.
Context `{!Serde KyberKeyPair} `{!Serde DilithiumKeyPair} `{!Serde KeyRecord}.

Lemma frames_run {S E A} (R : S -> S -> Prop) (m : M S E A) s a s' : frames R m -> m s = (Ok a, s') -> R s s'.
Proof. intros Hf Hm. specialize (Hf s). by rewrite Hm in Hf. Qed.

(** ** What every part keeps *)

Lemma keeps_update (f : Process -> Process) : (forall p, keeps p (f p)) -> frames keeps (update f).
Proof. intros Hf p. apply Hf. Qed.

Lemma keeps_open_tree path tree : frames keeps (open_tree path tree).
Proof. unfold open_tree. frame_run. Qed.
Lemma keeps_parent path : frames keeps (create_parent path).
Proof. unfold create_parent. frame_run. Qed.
Lemma keeps_sled path : frames keeps (sled_open path).
Proof. unfold sled_open. frame_run. apply keeps_update, keeps_lock. Qed.

Lemma keeps_load_key new_mode path : frames keeps (load_or_create_key new_mode path).
Proof.
  intros p. unfold load_or_create_key. unfold bind at 1. cbn [look]. destruct (files p !! path) as [f|] eqn:E.
  - match goal with |- keeps p (?m p).2 => enough (frames keeps m) as Hf by apply Hf end. frame_run.
  - unfold bind, random, lift, update. cbn. destruct (negb (write_ok path)); cbn; [done|].
    transitivity (set_memory (advance (memory p)) p); [done|]. apply keeps_put. cbn. by rewrite E.
Qed.

Lemma keeps_key_store path : frames keeps (key_store_open path).
Proof.
  unfold key_store_open, key_store_master_key. frame_run;
    [apply keeps_parent|apply keeps_sled|apply keeps_open_tree..|apply keeps_load_key|by apply keeps_update].
Qed.

(** ** Opening *)

Definition database_at (p : Process) (path : str) : Database := default no_database (databases p !! path).

Lemma sled_open_inv path p db p' :
  sled_open path p = (Ok db, p') -> (path ∉ open_dbs p) /\ p' = lock_db path p /\ db = database_at p path.
Proof.
  unfold sled_open. intros E. monad_inv. unfold look, update in *. simplify_eq/=. bool_to_prop.
  split; [by apply sled_exclusive|done].
Qed.

Lemma load_key_inv new_mode path p key p' :
  load_or_create_key new_mode path p = (Ok key, p') ->
  length key = 32 /\ file_at p' path = Some key
  /\ databases p' = databases p /\ open_dbs p' = open_dbs p /\ trees_kept p p'.
Proof.
  unfold load_or_create_key. intros E. apply bind_ok in E as (found & p1 & Hl & E). unfold look in Hl.
  injection Hl as <- <-. destruct (files p !! path) as [f|] eqn:Ef; monad_inv.
  - bool_to_prop. split; [by repeat match goal with Hx : (_ =? _)%nat = true |- _ => apply Nat.eqb_eq in Hx end|].
    unfold file_at. by rewrite Ef.
  - unfold random, zoom, update in *. simplify_eq/=. split; [apply random_length|].
    split; [unfold file_at; cbn; by rewrite lookup_insert_eq|]. split; [done|]. split; [done|]. split; [by exists 1|done].
Qed.

(** What is open after opening the key store, and with which key. *)
Lemma key_store_inv path p key p' :
  key_store_open path p = (Ok key, p') ->
  (path ∉ open_dbs p) /\ open_dbs p' = {[path]} ∪ open_dbs p
  /\ file_at p' (master_key_path #"sealed_keys.master" path) = Some key /\ length key = 32
  /\ generic_keys p' = db_generic (database_at p path)
  /\ exists w, idle (memory p) w
       /\ memory p' = set_kyber_keys (db_kyber (database_at p path))
                        (set_dilithium_keys (db_dilithium (database_at p path)) w).
Proof.
  unfold key_store_open, open_tree. intros E.
  apply bind_ok in E as ([] & p1 & Hp & E). assert (p1 = p) as ->
    by (unfold create_parent in Hp; destruct (path_parent path); by monad_inv).
  apply bind_ok in E as (db & p2 & Hs & E). apply sled_open_inv in Hs as (Hn & -> & ->). monad_inv.
  match goal with Hk : key_store_master_key _ _ = _ |- _ => apply load_key_inv in Hk as (Hlen & Hf & _ & Ho & [Hi _]) end.
  unfold update in *. simplify_eq/=. do 5 (split; [done|]).
  by eexists.
Qed.

Lemma sealed_store_inv path p key p' :
  sealed_store_open path p = (Ok key, p') ->
  (path ∉ open_dbs p) /\ open_dbs p' = {[path]} ∪ open_dbs p
  /\ file_at p' (master_key_path #"sealed_envelopes.master" path) = Some key /\ length key = 32
  /\ databases p' = databases p /\ keeps p p'
  /\ envelopes (memory p') = db_envelopes (database_at p path) /\ tick (memory p) <= tick (memory p').
Proof.
  unfold sealed_store_open, open_tree. intros E.
  apply bind_ok in E as ([] & p1 & Hp & E). assert (p1 = p) as ->
    by (unfold create_parent in Hp; destruct (path_parent path); by monad_inv).
  apply bind_ok in E as (db & p2 & Hs & E). apply sled_open_inv in Hs as (Hn & -> & ->). monad_inv.
  match goal with Hk : load_or_create_master_key _ _ = _ |- _ =>
    pose proof (frames_run _ _ _ _ _ (keeps_load_key _ _) Hk);
    apply load_key_inv in Hk as (Hlen & Hf & Hd & Ho & [Hi _]) end.
  unfold update in *. simplify_eq/=. do 5 (split; [done|]). split; [|split; [done|]].
  - transitivity (lock_db path p); [apply keeps_lock|]. by etransitivity.
  - by apply idle_same in Hi as (Ht & _).
Qed.

(** ** The engine *)

(** A fresh engine's memory *)
Definition cleared (w : World) : World := set_key_tables ∅ ∅ (set_key_cache ∅ w).

Lemma service_new_inv config p svc p' :
  service_new config p = (Ok svc, p') ->
  let path := qc_sealed_store_path (quantum_crypto config) in
  (path ∉ open_dbs p) /\ hsm_enabled config = false /\ svc_hsm svc = None /\ svc_config svc = config
  /\ quantum_enabled config = true /\ keeps p p'
  /\ file_at p' (master_key_path #"sealed_keys.master" path) = Some (svc_store_key svc) /\ length (svc_store_key svc) = 32
  /\ generic_keys p' = db_generic (database_at p path)
  /\ exists w, idle (cleared (memory p)) w
       /\ memory p' = set_kyber_keys (db_kyber (database_at p path))
                        (set_dilithium_keys (db_dilithium (database_at p path)) w).
Proof.
  intros E path. unfold service_new in E. apply bind_ok in E as ([] & p1 & Hc & E). unfold crypto_engine_new, update in Hc. injection Hc as <-.
  apply bind_ok in E as (mk & p2 & Hm & E). unfold key_manager_new, initialize_master_key in Hm. monad_inv.
  unfold update, random, zoom in *. simplify_eq/=.
  match goal with Hx : quantum_new _ ?q = (Ok _, _) |- _ => rename Hx into Hq; set (p2' := q) in * end.
  unfold quantum_new in Hq. monad_inv. bool_to_prop.
  match goal with Hk : key_store_open _ _ = _ |- _ => rename Hk into Hks end.
  pose proof (frames_run _ _ _ _ _ (keeps_key_store _) Hks) as Hkeep.
  apply key_store_inv in Hks as (Hn & Ho & Hf & Hlen & Hg & w & Hi & Hw).
  destruct (hsm_enabled config) eqn:Eh; monad_inv.
  - exfalso. match goal with Hx : hsm_new _ _ = _ |- _ => unfold hsm_new in Hx end. monad_inv.
    match goal with Hk : key_store_open _ _ = _ |- _ => apply key_store_inv in Hk as (Hn' & _) end.
    apply Hn'. rewrite Ho. set_solver.
  - unfold ret in *. simplify_eq/=. do 5 (split; [done|]).
    split; [by transitivity p2'|]. do 3 (split; [done|]). exists w. split; [|done].
    transitivity (memory p2'); [|done]. by exists 1.
Qed.

(** ** Diagnostics *)

Lemma idle_quantum_check config : frames idle (quantum_health_check config).
Proof.
  unfold quantum_health_check, generate_mlkem_keypair, generate_mldsa_keypair, perform_mlkem_encapsulation,
    os_random, new_uuid, utc_now. frame_run.
Qed.
Lemma idle_probe store_key : frames idle (dilithium_probe store_key).
Proof.
  unfold dilithium_probe, load_dilithium_keypair, load_keypair, generate_mldsa_keypair, os_random, new_uuid, utc_now.
  frame_run.
Qed.

Lemma diagnostics_keep svc :
  svc_hsm svc = None -> frames trees_kept (startup_diagnostics svc) /\ frames keeps (startup_diagnostics svc).
Proof.
  intros Hn. unfold startup_diagnostics, service_health_check, service_random, get_crypto_statistics, random,
    engine_health_check, os_random, in_memory. rewrite Hn. split; frame_run; auto using idle_quantum_check, idle_probe.
Qed.

(** ** The broker *)

Variable env : environment.

Abbreviation engine_config := (from_env (env_ok env)).
Abbreviation engine_db := (qc_sealed_store_path (quantum_crypto engine_config)).
Abbreviation store_key_file := (master_key_path #"sealed_envelopes.master" (broker_sled_path env)).
Abbreviation engine_key_file := (master_key_path #"sealed_keys.master" engine_db).

(** The state the handlers run on, by the keys it is made of. *)
Definition broker_with (attested : bool) (master store_cipher engine_key : bytes) (manager_key : option bytes)
    : BrokerState :=
  configure_discharge_policy
    (broker_new engine_config engine_key manager_key store_cipher #"default" (hours (24 * 365))
       (derive_handle_hmac_key master) (hours 24))
    attested (env_csv (env_ok env #"BROKER_DISCHARGE_PRINCIPAL_ALLOWLIST")).

(** What a successful start has done. *)
Record started (attested : bool) (p : Process) (r : Running) (p' : Process) : Prop := {
  started_store : store_path r = broker_sled_path env;
  started_engine : engine_path r = engine_db;
  started_log : log_path r = broker_log_path env;
  started_distinct : broker_sled_path env <> engine_db;
  started_hsm : hsm_enabled engine_config = false;
  started_keeps : keeps p p';
  started_tick : tick (memory p) <= tick (memory p');
  started_envelopes : envelopes (memory p') = db_envelopes (database_at p (broker_sled_path env));
  started_kyber : kyber_keys (memory p') = db_kyber (database_at p engine_db);
  started_dilithium : dilithium_keys (memory p') = db_dilithium (database_at p engine_db);
  started_generic : generic_keys p' = db_generic (database_at p engine_db);
  started_tables : key_pairs (memory p') = ∅ /\ key_metadata (memory p') = ∅ /\ key_cache (memory p') = ∅;
  started_keys : exists path master store_cipher engine_key manager_key,
    env #"BROKER_MASTER_KEY_FILE" = Ok path /\ file_at p path = Some master
    /\ file_at p' store_key_file = Some store_cipher /\ file_at p' engine_key_file = Some engine_key
    /\ length master = 32 /\ length store_cipher = 32 /\ length engine_key = 32
    /\ broker r = broker_with attested master store_cipher engine_key manager_key;
  started_logger : exists l, logger (memory p') = Some l /\ file_at p' (broker_log_path env) = Some (file l)
    /\ (read_ok (broker_log_path env) = true -> logger_new (Some (file l)) = Ok l);
}.

Lemma keeps_harden path : frames keeps (harden path).
Proof.
  intros p. unfold harden. unfold bind at 1. cbn [look]. destruct (files p !! path) as [f|] eqn:E; [|done].
  unfold bind, lift, update. cbn. destruct (negb (stat_ok path)); [done|]. cbn.
  destruct (_ =? _)%Z; [done|]. destruct (negb (chmod_ok path)); cbn; [done|].
  apply keeps_put. intros f0. rewrite E. by intros [= <-].
Qed.

Lemma harden_inv path p u p' : harden path p = (Ok u, p') -> memory p' = memory p /\ open_dbs p' = open_dbs p.
Proof.
  unfold harden, look, update, bind, lift. destruct (files p !! path); [|done]. cbn.
  destruct (negb (stat_ok path)); [done|]. cbn. destruct (_ =? _)%Z; [by intros [= _ <-]|].
  destruct (negb (chmod_ok path)); [done|]. cbn. by intros [= _ <-].
Qed.
Lemma read_file_inv path p f p' : read_file path p = (Ok f, p') -> p' = p /\ files p !! path = Some f.
Proof.
  unfold read_file, look, bind, lift, ret. destruct (files p !! path); [|done]. cbn.
  destruct (negb (read_ok path)); [done|]. cbn. by intros [= <- <-].
Qed.

Lemma master_key_inv p master p' :
  broker_master_key env p = (Ok master, p') ->
  keeps p p' /\ memory p' = memory p /\ open_dbs p' = open_dbs p
  /\ length master = 32 /\ exists path, env #"BROKER_MASTER_KEY_FILE" = Ok path /\ file_at p path = Some master.
Proof.
  unfold broker_master_key. intros E. apply bind_ok in E as (path & p0 & He & E). monad_inv.
  match goal with Hx : read_file _ _ = _ |- _ => apply read_file_inv in Hx as [-> Hf] end.
  match goal with Hx : harden _ _ = _ |- _ => rename Hx into Hh end.
  split; [by eapply frames_run, Hh; apply keeps_harden|].
  apply harden_inv in Hh as [-> ->]. do 2 (split; [done|]). bool_to_prop.
  split; [by repeat match goal with Hx : (_ =? _)%nat = true |- _ => apply Nat.eqb_eq in Hx end|]. eexists. split; [done|]. unfold file_at. by rewrite Hf.
Qed.

Lemma transparency_inv path p l p' :
  transparency_open path p = (Ok l, p') ->
  keeps p p' /\ memory p' = set_logger (Some l) (memory p) /\ open_dbs p' = open_dbs p
  /\ file_at p' path = Some (file l) /\ (read_ok path = true -> logger_new (Some (file l)) = Ok l).
Proof.
  unfold transparency_open. intros E. apply bind_ok in E as ([] & p1 & Hp & E). assert (p1 = p) as ->
    by (unfold create_parent in Hp; destruct (path_parent path); by monad_inv).
  apply bind_ok in E as (found & p1 & Hl & E). unfold look in Hl. injection Hl as <- <-.
  apply bind_ok in E as ([] & p1 & Hg & E). assert (p1 = p) as -> by (by monad_inv).
  apply bind_ok in E as ([] & p2 & Hn & E). set (text := default [] (contents <$> (files p !! path))) in *.
  apply bind_ok in E as (l' & p3 & Hl & E). unfold lift in Hl. injection Hl as Hl <-.
  unfold bind, update, ret in E. injection E as -> <-.
  assert (file l = text /\ (read_ok path = true -> logger_new (Some text) = Ok l)) as [-> Hnew].
  { destruct (read_ok path); [|by simplify_eq/=]. apply map_err_ok in Hl. split; [|done].
    unfold logger_new in Hl. apply rbind_ok in Hl as ([seq hash] & _ & Hl). by injection Hl as <-. }
  destruct (files p !! path) as [f|] eqn:Ef; unfold ret in Hn; simplify_eq/=.
  - split; [done|]. split; [done|]. split; [done|]. split; [|done]. unfold file_at. cbn. by rewrite Ef.
  - unfold update in Hn. injection Hn as <-.
    split; [transitivity (put_file path (mkFile [] default_mode) p); [apply keeps_put; by rewrite Ef|done]|].
    split; [done|]. split; [done|]. split; [|done]. unfold file_at. cbn. by rewrite lookup_insert_eq.
Qed.

Lemma postgres_inv ttl p o p' : postgres_from_env env ttl p = (Ok o, p') -> p' = p.
Proof.
  unfold postgres_from_env, look, bind, lift, ret. destruct (map_err _ _) as [[c|]| |]; cbn; [|by intros [= _ <-]|done..].
  destruct (guard _ _); [|done..]. destruct (map_err _ _); [by intros [= _ <-]|done..].
Qed.

Lemma start_inv attested p r p' : load_broker_from_env env attested p = (Ok r, p') -> started attested p r p'.
Proof.
  unfold load_broker_from_env. intros E.
  apply bind_ok in E as (master & p1 & Hm & E). apply master_key_inv in Hm as (K1 & W1 & O1 & L1 & path & He & Hf).
  apply bind_ok in E as ([] & p2 & Hp & E). assert (p2 = p1) as ->
    by (unfold create_parent in Hp; destruct (path_parent _); by monad_inv).
  apply bind_ok in E as (sc & p3 & Hs & E). apply sealed_store_inv in Hs as (_ & O3 & F3 & L3 & D3 & K3 & E3 & T3).
  apply bind_ok in E as ([] & p4 & Hc & E). assert (p4 = p3) as -> by (by monad_inv).
  apply bind_ok in E as (l & p5 & Ht & E). apply transparency_inv in Ht as (K5 & W5 & O5 & F5 & L5).
  apply bind_ok in E as ([] & p6 & Hv & E). assert (p6 = p5) as -> by (by monad_inv).
  apply bind_ok in E as (svc & p7 & Hsvc & E).
  apply service_new_inv in Hsvc as (N7 & Hh & Hn & Hsc & _ & K7 & F7 & Y7 & G7 & w & I7 & W7).
  apply bind_ok in E as ([] & p8 & Hd & E). destruct (diagnostics_keep svc Hn) as [Ft Fk].
  pose proof (frames_run _ _ _ _ _ Fk Hd) as K8. apply (frames_run _ _ _ _ _ Ft) in Hd as [I8 G8].
  apply bind_ok in E as (pg & p9 & Hpg & E). apply postgres_inv in Hpg as ->. injection E as <- <-.
  assert (D7 : forall q, database_at p5 q = database_at p q).
  { intros q. unfold database_at. by rewrite (keeps_databases _ _ K5), D3, (keeps_databases _ _ K1). }
  apply idle_same in I7 as (T7 & A7 & _ & _ & P7 & M7 & C7 & L7).
  apply idle_same in I8 as (T8 & A8 & Y8 & Z8 & P8 & M8 & C8 & L8).
  rewrite W7 in T8, A8, Y8, Z8, P8, M8, C8, L8. rewrite W5 in T7, A7, P7, M7, C7, L7. rewrite W1 in T3.
  cbn in T7, A7, P7, M7, C7, L7, T8, A8, Y8, Z8, P8, M8, C8, L8.
  assert (keeps p p8) as K by (by repeat (etransitivity; [eassumption|])).
  split; cbn [store_path engine_path log_path broker]; try done.
  - intros Heq. apply N7. rewrite O5, O3, Heq. set_solver.
  - lia.
  - rewrite A8, A7, E3. unfold database_at. by rewrite (keeps_databases _ _ K1).
  - by rewrite Y8, D7.
  - by rewrite Z8, D7.
  - by rewrite G8, G7, D7.
  - by rewrite P8, P7, M8, M7, C8, C7.
  - eexists path, master, sc, _, _. split; [done|]. split; [done|]. repeat split.
    + apply (keeps_files _ _ K8), (keeps_files _ _ K7), (keeps_files _ _ K5), F3.
    + apply (keeps_files _ _ K8). exact F7.
    + exact L1.
    + exact L3.
    + exact Y7.
  - exists l. split; [congruence|]. split; [|done]. by apply (keeps_files _ _ K8), (keeps_files _ _ K7).
Qed.

(** With the security module enabled the broker never starts: the module
    opens the database that the post-quantum engine already has open. *)
Theorem hsm_never_starts attested p r p' :
  env #"CRYPTO_ENGINE_HSM_ENABLED" = Ok #"true" -> load_broker_from_env env attested p <> (Ok r, p').
Proof.
  intros He Hs%start_inv. pose proof (started_hsm _ _ _ _ Hs) as Hh. unfold hsm_enabled, from_env in Hh.
  cbn [hsm hsm_enabled_] in Hh. unfold env_bool, env_ok in Hh. by rewrite He in Hh.
Qed.

(** ** Starting again *)

Definition succeeds {S E A} (m : M S E A) (s : S) : Prop := exists a s', m s = (Ok a, s').

Lemma succeeds_bind {S E A B} (m : M S E A) (k : A -> M S E B) s :
  succeeds m s -> (forall a s', m s = (Ok a, s') -> succeeds (k a) s') -> succeeds (bind m k) s.
Proof.
  intros (a & s' & Hm) Hk. destruct (Hk a s' Hm) as (b & s2 & Hb). exists b, s2. by rewrite (bind_run _ _ _ _ _ Hm).
Qed.
Lemma succeeds_ret {S E A} (a : A) (s : S) : succeeds (E := E) (ret a) s.
Proof. by exists a, s. Qed.
Lemma succeeds_lift {S E A} (r : result E A) a (s : S) : r = Ok a -> succeeds (lift r) s.
Proof. intros ->. by exists a, s. Qed.
Lemma succeeds_guard {S E} bad (e : E) (s : S) : bad = false -> succeeds (lift (guard bad e)) s.
Proof. intros ->. by exists tt, s. Qed.
Lemma succeeds_zoom {F E A} (f : E -> F) (m : M World E A) (p : Process) :
  succeeds m (memory p) -> succeeds (map_err_m f (zoom memory set_memory m)) p.
Proof. intros (a & w & Hm). exists a, (set_memory w p). unfold map_err_m, zoom. by rewrite Hm. Qed.
Lemma succeeds_attempt {S E F A} (m : M S E A) s : (m s).1 <> Panic -> succeeds (attempt (F := F) m) s.
Proof. unfold succeeds, attempt. destruct (m s) as [[a|e|] s']; [by eexists _, _..|done]. Qed.

Lemma parent_succeeds path p :
  (forall parent, path_parent path = Some parent -> mkdir_ok parent = true) -> succeeds (create_parent path) p.
Proof.
  intros Hd. unfold create_parent. destruct (path_parent path) as [parent|] eqn:E; [|apply succeeds_ret].
  apply succeeds_guard. by rewrite (Hd parent).
Qed.

Lemma sled_succeeds path p : sled_opens (open_dbs p) path = true -> succeeds (sled_open path) p.
Proof. intros Ho. eexists _, _. unfold sled_open, look, bind, lift. rewrite Ho. reflexivity. Qed.

(** A key file that can be used. *)
Definition usable (p : Process) (path : str) : Prop :=
  read_ok path = true /\ exists key, file_at p path = Some key /\ length key = 32.

Lemma usable_keeps p p' path : keeps p p' -> usable p path -> usable p' path.
Proof. intros K (Hr & key & Hk & Hl). split; [done|]. exists key. split; [|done]. by apply (keeps_files _ _ K). Qed.

Lemma load_key_succeeds new_mode path p : usable p path -> succeeds (load_or_create_key new_mode path) p.
Proof.
  intros (Hr & key & Hk & Hl). unfold file_at in Hk. destruct (files p !! path) as [f|] eqn:Ef; [|done].
  injection Hk as <-. eexists _, _. unfold load_or_create_key, look, bind, lift.
  rewrite Ef, Hr, Hl. reflexivity.
Qed.

(** What the machine and the environment must provide. *)
Record hosted : Prop := {
  host_master : exists path, env #"BROKER_MASTER_KEY_FILE" = Ok path
    /\ read_ok path = true /\ stat_ok path = true /\ chmod_ok path = true;
  host_dirs path parent : path ∈ [broker_sled_path env; broker_log_path env; engine_db] ->
    path_parent path = Some parent -> mkdir_ok parent = true;
  host_store : sled_opens ∅ (broker_sled_path env) = true
    /\ tree_opens (broker_sled_path env) #"sealed_envelopes" = true
    /\ chmod_ok (broker_sled_path env) = true;
  host_engine : sled_opens {[broker_sled_path env]} engine_db = true
    /\ forall tree, tree ∈ [ #"kyber_keys"; #"dilithium_keys"; #"generic_keys"] -> tree_opens engine_db tree = true;
  host_log : write_ok (broker_log_path env) = true;
  host_config : validate engine_config = Ok tt;
  host_hsm : hsm_enabled engine_config = false;
  host_monitor : monitor_starts = true;
  host_postgres : env_ok env #"SECRET_BROKER_POSTGRES_ADMIN_URL" = None;
}.

(** And what the disk must have. *)
Record bootable (p : Process) : Prop := {
  boot_closed : open_dbs p = ∅;
  boot_master path : env #"BROKER_MASTER_KEY_FILE" = Ok path -> exists key, file_at p path = Some key /\ length key = 32;
  boot_store : usable p store_key_file;
  boot_engine : usable p engine_key_file;
  boot_log : exists text l, file_at p (broker_log_path env) = Some text /\ logger_new (Some text) = Ok l;
  boot_probe u : db_dilithium (database_at p engine_db) !! (#"__diag_" ++ uuid_to_string u) = None;
}.

Lemma quantum_check_succeeds config w : quantum_enabled config = true -> succeeds (quantum_health_check config) w.
Proof.
  intros Hq. unfold succeeds, quantum_health_check, generate_mlkem_keypair, generate_mldsa_keypair, perform_mlkem_encapsulation,
    os_random, new_uuid, utc_now, interact, bind, lift, ret. rewrite Hq. cbn [negb guard]. cbn beta iota.
  match goal with |- context [mlkem_keygen ?r] => destruct (mlkem_keygen r) as [ek dk] eqn:Ek end.
  match type of Ek with mlkem_keygen ?r = _ => pose proof (mlkem_sizes r) as [He Hd] end.
  rewrite Ek in He, Hd. cbn [fst snd] in He, Hd. cbn [ky_public_key ky_private_key di_public_key di_private_key].
  rewrite He. cbn [Nat.eqb negb guard].
  match goal with |- context [mlkem_encaps ek ?r'] =>
    match type of Ek with mlkem_keygen ?r = _ => destruct (mlkem_correct r r') as (ss & ct & Hen & Hde & _ & Hct) end end.
  rewrite Ek in Hen, Hde. cbn [fst snd] in Hen, Hde. rewrite Hen. cbn [ok_or].
  unfold perform_mlkem_decapsulation. rewrite Hd, Hct, Hde. cbn [Nat.eqb negb guard rbind ok_or].
  rewrite str_eqb_refl. cbn [negb guard]. unfold sign_with_real_dilithium, verify_real_dilithium_signature.
  rewrite random_length. cbn [Nat.eqb negb guard rbind]. rewrite mldsa_public_size. cbn [Nat.eqb negb guard rbind].
  rewrite mldsa_correct. by eexists _, _.
Qed.

Lemma probe_succeeds store_key w :
  (forall u, dilithium_keys w !! (#"__diag_" ++ uuid_to_string u) = None) -> succeeds (dilithium_probe store_key) w.
Proof.
  intros Hn. eexists None, _. unfold dilithium_probe, generate_mldsa_keypair, load_dilithium_keypair, load_keypair,
    os_random, new_uuid, utc_now, interact, gets, bind, ret. cbn [advance dilithium_keys]. by rewrite Hn.
Qed.

Lemma diagnostics_succeed svc p :
  svc_hsm svc = None -> quantum_enabled (svc_config svc) = true ->
  (forall u, dilithium_keys (memory p) !! (#"__diag_" ++ uuid_to_string u) = None) ->
  succeeds (startup_diagnostics svc) p.
Proof.
  intros Hh Hq Hn. unfold startup_diagnostics, service_random. rewrite Hh.
  assert (Hhealth : succeeds (service_health_check svc) p).
  { unfold service_health_check. apply succeeds_bind; [by apply succeeds_attempt|]. intros e p1 _.
    apply succeeds_bind; [|intros; apply succeeds_ret]. apply succeeds_attempt.
    destruct (succeeds_zoom EngineFailure _ p1 (quantum_check_succeeds _ (memory p1) Hq)) as (a & p2 & E).
    unfold in_memory. by rewrite E. }
  assert (Hkept : forall p', trees_kept p p' ->
    forall u, dilithium_keys (memory p') !! (#"__diag_" ++ uuid_to_string u) = None).
  { intros p' [Hi _] u. apply idle_same in Hi as (_ & _ & _ & -> & _). apply Hn. }
  apply succeeds_bind; [done|]. intros health p1 Hs1.
  assert (trees_kept p p1) as K1.
  { eapply frames_run, Hs1. unfold service_health_check, engine_health_check, os_random, in_memory.
    frame_run. apply idle_quantum_check. }
  apply succeeds_bind; [by eexists _, _|]. intros bytes p2 [= <- <-].
  apply succeeds_bind; [eapply succeeds_lift; by rewrite random_length|]. intros [] p3 [= _ <-].
  apply succeeds_bind; [apply succeeds_ret|]. intros [] p3 [= <-].
  apply succeeds_bind; [by eexists _, _|]. intros stats p3 [= _ <-]. unfold in_memory.
  apply succeeds_bind; [by apply succeeds_zoom, quantum_check_succeeds|]. intros [] p3 Hs3.
  apply succeeds_bind; [|intros; apply succeeds_ret]. apply succeeds_zoom, probe_succeeds, Hkept.
  transitivity p1; [done|]. transitivity (set_memory (advance (memory p1)) p1); [split; [by exists 1|done]|].
  eapply frames_run, Hs3. frame_run. apply idle_quantum_check.
Qed.

Lemma parent_unchanged path p p' : create_parent path p = (Ok tt, p') -> p' = p.
Proof. unfold create_parent. destruct (path_parent path); intros; by monad_inv. Qed.

Lemma tree_succeeds path tree p : tree_opens path tree = true -> succeeds (open_tree path tree) p.
Proof. intros Ht. apply succeeds_guard. by rewrite Ht. Qed.
Lemma tree_unchanged path tree p p' : open_tree path tree p = (Ok tt, p') -> p' = p.
Proof. unfold open_tree. intros. by monad_inv. Qed.

Lemma key_store_succeeds path p :
  (forall parent, path_parent path = Some parent -> mkdir_ok parent = true) ->
  sled_opens (open_dbs p) path = true ->
  (forall tree, tree ∈ [ #"kyber_keys"; #"dilithium_keys"; #"generic_keys"] -> tree_opens path tree = true) ->
  usable p (master_key_path #"sealed_keys.master" path) -> succeeds (key_store_open path) p.
Proof.
  intros Hd Hs Ht Hu. unfold key_store_open.
  apply succeeds_bind; [by apply parent_succeeds|]. intros [] p1 ->%parent_unchanged.
  apply succeeds_bind; [by apply sled_succeeds|]. intros db p2 (_ & -> & _)%sled_open_inv.
  do 3 (apply succeeds_bind; [apply tree_succeeds, Ht; set_solver|]; intros [] ? ->%tree_unchanged).
  apply succeeds_bind; [by apply load_key_succeeds|]. intros key p3 _. by eexists _, _.
Qed.

Lemma sealed_store_succeeds path p :
  (forall parent, path_parent path = Some parent -> mkdir_ok parent = true) ->
  sled_opens (open_dbs p) path = true -> tree_opens path #"sealed_envelopes" = true ->
  usable p (master_key_path #"sealed_envelopes.master" path) -> succeeds (sealed_store_open path) p.
Proof.
  intros Hd Hs Ht Hu. unfold sealed_store_open.
  apply succeeds_bind; [by apply parent_succeeds|]. intros [] p1 ->%parent_unchanged.
  apply succeeds_bind; [by apply sled_succeeds|]. intros db p2 (_ & -> & _)%sled_open_inv.
  apply succeeds_bind; [by apply tree_succeeds|]. intros [] ? ->%tree_unchanged.
  apply succeeds_bind; [by apply load_key_succeeds|]. intros key p3 _. by eexists _, _.
Qed.

Lemma master_key_succeeds p :
  hosted -> (forall path, env #"BROKER_MASTER_KEY_FILE" = Ok path ->
    exists key, file_at p path = Some key /\ length key = 32) -> succeeds (broker_master_key env) p.
Proof.
  intros Hh Hm. destruct (host_master Hh) as (path & He & Hr & Hst & Hc).
  destruct (Hm path He) as (key & Hk & Hl). unfold file_at in Hk.
  destruct (files p !! path) as [f|] eqn:Ef; [|done]. injection Hk as <-.
  unfold succeeds, broker_master_key, read_file, harden, look, bind, lift, ret. rewrite He. cbn [map_err].
  rewrite Ef. cbn [ok_or]. rewrite Hr. cbn [negb guard]. rewrite Hl. cbn [Nat.eqb negb guard].
  rewrite Ef. cbn [ok_or]. rewrite Hst, Hc. cbn [negb guard]. destruct (_ =? _)%Z; by eexists _, _.
Qed.

Lemma engine_succeeds p :
  hosted -> open_dbs p = {[broker_sled_path env]} -> usable p engine_key_file -> succeeds (service_new engine_config) p.
Proof.
  intros Hh Ho Hu. destruct (host_engine Hh) as [Hs Ht]. unfold service_new.
  apply succeeds_bind; [by eexists _, _|]. intros [] p1 [= <-].
  apply succeeds_bind; [by eexists _, _|]. intros mk p2 [= _ <-].
  apply succeeds_bind.
  { apply succeeds_bind; [by apply succeeds_guard|]. intros [] p3 [= <-].
    apply key_store_succeeds; [|by cbn; rewrite Ho|done|done].
    intros parent. apply (host_dirs Hh). set_solver. }
  intros sk p3 _. apply succeeds_bind; [apply succeeds_guard; by rewrite (host_monitor Hh)|]. intros [] p4 _.
  rewrite (host_hsm Hh). apply succeeds_bind; [apply succeeds_ret|]. intros; apply succeeds_ret.
Qed.

Lemma log_succeeds p :
  hosted -> (exists text l, file_at p (broker_log_path env) = Some text /\ logger_new (Some text) = Ok l) ->
  succeeds (transparency_open (broker_log_path env)) p.
Proof.
  intros Hh (text & l & Hf & Hl). unfold transparency_open.
  apply succeeds_bind; [apply parent_succeeds; intros parent; apply (host_dirs Hh); set_solver|].
  intros [] p1 ->%parent_unchanged. unfold file_at in Hf. unfold succeeds, look, bind, lift, update, ret.
  rewrite (host_log Hh). cbn [negb guard]. destruct (files p !! _) as [f|]; [|done]. injection Hf as Hf.
  cbn. destruct (read_ok _); cbn; [rewrite Hf, Hl|]; by eexists _, _.
Qed.

(** A machine that provides what the broker needs can start it. *)
Lemma start_succeeds attested p : hosted -> bootable p -> succeeds (load_broker_from_env env attested) p.
Proof.
  intros Hh [Bo Bm Bs Be Bl Bp]. destruct (host_store Hh) as (Hs & Ht & Hc). unfold load_broker_from_env.
  apply succeeds_bind; [by apply master_key_succeeds|]. intros master p1 (K1 & W1 & O1 & _)%master_key_inv.
  assert (Hd : forall parent, path_parent (broker_sled_path env) = Some parent -> mkdir_ok parent = true)
    by (intros parent; apply (host_dirs Hh); set_solver).
  apply succeeds_bind; [by apply parent_succeeds|]. intros [] ? ->%parent_unchanged.
  apply succeeds_bind; [apply sealed_store_succeeds; [done|by rewrite O1, Bo|done|by eapply usable_keeps]|].
  intros sc p3 (_ & O3 & _ & _ & D3 & K3 & _)%sealed_store_inv. rewrite O1, Bo in O3.
  apply succeeds_bind; [apply succeeds_guard; by rewrite Hc|]. intros [] ? [= _ <-].
  apply succeeds_bind.
  { apply log_succeeds; [done|]. destruct Bl as (text & l & Hf & Hl). exists text, l. split; [|done].
    by apply (keeps_files _ _ K3), (keeps_files _ _ K1). }
  intros l p5 (K5 & W5 & O5 & _)%transparency_inv.
  apply succeeds_bind; [by eapply succeeds_lift; rewrite (host_config Hh)|]. intros [] ? [= _ <-].
  apply succeeds_bind.
  { apply engine_succeeds; [done| |]; [rewrite O5, O3; set_solver|].
    eapply usable_keeps, Be. etransitivity; [exact K1|]. by etransitivity. }
  intros svc p7 (_ & _ & Hn & Hcfg & Hq & _ & _ & _ & _ & w & I7 & W7)%service_new_inv.
  apply succeeds_bind.
  { apply diagnostics_succeed; [done|by rewrite Hcfg|]. intros u. rewrite W7. cbn [dilithium_keys set_kyber_keys set_dilithium_keys].
    unfold database_at. rewrite (keeps_databases _ _ K5), D3, (keeps_databases _ _ K1). apply Bp. }
  intros [] p8 _. apply succeeds_bind; [|intros; apply succeeds_ret].
  unfold postgres_from_env, pg_config_from_env. unfold succeeds, look, bind, lift. rewrite (host_postgres Hh). by eexists _, _.
Qed.

End Starting.
