(* ===== verification/Restart.v ===== *)
(** The broker across restarts: what a process leaves on disk is what the next
    one starts with, so secrets outlive the process that stored them, and
    secrets that have ended do not come back. *)

From S2P Require Import Prelude RustStd Net Externals Reference Macaroon MacaroonWire Threshold.
From S2P Require Import Transparency World SealedStore Config CryptoEngine Broker Issue Unwrap.
From S2P Require Import Manage Lease Custody Evolution System Service Postgres Startup.

(** The key manager's key is new in every process. *)
Definition set_manager_key (key : option bytes) (state : BrokerState) : BrokerState :=
  mkBroker (crypto_config state) (crypto_store_key state) key (sealed_store state) (default_customer_id state)
    (max_handle_ttl state) (handle_hmac_key state) (redeem_token_ttl state)
    (require_attested_discharge_mint state) (allowed_discharge_principal_ids state).

(** While a process runs it writes to its trees and its log, which the disk
    gets with [stop], and to nothing else. *)
Definition same_disk (p q : Process) : Prop := databases q = databases p /\ files q = files p.

Section Restart.
Context `{TextCodecsLaws} `{HashesLaws} `{JsonText} `{AeadLaws} `{PqCryptoLaws} `{OracleLaws} `{P256} `{Urls} `{PlatformLaws}.
Context `{!Serde KyberKeyPair} `{!Serde DilithiumKeyPair} `{!Serde KeyRecord}.
Context `{!Serde StoredEnvelopeRecord} `{!Serde EncryptedRecord} `{!Serde SecretEnvelope}.
Context `{!Serde (list Share)}.
Context `{!SerdeLaws KyberKeyPair (fun _ => True)} `{!SerdeLaws KeyRecord (fun _ => True)}.
Context `{!SerdeLaws StoredEnvelopeRecord record_ok} `{!SerdeLaws EncryptedRecord (fun _ => True)}.
Variable env : environment.
Variable attested : bool.

Abbreviation start := (load_broker_from_env env attested).
Abbreviation started := (started env attested).

(** The log is no key file. *)
Record log_apart : Prop := {
  apart_master : env #"BROKER_MASTER_KEY_FILE" <> Ok (broker_log_path env);
  apart_store : master_key_path #"sealed_envelopes.master" (broker_sled_path env) <> broker_log_path env;
  apart_engine : master_key_path #"sealed_keys.master"
    (qc_sealed_store_path (quantum_crypto (from_env (env_ok env)))) <> broker_log_path env;
}.

(** ** What the disk has *)

Lemma stop_file r q path : path <> log_path r -> file_at (stop r q) path = file_at q path.
Proof.
  intros Hp. unfold file_at, stop. cbn [files]. destruct (files q !! log_path r), (logger (memory q)); try done.
  by rewrite lookup_insert_ne.
Qed.

Lemma stop_log r q f l :
  files q !! log_path r = Some f -> logger (memory q) = Some l -> file_at (stop r q) (log_path r) = Some (file l).
Proof. intros Hf Hl. unfold file_at, stop. cbn [files]. by rewrite Hf, Hl, lookup_insert_eq. Qed.

Lemma stop_store r q : db_envelopes (database_at (stop r q) (store_path r)) = envelopes (memory q).
Proof. unfold database_at, stop. cbn [databases]. by rewrite lookup_insert_eq. Qed.

Lemma stop_engine r q : store_path r <> engine_path r ->
  let db := database_at (stop r q) (engine_path r) in
  db_kyber db = kyber_keys (memory q) /\ db_dilithium db = dilithium_keys (memory q)
  /\ db_generic db = generic_keys q.
Proof. intros Hp. unfold database_at, stop. cbn [databases]. by rewrite lookup_insert_ne, lookup_insert_eq. Qed.

(** ** A restart *)

(** A running broker: it has started, and its disk is as it was then. *)
Definition running (r : Running) (q : Process) : Prop := exists p q0, started p r q0 /\ same_disk q0 q.

Record restarted (r : Running) (q : Process) (r' : Running) (q' : Process) : Prop := {
  restarted_running : running r' q';
  restarted_broker : exists key, broker r' = set_manager_key key (broker r);
  restarted_envelopes : envelopes (memory q') = envelopes (memory q);
  restarted_kyber : kyber_keys (memory q') = kyber_keys (memory q);
  restarted_dilithium : dilithium_keys (memory q') = dilithium_keys (memory q);
  restarted_generic : generic_keys q' = generic_keys q;
  restarted_tick : tick (memory q) <= tick (memory q');
}.

Lemma restart_recovers r q r' q' :
  log_apart -> running r q -> start (stop r q) = (Ok r', q') -> restarted r q r' q'.
Proof.
  intros [Am As Ae] (p & q0 & S & [_ Df]) S'%start_inv.
  assert (log_path r = broker_log_path env) as Hlog by apply S.
  destruct (stop_engine r q) as (Hy & Hd & Hg).
  { rewrite (started_store _ _ _ _ _ S), (started_engine _ _ _ _ _ S). apply S. }
  rewrite (started_engine _ _ _ _ _ S) in Hy, Hd, Hg.
  assert (keep : forall path c, path <> broker_log_path env -> file_at q0 path = Some c -> file_at q' path = Some c).
  { intros path c Hp Hc. apply (keeps_files _ _ (started_keeps _ _ _ _ _ S')).
    rewrite stop_file by congruence. unfold file_at in *. by rewrite Df. }
  split.
  - by exists (stop r q), q'.
  - destruct (started_keys _ _ _ _ _ S) as (path & m & sc & ek & mk & He & Hm & Hsc & Hek & _ & _ & _ & ->).
    destruct (started_keys _ _ _ _ _ S') as (path' & m' & sc' & ek' & mk' & He' & Hm' & Hsc' & Hek' & _ & _ & _ & ->).
    exists mk'. assert (path' = path) as -> by congruence.
    apply (keeps_files _ _ (started_keeps _ _ _ _ _ S)) in Hm.
    assert (path <> broker_log_path env) as Hpl by congruence.
    apply (keep _ _ Hpl) in Hm. apply (keep _ _ As) in Hsc. apply (keep _ _ Ae) in Hek.
    apply (keeps_files _ _ (started_keeps _ _ _ _ _ S')) in Hm'.
    assert (m' = m) as -> by congruence. assert (sc' = sc) as -> by congruence.
    assert (ek' = ek) as -> by congruence. done.
  - rewrite (started_envelopes _ _ _ _ _ S'), <- (started_store _ _ _ _ _ S). apply stop_store.
  - by rewrite (started_kyber _ _ _ _ _ S').
  - by rewrite (started_dilithium _ _ _ _ _ S').
  - by rewrite (started_generic _ _ _ _ _ S').
  - exact (started_tick _ _ _ _ _ S').
Qed.

(** The key files and the log can be read, and no key has a name of the
    start-up diagnostics. *)
Record restartable (q : Process) : Prop := {
  again_store : read_ok (master_key_path #"sealed_envelopes.master" (broker_sled_path env)) = true;
  again_engine : read_ok (master_key_path #"sealed_keys.master"
    (qc_sealed_store_path (quantum_crypto (from_env (env_ok env))))) = true;
  again_log : exists l l', logger (memory q) = Some l /\ logger_new (Some (file l)) = Ok l';
  again_probe u : dilithium_keys (memory q) !! (#"__diag_" ++ uuid_to_string u) = None;
}.

Lemma stop_bootable r q : log_apart -> running r q -> restartable q -> bootable env (stop r q).
Proof.
  intros [Am As Ae] (p & q0 & S & [_ Df]) [Rs Re (l & l' & Hl & Hl') Rp].
  assert (log_path r = broker_log_path env) as Hlog by apply S.
  assert (keep : forall path c, path <> broker_log_path env -> file_at q0 path = Some c -> file_at (stop r q) path = Some c).
  { intros path c Hp Hc. rewrite stop_file by congruence. unfold file_at in *. by rewrite Df. }
  destruct (started_keys _ _ _ _ _ S) as (path & m & sc & ek & mk & He & Hm & Hsc & Hek & Lm & Ls & Le & _).
  destruct (started_logger _ _ _ _ _ S) as (l0 & _ & Hf0 & _).
  split.
  - done.
  - intros path' He'. assert (path' = path) as -> by congruence. exists m. split; [|done].
    apply keep; [congruence|]. by apply (keeps_files _ _ (started_keeps _ _ _ _ _ S)).
  - split; [done|]. exists sc. split; [by apply keep|done].
  - split; [done|]. exists ek. split; [by apply keep|done].
  - exists (file l), l'. split; [|done]. rewrite <- Hlog. unfold file_at in Hf0. rewrite <- Df, <- Hlog in Hf0.
    destruct (files q !! log_path r) as [f|] eqn:Ef; [|done]. by eapply stop_log.
  - intros u. rewrite <- (started_engine _ _ _ _ _ S). destruct (stop_engine r q) as (_ & -> & _); [|apply Rp].
    rewrite (started_store _ _ _ _ _ S), (started_engine _ _ _ _ _ S). apply S.
Qed.

(** ** Lives *)

Section Lives.
Context (horizon : nat) `{!FreshUuids horizon}.
Variable random_scalars : nat -> nat -> scalar.

(** A step of the running process, or its end and a new start. *)
Inductive life : Running * Process -> Running * Process -> Prop :=
| life_step r q w : step random_scalars (broker r) (memory q) w -> life (r, q) (r, set_memory w q)
| life_restart r q r' q' : start (stop r q) = (Ok r', q') -> life (r, q) (r', q').

Abbreviation cipher_of r := (sealed_store (broker r)).

(** The evolution of the records depends on the key of the store only. *)
Lemma evolves_same_key s s' w w' :
  sealed_store s' = sealed_store s -> evolves horizon s w w' -> evolves horizon s' w w'.
Proof.
  assert (inv : forall s s' w, sealed_store s' = sealed_store s -> sys_inv s w -> sys_inv s' w)
    by (intros ? ? ? Hk [? ?]; split; [by rewrite Hk|done]).
  intros Hk [Ht Hev]. split; [done|]. intros Hh Hi. destruct Hev as [Hi' [K R]]; [done|by eapply inv|].
  split; [by eapply inv|]. split; [done|]. by rewrite Hk.
Qed.

Lemma life_evolves x y :
  log_apart -> rtc life x y -> running x.1 x.2 ->
  running y.1 y.2 /\ cipher_of y.1 = cipher_of x.1 /\ handle_hmac_key (broker y.1) = handle_hmac_key (broker x.1)
  /\ evolves horizon (broker x.1) (memory x.2) (memory y.2).
Proof.
  intros Hla. induction 1 as [x|x y z Hxy _ IH]; intros Hr; [done|].
  enough (running y.1 y.2 /\ cipher_of y.1 = cipher_of x.1
    /\ handle_hmac_key (broker y.1) = handle_hmac_key (broker x.1)
    /\ evolves horizon (broker x.1) (memory x.2) (memory y.2)) as (Hr1 & C1 & K1 & V1).
  { destruct (IH Hr1) as (Hr2 & C2 & K2 & V2). split; [done|]. split; [congruence|]. split; [congruence|].
    etransitivity; [exact V1|]. by eapply evolves_same_key. }
  destruct Hxy as [r q w Hs|r q r' q' Hs]; cbn [fst snd] in *.
  - split; [destruct Hr as (p & q0 & ? & ?); by exists p, q0|]. do 2 (split; [done|]).
    by eapply evolves_rtc, rtc_once.
  - destruct (restart_recovers r q r' q' Hla Hr Hs) as [Hr' [key ->] Ee Ek _ _ Et].
    do 3 (split; [done|]). apply engine_evolves. split; [done|]. split; [done|]. intros u. by rewrite Ek.
Qed.

(** C2: what has ended stays ended across restarts: a secret that was delivered
    and is no lease, or that was revoked, rotated or deleted, is never delivered
    again, by this process or any that is started after it. *)
Theorem ended_across_restarts p r0 q0 r q h w1 r2 q2 :
  log_apart -> start p = (Ok r0, q0) -> db_envelopes (database_at p (broker_sled_path env)) = ∅ ->
  rtc life (r0, q0) (r, q) -> ends random_scalars (broker r) h (memory q) w1 ->
  rtc life (r, set_memory w1 q) (r2, q2) -> tick (memory q2) <= horizon ->
  (forall ctx req m o w3, parse_handle_v2 (u_handle req) = Ok m -> identifier m = h ->
     unwrap_secret_v2 (broker r2) ctx req (memory q2) <> (Ok o, w3))
  /\ (forall ctx req o w3, parse_handle_identifier (broker r2) (cb_handle req) = Ok h -> tick w3 <= horizon ->
     combine_shares (broker r2) ctx req (memory q2) <> (Ok o, w3)).
Proof.
  intros Hla S%start_inv Hemp Hlife He Hlife2 Hh.
  destruct (life_evolves _ _ Hla Hlife) as (Hrun & C1 & _ & V1); [by exists p, q0|]. cbn [fst snd] in *.
  assert (step random_scalars (broker r) (memory q) w1) as Hstep by (by eapply ends_step).
  destruct (life_evolves _ _ Hla Hlife2) as (_ & C2 & _ & V2).
  { destruct Hrun as (p' & q' & ? & ?). by exists p', q'. }
  cbn [fst snd memory set_memory] in *.
  assert (evolves horizon (broker r) (memory q) w1) as V01 by (by eapply evolves_rtc, rtc_once).
  assert (tick w1 <= horizon) as Hh1 by (destruct V2; lia).
  assert (tick (memory q) <= horizon) as Hh0 by (destruct V01; lia).
  assert (sys_inv (broker r) (memory q)) as Hi.
  { eapply (evolves_same_key _ (broker r)) in V1; [|done]. apply V1; [done|].
    split; intros k v; rewrite (started_envelopes _ _ _ _ _ S), Hemp, lookup_empty; done. }
  destruct (ends_dead horizon random_scalars (broker r) h (memory q) w1 Hi Hh1 He) as [[rec Hrec] Hd].
  assert (exists t, t < tick (memory q) /\ uuid_at t = h) as (t & Ht & <-).
  { destruct (records_some _ _ _ _ (inv_store _ _ Hi) Hrec) as (v & Hv & _). by eapply (inv_issued _ _ Hi). }
  assert (sys_inv (broker r) w1) as Hi1 by (by apply V01).
  assert (t < tick w1) as Ht1 by (destruct V01; lia).
  pose proof (dead_evolves horizon (broker r) t w1 (memory q2) V2 Hi1 Hh Ht1 Hd) as Hd2.
  apply (dead_not_delivered horizon (broker r2) t); [|destruct V2; lia|].
  - assert (sys_inv (broker r) (memory q2)) as [? ?] by (by apply V2). split; [by rewrite C2|done].
  - intros rec2. rewrite C2. apply Hd2.
Qed.

End Lives.

(** ** Secrets *)

(** Unwrapping does not use the key manager's key. *)
Lemma unwrap_manager_key key state ctx payload w :
  unwrap_secret_v2 (set_manager_key key state) ctx payload w = unwrap_secret_v2 state ctx payload w.
Proof. reflexivity. Qed.

(** C3: leases and bootstrap secrets outlive the process that stored them: after
    wrapping a secret and stopping the broker it can be started again on the
    same machine and configuration, and then a caller that may access the
    secret, on any TLS session, and presents its handle, its token and what its
    caveats ask for, before any deadline, gets the wrapped bytes.  A single-use
    secret is bound to the TLS session it was wrapped in: the new process
    delivers it to no caller on another session, so that in effect it ends with
    the connections of the old one. *)
Theorem restart_keeps_secrets r q ctx request expires ttl principal :
  let state := broker r in
  let w := memory q in
  let created := time_at (tick w) in
  let input := wrap_input state request created expires principal in
  hosted env -> log_apart -> running r q ->
  store_inv (sealed_store state) w -> engine_ready state (i_customer_id input) 26 w ->
  metadata_ok (w_metadata request) ->
  enforce_ttl (w_ttl_seconds request) state created = Ok (expires, ttl) ->
  v2_unwrap_principal ctx (w_lifecycle request) (w_unwrap_principal_id request) = Ok principal ->
  rfc3339_range (created + redeem_token_ttl state) ->
  is_ok (initial_lease created (w_initial_lease_seconds request)) = true ->
  (forall e, expires = Some e -> rfc3339_range e) ->
  Forall (fun c => fits_u16 (encode c)) (wrap_caveats request expires) ->
  exists o w1 h rec, wrap_secret_v2 state ctx request w = (Ok o, w1)
    /\ wrapped state ctx input (wrap_caveats request expires) o h rec w w1
    /\ (restartable (set_memory w1 q) ->
        exists r' q', start (stop r (set_memory w1 q)) = (Ok r', q')
    /\ (w_lifecycle request <> SingleUseUnwrap -> forall ctx' payload,
          u_handle payload = wo_handle o -> u_redeem_token payload = wo_redeem_token o ->
          presents request payload -> may_access false rec ctx' ->
          live rec (time_at (tick (memory q') + 2)) -> live rec (time_at (tick (memory q') + 3)) ->
          exists w3, unwrap_secret_v2 (broker r') ctx' payload (memory q')
                     = (Ok (mkUnwrapOut (b64_encode (w_plaintext request))), w3))
    /\ (w_lifecycle request = SingleUseUnwrap -> forall ctx' payload m,
          parse_handle_v2 (u_handle payload) = Ok m -> identifier m = h -> exporter ctx' <> exporter ctx ->
          forall o' w3, unwrap_secret_v2 (broker r') ctx' payload (memory q') <> (Ok o', w3))).
Proof.
  intros state w created input Hh0 Hla Hrun Hi HR Hm Httl Hpr Hd Hl He Hfit.
  pose proof (wrap_ok state ctx request w expires ttl principal Hi HR Hm Httl Hpr Hd Hl) as HW.
  apply wp_eq in HW as (o & w1 & Hwrap & h & rec & HW). exists o, w1, h, rec. split; [done|].
  split; [done|]. intros Hag.
  assert (running r (set_memory w1 q)) as Hrun1 by (destruct Hrun as (p & q0 & ? & ?); by exists p, q0).
  destruct (start_succeeds env attested _ Hh0 (stop_bootable _ _ Hla Hrun1 Hag)) as (r' & q' & Hs).
  exists r', q'. split; [done|].
  destruct (restart_recovers _ _ _ _ Hla Hrun1 Hs) as [_ [key ->] Ee Ek _ _ _]. cbn in Ee, Ek.
  assert (records (sealed_store state) (memory q') = records (sealed_store state) w1) as Er
    by (by apply records_same).
  rewrite (wrapped_records _ _ _ _ _ _ _ _ _ HW) in Er.
  assert (store_inv (sealed_store state) (memory q')) as Hi' by (eapply store_inv_same; [exact Ee|apply HW]).
  split.
  - intros Hlc ctx' payload Hh Htok Hpres Hacc L1 L2.
    rewrite unwrap_manager_key. edestruct unwrap_wrapped as (w3 & Hu & _);
      [exact HW|apply HR|done..| |by exists w3].
    split; try done.
    exists (r_last_accessed rec). rewrite Er, lookup_insert_eq. by destruct rec.
  - intros Hlc ctx' payload m Hp <- Hx o' w3 E. rewrite unwrap_manager_key in E.
    destruct (wrapped_issued _ _ _ _ _ _ _ _ _ HW) as (nonce & HI & _).
    pose proof (issued_exporter _ _ _ _ _ HI) as Hex. cbn [input wrap_input i_lifecycle] in Hex. rewrite Hlc in Hex.
    pose proof (unwrap_session state ctx' payload m rec (memory q') o' w3 Hi' Hp
      ltac:(by rewrite Er, lookup_insert_eq) E _ Hex) as Hb.
    rewrite b64_roundtrip in Hb. injection Hb as Hb. by apply Hx.
Qed.

End Restart.

(** * The theorems on a concrete machine *)

Module RestartExamples.
Import Reference ToyWorld ToyStore CryptoExamples BrokerExamples Toy257 UnwrapExamples LeaseExamples.
Import SystemExamples ServiceExamples PostgresExamples.

(** Everything works, and a database can be opened once. *)
#[export] Instance toy_platform : Platform := {
  mkdir_ok _ := true;
  read_ok _ := true;
  write_ok _ := true;
  stat_ok _ := true;
  chmod_ok _ := true;
  default_mode := 0x1a4;
  sled_opens opened path := negb (bool_decide (path ∈ opened));
  tree_opens _ _ := true;
  monitor_starts := true;
  postgres_connects _ := true;
}.
#[export] Instance toy_platform_laws : PlatformLaws.
Proof. intros opened path Ho. cbn in Ho. by apply negb_true_iff, bool_decide_eq_false in Ho. Qed.

Definition env0 (key : str) : result VarError str :=
  if str_eqb key #"BROKER_MASTER_KEY_FILE" then Ok #"/etc/broker.key" else Err NotPresent.
Definition disk0 : Process :=
  mkProcess ∅ {[ #"/etc/broker.key" := mkFile (le_bytes 32 6) 0x1a4]} ∅ ∅ empty_world.

Abbreviation start0 := (load_broker_from_env env0 true).

Lemma apart0 : log_apart env0.
Proof. split; vm_compute; discriminate. Qed.

(** The first start; the default is not used. *)
Definition run0 : Running * Process :=
  match start0 disk0 with
  | (Ok r, q) => (r, q)
  | (_, q) => (mkRunning state0 None [] [] [], q)
  end.
Abbreviation broker0 := (broker run0.1).
Abbreviation process0 := (run0.2).

Lemma start0_runs : start0 disk0 = (Ok run0.1, run0.2).
Proof.
  assert (Hok : is_ok (start0 disk0).1 = true) by (vm_compute; reflexivity).
  unfold run0. destruct (start0 disk0) as [[r|e|] q]; [done|discriminate Hok..].
Qed.
Lemma running0 : running env0 true run0.1 run0.2.
Proof. exists disk0, run0.2. split; [apply start_inv, start0_runs|done]. Qed.

(** A module that is enabled keeps the same machine from starting. *)
Definition env_hsm (key : str) : result VarError str :=
  if str_eqb key #"CRYPTO_ENGINE_HSM_ENABLED" then Ok #"true" else env0 key.
Lemma hsm_never_starts_witness : forall r q, load_broker_from_env env_hsm true disk0 <> (Ok r, q).
Proof. intros r q. apply (hsm_never_starts env_hsm true disk0 r q). vm_compute. reflexivity. Defined.

(** A broker that has just started on an empty disk. *)
Record fresh (r : Running) (q : Process) : Prop := {
  fresh_config : crypto_config (broker r) = crypto_config state0;
  fresh_master : is_Some (crypto_master_key (broker r));
  fresh_max : max_handle_ttl (broker r) = hours (24 * 365);
  fresh_token : redeem_token_ttl (broker r) = hours 24;
  fresh_customer : default_customer_id (broker r) = #"default";
  fresh_tables : key_metadata (memory q) = ∅;
  fresh_store : envelopes (memory q) = ∅;
  fresh_tick : tick (memory q) = 20;
}.

Lemma fresh0 : fresh run0.1 run0.2.
Proof.
  pose proof (start_inv _ _ _ _ _ start0_runs) as S.
  destruct (started_keys _ _ _ _ _ S) as (? & ? & ? & ? & mk & _ & _ & _ & _ & _ & _ & _ & Hb).
  split; rewrite ?Hb; [vm_compute; reflexivity| |reflexivity|reflexivity|reflexivity|apply S| |vm_compute; reflexivity].
  - replace mk with (crypto_master_key broker0) by (by rewrite Hb).
    apply (bool_decide_unpack _). vm_compute. exact I.
  - by rewrite (started_envelopes _ _ _ _ _ S).
Qed.

Definition created0 : datetime := time_at 20.
Definition expires1 : option datetime := Some (created0 + 3600 * 10^9)%Z.

Lemma caveats1_fit : Forall (fun c => fits_u16 (encode c)) (wrap_caveats req0 expires1).
Proof. apply (bool_decide_unpack _). vm_compute. exact I. Qed.
Lemma expires1_ok e : expires1 = Some e -> rfc3339_range e.
Proof. intros [= <-]. by split. Qed.

Section Fresh.
Variables (r : Running) (q : Process).
Hypothesis Hf : fresh r q.

Abbreviation input1 := (wrap_input (broker r) req0 (time_at (tick (memory q))) expires1 principal0).

Lemma fresh_inv : store_inv (sealed_store (broker r)) (memory q).
Proof. intros h v. by rewrite (fresh_store _ _ Hf), lookup_empty. Qed.
Lemma fresh_ready : engine_ready (broker r) (i_customer_id input1) 26 (memory q).
Proof.
  cbn [wrap_input i_customer_id req0 w_customer_id normalized default]. rewrite (fresh_customer _ _ Hf).
  apply toy_ready; [apply Hf|apply Hf|apply Hf|]. rewrite (fresh_tick _ _ Hf). lia.
Qed.
Lemma fresh_ttl : enforce_ttl (w_ttl_seconds req0) (broker r) (time_at (tick (memory q))) = Ok (expires1, Some 3600%Z).
Proof. unfold enforce_ttl. rewrite (fresh_max _ _ Hf), (fresh_tick _ _ Hf). vm_compute. reflexivity. Qed.
Lemma fresh_deadline : rfc3339_range (time_at (tick (memory q)) + redeem_token_ttl (broker r)).
Proof. rewrite (fresh_token _ _ Hf), (fresh_tick _ _ Hf). by split. Qed.
Lemma fresh_lease : is_ok (initial_lease (time_at (tick (memory q))) (w_initial_lease_seconds req0)) = true.
Proof. reflexivity. Qed.

Lemma fresh_live o h rec w1 t :
  wrapped (broker r) alice input1 (wrap_caveats req0 expires1) o h rec (memory q) w1 -> t <= 300 ->
  live rec (time_at t).
Proof.
  intros HW Ht. apply (toy_live _ _ _ _ _ _ _ _ _ _ (fresh_config _ _ Hf) (fresh_token _ _ Hf) HW);
    cbn [wrap_input i_expires_at i_lifecycle i_created_at]; [by intros ? [=]| |lia|rewrite (fresh_tick _ _ Hf)];
    unfold time_at, toy_oracle; [|lia].
  unfold expires1, created0, time_at, toy_oracle. intros e [= <-]. lia.
Qed.

Lemma fresh_access o h rec w1 :
  wrapped (broker r) alice input1 (wrap_caveats req0 expires1) o h rec (memory q) w1 -> may_access false rec alice.
Proof.
  intros HW. destruct (wrapped_issued _ _ _ _ _ _ _ _ _ HW) as (nonce & HI & _).
  exact (issuer_may_unwrap (broker r) alice input1 nonce rec HI principal0_ok ltac:(discriminate)).
Qed.
Lemma fresh_presents o : presents req0 (payload_for o).
Proof. split; [|split; [|split]]; intros v Hv; try discriminate Hv. vm_compute in Hv. by injection Hv as <-. Qed.

(** [alice] stores a secret and redeems it. *)
Lemma session1 : exists o w1 w2 h rec,
  wrap_secret_v2 (broker r) alice req0 (memory q) = (Ok o, w1)
  /\ unwrap_secret_v2 (broker r) alice (payload_for o) w1 = (Ok (mkUnwrapOut (b64_encode #"hunter2")), w2)
  /\ parse_handle_v2 (wo_handle o) = Ok (mint (macaroon_root_key (broker r) h) h (wrap_caveats req0 expires1))
  /\ records (sealed_store (broker r)) w1 !! h = Some rec /\ r_lifecycle rec = SingleUseUnwrap.
Proof.
  destruct (proj1 (wp_eq _ _ _) (wrap_ok (broker r) alice req0 (memory q) expires1 (Some 3600%Z) principal0
    fresh_inv fresh_ready metadata0 fresh_ttl principal0_ok fresh_deadline fresh_lease)) as (o & w1 & Hw & h & rec & HW).
  destruct (wrapped_issued _ _ _ _ _ _ _ _ _ HW) as (nonce & HI & _).
  pose proof (wrapped_within _ _ _ _ _ _ _ _ _ HW) as [_ Htw]. rewrite (fresh_tick _ _ Hf) in Htw.
  assert (Hrec : records (sealed_store (broker r)) w1 !! h = Some rec)
    by (rewrite (wrapped_records _ _ _ _ _ _ _ _ _ HW); apply lookup_insert_eq).
  destruct (unwrap_wrapped (broker r) alice alice req0 (payload_for o) _ expires1 principal0 o h rec
    (memory q) w1 w1 HW (ready_quantum _ _ _ _ fresh_ready) expires1_ok caveats1_fit) as (w2 & Hu & _).
  { split; [apply HW| |done|done|done|apply fresh_presents|by eapply fresh_access|done| |].
    - exists (r_last_accessed rec). rewrite Hrec. by destruct rec.
    - apply (fresh_live o h rec w1 _ HW). lia.
    - apply (fresh_live o h rec w1 _ HW). lia. }
  exists o, w1, w2, h, rec. split; [exact Hw|]. split; [exact Hu|].
  split; [exact (parse_wrapped (broker r) alice input1 req0 expires1 o h rec _ w1 HW caveats1_fit)|].
  split; [exact Hrec|exact (issued_lifecycle _ _ _ _ _ HI)].
Qed.

(** What a restart after [w1] depends on, and its result. *)
Definition checks (w1 : World) : bool :=
  forallb (fun kv : bytes * bytes => negb (starts_with #"__diag_" kv.1)) (map_to_list (dilithium_keys w1))
  && match logger w1 with Some l => is_ok (logger_new (Some (file l))) | None => false end
  && match start0 (stop r (set_memory w1 q)) with
     | (Ok _, q') => (tick (memory q') <=? 200)%nat
     | _ => false
     end.

Lemma checked_restartable w1 : checks w1 = true -> restartable env0 (set_memory w1 q).
Proof.
  intros Hc. unfold checks in Hc. apply andb_prop in Hc as [[Hd Hl]%andb_prop _].
  split; cbn [memory set_memory]; [reflexivity|reflexivity| |].
  - destruct (logger w1) as [l|]; [|discriminate Hl].
    destruct (logger_new (Some (file l))) as [l'|e|] eqn:E; [by exists l, l'|discriminate Hl..].
  - intros u. destruct (dilithium_keys w1 !! _) as [v|] eqn:E; [|done]. exfalso.
    rewrite forallb_forall in Hd. specialize (Hd (#"__diag_" ++ uuid_to_string u, v)).
    cbn [fst] in Hd. unfold starts_with in Hd. rewrite strip_prefix_app in Hd.
    by specialize (Hd ltac:(by apply list_elem_of_In, elem_of_map_to_list)).
Qed.

Lemma checked_tick w1 r' q' : checks w1 = true -> start0 (stop r (set_memory w1 q)) = (Ok r', q') -> tick (memory q') <= 200.
Proof. intros [_ Hc]%andb_prop Hs. rewrite Hs in Hc. by apply Nat.leb_le. Qed.

End Fresh.

Lemma hosted0 : hosted env0.
Proof.
  split; try (by vm_compute); [|done..].
  exists #"/etc/broker.key". by repeat split.
Qed.

Lemma checks0 : checks run0.1 run0.2 (wrap_secret_v2 (broker run0.1) alice lease_req (memory run0.2)).2 = true.
Proof. vm_compute. reflexivity. Qed.

(** [alice] on another TLS session, after the restart. *)
Definition alice_again : BrokerClientContext :=
  from_tls_exporter (le_bytes 32 1077) None (Some #" spiffe://prod/alice ") (Some (le_bytes 32 9)) None.

Lemma again_new_session : exporter alice_again <> exporter alice.
Proof. vm_compute. discriminate. Qed.

(** Her lease. *)
Section FreshLease.
Variables (r : Running) (q : Process).
Hypothesis Hf : fresh r q.

Abbreviation lease_input1 := (wrap_input (broker r) lease_req (time_at (tick (memory q))) expires1 principal0).

Lemma fresh_lease_ok : is_ok (initial_lease (time_at (tick (memory q))) (w_initial_lease_seconds lease_req)) = true.
Proof. rewrite (fresh_tick _ _ Hf). vm_compute. reflexivity. Qed.

Lemma fresh_lease_live o h rec w1 t :
  wrapped (broker r) alice lease_input1 (wrap_caveats lease_req expires1) o h rec (memory q) w1 -> t <= 300 ->
  live rec (time_at t).
Proof.
  intros HW Ht. apply (toy_live _ _ _ _ _ _ _ _ _ _ (fresh_config _ _ Hf) (fresh_token _ _ Hf) HW);
    cbn [wrap_input i_expires_at i_lifecycle i_created_at i_initial_lease_seconds]; [| |lia|];
    rewrite ?(fresh_tick _ _ Hf).
  - intros e _. change (initial_lease _ _) with (Ok (E:=ServiceError.t) (Some (1700000620 * 10^9)%Z)).
    intros [= <-]. unfold time_at, toy_oracle. lia.
  - unfold expires1, created0, time_at, toy_oracle. intros e [= <-]. lia.
  - unfold time_at, toy_oracle. lia.
Qed.

Lemma fresh_lease_access o h rec w1 :
  wrapped (broker r) alice lease_input1 (wrap_caveats lease_req expires1) o h rec (memory q) w1 ->
  may_access false rec alice_again.
Proof.
  intros HW. destruct (wrapped_issued _ _ _ _ _ _ _ _ _ HW) as (nonce & HI & _).
  exact (issuer_may_unwrap (broker r) alice lease_input1 nonce rec HI lease_principal_ok ltac:(discriminate)).
Qed.

End FreshLease.

Lemma restart_keeps_secrets_witness : exists o w1 r' q' w3,
  wrap_secret_v2 (broker run0.1) alice lease_req (memory run0.2) = (Ok o, w1)
  /\ start0 (stop run0.1 (set_memory w1 run0.2)) = (Ok r', q')
  /\ exporter alice_again <> exporter alice
  /\ unwrap_secret_v2 (broker r') alice_again (payload_for o) (memory q')
     = (Ok (mkUnwrapOut (b64_encode #"hunter2")), w3).
Proof.
  pose proof running0 as Hrun. pose proof fresh0 as Hf. pose proof checks0 as Hck. revert Hrun Hf Hck.
  generalize (run0.1), (run0.2). intros r q Hrun Hf Hck.
  destruct (restart_keeps_secrets env0 true r q alice lease_req expires1 (Some 3600%Z) principal0 hosted0 apart0 Hrun
    (fresh_inv r q Hf) (fresh_ready r q Hf) metadata0 (fresh_ttl r q Hf) lease_principal_ok (fresh_deadline r q Hf)
    (fresh_lease_ok r q Hf) expires1_ok caveats1_fit) as (o & w1 & h & rec & Hw & HW & Hs).
  rewrite Hw in Hck. cbn [snd] in Hck.
  destruct (Hs (checked_restartable r q w1 Hck)) as (r' & q' & Hq & Hu & _).
  pose proof (checked_tick r q w1 r' q' Hck Hq) as Ht.
  destruct (Hu ltac:(discriminate) alice_again (payload_for o) eq_refl eq_refl (fresh_presents o)
    (fresh_lease_access r q o h rec w1 HW)) as [w3 Hu3].
  - apply (fresh_lease_live r q Hf o h rec w1 _ HW). lia.
  - apply (fresh_lease_live r q Hf o h rec w1 _ HW). lia.
  - exists o, w1, r', q', w3. exact (conj Hw (conj Hq (conj again_new_session Hu3))).
Defined.

Lemma ended_across_restarts_witness : exists o w1 w2, forall r2 q2 ctx o' w3,
  rtc (life env0 true scalars0) (run0.1, set_memory w2 (set_memory w1 run0.2)) (r2, q2) -> tick (memory q2) <= 1000 ->
  unwrap_secret_v2 (broker r2) ctx (payload_for o) (memory q2) <> (Ok o', w3).
Proof.
  pose proof start0_runs as Hstart. pose proof fresh0 as Hf. revert Hstart Hf.
  generalize (run0.1), (run0.2). intros r q Hstart Hf.
  destruct (session1 r q Hf) as (o & w1 & w2 & h & rec & Hw & Hu & Hp & Hr & Hl). exists o, w1, w2.
  intros r2 q2 ctx o' w3 Hlife Hh.
  refine (proj1 (ended_across_restarts env0 true 1000 scalars0 disk0 r q r (set_memory w1 q)
    h w2 r2 q2 apart0 Hstart _ _ _ Hlife Hh) ctx (payload_for o) _ o' w3 Hp _).
  - reflexivity.
  - apply rtc_once. apply (life_step env0 true scalars0 r q w1).
    pose proof (step_serve scalars0 (broker r) (EWrap alice req0) (memory q) metadata0) as Hs.
    cbn [serve] in Hs. rewrite Hw in Hs. exact Hs.
  - exact (ends_unwrap scalars0 (broker r) h w1 w2 alice (payload_for o) _ rec _ Hp eq_refl Hr
      ltac:(rewrite Hl; discriminate) Hu).
  - reflexivity.
Defined.

End RestartExamples.
