(* ===== verification/Standalone.v ===== *)
(** The standalone broker (standalone_broker.rs): its configuration, the caller
    context it derives from a TLS connection, the rule that only loopback
    listeners may do without attestation, and the listener that turns TCP
    connections into authenticated streams. *)

From S2P Require Import Prelude RustStd Net Externals Reference Transparency World Config CryptoEngine.
From S2P Require Import SealedStore Threshold Broker Postgres Tls Attestation Connection Startup Restart.

(** ** Identities *)

Definition SPIFFE_SCHEME : str := #"spiffe://".

(** The path starts with the slash that ended the trust domain. *)
Definition normalize_spiffe_id (uri : str) : option str :=
  match strip_prefix SPIFFE_SCHEME uri with
  | None => None
  | Some rest =>
    match split_once #"/" rest with
    | None => None
    | Some (trust_domain, path) =>
      if is_empty trust_domain then None
      else Some (SPIFFE_SCHEME ++ to_ascii_lowercase trust_domain ++ #"/" ++ path)
    end
  end.

Fixpoint first_spiffe (names : list GeneralName) : option str :=
  match names with
  | [] => None
  | UriName uri :: names =>
    match normalize_spiffe_id uri with Some id => Some id | None => first_spiffe names end
  | OtherName :: names => first_spiffe names
  end.

(** ** Configuration *)

Inductive StandaloneError :=
| BadBindAddr | BadFlagValue (key : str) | FlagUnreadable (key : str) | RelaxedAttestation
| PathUnset (key : str) | PathEmpty (key : str) | TlsFileUnreadable (path : str)
| BadCertPem | EmptyChain | BadKeyPem | NoKeyInPem | BadRootPem | NoRoots | RootRejected
| ClientVerifierFailed | IdentityRejected
| StartFailed (e : StartError) | BindFailed
| HandshakeFailed | NoExporter | NoPeerCertificate | BadPeerCertificate | NoSpiffePrincipal
| DigestFailed (e : AttestationError) | EvidenceMissing | AcceptFailed.

Definition DEFAULT_STANDALONE_BROKER_BIND_ADDR : str := #"127.0.0.1:50052".
Definition TLS_EXPORTER_LABEL : bytes := #"SECRET_BROKER_EXPORTER".
Definition TLS_EXPORTER_CONTEXT : bytes := #"secret-broker-attestation".

Definition enforce_standalone_peer_attestation_digest (digest : option bytes) (require_attestation : bool)
    : result StandaloneError (option bytes) :=
  let! _ := guard (require_attestation && match digest with None => true | Some _ => false end) EvidenceMissing in
  Ok digest.

Definition validate_attestation_scope (bind_addr : SocketAddr) (require_peer require_discharge : bool)
    : result StandaloneError unit :=
  guard (negb (is_loopback (sa_ip bind_addr)) && (negb require_peer || negb require_discharge)) RelaxedAttestation.

Record StandaloneTlsBundle := mkBundle {
  server_cert_path : str;
  server_key_path : str;
  ca_cert_path : str;
}.

(** [rustls::ServerConfig]; clients must present a certificate. *)
Record ServerTls := mkServerTls {
  srv_chain : list bytes;
  srv_key : PrivateKey;
  client_roots : list bytes;
  srv_alpn : list str;
}.

(** A finished handshake: the exporter by label and context, and the chain the
    client presented. *)
Record ServerConnection := mkConnection {
  export_keying_material : bytes -> bytes -> option bytes;
  peer_certificates : option (list bytes);
}.

Section Standalone.
Context `{TextCodecs} `{Hashes} `{JsonText} `{Aead} `{PqCrypto} `{Oracle} `{Urls} `{Platform}.
Context `{!Serde KyberKeyPair} `{!Serde DilithiumKeyPair} `{!Serde KeyRecord}.
Context `{X509} `{Dcap} `{!Serde (list TdxEventLog)} `{Rustls}.
Variable env : environment.

Definition standalone_broker_pccs_url : option str := trim_nonempty (env_ok env #"SECRET_BROKER_PCCS_URL").

(** A flag that is on where it is not set. *)
Definition required_flag (key : str) : result StandaloneError bool :=
  match env key with
  | Ok value => map_err (fun _ => BadFlagValue key) (env_flag_enabled (Some value) true)
  | Err NotPresent => Ok true
  | _ => Err (FlagUnreadable key)
  end.
Definition standalone_broker_require_attestation : result StandaloneError bool :=
  required_flag #"SECRET_BROKER_REQUIRE_ATTESTATION".
Definition discharge_attestation_required_from_env : result StandaloneError bool :=
  required_flag #"BROKER_REQUIRE_DISCHARGE_ATTESTATION".

(** The path is used as it is, without trimming. *)
Definition required_env_path (key : str) : result StandaloneError str :=
  let! value := map_err (fun _ => PathUnset key) (env key) in
  let! _ := guard (is_empty (trim value)) (PathEmpty key) in
  Ok value.
Definition tls_bundle_from_env : result StandaloneError StandaloneTlsBundle :=
  let! cert := required_env_path #"SECRET_BROKER_TLS_CERT" in
  let! key := required_env_path #"SECRET_BROKER_TLS_KEY" in
  let! ca := required_env_path #"SECRET_BROKER_TLS_CA_CERT" in
  Ok (mkBundle cert key ca).

Definition load_cert_chain_from_pem (pem : bytes) : result StandaloneError (list bytes) :=
  let! chain := ok_or (pem_certs pem) BadCertPem in
  let! _ := guard (is_empty chain) EmptyChain in
  Ok chain.

Fixpoint first_supported_key (items : list (option PemItem)) : result StandaloneError PrivateKey :=
  match items with
  | [] => Err NoKeyInPem
  | None :: _ => Err BadKeyPem
  | Some (Pkcs8Key key) :: _ => Ok (Pkcs8 key)
  | Some (Pkcs1Key key) :: _ => Ok (Pkcs1 key)
  | Some (Sec1Key key) :: _ => Ok (Sec1 key)
  | Some OtherItem :: items => first_supported_key items
  end.
Definition load_private_key_from_pem (pem : bytes) : result StandaloneError PrivateKey :=
  first_supported_key (pem_items pem).

Definition load_root_store_from_pem (pem : bytes) : result StandaloneError (list bytes) :=
  let! roots := ok_or (pem_certs pem) BadRootPem in
  let! _ := guard (is_empty roots) NoRoots in
  let! _ := for_each (fun cert => guard (negb (root_accepts cert)) RootRejected) roots in
  Ok roots.

Abbreviation S := (M Process StandaloneError).

Definition read_pem (path : str) : S bytes :=
  let* f := map_err_m (fun _ => TlsFileUnreadable path) (read_file path) in ret (contents f).

(** The default protocol versions exist for the default provider. *)
Definition load_server_tls_config_from_env : S ServerTls :=
  let* bundle := lift tls_bundle_from_env in
  let* cert_pem := read_pem (server_cert_path bundle) in
  let* key_pem := read_pem (server_key_path bundle) in
  let* ca_pem := read_pem (ca_cert_path bundle) in
  let* chain := lift (load_cert_chain_from_pem cert_pem) in
  let* key := lift (load_private_key_from_pem key_pem) in
  let* roots := lift (load_root_store_from_pem ca_pem) in
  let* _ := lift (guard (negb (client_verifier_builds roots)) ClientVerifierFailed) in
  let* _ := lift (guard (negb (server_auth_accepts chain key)) IdentityRejected) in
  ret (mkServerTls chain key roots [ #"h2"]).

(** ** The server *)

Record Server := mkServer {
  server_broker : Running;
  server_tls : ServerTls;
  server_addr : SocketAddr;
  server_require_attestation : bool;
}.

(** Whether the address can be bound *)
Variable binds : SocketAddr -> bool.

(** [run_from_env], up to serving *)
Definition run_from_env : S Server :=
  let* bind_addr := lift (ok_or (parse_socket_addr
    (default DEFAULT_STANDALONE_BROKER_BIND_ADDR (env_ok env #"SECRET_BROKER_BIND_ADDR"))) BadBindAddr) in
  let* require_peer := lift standalone_broker_require_attestation in
  let* require_discharge := lift discharge_attestation_required_from_env in
  let* _ := lift (validate_attestation_scope bind_addr require_peer require_discharge) in
  let* broker := map_err_m StartFailed (load_broker_from_env env require_discharge) in
  let* tls := load_server_tls_config_from_env in
  let* _ := lift (guard (negb (binds bind_addr)) BindFailed) in
  ret (mkServer broker tls bind_addr require_peer).

(** ** Connections *)

Variable get_collateral : str -> bytes -> option collateral.
Variable now : option Z.

Definition principal_id_from_peer_cert (cert : bytes) : result StandaloneError (option str) :=
  let! parsed := ok_or (x509_from_der cert) BadPeerCertificate in
  Ok (match subject_alternative_name parsed with Some names => first_spiffe names | None => None end).

Definition peer_cert_sha256_of (cert : bytes) : bytes := sha256 cert.

Definition attestation_digest_from_peer_cert (cert : bytes) (pccs_url : option str)
    : result StandaloneError (option bytes) :=
  map_err DigestFailed (attestation_digest_from_cert get_collateral now cert pccs_url).

Definition broker_context_from_tls_connection (conn : ServerConnection) (session : uuid) (require_attestation : bool)
    : result StandaloneError BrokerClientContext :=
  let! exporter := ok_or (export_keying_material conn TLS_EXPORTER_LABEL TLS_EXPORTER_CONTEXT) NoExporter in
  let! cert := ok_or (certs ← peer_certificates conn; head certs) NoPeerCertificate in
  let! principal := principal_id_from_peer_cert cert in
  let! principal := ok_or principal NoSpiffePrincipal in
  let! digest := attestation_digest_from_peer_cert cert standalone_broker_pccs_url in
  let! digest := enforce_standalone_peer_attestation_digest digest require_attestation in
  Ok (from_tls_exporter exporter (Some session) (Some principal) (Some (peer_cert_sha256_of cert)) digest).

(** ** The listener *)

Variable Socket : Type.
(** The handshake on a TCP connection *)
Variable accept : ServerTls -> Socket -> option ServerConnection.

Record BrokerTlsStream := mkStream { stream_conn : ServerConnection; stream_context : BrokerClientContext }.

(** [TcpListenerStream::poll_next] *)
Inductive Arrival := NewStream (s : Socket) | AcceptError | NoMore | NoneYet.
Inductive Poll (A : Type) := Ready (a : A) | Pending (woken : bool).

Record BrokerTlsIncoming := mkIncoming {
  acceptor : ServerTls;
  require_attestation : bool;
  pending : list Socket;
}.
Definition incoming_new (srv : Server) : BrokerTlsIncoming :=
  mkIncoming (server_tls srv) (server_require_attestation srv) [].

(** The future of a handshake *)
Definition handshake (i : BrokerTlsIncoming) (s : Socket) (session : uuid) : result StandaloneError BrokerTlsStream :=
  let! conn := ok_or (accept (acceptor i) s) HandshakeFailed in
  let! context := broker_context_from_tls_connection conn session (require_attestation i) in
  Ok (mkStream conn context).

Abbreviation item := (result StandaloneError BrokerTlsStream).

Definition set_pending (l : list Socket) (i : BrokerTlsIncoming) : BrokerTlsIncoming :=
  mkIncoming (acceptor i) (require_attestation i) l.

(** The handshake that has finished, by its place, and the session identifier
    it drew. *)
Definition finished_one (finished : option (nat * uuid)) (i : BrokerTlsIncoming) : option (nat * Socket * uuid) :=
  '(n, session) ← finished; s ← pending i !! n; Some (n, s, session).

(** [FuturesUnordered::poll_next] *)
Definition poll_pending (finished : option (nat * uuid)) (i : BrokerTlsIncoming)
    : Poll (option item) * BrokerTlsIncoming :=
  match finished_one finished i with
  | Some (n, s, session) => (Ready _ (Some (handshake i s session)), set_pending (base.delete n (pending i)) i)
  | None => (if is_empty (pending i) then Ready _ None else Pending _ false, i)
  end.

(** Handshakes that have finished at the first and at the second look, and the
    arrival in between.  When the listener has ended ([NoMore]), the code ends the
    stream, and its owner drops it with the handshakes that are pending; here
    they stay in the state.  A [TcpListenerStream] never ends. *)
Definition poll_next (first second : option (nat * uuid)) (arrival : Arrival) (i : BrokerTlsIncoming)
    : Poll (option item) * BrokerTlsIncoming :=
  match poll_pending first i with
  | (Ready _ (Some r), i') => (Ready _ (Some r), i')
  | _ =>
    match arrival with
    | NewStream s => (Pending _ true, set_pending (pending i ++ [s]) i)
    | AcceptError => (Ready _ (Some (Err AcceptFailed)), i)
    | NoMore =>
      match poll_pending second i with
      | (Ready _ r, i') => (Ready _ r, i')
      | _ => (Ready _ None, i)
      end
    | NoneYet => (Pending _ false, i)
    end
  end.

End Standalone.

(** * Properties *)

Section StandaloneLaws.
Context `{TextCodecsLaws} `{HashesLaws} `{JsonText} `{AeadLaws} `{PqCryptoLaws} `{OracleLaws} `{Urls} `{PlatformLaws}.
Context `{!Serde KyberKeyPair} `{!Serde DilithiumKeyPair} `{!Serde KeyRecord}.
Context `{X509} `{DcapLaws} `{!Serde (list TdxEventLog)} `{Rustls}.
Variable env : environment.
Variable binds : SocketAddr -> bool.
Variable get_collateral : str -> bytes -> option collateral.
Variable now : option Z.
Context {Socket : Type}.
Variable accept : ServerTls -> Socket -> option ServerConnection.

Abbreviation handshake := (handshake env get_collateral now Socket accept).
Abbreviation poll := (poll_next env get_collateral now Socket accept).
Abbreviation Incoming := (BrokerTlsIncoming Socket).

(** A handshake with [WebPkiClientVerifier] only finishes for a client whose
    chain it verifies. *)
Definition mutual : Prop := forall tls s conn, accept tls s = Some conn ->
  exists cert chain, peer_certificates conn = Some (cert :: chain)
    /\ webpki_verify_client (client_roots tls) (cert :: chain) = true.

(** ** Contexts *)

(** The caller of a connection: its context names the certificate it presented,
    the SPIFFE identity in it and the evidence it carries. *)
Record identified (cert : bytes) (attested : bool) (ctx : BrokerClientContext) : Prop := {
  id_transport : authenticated_transport ctx = true;
  id_session : is_Some (session_id ctx);
  id_peer : peer_cert_sha256 ctx = Some (sha256 cert);
  id_principal : exists parsed names id, x509_from_der cert = Some parsed
    /\ subject_alternative_name parsed = Some names /\ first_spiffe names = Some id
    /\ principal_id ctx = Some (trim id);
  id_digest : attestation_digest_from_cert get_collateral now cert (standalone_broker_pccs_url env)
    = Ok (attestation_digest ctx);
  id_attested : attested = true -> is_Some (attestation_digest ctx);
}.

(** *** SPIFFE identities in normal form *)

Lemma lower_no_slash s : slash ∉ s -> slash ∉ to_ascii_lowercase s.
Proof.
  intros Hs. unfold to_ascii_lowercase. rewrite list_elem_of_fmap. intros (b & Hb & Hin).
  assert (b = slash) as -> by (destruct b; by cbn in Hb). done.
Qed.
Lemma split_slash s a b : split_once #"/" s = Some (a, b) -> slash ∉ a.
Proof.
  revert a b. induction s as [|c s IH]; intros a b; [done|]. cbn [split_once]. change (#"/") with [slash].
  cbn [strip_prefix]. case_decide; [by intros [= <- _]; apply not_elem_of_nil|].
  change [slash] with (#"/"). destruct (split_once #"/" s) as [[a' b']|]; [|done].
  intros [= <- _]. apply not_elem_of_cons. split; [congruence|by eapply IH].
Qed.

(** An identity whose trust domain is in lower case *)
Definition spiffe_normal (id : str) : Prop := normalize_spiffe_id id = Some id.

Lemma normal_form td path :
  td <> [] -> slash ∉ td -> to_ascii_lowercase td = td -> spiffe_normal (SPIFFE_SCHEME ++ td ++ #"/" ++ path).
Proof.
  intros Hn Hs Hl. unfold spiffe_normal, normalize_spiffe_id. rewrite strip_prefix_app.
  change (#"/") with (slash :: []). rewrite split_once_first by done. rewrite Hl. by destruct td.
Qed.

Lemma trim_scheme x path : exists path',
  trim ((SPIFFE_SCHEME ++ x) ++ slash :: path) = (SPIFFE_SCHEME ++ x) ++ slash :: path'.
Proof.
  unfold trim. assert (trim_start ((SPIFFE_SCHEME ++ x) ++ slash :: path) = (SPIFFE_SCHEME ++ x) ++ slash :: path) as ->
    by (by apply (trim_start_graphic Byte.x73)). by apply trim_end_stops.
Qed.

(** Surrounding white space does not touch it. *)
Lemma normalize_trims uri id : normalize_spiffe_id uri = Some id -> spiffe_normal (trim id) /\ trim id <> [].
Proof.
  unfold normalize_spiffe_id. destruct (strip_prefix _ uri) as [rest|]; [|done].
  destruct (split_once #"/" rest) as [[td path]|] eqn:E; [|done]. apply split_slash in E.
  destruct (is_empty td) eqn:Et; [done|]. intros Hid%(inj Some). subst id.
  change (#"/" ++ path) with (slash :: path). rewrite app_assoc.
  destruct (trim_scheme (to_ascii_lowercase td) path) as [path' ->].
  split; [|done]. rewrite <- app_assoc. change (slash :: path') with (#"/" ++ path').
  apply normal_form; [by destruct td|by apply lower_no_slash|apply lower_idem].
Qed.
Lemma first_spiffe_trims names id : first_spiffe names = Some id -> spiffe_normal (trim id) /\ trim id <> [].
Proof.
  induction names as [|[uri|] names IH]; cbn; [done| |done].
  destruct (normalize_spiffe_id uri) eqn:E; [|done]. intros [= <-]. by eapply normalize_trims.
Qed.

Lemma context_identified conn session attested ctx :
  broker_context_from_tls_connection env get_collateral now conn session attested = Ok ctx ->
  exists cert chain, peer_certificates conn = Some (cert :: chain) /\ identified cert attested ctx.
Proof.
  unfold broker_context_from_tls_connection, principal_id_from_peer_cert, attestation_digest_from_peer_cert,
    enforce_standalone_peer_attestation_digest. intros Hc.
  apply rbind_ok in Hc as (ex & He & Hc). apply rbind_ok in Hc as (cert & Hp & Hc). apply ok_or_ok in Hp.
  destruct (peer_certificates conn) as [[|cert' chain]|] eqn:Ep; [done| |done]. injection Hp as ->.
  exists cert, chain. split; [done|]. monad_inv.
  destruct (subject_alternative_name _) as [names|] eqn:En; [|done].
  match goal with Hx : first_spiffe names = Some ?i |- _ => rename Hx into Hs; rename i into id end.
  destruct (first_spiffe_trims names id Hs) as [Hn Hne].
  split; cbn [from_tls_exporter authenticated_transport session_id peer_cert_sha256 principal_id attestation_digest];
    [done|by eexists| | |done|].
  - unfold peer_cert_sha256_of. destruct (sha256 cert) eqn:Es; [|done].
    pose proof (sha256_length cert) as Hlen. by rewrite Es in Hlen.
  - eexists _, names, id. do 3 (split; [done|]). cbn [trim_nonempty]. by destruct (trim id).
  - intros ->. bool_to_prop. match goal with |- is_Some ?d => destruct d; [by eexists|done] end.
Qed.

(** ** The server *)

Lemma run_inv p srv p' :
  run_from_env env binds p = (Ok srv, p') -> is_loopback (sa_ip (server_addr srv)) = false ->
  server_require_attestation srv = true
  /\ require_attested_discharge_mint (broker (server_broker srv)) = true.
Proof.
  unfold run_from_env, validate_attestation_scope. intros E Hl. monad_inv.
  cbn [server_addr server_require_attestation server_broker] in *.
  match goal with Hx : load_broker_from_env _ _ _ = _ |- _ => apply start_inv in Hx; rename Hx into Hs end.
  destruct (started_keys _ _ _ _ _ Hs) as (? & ? & ? & ? & ? & _ & _ & _ & _ & _ & _ & _ & ->).
  match goal with Hx : negb (is_loopback _) && _ = false |- _ => rewrite Hl in Hx; cbn in Hx end.
  bool_to_prop. done.
Qed.

(** ** The listener *)

(** The states the listener goes through, whatever is ready when it is polled. *)
Definition polled (i i' : Incoming) : Prop := exists first second arrival, i' = (poll first second arrival i).2.

Lemma poll_pending_same f (i : Incoming) :
  acceptor _ (poll_pending env get_collateral now Socket accept f i).2 = acceptor _ i
  /\ require_attestation _ (poll_pending env get_collateral now Socket accept f i).2 = require_attestation _ i.
Proof. unfold poll_pending. by destruct (finished_one _ f i) as [[[n s] u]|]. Qed.
Lemma poll_same f g a (i : Incoming) :
  acceptor _ (poll f g a i).2 = acceptor _ i /\ require_attestation _ (poll f g a i).2 = require_attestation _ i.
Proof.
  pose proof (poll_pending_same f i) as Hf. pose proof (poll_pending_same g i) as Hg. unfold poll_next.
  destruct (poll_pending _ _ _ _ _ f i) as [[[r|]|w] i1]; [done|..];
    (destruct a; try done; by destruct (poll_pending _ _ _ _ _ g i) as [[r'|w'] i2]).
Qed.
Lemma polled_same i i' : rtc polled i i' ->
  acceptor _ i' = acceptor _ i /\ require_attestation _ i' = require_attestation _ i.
Proof.
  induction 1 as [|x y z (f & g & a & ->) _ [IH1 IH2]]; [done|]. destruct (poll_same f g a x). split; congruence.
Qed.

(** What a poll returns is the result of a handshake that was pending. *)
Lemma poll_yields f g a (i : Incoming) r :
  (poll f g a i).1 = Ready _ (Some (Ok r)) -> exists s session, s ∈ pending _ i /\ handshake i s session = Ok r.
Proof.
  assert (one : forall f, (poll_pending env get_collateral now Socket accept f i).1 = Ready _ (Some (Ok r)) ->
    exists s session, s ∈ pending _ i /\ handshake i s session = Ok r).
  { intros h. unfold poll_pending, finished_one. destruct h as [[n u]|]; cbn; [|by destruct (is_empty _)].
    destruct (pending _ i !! n) as [s|] eqn:Es; cbn; [|by destruct (is_empty _)].
    intros [= Hr]. exists s, u. split; [by eapply list_elem_of_lookup_2|done]. }
  pose proof (one f) as Hf. pose proof (one g) as Hg. unfold poll_next.
  destruct (poll_pending _ _ _ _ _ f i) as [[[x|]|w] i1]; [exact Hf|..];
    (destruct a; try done; destruct (poll_pending _ _ _ _ _ g i) as [[y|w'] i2]; [exact Hg|done]).
Qed.

(** C8: every stream the standalone broker hands to its handlers comes from a
    client whose certificate chain was verified, and its context carries that
    certificate's fingerprint, its SPIFFE identity and a session; and unless
    the broker listens on a loopback address every caller has a verified
    attestation digest and minting discharges requires one. *)
Theorem callers_authenticated p srv p' i first second arrival stream :
  mutual -> run_from_env env binds p = (Ok srv, p') ->
  rtc polled (incoming_new Socket srv) i ->
  (poll first second arrival i).1 = Ready _ (Some (Ok stream)) ->
  exists cert chain, webpki_verify_client (client_roots (server_tls srv)) (cert :: chain) = true
    /\ peer_certificates (stream_conn stream) = Some (cert :: chain)
    /\ identified cert (server_require_attestation srv) (stream_context stream)
    /\ (exists principal, normalized_context_principal (stream_context stream) = Some principal
          /\ spiffe_normal principal)
    /\ (is_loopback (sa_ip (server_addr srv)) = false ->
          is_Some (attestation_digest (stream_context stream))
          /\ require_attested_discharge_mint (broker (server_broker srv)) = true).
Proof.
  intros Hmut Hrun Hpoll (s & session & _ & Hh)%poll_yields. destruct (polled_same _ _ Hpoll) as [Ha Hq].
  cbn [incoming_new acceptor require_attestation] in Ha, Hq. unfold Standalone.handshake in Hh. rewrite Ha, Hq in Hh.
  apply rbind_ok in Hh as (conn & Hc & Hh). apply ok_or_ok in Hc.
  apply rbind_ok in Hh as (ctx & Hx & Hh). injection Hh as <-. cbn [stream_conn stream_context].
  destruct (context_identified _ _ _ _ Hx) as (cert & chain & Hp & Hid).
  destruct (Hmut _ _ _ Hc) as (cert' & chain' & Hp' & Hv). rewrite Hp in Hp'. injection Hp' as <- <-.
  exists cert, chain. do 3 (split; [done|]). split.
  - destruct (id_principal _ _ _ Hid) as (parsed & names & id & _ & _ & Hs & Hpr).
    destruct (first_spiffe_trims names id Hs) as [Hn Hne]. exists (trim id). split; [|done].
    unfold normalized_context_principal. rewrite Hpr. cbn [trim_nonempty]. rewrite trim_idem. by destruct (trim id).
  - intros Hl. destruct (run_inv _ _ _ Hrun Hl) as [Hreq Hdis]. split; [|done]. by apply (id_attested _ _ _ Hid).
Qed.

(** *** Discharges

    The handlers compare the location of a discharge with the caller's identity
    as it is written, and the identity has its trust domain in lower case. *)

(** A caveat whose location names a SPIFFE identity in mixed case can be
    discharged by nobody. *)
Theorem mixed_case_location_undischargeable state cert attested ctx location l :
  identified cert attested ctx -> normalize_spiffe_principal location = Some l -> normalize_spiffe_id l <> Some l ->
  validate_discharge_mint_requirements state ctx location <> Ok tt.
Proof.
  intros Hid Hl Hn (_ & _ & _ & principal & Hp & Hloc & _)%discharge_policy.
  destruct (id_principal _ _ _ Hid) as (parsed & names & id & _ & _ & Hs & Hpr).
  destruct (first_spiffe_trims names id Hs) as [Hnorm Hne].
  rewrite Hpr in Hp. cbn [trim_nonempty] in Hp. rewrite trim_idem in Hp. apply Hn.
  unfold normalize_spiffe_principal in Hl. destruct (is_empty _ || _) eqn:E; [done|]. injection Hl as <-.
  apply orb_false_iff in E as [_ E%negb_false_iff]. rewrite <- (Hloc E).
  destruct (trim id); [done|]. by injection Hp as <-.
Qed.

(** *** No connection is lost *)

Record PollInput := mkPoll {
  in_first : option (nat * uuid);
  in_second : option (nat * uuid);
  in_arrival : Arrival Socket;
}.
Abbreviation poll_on x i := (poll (in_first x) (in_second x) (in_arrival x) i).

(** The connection a poll takes in, and the one it answers. *)
Definition taken (x : PollInput) (i : Incoming) : list Socket :=
  match (poll_on x i).1, in_arrival x with
  | Pending _ true, NewStream _ s => [s]
  | _, _ => []
  end.
Definition result_of (out : Poll (option (result StandaloneError BrokerTlsStream)))
    : list (result StandaloneError BrokerTlsStream) :=
  match out with
  | Ready _ (Some (Err AcceptFailed)) => []
  | Ready _ (Some r) => [r]
  | _ => []
  end.

(** Polls one after the other: what they took in and what they returned. *)
Fixpoint listen (xs : list PollInput) (i : Incoming)
    : list Socket * list (result StandaloneError BrokerTlsStream) * Incoming :=
  match xs with
  | [] => ([], [], i)
  | x :: xs =>
    let '(ins, outs, i') := listen xs (poll_on x i).2 in
    (taken x i ++ ins, result_of (poll_on x i).1 ++ outs, i')
  end.

Lemma handshake_error (i : Incoming) s session : handshake i s session <> Err AcceptFailed.
Proof.
  unfold Standalone.handshake, broker_context_from_tls_connection, principal_id_from_peer_cert,
    attestation_digest_from_peer_cert, enforce_standalone_peer_attestation_digest, rbind, ok_or, guard, map_err.
  by repeat (case_match; simplify_eq/=).
Qed.
Lemma handshake_result (i : Incoming) s session :
  result_of (Ready _ (Some (handshake i s session))) = [handshake i s session].
Proof.
  pose proof (handshake_error i s session) as He. unfold result_of.
  destruct (handshake i s session) as [r|e|]; [done| |done]. by destruct e.
Qed.

(** The results of handshakes on a list of connections *)
Definition handshakes (i : Incoming) (ss : list Socket) (rs : list (result StandaloneError BrokerTlsStream)) : Prop :=
  Forall2 (fun s r => exists session, r = handshake i s session) ss rs.

Lemma poll_pending_conserves f (i : Incoming) : let p := poll_pending env get_collateral now Socket accept f i in
  (exists s, handshakes i [s] (result_of p.1) /\ pending _ i ≡ₚ s :: pending _ p.2
     /\ exists r, p.1 = Ready _ (Some r))
  \/ (result_of p.1 = [] /\ p.2 = i /\ (p.1 = Ready _ None \/ p.1 = Pending _ false)).
Proof.
  unfold poll_pending. destruct (finished_one _ f i) as [[[n s] u]|] eqn:E; cbn [fst snd].
  - left. exists s. rewrite handshake_result. split; [repeat constructor; by exists u|]. split; [|by eexists].
    unfold finished_one in E. destruct f as [[n' u']|]; [|done]. cbn in E.
    destruct (pending _ i !! n') eqn:Es; [|done]. injection E as -> -> ->. by apply delete_Permutation.
  - right. destruct (is_empty (pending _ i)); auto.
Qed.

(** A poll that finds no finished handshake at first *)
Lemma poll_rest x (i : Incoming) :
  let p := match in_arrival x with
           | NewStream _ s => (Pending _ true, set_pending _ (pending _ i ++ [s]) i)
           | AcceptError _ => (Ready _ (Some (Err AcceptFailed)), i)
           | NoMore _ => match poll_pending env get_collateral now Socket accept (in_second x) i with
                         | (Ready _ r, i') => (Ready _ r, i')
                         | _ => (Ready _ None, i)
                         end
           | NoneYet _ => (Pending _ false, i)
           end in
  exists ss, handshakes i ss (result_of p.1)
    /\ pending _ i ++ match p.1, in_arrival x with Pending _ true, NewStream _ s => [s] | _, _ => [] end
       ≡ₚ ss ++ pending _ p.2.
Proof.
  pose proof (poll_pending_conserves (in_second x) i) as Hg. destruct (in_arrival x) as [s| | |]; cbn [fst snd].
  - exists []. split; [constructor|done].
  - exists []. split; [constructor|by rewrite app_nil_r].
  - destruct (poll_pending _ _ _ _ _ (in_second x) i) as [o2 i2]. cbn [fst snd] in Hg.
    destruct Hg as [(s & Hs & Hp & r & ->)|(Ho & -> & [-> | ->])]; cbn [fst snd].
    + exists [s]. by rewrite app_nil_r.
    + exists []. split; [constructor|by rewrite app_nil_r].
    + exists []. split; [constructor|by rewrite app_nil_r].
  - exists []. split; [constructor|by rewrite app_nil_r].
Qed.

Lemma poll_conserves x (i : Incoming) : exists ss,
  handshakes i ss (result_of (poll_on x i).1) /\ pending _ i ++ taken x i ≡ₚ ss ++ pending _ (poll_on x i).2.
Proof.
  pose proof (poll_pending_conserves (in_first x) i) as Hf. unfold taken, poll_next. destruct (poll_pending _ _ _ _ _ (in_first x) i) as [o1 i1]. cbn [fst snd] in Hf.
  destruct Hf as [(s & Hs & Hp & r & ->)|(Ho & -> & [-> | ->])].
  - exists [s]. cbn [fst snd]. rewrite app_nil_r. done.
  - by apply poll_rest.
  - by apply poll_rest.
Qed.

Lemma handshakes_same i i' ss rs :
  acceptor _ i' = acceptor _ i -> require_attestation _ i' = require_attestation _ i ->
  handshakes i' ss rs -> handshakes i ss rs.
Proof.
  intros Ha Hr Hh. unfold handshakes in *. eapply Forall2_impl; [exact Hh|]. intros s r [session ->]. exists session.
  unfold Standalone.handshake. by rewrite Ha, Hr.
Qed.

(** C31: the listener neither loses a connection nor answers one twice: of the
    connections it has taken in, each has either been answered, with the
    outcome of its own handshake, or is still pending. *)
Theorem listener_conserves srv xs :
  let '(ins, outs, i) := listen xs (incoming_new Socket srv) in
  exists answered, handshakes (incoming_new Socket srv) answered outs /\ ins ≡ₚ answered ++ pending _ i.
Proof.
  enough (Hgen : forall i0, let '(ins, outs, i) := listen xs i0 in
    exists answered, handshakes i0 answered outs /\ pending _ i0 ++ ins ≡ₚ answered ++ pending _ i)
    by exact (Hgen (incoming_new Socket srv)).
  induction xs as [|x xs IH]; intros i0; cbn [listen].
  - exists []. split; [constructor|]. by rewrite app_nil_r.
  - specialize (IH (poll_on x i0).2). destruct (listen xs _) as [[ins outs] i]. destruct IH as (ans & Hans & Hp).
    destruct (poll_conserves x i0) as (ss & Hss & Hp1).
    destruct (poll_same (in_first x) (in_second x) (in_arrival x) i0) as [Ha Hr].
    exists (ss ++ ans). split; [apply Forall2_app; [done|by eapply handshakes_same]|].
    rewrite app_assoc, Hp1, <- !app_assoc. by apply Permutation_app_head.
Qed.

End StandaloneLaws.

Module StandaloneExamples.
Import Reference ToyWorld ToyStore CryptoExamples PostgresExamples ToyAttestation ConnectionExamples RestartExamples.

Definition env1 (key : str) : result VarError str :=
  if str_eqb key #"SECRET_BROKER_BIND_ADDR" then Ok #"0.0.0.0:50052"
  else if str_eqb key #"SECRET_BROKER_TLS_CERT" then Ok #"/etc/cert.pem"
  else if str_eqb key #"SECRET_BROKER_TLS_KEY" then Ok #"/etc/key.pem"
  else if str_eqb key #"SECRET_BROKER_TLS_CA_CERT" then Ok #"/etc/ca.pem"
  else if str_eqb key #"SECRET_BROKER_PCCS_URL" then Ok #"https://pccs"
  else env0 key.
Definition disk1 : Process := mkProcess ∅
  (<[ #"/etc/cert.pem" := mkFile #"server" 0x1a4]> (<[ #"/etc/key.pem" := mkFile #"sk" 0x1a4]>
    (<[ #"/etc/ca.pem" := mkFile #"ca" 0x1a4]> {[ #"/etc/broker.key" := mkFile (le_bytes 32 6) 0x1a4]})))
  ∅ ∅ empty_world.
Definition binds1 (_ : SocketAddr) : bool := true.

(** A socket is the certificate its client presents. *)
Definition accept1 (tls : ServerTls) (cert : bytes) : option ServerConnection :=
  if webpki_verify_client (client_roots tls) [cert]
  then Some (mkConnection (fun label context => Some (label ++ context)) (Some [cert])) else None.
Lemma accept1_mutual : mutual accept1.
Proof.
  intros tls s conn. unfold accept1. destruct (webpki_verify_client _ _) eqn:E; [|done]. intros [= <-].
  by exists s, [].
Qed.

Abbreviation run1 := (run_from_env env1 binds1 disk1).
Abbreviation poll1 := (poll_next env1 pccs (Some 1%Z) bytes accept1).

(** A caller connects and its handshake finishes. *)
Definition first_connection (cert : bytes) (srv : Server) : option (result StandaloneError BrokerTlsStream) :=
  match (poll1 (Some (0, le_bytes 16 7)) None (NoneYet _)
           (poll1 None None (NewStream _ cert) (incoming_new _ srv)).2).1 with
  | Ready _ r => r
  | _ => None
  end.
Abbreviation came_from cert stream := (peer_certificates (stream_conn stream) = Some [cert]).

(** One without evidence is turned away. *)
Example unattested_refused :
  match run1 with (Ok srv, _) => first_connection #"unattested" srv = Some (Err EvidenceMissing) | _ => False end.
Proof. vm_compute. reflexivity. Qed.

Lemma callers_authenticated_witness : exists srv p' stream,
  run1 = (Ok srv, p') /\ first_connection #"workload" srv = Some (Ok stream)
  /\ identified env1 pccs (Some 1%Z) #"workload" true (stream_context stream)
  /\ (exists principal, normalized_context_principal (stream_context stream) = Some principal
        /\ spiffe_normal principal)
  /\ is_Some (attestation_digest (stream_context stream))
  /\ require_attested_discharge_mint (broker (server_broker srv)) = true.
Proof.
  assert (Hr : match run1 with
               | (Ok srv, _) => server_require_attestation srv = true
                 /\ is_loopback (sa_ip (server_addr srv)) = false
                 /\ exists stream, first_connection #"workload" srv = Some (Ok stream) /\ came_from #"workload" stream
               | _ => False
               end) by (vm_compute; do 2 (split; [reflexivity|]); eexists; split; reflexivity).
  destruct run1 as [[srv|e|] p'] eqn:E; [|destruct Hr..]. destruct Hr as (Hreq & Hl & stream & Hc & Hfrom).
  exists srv, p', stream. split; [reflexivity|]. split; [exact Hc|]. unfold first_connection in Hc.
  destruct (poll1 (Some _) _ _ _).1 as [r|w] eqn:Ep; [subst r|discriminate Hc].
  destruct (callers_authenticated env1 binds1 pccs (Some 1%Z) accept1 disk1 srv p'
    (poll1 None None (NewStream _ #"workload") (incoming_new _ srv)).2 (Some (0, le_bytes 16 7)) None (NoneYet _) stream
    accept1_mutual E) as (cert & chain & _ & Hp & Hid & Hpr & Hatt).
  - apply rtc_once. by exists None, None, (NewStream _ #"workload").
  - exact Ep.
  - rewrite Hfrom in Hp. injection Hp as <- <-. rewrite Hreq in Hid. exact (conj Hid (conj Hpr (Hatt Hl))).
Defined.

End StandaloneExamples.
